(* ===== verification/_CoqProject ===== *)
-Q . S2P
Prelude.v
HashTable.v
Unix.v
BufferManager.v
FileHandle.v
Varint.v
RingBuffer.v
Raft.v
LockManager.v
RaftCodec.v
Comparator.v
Conn.v
Channel.v
Dispatcher.v
Memory.v
Rid.v
IndexFormat.v
Row.v
TableFormat.v
Storage.v
IndexHandle.v
IndexManager.v
TableManager.v
TableHandle.v
TreeNodes.v
BPlusTree.v
IndexIterator.v
Rpc.v
Sql.v
TxnManager.v
Alphadb.v
ThreadPool.v
Kqueue.v
Server.v
RaftState.v
Printing.v
RpcService.v
Reactor.v
Lifetimes.v
MainProgram.v
Durability.v
Cluster.v
