(* ===== verification/Prelude.v ===== *)
(** * A verification of alphadb

    alphadb is a database server in C++.  This development models its storage layer,
    its tables and B+ tree indexes, its SQL statements and front end, its network
    layer and its consensus and locking code as Rocq functions, and proves what makes
    them correct, or what goes wrong.

    ** The program and the files that model it

    Storage (src/io).  An [io_manager] opens paged files; a [file_handle] keeps
    the free list and the page count of one file and gets its pages from the
    [buffer_manager], a pool of slots with least-recently-used replacement, which
    finds cached pages with a chained [hash_table] and reads and writes them
    through lseek, read and write.
    - HashTable.v: hash_table.{h,cc} at pointer level (a heap of entries, the
      bucket array, dangling and null accesses as undefined behaviour).
    - Unix.v: the system calls as a class [Unix] with laws [UnixLaws] and
      [UnixNameLaws] (documented behaviour) and an in-memory instance [MemFs].
    - BufferManager.v: buffer_manager.{h,cc} over both.
    - FileHandle.v: file_handle, page_handle and io_manager.
    - Storage.v: how the layers above use them: a file made, opened and closed with
      one page of data, and the invariant [io_ok] of the buffer manager with its
      open files.
    - Durability.v: closing a file and opening it again.

    Page formats and values (src/table, src/index/b+tree, src/io/iterator).
    - Comparator.v: schema.h types, comparator::compare, the scan criteria.
    - Memory.v: bounds-checked access to a byte buffer, used by the formats.
    - Rid.v, IndexFormat.v, TableFormat.v, Row.v: record ids, the pages of the
      B+ tree, the slotted pages of tables, the encoding of rows.

    Tables and indexes (src/table, src/index/b+tree), over storage and formats.
    - TableManager.v: schema, table_manager (files and the stored schema).
      TableHandle.v: record, table_handle, table_iterator.
    - IndexHandle.v, IndexManager.v: index_handle and index_manager.
      TreeNodes.v: node, leaf_node and internal_node as objects in a store, over a
      class [IndexPages] for the pages of an index.  BPlusTree.v: b_plus_tree.
      IndexIterator.v: index_iterator.
    - TxnManager.v: the handle caches of src/transaction/txn_manager.cc.
    - Lifetimes.v: the destructors of record, schema, buffer_manager, io_manager, alphadb
      and buffer, over arrays that remember how they were allocated.

    SQL and the front end (src/sql, src/db).
    - Sql.v: statements, expressions and parser results over a heap that records the
      allocator of each block, with a small separation logic for ownership; the
      generated scanner and parser are parameters.
    - Alphadb.v: alphadb.{h,cc}, over the managers, the statements and a class
      [Shell] for directories with laws [ShellLaws].

    Network (src/network).
    - Varint.v: coding.{h,cc}.  RingBuffer.v: buffer.{h,cc}.
    - Conn.v: conn.{h,cc}, sending and receiving over the ring buffer.
    - Server.v: server.{h,cc}, net.h and the constructors and close of conn.
    - Channel.v: channel.{h,cc} and the epoll poller, over a class [Epoll] for the
      kernel with laws [EpollLaws]; Kqueue.v: the kqueue poller, over [Kqueue] and
      [KqueueLaws]; each with an in-memory instance.
    - Dispatcher.v: dispatcher.{h,cc}; a worker takes a task, runs the part of repeat
      before its callback, and calls back, in separate steps.
      ThreadPool.v: thread_pool.{h,cc}, workers, callers and destructor interleaved; which
      tasks return is a parameter.
    - Reactor.v: constructors and destructors of the pollers, through one class
      [PollerChannels] with laws [PollerChannelsLaws] that both implement, and the
      wake-up pipe and destructor of the dispatcher (its constructor on Linux and on macOS).
    - Rpc.v: rpc/rpc_conn.{h,cc} and codec::marshal, the client side; a call sends its
      request and puts its continuation into the map in two steps.  RpcService.v:
      rpc/rpc.{h,cc}, rpc/rpc_server.{h,cc} and codec::unmarshal, the server side, with
      the constructor, shutdown and destructor of raft_server on top.

    Consensus and transactions (src/consensus/raft, src/transaction).
    - Raft.v: raft_server.{h,cc}, one server as a state machine of its handlers.
      RaftState.v: its state file, start and shutdown.
      Cluster.v: several servers with their timers and outstanding calls, over a network
      that delays, reorders and loses messages; what the codec makes of a message is a
      parameter ([transport]), so the theorems hold for every encoding.  Starting a server
      reads its state file ([raft_start]).  The constructor of a raft server hangs in
      rpc::hash (RpcService.raft_never_constructed), so Raft.v and Cluster.v are about
      servers as they are behind it.  A server that waits for its own mutex or runs
      into undefined behaviour takes no further step.
    - RaftCodec.v: rpc_args.cc, log.cc, rpc/codec.cc and rpc::hash.
    - LockManager.v: lock_manager and lock_table; the life of one entry as a step
      relation over the critical sections of the threads, the unlocked test of unlock and
      the removal; the table and its destructor at pointer level.

    The program and its texts.
    - MainProgram.v: main.cc, over all of the above: the mode, the set-up of the server,
      the callbacks of server and client, the child process of the client.
    - Printing.v: every operator<< (rid, file_handle, hash_table, buffer_manager,
      io_manager, buffer, raft_server, the tree nodes), the what() texts of src/io and
      src/db/log.{h,cc}; addresses are printed by a parameter.

    ** How code becomes definitions

    A method is a function in the monad [M S A] of this file: it returns, throws
    (the effects so far stay), is undefined ([Undef] with the reason: null or
    dangling pointer, out of bounds, uninitialised value, overflow, double free,
    ...), or never returns ([Blocked]).  Integers keep their width where it matters:
    signed overflow is undefined, conversions wrap.  Raw memory is a list of bytes,
    little-endian.  Inputs the code cannot control (uninitialised members and
    stack arrays, clock readings, random numbers, results of system calls) are
    arguments of the definitions, with the ranges that a theorem requires of them among its
    hypotheses ([garbage_ok] for the slots of a new buffer manager), and so are functions that src/ declares and does
    not define (index_handle::get_this_page, table_handle::table_handle(),
    column_definition::~column_definition).  [wp] is total correctness (no undefined
    behaviour, no divergence), [post] partial correctness, [keeps] a frame.
    A few lines do not compile as they are in C++ (a pointer cast to char, a
    misspelt local in poller.cc, redeclared variables in switch cases, members
    called without parentheses); they are modelled by their evident meaning, said at
    the definition.

    ** What the theorems show

    - Refinement: the hash table is a finite map for every history, the buffer
      manager is transparent (a map from file and page to contents through
      eviction and write-back), a file handle is a paged file with a stack of free
      pages and stays one when it is closed and opened again (the first time under a
      descriptor), the ring buffer is a bounded queue on its array (which its constructor
      then loses), the thread pool is a FIFO queue under every interleaving.
    - Safety and invariants: no leak or double free in the hash table, in lock tables
      whose buckets are set and in records that are not copied; parsing and serving a
      command releases each block it owns once, but leaks what is below the top node of an
      expression, and is undefined for an UPDATE with a name; in every history of a
      connection no continuation runs twice; the votes of a raft server for ids other than
      0xffffffff go to one candidate, and in a cluster whose servers are started once the
      voters of two candidates are disjoint; without a leader such a cluster never changes
      a log; the requests of one lock entry exclude each other in every interleaving; a
      repeating timer has exactly one repetition waiting, if the operations on the timers
      do not overlap.
    - Liveness and termination: destroying a thread pool with a worker runs every accepted
      task under every schedule, if all tasks return; an exclusive lock is handed over; the
      destructor of a poller ends unless it meets a closed channel (a kqueue poller must
      have polled once); a vote call of a newer term stops its receiver for good; the search
      for a free page ends after three pages; splitting a full leaf never ends; on Linux a
      dispatcher is never woken.
    - Round trips and bounds: file headers, index headers and tables without columns
      survive closing and opening; varints; a timer added and cancelled; the fanout of an index is the largest
      that fits; a record keeps its first array.
    - Functional behaviour: replacement order, flushing and forcing, comparison as
      a total order on all column types (IEEE values included), criteria, binary
      search in leaf pages and child search in inner pages, search in a tree of one sorted
      leaf, slot access, timers fire when due and in order, sending loses nothing
      while the contents do not wrap, the caches of transactions, what the kqueue poller makes the kernel watch, the text
      of a hash table, what the destructor of the buffer manager releases, a vote request
      from the caller's buffer to the handler.
    - Failures, each proved of the code as written: a forced write of all pages
      into the file header, aliased slots after a second flush, a lock entry deleted with
      a granted request, a vote that is not recorded, a vote lost by starting again, a pool
      that waits for a task that never returns, a kqueue poller destroyed unpolled, corruption by a
      failed read, the ring buffer emptied by an exact fill, raft handlers that
      lock their own mutex and roles that never change, shared locks never
      released, channels never registered with epoll, messages that arrive as
      garbage, insertion in front of an index page, the unusable row format, schemas
      that cannot be read back, scans that never advance or find nothing, roots that
      are never recorded, handles that dangle after opening, inserts that never
      succeed, opens spoilt by a failed one, a raft state that cannot be read back,
      memory released twice or with the wrong allocator, accepted connections without
      a socket, first replies that are never taken, a raft server that cannot be
      constructed, searches in trees of several levels that read uninitialised memory, a
      program that never becomes a server, serves what its stack held instead of the
      client's text and sends through an unset pointer.

    ** Fuel and bounds

    Loops that are not structural carry fuel that is proved or argued to suffice:
    chains of the hash table and the lock table by the number of entries in the
    heap; the varint loops by ten rounds of seven bits; fire_loop by the number of
    timers, since every round erases one; the binary search by the width of its
    interval; searches in inner pages and find of table pages by the length of the
    buffer, since every round reads other bytes; socket loops by the list of
    results, one per call; the fanout loop by its quotient, which is proved to stop
    it at once; get_next_free by the three seeks of the code; loops over the entries
    of a node by the length of its page ([page_fuel]), behind which they are out of
    bounds; the descent by the height and the recursion to the parent by the number
    of node objects ([tree_fuel]); the destructor of a poller by the number of its
    channels, since a round that removes none repeats forever; printing and freeing of
    chains by the number of entries; scans of table and index iterators take their fuel
    as an argument and their theorems hold for every fuel.

    ** What is not modelled, and the plan

    Not modelled: the SQL scanner and parser that flex and bison generate (parameters of
    Sql.v); the paxos classes, which are empty; the transaction classes, which are pure
    virtual or have empty bodies; exceptions of src/network and src/table and the prefix
    compression of src/index, which are declared and not defined; table.h, two strings
    that only the grammar uses; fork and pipe of main.cc, whose results are inputs.
    What src/ has beyond this is declarations without a body, accessors, and the set-up of
    the parent process in start_client, which calls constructors modelled elsewhere. *)

(** ** The shared layer *)

(** C++ outcomes, the state-and-exception monad in which the methods are written,
    machine integers, bytes and little-endian integers, and the list lemmas and
    automation the components share. *)
From Stdlib Require Export ZArith Lia.
From Stdlib Require Import Strings.Byte.
From stdpp Require Export base option numbers gmap strings list.

#[global] Open Scope Z_scope.
#[global] Set Warnings "-clear-no-such-hyp".

(** * Outcomes of C++ code *)

(** Every [throw] of src/io throws a plain [std::exception]; the tag records the
    exception named in the comment behind that [throw]. *)
Inductive exn :=
| closed_file_exception
| eof_exception
| page_already_free_exception
| invalid_page_exception
| page_pinned_exception
| page_already_unpinned_exception
| page_not_in_buf_exception
| no_buf_error
| incomplete_read_error
| incomplete_header_read_error
| incomplete_write_error
| incomplete_header_write_error
| unix_error
| runtime_error
| std_exception.

(** Why an execution leaves the defined behaviour of C++. *)
Inductive ub :=
| null_deref
| dangling_deref
| out_of_bounds
| uninitialised_read
| int_overflow
| bad_iterator
| bad_shift
| missing_return    (* a non-void function flows off its end *)
| division_by_zero
| double_free
| mismatched_free   (* delete of what malloc gave, or free of what new gave *)
| bad_cast          (* a member of a class the object does not belong to *)
| assertion_failure (* assert ends the process *).

Inductive outcome (S A : Type) :=
| Ret (a : A) (s : S)       (* returns normally *)
| Exc (e : exn) (s : S)     (* throws; the effects done so far stay *)
| Undef (r : ub)            (* undefined behaviour, or a failed assert *)
| Blocked.                  (* never returns: a loop that does not end, or a relock of a held std::mutex *)
Arguments Ret {S A} a s.
Arguments Exc {S A} e s.
Arguments Undef {S A} r.
Arguments Blocked {S A}.

#[global] Instance exn_eq_dec : EqDecision exn.
Proof. solve_decision. Defined.
#[global] Instance ub_eq_dec : EqDecision ub.
Proof. solve_decision. Defined.

(** * The monad of methods: state passing with exceptions and undefined behaviour *)

Definition M (S A : Type) : Type := S -> outcome S A.

#[global] Instance M_ret S : MRet (M S) := fun A a s => Ret a s.
#[global] Instance M_bind S : MBind (M S) := fun A B k m s =>
  match m s with
  | Ret a s' => k a s'
  | Exc e s' => Exc e s'
  | Undef r => Undef r
  | Blocked => Blocked
  end.

Section monad.
Context {S : Type}.

Definition throw {A} (e : exn) : M S A := fun s => Exc e s.
Definition undef {A} (r : ub) : M S A := fun _ => Undef r.
Definition blocked {A} : M S A := fun _ => Blocked.
Definition gets {A} (f : S -> A) : M S A := fun s => Ret (f s) s.
Definition modify (f : S -> S) : M S unit := fun s => Ret tt (f s).

(** [try m catch (const std::exception&) h] *)
Definition try_catch {A} (m h : M S A) : M S A := fun s =>
  match m s with Exc _ s' => h s' | o => o end.

(** A caller that catches whatever [m] throws and carries on. *)
Definition attempt {A} (m : M S A) : M S (A + exn) := fun s =>
  match m s with
  | Ret a s' => Ret (inl a) s'
  | Exc e s' => Ret (inr e) s'
  | Undef r => Undef r
  | Blocked => Blocked
  end.

(** A pointer or an index that may be invalid. *)
Definition of_option {A} (r : ub) (o : option A) : M S A :=
  match o with Some a => mret a | None => undef r end.

Definition when (b : bool) (m : M S unit) : M S unit :=
  if b then m else mret tt.
End monad.

(** Running a method of a member object. *)
Definition zoom {S T A} (get : S -> T) (set : T -> S -> S) (m : M T A) : M S A := fun s =>
  match m (get s) with
  | Ret a t => Ret a (set t s)
  | Exc e t => Exc e (set t s)
  | Undef r => Undef r
  | Blocked => Blocked
  end.

Definition returns {S A} (o : outcome S A) : option (A * S) :=
  match o with Ret a s => Some (a, s) | _ => None end.

Lemma bind_ret {S A B} (m : M S A) (k : A -> M S B) s a s1 : m s = Ret a s1 -> (m ≫= k) s = k a s1.
Proof. intros E. unfold mbind, M_bind. by rewrite E. Qed.

Lemma returns_bind {S A B} (m : M S A) (k : A -> M S B) s :
  is_Some (returns ((m ≫= k) s)) -> exists a s1, m s = Ret a s1 /\ is_Some (returns (k a s1)).
Proof.
  unfold mbind, M_bind. destruct (m s) as [a s1| | |]; [by eauto|by intros [? [=]]..].
Qed.

(** * Total correctness with exceptional postconditions *)

Definition wp {S A} (m : M S A) (Q : A -> S -> Prop) (E : exn -> S -> Prop) (s : S) : Prop :=
  match m s with
  | Ret a s' => Q a s'
  | Exc e s' => E e s'
  | Undef _ | Blocked => False
  end.

#[global] Arguments wp : simpl never.

Section wp.
Context {S : Type}.
Implicit Types s : S.

Lemma wp_bind {A B} (m : M S A) (k : A -> M S B) Q E s :
  wp m (fun a s' => wp (k a) Q E s') E s -> wp (m ≫= k) Q E s.
Proof. unfold wp, mbind, M_bind. by destruct (m s). Qed.

Lemma wp_bind_inv {A B} (m : M S A) (k : A -> M S B) Q E s :
  wp (m ≫= k) Q E s -> wp m (fun a s' => wp (k a) Q E s') E s.
Proof. unfold wp, mbind, M_bind. by destruct (m s). Qed.

Lemma wp_ret {A} (a : A) (Q : A -> S -> Prop) E s : Q a s -> wp (mret a) Q E s.
Proof. done. Qed.

Lemma wp_throw {A} e Q (E : exn -> S -> Prop) s : E e s -> wp (throw (A:=A) e) Q E s.
Proof. done. Qed.

Lemma wp_gets {A} (f : S -> A) (Q : A -> S -> Prop) E s : Q (f s) s -> wp (gets f) Q E s.
Proof. done. Qed.

Lemma wp_modify f (Q : unit -> S -> Prop) E s : Q tt (f s) -> wp (modify f) Q E s.
Proof. done. Qed.

Lemma wp_of_option {A} r (o : option A) a (Q : A -> S -> Prop) E s :
  o = Some a -> Q a s -> wp (of_option r o) Q E s.
Proof. by intros ->. Qed.

Lemma wp_when b (m : M S unit) Q E s :
  (b = true -> wp m Q E s) -> (b = false -> Q tt s) -> wp (when b m) Q E s.
Proof. destruct b; intros Ht Hf; [by apply Ht|by apply Hf]. Qed.

Lemma wp_try {A} (m h : M S A) Q E s :
  wp m Q (fun _ s' => wp h Q E s') s -> wp (try_catch m h) Q E s.
Proof. unfold wp, try_catch. by destruct (m s). Qed.

Lemma wp_attempt {A} (m : M S A) Q E s :
  wp m (fun a s' => Q (inl a) s') (fun e s' => Q (inr e) s') s -> wp (attempt m) Q E s.
Proof. unfold wp, attempt. by destruct (m s). Qed.

Lemma wp_mono {A} (m : M S A) (Q Q' : A -> S -> Prop) (E E' : exn -> S -> Prop) s :
  wp m Q E s ->
  (forall a s', Q a s' -> Q' a s') -> (forall e s', E e s' -> E' e s') ->
  wp m Q' E' s.
Proof. unfold wp. destruct (m s); auto. Qed.

(** A run that returns has returned a value that satisfies the postcondition. *)
Lemma wp_returns {A} (m : M S A) (Q : A -> S -> Prop) E s a s' :
  wp m Q E s -> m s = Ret a s' -> Q a s'.
Proof. unfold wp. intros H HE. by rewrite HE in H. Qed.

(** A run that can only return [a] in [s'] does so. *)
Lemma wp_eq {A} (m : M S A) s a s' : wp m (fun a1 s1 => a1 = a /\ s1 = s') (fun _ _ => False) s -> m s = Ret a s'.
Proof. unfold wp. destruct (m s); try done. by intros [-> ->]. Qed.

Lemma wp_no_exn {A} (m : M S A) Q s :
  wp m Q (fun _ _ => False) s -> exists a s', m s = Ret a s' /\ Q a s'.
Proof. unfold wp. destruct (m s); naive_solver. Qed.
End wp.

Lemma wp_zoom {S T A} (get : S -> T) (set : T -> S -> S) (m : M T A) Q E s :
  wp m (fun a t => Q a (set t s)) (fun e t => E e (set t s)) (get s) ->
  wp (zoom get set m) Q E s.
Proof. unfold wp, zoom. by destruct (m (get s)). Qed.

(** Partial correctness: what holds whenever a run returns normally. *)
Definition post {S A} (m : M S A) (Q : A -> S -> Prop) (s : S) : Prop :=
  match m s with Ret a s' => Q a s' | _ => True end.

#[global] Arguments post : simpl never.

Section post.
Context {S : Type}.

Lemma post_bind {A B} (m : M S A) (k : A -> M S B) Q s :
  post m (fun a s' => post (k a) Q s') s -> post (m ≫= k) Q s.
Proof. unfold post, mbind, M_bind. by destruct (m s). Qed.

Lemma post_gets {A} (f : S -> A) (Q : A -> S -> Prop) s : Q (f s) s -> post (gets f) Q s.
Proof. done. Qed.

Lemma post_modify f (Q : unit -> S -> Prop) s : Q tt (f s) -> post (modify f) Q s.
Proof. done. Qed.

Lemma post_mono {A} (m : M S A) (Q Q' : A -> S -> Prop) s :
  post m Q s -> (forall a s', Q a s' -> Q' a s') -> post m Q' s.
Proof. unfold post. destruct (m s); auto. Qed.

Lemma post_ret {A} (m : M S A) (Q : A -> S -> Prop) s a s' : post m Q s -> m s = Ret a s' -> Q a s'.
Proof. unfold post. intros H HE. by rewrite HE in H. Qed.
End post.

(** * Parts of the state a method never changes *)

Definition keeps {S A X} (f : S -> X) (m : M S A) : Prop := forall s,
  match m s with Ret _ s' | Exc _ s' => f s' = f s | _ => True end.

Section keeps.
Context {S X : Type} (f : S -> X).

Lemma keeps_ret {A} (a : A) : keeps f (mret a).
Proof. by intros s. Qed.
Lemma keeps_throw {A} e : keeps f (throw (A:=A) e).
Proof. by intros s. Qed.
Lemma keeps_undef {A} r : keeps f (undef (A:=A) r).
Proof. by intros s. Qed.
Lemma keeps_blocked {A} : keeps f (blocked (A:=A)).
Proof. by intros s. Qed.
Lemma keeps_gets {A} (g : S -> A) : keeps f (gets g).
Proof. by intros s. Qed.
Lemma keeps_modify g : (forall s, f (g s) = f s) -> keeps f (modify g).
Proof. by intros Hg s; cbn. Qed.
Lemma keeps_of_option {A} r (o : option A) : keeps f (of_option r o).
Proof. by destruct o; intros s. Qed.
Lemma keeps_bind {A B} (m : M S A) (k : A -> M S B) : keeps f m -> (forall a, keeps f (k a)) -> keeps f (m ≫= k).
Proof.
  intros Hm Hk s. specialize (Hm s). unfold mbind, M_bind. destruct (m s) as [a s1| | |]; try done.
  specialize (Hk a s1). destruct (k a s1); congruence.
Qed.
Lemma keeps_when b m : keeps f m -> keeps f (when b m).
Proof. by destruct b; intros Hm s; [apply Hm|]. Qed.
Lemma keeps_zoom {T A} (get : S -> T) set (m : M T A) : (forall t s, f (set t s) = f s) -> keeps f (zoom get set m).
Proof. intros Hs s. unfold zoom. destruct (m (get s)); auto. Qed.
Lemma keeps_try {A} (m h : M S A) : keeps f m -> keeps f h -> keeps f (try_catch m h).
Proof.
  intros Hm Hh s. specialize (Hm s). unfold try_catch. destruct (m s) as [|e s1| |]; try done.
  specialize (Hh s1). destruct (h s1); congruence.
Qed.

Lemma wp_keeps {A} (m : M S A) Q E s :
  keeps f m -> wp m Q E s ->
  wp m (fun a s' => Q a s' /\ f s' = f s) (fun e s' => E e s' /\ f s' = f s) s.
Proof. intros Hm. specialize (Hm s). unfold wp. by destruct (m s). Qed.
End keeps.

Lemma post_keeps {S A X} (f : S -> X) (m : M S A) s : keeps f m -> post m (fun _ s' => f s' = f s) s.
Proof. intros Hm. specialize (Hm s). unfold post. by destruct (m s). Qed.

(** One symbolic-execution step. *)
Ltac wp_step :=
  match goal with
  | |- wp (_ ≫= _) _ _ _ => apply wp_bind
  | |- wp (mret _) _ _ _ => apply wp_ret
  | |- wp (throw _) _ _ _ => apply wp_throw
  | |- wp (gets _) _ _ _ => apply wp_gets
  | |- wp (modify _) _ _ _ => apply wp_modify
  | |- wp (zoom _ _ _) _ _ _ => apply wp_zoom
  | |- wp (of_option _ (Some _)) _ _ _ => eapply wp_of_option; [reflexivity|]
  end.
Ltac wp_steps := repeat (wp_step; cbn beta).

(** * Machine integers *)

Definition INT_MAX : Z := 2 ^ 31 - 1.
Definition INT_MIN : Z := - 2 ^ 31.
Definition int_ok (z : Z) : bool := (INT_MIN <=? z) && (z <=? INT_MAX).

(** Result of a signed [int] operation: overflow is undefined. *)
Definition int_of {S} (z : Z) : M S Z :=
  if int_ok z then mret z else undef int_overflow.

Lemma keeps_int_of {S X} (f : S -> X) z : keeps f (int_of z).
Proof. unfold int_of. by destruct (int_ok z). Qed.

Lemma post_int_of {S} z (Q : Z -> S -> Prop) s : Q z s -> post (int_of z) Q s.
Proof. unfold int_of, post. by destruct (int_ok z). Qed.

Lemma wp_int_of {S} z (Q : Z -> S -> Prop) E s :
  INT_MIN <= z <= INT_MAX -> Q z s -> wp (int_of z) Q E s.
Proof.
  intros Hz HQ. unfold int_of, int_ok.
  destruct (Z.leb_spec INT_MIN z), (Z.leb_spec z INT_MAX); try lia. done.
Qed.

(** Conversion to a w-bit unsigned and to a w-bit signed integer. *)
Definition to_unsigned (w z : Z) : Z := z mod 2 ^ w.
Definition to_signed (w z : Z) : Z :=
  let u := z mod 2 ^ w in if u <? 2 ^ (w - 1) then u else u - 2 ^ w.

Lemma to_unsigned_range w z : 0 <= w -> 0 <= to_unsigned w z < 2 ^ w.
Proof. intros. apply Z.mod_pos_bound. lia. Qed.

Lemma to_signed_id w z : 1 <= w -> - 2 ^ (w - 1) <= z < 2 ^ (w - 1) -> to_signed w z = z.
Proof.
  intros Hw Hz. unfold to_signed.
  assert (2 ^ w = 2 * 2 ^ (w - 1)) as E by (rewrite <-Z.pow_succ_r by lia; f_equal; lia).
  destruct (decide (0 <= z)).
  - rewrite Z.mod_small by lia. destruct (Z.ltb_spec z (2 ^ (w - 1))); lia.
  - replace (z mod 2 ^ w) with (z + 2 ^ w).
    + destruct (Z.ltb_spec (z + 2 ^ w) (2 ^ (w - 1))); lia.
    + rewrite <-(Z.mod_small (z + 2 ^ w) (2 ^ w)) by lia.
      rewrite <-Z.add_mod_idemp_r by lia. rewrite Z.mod_same by lia.
      by rewrite Z.add_0_r.
Qed.

(** * Bytes *)

Abbreviation byte := Byte.byte.

#[global] Instance byte_eq_dec : EqDecision byte := Byte.byte_eq_dec.
#[global] Instance byte_countable : Countable byte := inj_countable Byte.to_N Byte.of_N Byte.of_to_N.

Definition byte_to_Z (b : byte) : Z := Z.of_N (Byte.to_N b).
Definition byte_of_Z (z : Z) : byte := default Byte.x00 (Byte.of_N (Z.to_N (z mod 256))).

Lemma byte_to_Z_range b : 0 <= byte_to_Z b < 256.
Proof. unfold byte_to_Z. pose proof (Byte.to_N_bounded b). lia. Qed.

Lemma byte_to_of_Z z : byte_to_Z (byte_of_Z z) = z mod 256.
Proof.
  unfold byte_to_Z, byte_of_Z. pose proof (Z.mod_pos_bound z 256 eq_refl) as Hz.
  destruct (Byte.of_N (Z.to_N (z mod 256))) as [b|] eqn:E; cbn.
  - apply Byte.to_of_N in E. rewrite E. lia.
  - apply Byte.of_N_None_iff in E. lia.
Qed.

Lemma byte_of_to_Z b : byte_of_Z (byte_to_Z b) = b.
Proof.
  unfold byte_of_Z. rewrite Z.mod_small by apply byte_to_Z_range.
  unfold byte_to_Z. rewrite N2Z.id, Byte.of_to_N. done.
Qed.

#[global] Instance byte_to_Z_inj : Inj (=) (=) byte_to_Z.
Proof. intros a b H. by rewrite <-(byte_of_to_Z a), <-(byte_of_to_Z b), H. Qed.

(** * Little-endian integers in memory *)

Fixpoint le_encode (n : nat) (z : Z) : list byte :=
  match n with
  | O => []
  | S n => byte_of_Z z :: le_encode n (z / 256)
  end.

Fixpoint le_decode (bs : list byte) : Z :=
  match bs with
  | [] => 0
  | b :: bs => byte_to_Z b + 256 * le_decode bs
  end.

Lemma length_le_encode n z : length (le_encode n z) = n.
Proof. revert z. induction n; intros z; cbn; auto. Qed.

Lemma le_decode_encode n z : le_decode (le_encode n z) = z mod 256 ^ Z.of_nat n.
Proof.
  revert z. induction n as [|n IH]; intros z; cbn [le_encode le_decode].
  - by rewrite Z.mod_1_r.
  - rewrite IH, byte_to_of_Z, Nat2Z.inj_succ, Z.pow_succ_r by lia.
    rewrite Z.rem_mul_r by lia. lia.
Qed.

(** [sizeof(int)] bytes holding an [int], and reading one back. *)
Definition int_bytes (z : Z) : list byte := le_encode 4 z.
Definition bytes_int (bs : list byte) : Z := to_signed 32 (le_decode (take 4 bs)).

Lemma length_int_bytes z : length (int_bytes z) = 4%nat.
Proof. apply length_le_encode. Qed.

Lemma bytes_int_bytes z bs :
  INT_MIN <= z <= INT_MAX -> bytes_int (int_bytes z ++ bs) = z.
Proof.
  intros Hz. unfold bytes_int.
  rewrite take_app_length' by (by rewrite length_int_bytes).
  unfold int_bytes. rewrite le_decode_encode. unfold to_signed.
  change (256 ^ Z.of_nat 4) with (2 ^ 32). rewrite Z.mod_mod by lia.
  fold (to_signed 32 z). apply to_signed_id; unfold INT_MIN, INT_MAX in Hz; lia.
Qed.

(** * Overwriting a block inside a byte sequence *)

Definition splice {A} (l : list A) (off : nat) (d : list A) : list A :=
  take off l ++ d ++ drop (off + length d) l.

Lemma length_splice {A} (l : list A) off d :
  (off + length d <= length l)%nat -> length (splice l off d) = length l.
Proof. intros. unfold splice. rewrite !length_app, length_take, length_drop. lia. Qed.

Lemma splice_same {A} (l : list A) off d :
  (off <= length l)%nat -> take (length d) (drop off (splice l off d)) = d.
Proof.
  intros. unfold splice. rewrite drop_app_length' by (rewrite length_take; lia).
  by rewrite take_app_length.
Qed.

Lemma splice_take_before {A} (l : list A) o n off d :
  (o + n <= off <= length l)%nat -> take n (drop o (splice l off d)) = take n (drop o l).
Proof.
  intros H. unfold splice. rewrite drop_app_le by (rewrite length_take; lia).
  rewrite take_app_le by (rewrite length_drop, length_take; lia).
  rewrite !take_drop_commute, take_take. do 2 f_equal. lia.
Qed.

Lemma splice_take_after {A} (l : list A) o n off d :
  (off <= length l)%nat -> (off + length d <= o)%nat -> take n (drop o (splice l off d)) = take n (drop o l).
Proof.
  intros Hl H. unfold splice. rewrite drop_app_ge by (rewrite length_take; lia).
  rewrite drop_app_ge by (rewrite length_take; lia). rewrite drop_drop. do 2 f_equal. rewrite length_take. lia.
Qed.

Lemma splice_take_prefix {A} (l : list A) off n d :
  (off <= length l)%nat -> (n <= length d)%nat -> take n (drop off (splice l off d)) = take n d.
Proof.
  intros H Hn. unfold splice. rewrite drop_app_length' by (rewrite length_take; lia).
  by rewrite take_app_le by lia.
Qed.

(** * Lists *)

Lemma NoDup_app_swap {A} (l k : list A) : NoDup (l ++ k) <-> NoDup (k ++ l).
Proof. by rewrite (Permutation_app_comm l k). Qed.

Lemma list_filter_ext_in {A} (P Q : A -> Prop) `{!forall x, Decision (P x), !forall x, Decision (Q x)} (l : list A) :
  (forall x, x ∈ l -> P x <-> Q x) -> filter P l = filter Q l.
Proof.
  induction l as [|x l IH]; intros Hl; [done|]. rewrite !filter_cons.
  rewrite IH by (intros; apply Hl; by right). pose proof (Hl x ltac:(by left)).
  repeat case_decide; tauto.
Qed.

Lemma filter_all {A} (P : A -> Prop) `{!forall x, Decision (P x)} (l : list A) :
  (forall x, x ∈ l -> P x) -> filter P l = l.
Proof.
  induction l as [|x l IH]; intros Hl; [done|].
  rewrite filter_cons_True by (apply Hl; by left). f_equal. apply IH. intros. apply Hl. by right.
Qed.

Lemma NoDup_fst_unique {A B} (l : list (A * B)) a b b' :
  NoDup l.*1 -> (a, b) ∈ l -> (a, b') ∈ l -> b = b'.
Proof.
  induction l as [|[a0 b0] l IH]; intros Hnd H1 H2; [by apply not_elem_of_nil in H1|].
  cbn in Hnd. apply NoDup_cons in Hnd as [Ha Hnd].
  apply elem_of_cons in H1 as [?|H1], H2 as [?|H2]; simplify_eq; eauto; exfalso; apply Ha.
  - by apply (list_elem_of_fmap_2 fst) in H2.
  - by apply (list_elem_of_fmap_2 fst) in H1.
Qed.

Lemma NoDup_snd_unique {A B} (l : list (A * B)) a a' b :
  NoDup l.*2 -> (a, b) ∈ l -> (a', b) ∈ l -> a = a'.
Proof.
  induction l as [|[a0 b0] l IH]; intros Hnd H1 H2; [by apply not_elem_of_nil in H1|].
  cbn in Hnd. apply NoDup_cons in Hnd as [Ha Hnd].
  apply elem_of_cons in H1 as [?|H1], H2 as [?|H2]; simplify_eq; eauto; exfalso; apply Ha.
  - by apply (list_elem_of_fmap_2 snd) in H2.
  - by apply (list_elem_of_fmap_2 snd) in H1.
Qed.

Lemma NoDup_filter_fmap {A B} (f : A -> B) (P : A -> Prop) `{!forall x, Decision (P x)} (l : list A) :
  NoDup (f <$> l) -> NoDup (f <$> filter P l).
Proof.
  induction l as [|x l IH]; intros Hnd; [done|]. cbn in Hnd. apply NoDup_cons in Hnd as [Hx Hnd].
  rewrite filter_cons. case_decide; [|by apply IH]. cbn. apply NoDup_cons. split; [|by apply IH].
  intros (y & Hfy & Hy)%list_elem_of_fmap. rewrite Hfy in Hx. apply Hx, list_elem_of_fmap_2.
  by apply list_elem_of_filter in Hy as [_ ?].
Qed.

(** Removing an element of a duplicate-free list and putting it in front. *)
Lemma filter_ne_perm {A} `{EqDecision A} (x : A) (l : list A) :
  NoDup l -> x ∈ l -> x :: filter (fun y => y <> x) l ≡ₚ l.
Proof.
  induction l as [|y l IH]; intros Hnd Hx; [by apply not_elem_of_nil in Hx|].
  apply NoDup_cons in Hnd as [Hy Hnd]. rewrite filter_cons. case_decide as Hd.
  - rewrite Permutation_swap. apply Permutation_skip, IH; [done|].
    by apply elem_of_cons in Hx as [->|].
  - subst y. apply Permutation_skip.
    rewrite filter_all; [done|]. by intros z Hz ->.
Qed.

(** Updating a binding that is there. *)
Lemma alter_insert_Some {K A} `{Countable K} (f : A -> A) (m : gmap K A) i x :
  m !! i = Some x -> alter f i m = <[i:=f x]> m.
Proof.
  intros Hi. apply map_eq. intros j. rewrite lookup_alter, lookup_insert.
  destruct (decide (i = j)) as [->|]; [by rewrite Hi|done].
Qed.

(** * Automation *)

Create HintDb alphadb.
Create Rewrite HintDb alphadb_len.
#[export] Hint Resolve wp_ret wp_gets wp_modify wp_throw : alphadb.
Create HintDb keeps.
#[export] Hint Resolve keeps_ret keeps_throw keeps_undef keeps_blocked keeps_gets keeps_of_option keeps_int_of : keeps.

(** Discharges [keeps f m] by the structure of [m]. *)
Ltac keeps_step :=
  match goal with
  | |- keeps _ (_ ≫= _) => apply keeps_bind
  | |- keeps _ (when _ _) => apply keeps_when
  | |- keeps _ (try_catch _ _) => apply keeps_try
  | |- keeps _ (modify _) => apply keeps_modify; intros; done
  | |- keeps _ (zoom _ _ _) => apply keeps_zoom; intros; done
  | |- keeps _ (match ?x with _ => _ end) => destruct x
  | |- keeps _ _ => solve [eauto 1 with keeps]
  | |- forall _, _ => intros
  end.
Ltac keeps := repeat keeps_step.
#[export] Hint Rewrite length_le_encode length_int_bytes : alphadb_len.

(** Split conjunctions in the context, substitute, simplify constructors. *)
Ltac simp := repeat (destruct_and! || simplify_eq).

(** Reflect the boolean comparisons of the code in the context. *)
Ltac reflect_bool :=
  repeat match goal with
  | H : (_ && _)%bool = true |- _ => apply andb_true_iff in H as [? ?]
  | H : (_ || _)%bool = false |- _ => apply orb_false_iff in H as [? ?]
  | H : negb _ = true |- _ => apply negb_true_iff in H
  | H : negb _ = false |- _ => apply negb_false_iff in H
  | H : (_ =? _) = true |- _ => apply Z.eqb_eq in H
  | H : (_ =? _) = false |- _ => apply Z.eqb_neq in H
  | H : (_ <? _) = true |- _ => apply Z.ltb_lt in H
  | H : (_ <? _) = false |- _ => apply Z.ltb_ge in H
  | H : (_ <=? _) = true |- _ => apply Z.leb_le in H
  | H : (_ <=? _) = false |- _ => apply Z.leb_gt in H
  end.
