(* ===== verification/HashTable.v ===== *)
(** The chained hash table of src/io/hash_table.{h,cc} at the level of its
    pointers: a bucket array of [hash_entry*] and the heap of doubly linked
    entries.  Reading through a null or freed pointer is undefined behaviour
    here.  The table is proved to refine a finite map from (fd, page) to slot. *)
From S2P Require Import Prelude.

(** * Data *)

Abbreviation loc := positive.
(** [hash_entry*]: [None] is nullptr; a location not in the heap is dangling. *)
Abbreviation ptr := (option loc).

Record hash_entry := mk_hash_entry {
  he_fd : Z;
  he_page : Z;
  he_slot : Z;
  he_prev : ptr;
  he_next : ptr;
}.

Record hash_table := mk_hash_table {
  bucket_num_ : Z;
  hash_table_ : list ptr;
  ht_heap : gmap loc hash_entry;
  ht_brk : loc;                     (* next address [new] hands out *)
}.

Definition set_buckets (b : list ptr) (t : hash_table) : hash_table :=
  mk_hash_table (bucket_num_ t) b (ht_heap t) (ht_brk t).
Definition set_heap (h : gmap loc hash_entry) (t : hash_table) : hash_table :=
  mk_hash_table (bucket_num_ t) (hash_table_ t) h (ht_brk t).

(** * Pointer operations *)

Definition load (p : ptr) : M hash_table hash_entry :=
  match p with
  | None => undef null_deref
  | Some l => h ← gets ht_heap; of_option dangling_deref (h !! l)
  end.

Definition store (p : ptr) (f : hash_entry -> hash_entry) : M hash_table unit :=
  match p with
  | None => undef null_deref
  | Some l =>
      h ← gets ht_heap;
      e ← of_option dangling_deref (h !! l);
      modify (set_heap (<[l := f e]> h))
  end.

Definition set_prev (v : ptr) (e : hash_entry) : hash_entry :=
  mk_hash_entry (he_fd e) (he_page e) (he_slot e) v (he_next e).
Definition set_next (v : ptr) (e : hash_entry) : hash_entry :=
  mk_hash_entry (he_fd e) (he_page e) (he_slot e) (he_prev e) v.

(** [new hash_entry(fd, page, slot)]; prev and next are stored right after. *)
Definition new_entry (fd page slot : Z) : M hash_table ptr := fun t =>
  let l := ht_brk t in
  Ret (Some l)
    (mk_hash_table (bucket_num_ t) (hash_table_ t)
       (<[l := mk_hash_entry fd page slot None None]> (ht_heap t)) (Pos.succ l)).

(** [delete entry] *)
Definition delete_entry (p : ptr) : M hash_table unit :=
  match p with
  | None => mret tt
  | Some l =>
      h ← gets ht_heap;
      _ ← of_option dangling_deref (h !! l);
      modify (set_heap (delete l h))
  end.

(** [hash_table_[bucket]]: outside the array it is undefined. *)
Definition bucket_get (b : Z) : M hash_table ptr :=
  if b <? 0 then undef out_of_bounds
  else bs ← gets hash_table_; of_option out_of_bounds (bs !! Z.to_nat b).

Definition bucket_set (b : Z) (p : ptr) : M hash_table unit :=
  if b <? 0 then undef out_of_bounds
  else bs ← gets hash_table_;
       if Z.of_nat (length bs) <=? b then undef out_of_bounds
       else modify (set_buckets (<[Z.to_nat b := p]> bs)).

#[global] Arguments load : simpl never.
#[global] Arguments store : simpl never.
#[global] Arguments delete_entry : simpl never.

(** * Operations *)

(** hash_table::hash_table *)
Definition hash_table_new (bucket_num : Z) : hash_table :=
  mk_hash_table bucket_num (replicate (Z.to_nat bucket_num) None) ∅ 1%positive.

(** hash_table::hash: [int] addition and the truncated remainder of C++ *)
Definition hash_table_hash (fd page : Z) : M hash_table Z :=
  s ← int_of (fd + page);
  n ← gets bucket_num_;
  mret (Z.rem s n).

(** More steps than any chain of the heap has entries. *)
Definition chain_fuel (t : hash_table) : nat := S (size (ht_heap t)).

Fixpoint find_loop (fuel : nat) (fd page : Z) (entry : ptr) : M hash_table Z :=
  match fuel with
  | O => blocked
  | S fuel =>
      match entry with
      | None => mret (-1)
      | Some _ =>
          e ← load entry;
          if (he_fd e =? fd) && (he_page e =? page) then mret (he_slot e)
          else find_loop fuel fd page (he_next e)
      end
  end.

(** hash_table::find *)
Definition hash_table_find (fd page : Z) : M hash_table Z :=
  bucket ← hash_table_hash fd page;
  entry ← bucket_get bucket;
  fuel ← gets chain_fuel;
  find_loop fuel fd page entry.

(** hash_table::insert *)
Definition hash_table_insert (fd page slot : Z) : M hash_table unit :=
  exist ← hash_table_find fd page;
  if negb (exist =? -1) then mret tt else
  bucket ← hash_table_hash fd page;
  entry ← new_entry fd page slot;
  head ← bucket_get bucket;
  _ ← bucket_set bucket entry;
  _ ← (p ← bucket_get bucket; store p (set_prev None));
  _ ← (p ← bucket_get bucket; store p (set_next head));
  match head with
  | None => mret tt
  | Some _ => p ← bucket_get bucket; store head (set_prev p)
  end.

(** The [while] of hash_table::remove: the matching entry, or nullptr. *)
Fixpoint remove_loop (fuel : nat) (fd page : Z) (entry : ptr) : M hash_table ptr :=
  match fuel with
  | O => blocked
  | S fuel =>
      match entry with
      | None => mret None
      | Some _ =>
          e ← load entry;
          if (he_fd e =? fd) && (he_page e =? page) then mret entry
          else remove_loop fuel fd page (he_next e)
      end
  end.

(** The last two branches of hash_table::remove: the entry is not the head. *)
Definition unlink_entry (entry : ptr) : M hash_table unit :=
  e ← load entry;
  match he_next e with
  | None =>
      _ ← store (he_prev e) (set_next None);
      delete_entry entry
  | Some _ =>
      _ ← store (he_next e) (set_prev (he_prev e));
      e ← load entry;
      _ ← store (he_prev e) (set_next (he_next e));
      delete_entry entry
  end.

(** hash_table::remove *)
Definition hash_table_remove (fd page : Z) : M hash_table unit :=
  exist ← hash_table_find fd page;
  if exist =? -1 then mret tt else
  bucket ← hash_table_hash fd page;
  head ← bucket_get bucket;
  fuel ← gets chain_fuel;
  entry ← remove_loop fuel fd page head;
  head ← bucket_get bucket;
  if bool_decide (entry = head) then
    e ← load entry;
    _ ← bucket_set bucket (he_next e);
    delete_entry entry
  else
    unlink_entry entry.

(** The inner [while] of hash_table::~hash_table *)
Fixpoint free_chain (fuel : nat) (entry : ptr) : M hash_table unit :=
  match fuel with
  | O => blocked
  | S fuel =>
      match entry with
      | None => mret tt
      | Some _ =>
          e ← load entry;
          _ ← delete_entry entry;
          free_chain fuel (he_next e)
      end
  end.

(** The [for] of hash_table::~hash_table over buckets i, i+1, ... (n of them) *)
Fixpoint destroy_loop (n : nat) (i : Z) : M hash_table unit :=
  match n with
  | O => mret tt
  | S n =>
      entry ← bucket_get i;
      fuel ← gets chain_fuel;
      _ ← free_chain fuel entry;
      destroy_loop n (i + 1)
  end.

(** hash_table::~hash_table *)
Definition hash_table_destroy : M hash_table unit :=
  n ← gets bucket_num_;
  _ ← destroy_loop (Z.to_nat n) 0;
  modify (set_buckets []).

(** * Representation *)

(** A list node: its address and its ((fd, page), slot). *)
Abbreviation node := (loc * ((Z * Z) * Z))%type.

Definition he_data (e : hash_entry) : (Z * Z) * Z := ((he_fd e, he_page e), he_slot e).

(** [lseg h q p ch p']: following next from [p] one passes exactly the nodes of
    [ch] and arrives at [p'].  Each prev points back; [q] says what the first
    node's prev is, and is [None] at the head of a bucket, whose prev is left
    dangling by hash_table::remove and never read. *)
Fixpoint lseg (h : gmap loc hash_entry) (q : option ptr) (p : ptr) (ch : list node) (p' : ptr) : Prop :=
  match ch with
  | [] => p = p'
  | (l, d) :: ch =>
      p = Some l /\
      exists e, h !! l = Some e /\ he_data e = d /\
                (forall q', q = Some q' -> he_prev e = q') /\
                lseg h (Some (Some l)) (he_next e) ch p'
  end.

Definition out_prev (q : option ptr) (ch : list node) : option ptr :=
  match last ch with Some (l, _) => Some (Some l) | None => q end.

(** The bucket of a key, for the keys the table is used with. *)
Definition key_ok (k : Z * Z) : Prop := 0 <= k.1 + k.2 <= INT_MAX.
Definition key_bucket (t : hash_table) (k : Z * Z) : nat := Z.to_nat ((k.1 + k.2) mod bucket_num_ t).

Record chains_ok (t : hash_table) (chs : list (list node)) : Prop := {
  ck_num : 0 < bucket_num_ t;
  ck_len : length chs = Z.to_nat (bucket_num_ t);
  ck_buckets : length (hash_table_ t) = Z.to_nat (bucket_num_ t);
  ck_seg : forall i p ch, hash_table_ t !! i = Some p -> chs !! i = Some ch ->
             lseg (ht_heap t) None p ch None;
  ck_locs : NoDup (concat chs).*1;
  ck_keys : NoDup (concat chs).*2.*1;
  ck_dom : forall l, l ∈ (concat chs).*1 <-> is_Some (ht_heap t !! l);
  ck_node : forall i ch l k v, chs !! i = Some ch -> (l, (k, v)) ∈ ch ->
             key_ok k /\ key_bucket t k = i /\ v <> -1;
  ck_brk : forall l, is_Some (ht_heap t !! l) -> (l < ht_brk t)%positive;
}.

Definition chains_map (chs : list (list node)) : gmap (Z * Z) Z := list_to_map (concat chs).*2.

(** The table holds exactly the map [m]. *)
Definition ht_repr (t : hash_table) (m : gmap (Z * Z) Z) : Prop :=
  exists chs, chains_ok t chs /\ m = chains_map chs.

(** * Lemmas on segments *)

Lemma out_prev_cons q (n : node) ch : out_prev q (n :: ch) = out_prev (Some (Some n.1)) ch.
Proof. unfold out_prev. rewrite last_cons. destruct n, (last ch) as [[??]|]; done. Qed.

Lemma lseg_app h q p ch1 ch2 p' :
  lseg h q p (ch1 ++ ch2) p' <->
  exists pm, lseg h q p ch1 pm /\ lseg h (out_prev q ch1) pm ch2 p'.
Proof.
  revert q p. induction ch1 as [|[l d] ch1 IH]; intros q p; cbn [app lseg].
  - split; [intros H; by exists p|intros (pm & -> & H); done].
  - split.
    + intros (-> & e & He & Hd & Hq & (pm & H1 & H2)%IH). exists pm. rewrite out_prev_cons. split; [|done].
      split; [done|]. by exists e.
    + intros (pm & (-> & e & He & Hd & Hq & H1) & H2). rewrite out_prev_cons in H2. split; [done|].
      exists e. split_and!; [done..|]. apply IH. by exists pm.
Qed.

Lemma lseg_frame h h' q p ch p' :
  (forall l, l ∈ ch.*1 -> h' !! l = h !! l) -> lseg h q p ch p' -> lseg h' q p ch p'.
Proof.
  revert q p. induction ch as [|[l d] ch IH]; intros q p Hf; cbn; [done|].
  intros (-> & e & He & Hd & Hq & Hs). split; [done|]. exists e.
  rewrite Hf by (cbn; left). split_and!; [done..|].
  apply IH; [|done]. intros l' Hl'. apply Hf. cbn. by right.
Qed.

(** Every prev demand may be dropped at the head. *)
Lemma lseg_weaken h q p ch p' : lseg h q p ch p' -> lseg h None p ch p'.
Proof.
  destruct ch as [|[l d] ch]; cbn; [done|].
  intros (-> & e & He & Hd & _ & Hs). split; [done|]. by exists e.
Qed.

(** * Lemmas on the list of chains *)

Lemma concat_insert_perm {A} (chs : list (list A)) i ch ch' n :
  chs !! i = Some ch -> ch' ≡ₚ n :: ch -> concat (<[i:=ch']> chs) ≡ₚ n :: concat chs.
Proof.
  intros Hi Hp. rewrite insert_take_drop by eauto using lookup_lt_Some.
  rewrite <-(take_drop_middle chs i ch Hi) at 3.
  rewrite !concat_app. cbn [concat]. rewrite Hp.
  cbn [app]. by rewrite <-Permutation_middle.
Qed.

Lemma elem_of_concat {A} (chs : list (list A)) i ch x :
  chs !! i = Some ch -> x ∈ ch -> x ∈ concat chs.
Proof.
  intros Hi Hx. rewrite <-(take_drop_middle chs i ch Hi), concat_app. cbn. set_solver.
Qed.

Lemma nodup_dom_size {A} (h : gmap loc A) (ls : list loc) :
  NoDup ls -> (forall l, l ∈ ls <-> is_Some (h !! l)) -> length ls = size h.
Proof.
  intros Hnd Hdom. rewrite <-size_dom, <-(size_list_to_set (C:=gset loc)) by exact Hnd. f_equal.
  apply set_eq. intros l. rewrite elem_of_list_to_set, elem_of_dom. apply Hdom.
Qed.

(** Distinct chains of a table share no address. *)
Lemma chains_disjoint (chs : list (list node)) i j ch ch' l :
  NoDup (concat chs).*1 -> chs !! i = Some ch -> chs !! j = Some ch' -> i <> j ->
  l ∈ ch.*1 -> l ∉ ch'.*1.
Proof.
  intros Hnd Hi Hj Hij Hl Hl'. apply Hij.
  revert i j Hi Hj Hij. induction chs as [|c chs IH]; intros i j Hi Hj Hij; [done|].
  cbn in Hnd. rewrite fmap_app, NoDup_app in Hnd. destruct Hnd as (_ & Hd & Hnd).
  assert (forall k c', chs !! k = Some c' -> l ∈ c'.*1 -> l ∈ (concat chs).*1) as Hin.
  { intros k c' Hk (n & -> & Hn)%list_elem_of_fmap. apply list_elem_of_fmap_2.
    by eapply elem_of_concat. }
  destruct i as [|i], j as [|j]; cbn in *; simplify_eq.
  - by destruct (Hd l Hl); eapply Hin.
  - by destruct (Hd l Hl'); eapply Hin.
  - by rewrite (IH Hnd i j Hi Hj ltac:(congruence)) in Hij.
Qed.

Section with_chains.
Context (t : hash_table) (chs : list (list node)) (CK : chains_ok t chs).

Lemma key_bucket_lookup k : key_ok k ->
  exists p ch, hash_table_ t !! key_bucket t k = Some p /\ chs !! key_bucket t k = Some ch /\
               lseg (ht_heap t) None p ch None.
Proof.
  intros Hk. pose proof (ck_num _ _ CK). pose proof (ck_len _ _ CK). pose proof (ck_buckets _ _ CK).
  assert (key_bucket t k < Z.to_nat (bucket_num_ t))%nat as Hlt.
  { unfold key_bucket. pose proof (Z.mod_pos_bound (k.1 + k.2) (bucket_num_ t)). lia. }
  destruct (lookup_lt_is_Some_2 (hash_table_ t) (key_bucket t k)) as [p Hp]; [lia|].
  destruct (lookup_lt_is_Some_2 chs (key_bucket t k)) as [ch Hch]; [lia|].
  exists p, ch. split_and!; [done..|]. by eapply (ck_seg _ _ CK).
Qed.

Lemma chain_length i ch : chs !! i = Some ch -> (length ch <= size (ht_heap t))%nat.
Proof.
  intros Hi. rewrite <-(nodup_dom_size (ht_heap t) (concat chs).*1) by apply CK.
  rewrite length_fmap, <-(take_drop_middle chs i ch Hi), concat_app. cbn. rewrite !length_app. lia.
Qed.

Lemma chains_map_Some k v : chains_map chs !! k = Some v <-> exists l, (l, (k, v)) ∈ concat chs.
Proof.
  unfold chains_map. rewrite <-elem_of_list_to_map by apply (ck_keys _ _ CK).
  rewrite list_elem_of_fmap. split.
  - intros ([l d] & -> & H). by exists l.
  - intros [l H]. by exists (l, (k, v)).
Qed.

(** Looking a key up in its own bucket is looking it up in the map. *)
Lemma bucket_map k ch : chs !! key_bucket t k = Some ch ->
  forall v, chains_map chs !! k = Some v <-> exists l, (l, (k, v)) ∈ ch.
Proof.
  intros Hch v. rewrite chains_map_Some. split.
  - intros (l & H). apply list_elem_of_In, in_concat in H as (ch' & Hin & Hn).
    apply list_elem_of_In in Hin, Hn. apply list_elem_of_lookup in Hin as [j Hj].
    destruct (ck_node _ _ CK j ch' l k v Hj Hn) as (_ & Hb & _).
    exists l. rewrite <-Hb, Hch in Hj. by simplify_eq.
  - intros (l & H). exists l. by eapply elem_of_concat.
Qed.
End with_chains.

(** * Specifications of the primitive steps *)

Lemma wp_load (t : hash_table) l e (Q : hash_entry -> hash_table -> Prop) E :
  ht_heap t !! l = Some e -> Q e t -> wp (load (Some l)) Q E t.
Proof. intros He HQ. unfold load. wp_steps. by eapply wp_of_option. Qed.

Lemma wp_store (t : hash_table) l e f (Q : unit -> hash_table -> Prop) E :
  ht_heap t !! l = Some e -> Q tt (set_heap (<[l:=f e]> (ht_heap t)) t) ->
  wp (store (Some l) f) Q E t.
Proof. intros He HQ. unfold store. wp_steps. eapply wp_of_option; [done|]. by wp_steps. Qed.

Lemma wp_delete_entry (t : hash_table) l e (Q : unit -> hash_table -> Prop) E :
  ht_heap t !! l = Some e -> Q tt (set_heap (delete l (ht_heap t)) t) ->
  wp (delete_entry (Some l)) Q E t.
Proof. intros He HQ. unfold delete_entry. wp_steps. eapply wp_of_option; [done|]. by wp_steps. Qed.

Lemma wp_hash (t : hash_table) fd page (Q : Z -> hash_table -> Prop) E :
  key_ok (fd, page) -> 0 < bucket_num_ t -> Q (Z.of_nat (key_bucket t (fd, page))) t ->
  wp (hash_table_hash fd page) Q E t.
Proof.
  intros [H1 H2] Hn HQ. cbn in *. unfold hash_table_hash. wp_steps.
  apply wp_int_of; [unfold INT_MIN; lia|]. wp_steps.
  rewrite Z.rem_mod_nonneg by lia. unfold key_bucket in HQ. cbn in HQ.
  by rewrite Z2Nat.id in HQ by (apply Z.mod_pos_bound; lia).
Qed.

Lemma wp_bucket_get (t : hash_table) i p (Q : ptr -> hash_table -> Prop) E :
  hash_table_ t !! i = Some p -> Q p t -> wp (bucket_get (Z.of_nat i)) Q E t.
Proof.
  intros Hp HQ. unfold bucket_get. destruct (Z.ltb_spec (Z.of_nat i) 0); [lia|].
  wp_steps. rewrite Nat2Z.id. by eapply wp_of_option.
Qed.

Lemma wp_bucket_set (t : hash_table) i p p' (Q : unit -> hash_table -> Prop) E :
  hash_table_ t !! i = Some p -> Q tt (set_buckets (<[i:=p']> (hash_table_ t)) t) ->
  wp (bucket_set (Z.of_nat i) p') Q E t.
Proof.
  intros Hp%lookup_lt_Some HQ. unfold bucket_set. destruct (Z.ltb_spec (Z.of_nat i) 0); [lia|].
  wp_steps. destruct (Z.leb_spec (Z.of_nat (length (hash_table_ t))) (Z.of_nat i)); [lia|].
  wp_steps. by rewrite Nat2Z.id.
Qed.

(** The value the chain associates with a key. *)
Definition chain_find (k : Z * Z) (ch : list node) : Z :=
  from_option (fun n => n.2.2) (-1) (List.find (fun n : node => bool_decide (n.2.1 = k)) ch).

Lemma he_match e fd page :
  ((he_fd e =? fd) && (he_page e =? page))%bool = bool_decide ((he_data e).1 = (fd, page)).
Proof.
  unfold he_data. cbn. destruct (Z.eqb_spec (he_fd e) fd), (Z.eqb_spec (he_page e) page);
    symmetry; (rewrite bool_decide_eq_true || rewrite bool_decide_eq_false); naive_solver.
Qed.

Lemma wp_find_loop (t : hash_table) fuel q p ch fd page (Q : Z -> hash_table -> Prop) E :
  lseg (ht_heap t) q p ch None -> (length ch < fuel)%nat ->
  Q (chain_find (fd, page) ch) t -> wp (find_loop fuel fd page p) Q E t.
Proof.
  revert fuel q p. induction ch as [|[l d] ch IH]; intros [|fuel] q p Hs Hf HQ; cbn in Hs, Hf; try lia.
  { subst p. by apply wp_ret. }
  destruct Hs as (-> & e & He & <- & _ & Hs). cbn. wp_steps. eapply wp_load; [done|].
  rewrite he_match. unfold chain_find in HQ. cbn in HQ |- *.
  destruct (bool_decide _); [by apply wp_ret|].
  eapply IH; [done|lia|done].
Qed.

Lemma wp_remove_loop (t : hash_table) fuel q p ch1 l d ch2 fd page (Q : ptr -> hash_table -> Prop) E :
  lseg (ht_heap t) q p (ch1 ++ (l, d) :: ch2) None -> (length (ch1 ++ (l, d) :: ch2) < fuel)%nat ->
  (fd, page) ∉ ch1.*2.*1 -> d.1 = (fd, page) ->
  Q (Some l) t -> wp (remove_loop fuel fd page p) Q E t.
Proof.
  revert fuel q p. induction ch1 as [|[l' d'] ch1 IH]; intros [|fuel] q p Hs Hf Hk Hd HQ;
    cbn in Hs, Hf; try lia; destruct Hs as (-> & e & He & <- & _ & Hs); cbn;
    wp_steps; (eapply wp_load; [done|]); rewrite he_match.
  - rewrite bool_decide_eq_true_2 by done. by apply wp_ret.
  - cbn in Hk. apply not_elem_of_cons in Hk as [Hk1 Hk2].
    rewrite bool_decide_eq_false_2 by done. eapply IH; [done|cbn; lia|done..].
Qed.

Lemma chain_find_Some k ch l v :
  NoDup ch.*2.*1 -> (l, (k, v)) ∈ ch -> chain_find k ch = v.
Proof.
  unfold chain_find. induction ch as [|[l' [k' v']] ch IH]; intros Hnd Hin; cbn in *.
  { by apply not_elem_of_nil in Hin. }
  apply NoDup_cons in Hnd as [Hk Hnd]. apply elem_of_cons in Hin as [?|Hin]; simplify_eq.
  - by rewrite bool_decide_eq_true_2.
  - rewrite bool_decide_eq_false_2; [by apply IH|].
    intros ->. apply Hk. change k with (k, v).1. apply list_elem_of_fmap_2.
    change (k, v) with (l, (k, v)).2. by apply list_elem_of_fmap_2.
Qed.

Lemma chain_find_None k ch : (forall l v, (l, (k, v)) ∉ ch) -> chain_find k ch = -1.
Proof.
  unfold chain_find. induction ch as [|[l' [k' v']] ch IH]; intros H; cbn; [done|].
  rewrite bool_decide_eq_false_2.
  - apply IH. intros l v Hin. apply (H l v). by right.
  - intros ->. apply (H l' v'). by left.
Qed.

(** * Refinement of the finite map *)

Section refinement.
Context (t : hash_table) (chs : list (list node)) (CK : chains_ok t chs).

Lemma chain_nodup i ch : chs !! i = Some ch -> NoDup ch.*1 /\ NoDup ch.*2.*1.
Proof.
  intros Hi. pose proof (ck_locs _ _ CK) as H1. pose proof (ck_keys _ _ CK) as H2.
  rewrite <-(take_drop_middle chs i ch Hi), concat_app, concat_cons in H1, H2.
  rewrite !fmap_app in H1. rewrite !fmap_app in H2.
  split.
  - apply NoDup_app in H1 as (_ & _ & H1). by apply NoDup_app in H1 as (H1 & _).
  - apply NoDup_app in H2 as (_ & _ & H2). by apply NoDup_app in H2 as (H2 & _).
Qed.

Lemma chain_find_map k ch : chs !! key_bucket t k = Some ch ->
  chain_find k ch = default (-1) (chains_map chs !! k).
Proof.
  intros Hch. pose proof (bucket_map _ _ CK k ch Hch) as Hm.
  destruct (chains_map chs !! k) as [v|] eqn:E; cbn.
  - destruct (proj1 (Hm v) eq_refl) as [l Hl]. eapply chain_find_Some; [|done].
    by eapply chain_nodup.
  - apply chain_find_None. intros l v Hl.
    discriminate (proj2 (Hm v) (ex_intro _ l Hl)).
Qed.

Lemma wp_find fd page (Q : Z -> hash_table -> Prop) E :
  key_ok (fd, page) -> Q (default (-1) (chains_map chs !! (fd, page))) t ->
  wp (hash_table_find fd page) Q E t.
Proof.
  intros Hk HQ. unfold hash_table_find. wp_steps.
  apply wp_hash; [done|apply (ck_num _ _ CK)|]. wp_steps.
  destruct (key_bucket_lookup _ _ CK (fd, page) Hk) as (p & ch & Hp & Hch & Hs).
  eapply wp_bucket_get; [done|]. wp_steps. eapply wp_find_loop; [done| |].
  - pose proof (chain_length _ _ CK _ _ Hch). unfold chain_fuel. lia.
  - by rewrite (chain_find_map (fd, page)).
Qed.
End refinement.

(** ** Rebuilding the invariant after a change to one bucket *)

Lemma chains_ok_update (t t' : hash_table) chs i p' ch ch' :
  chains_ok t chs -> chs !! i = Some ch ->
  bucket_num_ t' = bucket_num_ t ->
  hash_table_ t' = <[i:=p']> (hash_table_ t) ->
  lseg (ht_heap t') None p' ch' None ->
  (forall j cj l, j <> i -> chs !! j = Some cj -> l ∈ cj.*1 -> ht_heap t' !! l = ht_heap t !! l) ->
  NoDup (concat (<[i:=ch']> chs)).*1 ->
  NoDup (concat (<[i:=ch']> chs)).*2.*1 ->
  (forall l, l ∈ (concat (<[i:=ch']> chs)).*1 <-> is_Some (ht_heap t' !! l)) ->
  (forall l k v, (l, (k, v)) ∈ ch' -> key_ok k /\ key_bucket t k = i /\ v <> -1) ->
  (forall l, is_Some (ht_heap t' !! l) -> (l < ht_brk t')%positive) ->
  chains_ok t' (<[i:=ch']> chs).
Proof.
  intros CK Hi Hn Hb Hs Hf H1 H2 H3 H4 H5.
  split; rewrite ?Hn, ?Hb, ?length_insert; try done; try apply CK.
  - intros j p cj Hp Hcj. destruct (decide (j = i)) as [->|Hji].
    + rewrite list_lookup_insert_eq in Hcj by (by eapply lookup_lt_Some).
      rewrite list_lookup_insert_eq in Hp; [by simplify_eq|].
      rewrite (ck_buckets _ _ CK), <-(ck_len _ _ CK). by eapply lookup_lt_Some.
    + rewrite list_lookup_insert_ne in Hp by done. rewrite list_lookup_insert_ne in Hcj by done.
      eapply lseg_frame; [|by eapply (ck_seg _ _ CK)]. eauto.
  - intros j cj l k v Hcj Hin. unfold key_bucket. rewrite Hn.
    destruct (decide (j = i)) as [->|Hji].
    + rewrite list_lookup_insert_eq in Hcj by (by eapply lookup_lt_Some). simplify_eq. eauto.
    + rewrite list_lookup_insert_ne in Hcj by done. by eapply (ck_node _ _ CK).
Qed.

(** Adding a node with a new key adds that key to the map. *)
Lemma chains_map_add chs i ch ch' l k v :
  chs !! i = Some ch -> ch' ≡ₚ (l, (k, v)) :: ch -> NoDup (concat (<[i:=ch']> chs)).*2.*1 ->
  chains_map (<[i:=ch']> chs) = <[k:=v]> (chains_map chs).
Proof.
  intros Hi Hp Hnd. unfold chains_map.
  pose proof (concat_insert_perm chs i ch ch' _ Hi Hp) as Hpp.
  change (<[k:=v]> (list_to_map (concat chs).*2 : gmap (Z * Z) Z))
    with (list_to_map ((l, (k, v)) :: concat chs).*2 : gmap (Z * Z) Z).
  apply list_to_map_proper; [exact Hnd|]. by rewrite Hpp.
Qed.

(** Dropping a node drops its key. *)
Lemma chains_map_drop chs i ch ch' l k v :
  chs !! i = Some ch -> ch ≡ₚ (l, (k, v)) :: ch' -> NoDup (concat chs).*2.*1 ->
  concat chs ≡ₚ (l, (k, v)) :: concat (<[i:=ch']> chs) /\
  chains_map (<[i:=ch']> chs) = delete k (chains_map chs).
Proof.
  intros Hi Hp Hnd.
  assert (<[i:=ch]> (<[i:=ch']> chs) = chs) as Hid.
  { rewrite list_insert_insert_eq. by apply list_insert_id. }
  assert (<[i:=ch']> chs !! i = Some ch') as Hi'.
  { apply list_lookup_insert_eq. by eapply lookup_lt_Some. }
  pose proof (concat_insert_perm _ i ch' ch _ Hi' Hp) as Hpp. rewrite Hid in Hpp.
  split; [done|]. pose proof (chains_map_add _ i ch' ch l k v Hi' Hp) as Hadd.
  rewrite Hid in Hadd. rewrite Hadd by done. rewrite delete_insert_id; [done|].
  unfold chains_map. apply not_elem_of_list_to_map_1. rewrite Hpp in Hnd.
  cbn in Hnd. by apply NoDup_cons in Hnd as [? _].
Qed.

(** ** insert *)

(** Linking a fresh node [l] in front of a chain. *)
Definition link_heap (h : gmap loc hash_entry) (l : loc) (fd page slot : Z) (p : ptr) : gmap loc hash_entry :=
  let h1 := <[l := mk_hash_entry fd page slot None p]> h in
  match p with
  | None => h1
  | Some l2 => alter (set_prev (Some l)) l2 h1
  end.

#[local] Arguments link_heap : simpl never.

Lemma link_heap_other h l fd page slot p l' :
  l' <> l -> p <> Some l' -> link_heap h l fd page slot p !! l' = h !! l'.
Proof.
  intros H1 H2. unfold link_heap. destruct p as [l2|]; [rewrite lookup_alter_ne by congruence|];
    by rewrite lookup_insert_ne.
Qed.

Lemma link_heap_dom h l fd page slot p l' :
  is_Some (link_heap h l fd page slot p !! l') <-> l' = l \/ is_Some (h !! l').
Proof.
  unfold link_heap.
  assert (is_Some (<[l:=mk_hash_entry fd page slot None p]> h !! l') <-> l' = l \/ is_Some (h !! l')) as H.
  { rewrite lookup_insert_is_Some. destruct (decide (l = l')); intuition congruence. }
  destruct p as [l2|]; [|done]. by rewrite lookup_alter_is_Some.
Qed.

Lemma lseg_link h l fd page slot p ch :
  lseg h None p ch None -> l ∉ ch.*1 -> NoDup ch.*1 ->
  lseg (link_heap h l fd page slot p) None (Some l) ((l, ((fd, page), slot)) :: ch) None.
Proof.
  intros Hs Hl Hnd. cbn. split; [done|].
  destruct ch as [|[l2 d2] ch]; cbn in Hs.
  - subst p. eexists. unfold link_heap. rewrite lookup_insert_eq. split_and!; done.
  - destruct Hs as (-> & e2 & He2 & Hd2 & _ & Hs). cbn in Hl, Hnd.
    apply not_elem_of_cons in Hl as [Hl1 Hl2]. apply NoDup_cons in Hnd as [Hnd1 Hnd2].
    eexists. split; [unfold link_heap; rewrite lookup_alter_ne, lookup_insert_eq by done; done|].
    split_and!; [done..|]. cbn. split; [done|]. exists (set_prev (Some l) e2).
    split_and!; [|done|by intros ? [= <-]|].
    + unfold link_heap. by rewrite lookup_alter_eq, lookup_insert_ne, He2 by done.
    + cbn. eapply lseg_frame; [|done]. intros l' Hl'. apply link_heap_other; [set_solver|].
      intros [= ->]. done.
Qed.

(** Running hash_table::insert with a new key links a fresh node. *)
Lemma wp_insert_new (t : hash_table) chs fd page slot p ch (Q : unit -> hash_table -> Prop) E :
  chains_ok t chs -> key_ok (fd, page) -> chains_map chs !! (fd, page) = None ->
  hash_table_ t !! key_bucket t (fd, page) = Some p ->
  chs !! key_bucket t (fd, page) = Some ch ->
  Q tt (mk_hash_table (bucket_num_ t) (<[key_bucket t (fd, page) := Some (ht_brk t)]> (hash_table_ t))
          (link_heap (ht_heap t) (ht_brk t) fd page slot p) (Pos.succ (ht_brk t))) ->
  wp (hash_table_insert fd page slot) Q E t.
Proof.
  intros CK Hk Hm Hp Hch HQ. pose proof (lookup_lt_Some _ _ _ Hp) as Hlt.
  assert (forall p', <[key_bucket t (fd, page):=p']> (hash_table_ t) !! key_bucket t (fd, page) = Some p') as Hb.
  { intros p'. by apply list_lookup_insert_eq. }
  unfold hash_table_insert. wp_steps. eapply wp_find; [done..|]. rewrite Hm. cbn.
  wp_steps. apply wp_hash; [done|apply (ck_num _ _ CK)|]. wp_steps.
  unfold new_entry, wp at 1. cbn beta iota. wp_steps.
  eapply wp_bucket_get; [done|]. wp_steps. eapply wp_bucket_set; [done|]. wp_steps.
  eapply wp_bucket_get; [apply Hb|]. eapply wp_store; [apply lookup_insert_eq|]. wp_steps.
  eapply wp_bucket_get; [apply Hb|]. eapply wp_store; [apply lookup_insert_eq|]. cbn.
  rewrite !insert_insert_eq. unfold set_prev, set_next. cbn.
  destruct p as [l2|]; [|by apply wp_ret].
  assert (exists e2, ht_heap t !! l2 = Some e2) as [e2 He2].
  { pose proof (ck_seg _ _ CK _ _ _ Hp Hch) as Hs. destruct ch as [|[l' d'] ch]; cbn in Hs; [done|].
    destruct Hs as ([= ->] & e2 & He2 & _). eauto. }
  assert (l2 <> ht_brk t).
  { intros ->. pose proof (ck_brk _ _ CK (ht_brk t) ltac:(eauto)). lia. }
  wp_steps. eapply wp_bucket_get; [apply Hb|]. eapply wp_store.
  { cbn. rewrite lookup_insert_ne by done. done. }
  unfold link_heap in HQ. unfold set_heap. cbn.
  erewrite alter_insert_Some in HQ; [exact HQ|]. by rewrite lookup_insert_ne.
Qed.

Lemma insert_new_repr (t : hash_table) chs fd page slot p ch :
  chains_ok t chs -> key_ok (fd, page) -> slot <> -1 -> chains_map chs !! (fd, page) = None ->
  hash_table_ t !! key_bucket t (fd, page) = Some p ->
  chs !! key_bucket t (fd, page) = Some ch ->
  ht_repr (mk_hash_table (bucket_num_ t) (<[key_bucket t (fd, page) := Some (ht_brk t)]> (hash_table_ t))
            (link_heap (ht_heap t) (ht_brk t) fd page slot p) (Pos.succ (ht_brk t)))
          (<[(fd, page) := slot]> (chains_map chs)).
Proof.
  intros CK Hk Hslot Hm Hp Hch. set (i := key_bucket t (fd, page)) in *.
  set (n := (ht_brk t, ((fd, page), slot)) : node). set (ch' := n :: ch).
  pose proof (concat_insert_perm chs i ch ch' n Hch (reflexivity _)) as Hpp.
  assert (ht_brk t ∉ (concat chs).*1) as Hfresh.
  { rewrite (ck_dom _ _ CK). intros H. pose proof (ck_brk _ _ CK _ H). lia. }
  assert (NoDup (concat (<[i:=ch']> chs)).*1) as Hnl.
  { rewrite Hpp. cbn. apply NoDup_cons. split; [done|apply CK]. }
  assert (NoDup (concat (<[i:=ch']> chs)).*2.*1) as Hnk.
  { rewrite Hpp. cbn. apply NoDup_cons. split; [|apply CK].
    intros Hin. by apply not_elem_of_list_to_map_2 in Hm. }
  exists (<[i:=ch']> chs). split;
    [|symmetry; by apply (chains_map_add chs i ch ch' (ht_brk t))].
  assert (forall j cj l, chs !! j = Some cj -> l ∈ cj.*1 -> l <> ht_brk t) as Hne.
  { intros j cj l Hj Hl ->. apply Hfresh. apply list_elem_of_fmap in Hl as (m & -> & Hl).
    apply list_elem_of_fmap_2. by eapply elem_of_concat. }
  eapply (chains_ok_update t); [done|exact Hch|done|cbn; done|..]; cbn; [| |done|done| | |].
  - apply lseg_link; [by eapply (ck_seg _ _ CK)| |].
    + intros Hl. by eapply Hne.
    + by eapply chain_nodup.
  - intros j cj l Hj Hcj Hl. apply link_heap_other; [by eapply Hne|]. intros ->.
    pose proof (ck_seg _ _ CK _ _ _ Hp Hch) as Hs. destruct ch as [|[l' d'] c]; cbn in Hs; [done|].
    destruct Hs as ([= ->] & _). eapply (chains_disjoint chs i j); [apply CK|done..|by left|done].
  - intros l. rewrite Hpp, link_heap_dom, <-(ck_dom _ _ CK). cbn. set_solver.
  - intros l k v Hin. apply elem_of_cons in Hin as [[= -> -> ->]|Hin]; [done|].
    by eapply (ck_node _ _ CK).
  - intros l. rewrite link_heap_dom. intros [->|Hl]; [lia|]. pose proof (ck_brk _ _ CK _ Hl). lia.
Qed.

(** ** remove *)

(** Unlinking [l], which [lp] precedes, exactly as the code stores it. *)
Definition unlink_heap (h : gmap loc hash_entry) (lp l : loc) (e : hash_entry) : gmap loc hash_entry :=
  let h1 := match he_next e with None => h | Some ln => alter (set_prev (he_prev e)) ln h end in
  delete l (alter (set_next (he_next e)) lp h1).

#[local] Arguments unlink_heap : simpl never.

Lemma unlink_heap_other h lp l e l' :
  l' <> l -> l' <> lp -> he_next e <> Some l' -> unlink_heap h lp l e !! l' = h !! l'.
Proof.
  intros H1 H2 H3. unfold unlink_heap. rewrite lookup_delete_ne, lookup_alter_ne by done.
  destruct (he_next e); [by rewrite lookup_alter_ne by congruence|done].
Qed.

Lemma unlink_heap_dom h lp l e l' :
  is_Some (unlink_heap h lp l e !! l') <-> l' <> l /\ is_Some (h !! l').
Proof.
  unfold unlink_heap. rewrite lookup_delete_is_Some, lookup_alter_is_Some.
  destruct (he_next e); rewrite ?lookup_alter_is_Some; intuition congruence.
Qed.

(** What the heap looks like around an inner node. *)
Lemma lseg_inner h q p c1 lp dp l d c2 :
  lseg h q p (c1 ++ (lp, dp) :: (l, d) :: c2) None ->
  exists ep e, h !! lp = Some ep /\ h !! l = Some e /\ he_prev e = Some lp /\ he_next ep = Some l /\
    he_data e = d /\ lseg h (Some (Some l)) (he_next e) c2 None.
Proof.
  intros (pm & _ & Hs)%lseg_app. cbn in Hs.
  destruct Hs as (-> & ep & Hep & _ & _ & Hn & e & He & Hd & Hpe & Hs).
  exists ep, e. split_and!; auto.
Qed.

Lemma lseg_unlink h q p c1 lp dp l d c2 e :
  lseg h q p (c1 ++ (lp, dp) :: (l, d) :: c2) None ->
  NoDup (c1 ++ (lp, dp) :: (l, d) :: c2).*1 -> h !! l = Some e ->
  lseg (unlink_heap h lp l e) q p (c1 ++ (lp, dp) :: c2) None.
Proof.
  intros Hs Hnd He. apply lseg_app in Hs as (pm & Hs1 & Hs2).
  rewrite fmap_app in Hnd. cbn in Hnd, Hs2.
  destruct Hs2 as (-> & ep & Hep & Hdp & Hqp & Hn & e' & He' & Hd & Hpe & Hs2).
  rewrite He in He'. simplify_eq. specialize (Hpe _ eq_refl).
  apply NoDup_app in Hnd as (Hnd1 & Hd1 & Hnd2).
  apply NoDup_cons in Hnd2 as [Hp1 Hnd2]. apply NoDup_cons in Hnd2 as [Hl1 Hnd2].
  apply not_elem_of_cons in Hp1 as [Hp1 Hp2].
  assert (forall ln, he_next e' = Some ln -> exists c2', c2.*1 = ln :: c2') as Hnx.
  { intros ln Hln. rewrite Hln in Hs2. destruct c2 as [|[l2 d2] c2]; cbn in Hs2; [done|].
    destruct Hs2 as ([= ->] & _). eauto. }
  apply lseg_app. exists (Some lp). split.
  - eapply lseg_frame; [|done]. intros l' Hl'. specialize (Hd1 l' Hl').
    apply not_elem_of_cons in Hd1 as [Hd1 Hd2]. apply not_elem_of_cons in Hd2 as [Hd2 Hd3].
    apply unlink_heap_other; [done..|]. intros Heq. destruct (Hnx _ Heq) as [c2' Hc2].
    apply Hd3. rewrite Hc2. by left.
  - cbn. split; [done|]. exists (set_next (he_next e') ep). split_and!; [|done|done|].
    { unfold unlink_heap. rewrite lookup_delete_ne by done. rewrite lookup_alter_eq.
      destruct (he_next e') as [ln|] eqn:Hln; [|by rewrite Hep].
      rewrite lookup_alter_ne, Hep; [done|]. intros ->.
      destruct (Hnx _ eq_refl) as [c2' Hc2]. apply Hp2. rewrite Hc2. by left. }
    cbn. destruct c2 as [|[l2 d2] c2]; cbn in Hs2 |- *; [done|].
    destruct Hs2 as (Hnl & e2 & He2 & Hd2 & _ & Hs2). split; [done|].
    cbn in Hp2, Hl1, Hnd2. apply not_elem_of_cons in Hp2 as [Hp2 Hp3].
    apply not_elem_of_cons in Hl1 as [Hl1 Hl2]. apply NoDup_cons in Hnd2 as [Hn2 Hnd2].
    exists (set_prev (Some lp) e2). split_and!; [|done|by intros ? [= <-]|].
    + unfold unlink_heap. rewrite Hnl, lookup_delete_ne, lookup_alter_ne by done.
      by rewrite lookup_alter_eq, He2, Hpe.
    + cbn. eapply lseg_frame; [|done]. intros l' Hl'. rewrite unlink_heap_other; [done|..].
      * intros ->. done.
      * intros ->. done.
      * rewrite Hnl. intros [= ->]. done.
Qed.

(** The heap and the bucket array after the removal of node [l] of [c1 ++ (l, d) :: c2]. *)
Definition removed (t : hash_table) (i : nat) (c1 : list node) (l : loc) (e : hash_entry) : hash_table :=
  match last c1 with
  | None => set_heap (delete l (ht_heap t)) (set_buckets (<[i := he_next e]> (hash_table_ t)) t)
  | Some (lp, _) => set_heap (unlink_heap (ht_heap t) lp l e) t
  end.

(** The last branches of hash_table::remove, for an entry that is not the head. *)
Lemma wp_unlink (t : hash_table) q p c1 lp dp l d c2 e (Q : unit -> hash_table -> Prop) E :
  lseg (ht_heap t) q p (c1 ++ (lp, dp) :: (l, d) :: c2) None ->
  NoDup (c1 ++ (lp, dp) :: (l, d) :: c2).*1 -> ht_heap t !! l = Some e ->
  Q tt (set_heap (unlink_heap (ht_heap t) lp l e) t) ->
  wp (unlink_entry (Some l)) Q E t.
Proof.
  intros Hs Hnd He HQ. unfold unlink_entry.
  destruct (lseg_inner _ _ _ _ _ _ _ _ _ Hs) as (ep & e' & Hep & He' & Hpe & _ & _ & Hs2).
  rewrite He in He'. simplify_eq.
  rewrite fmap_app in Hnd. apply NoDup_app in Hnd as (_ & _ & Hnd). cbn in Hnd.
  apply NoDup_cons in Hnd as [Hlp Hnd]. apply not_elem_of_cons in Hlp as [Hlp Hlp2].
  apply NoDup_cons in Hnd as [Hl2 _].
  wp_steps. eapply wp_load; [done|]. unfold unlink_heap in HQ.
  destruct (he_next e') as [ln|] eqn:Hn; wp_steps.
  - destruct c2 as [|[l2 d2] c2]; cbn in Hs2; [done|]. destruct Hs2 as ([= <-] & en & Hen & _).
    cbn in Hl2, Hlp2. apply not_elem_of_cons in Hl2 as [Hl2 _], Hlp2 as [Hlp2 _].
    eapply wp_store; [done|]. wp_steps.
    eapply wp_load; [cbn; by rewrite lookup_insert_ne by done|]. wp_steps.
    rewrite Hpe in HQ |- *. rewrite (alter_insert_Some _ _ _ _ Hen) in HQ.
    eapply wp_store; [cbn; by rewrite lookup_insert_ne by done|]. cbn.
    erewrite alter_insert_Some in HQ by (by rewrite lookup_insert_ne by done).
    eapply wp_delete_entry; [cbn; by rewrite !lookup_insert_ne by done|]. rewrite Hn. exact HQ.
  - rewrite Hpe. eapply wp_store; [done|]. wp_steps.
    rewrite (alter_insert_Some _ _ _ _ Hep) in HQ.
    eapply wp_delete_entry; [cbn; by rewrite lookup_insert_ne by done|]. exact HQ.
Qed.

Lemma wp_remove_found (t : hash_table) chs fd page p c1 l v c2 e (Q : unit -> hash_table -> Prop) E :
  chains_ok t chs -> key_ok (fd, page) ->
  let i := key_bucket t (fd, page) in
  hash_table_ t !! i = Some p -> chs !! i = Some (c1 ++ (l, ((fd, page), v)) :: c2) ->
  ht_heap t !! l = Some e ->
  Q tt (removed t i c1 l e) ->
  wp (hash_table_remove fd page) Q E t.
Proof.
  intros CK Hk i Hp Hch He HQ. unfold hash_table_remove. wp_steps.
  set (ch := c1 ++ (l, ((fd, page), v)) :: c2) in *.
  pose proof (ck_seg _ _ CK _ _ _ Hp Hch) as Hs.
  destruct (chain_nodup _ _ CK _ _ Hch) as [Hndl Hndk].
  assert ((l, ((fd, page), v)) ∈ ch) as Hin by set_solver.
  destruct (ck_node _ _ CK _ _ _ _ _ Hch Hin) as (_ & _ & Hv).
  eapply wp_find; [done..|].
  rewrite (proj2 (bucket_map _ _ CK (fd, page) ch Hch v)) by eauto. cbn.
  destruct (Z.eqb_spec v (-1)); [done|]. wp_steps.
  apply wp_hash; [done|apply (ck_num _ _ CK)|]. fold i. wp_steps.
  eapply wp_bucket_get; [done|]. wp_steps. eapply wp_remove_loop; [exact Hs| | |done|].
  { pose proof (chain_length _ _ CK _ _ Hch) as Hlen. unfold chain_fuel. fold ch. lia. }
  { unfold ch in Hndk. rewrite !fmap_app in Hndk. apply NoDup_app in Hndk as (_ & Hd & _).
    intros Hin1. eapply Hd; [done|]. by left. }
  wp_steps. eapply wp_bucket_get; [done|]. unfold removed in HQ.
  destruct c1 as [|[lp dp] c1 _] using rev_ind.
  - cbn in Hs. destruct Hs as (-> & _). rewrite bool_decide_eq_true_2 by done.
    wp_steps. eapply wp_load; [done|]. wp_steps. eapply wp_bucket_set; [done|]. wp_steps.
    eapply wp_delete_entry; [done|]. exact HQ.
  - rewrite last_snoc in HQ. unfold ch in Hs, Hndl. rewrite <-app_assoc in Hs, Hndl.
    cbn [app] in Hs, Hndl. rewrite bool_decide_eq_false_2; [by eapply wp_unlink|]. intros <-.
    rewrite fmap_app in Hndl. apply NoDup_app in Hndl as (_ & Hd1 & Hnd2). cbn in Hd1, Hnd2.
    apply NoDup_cons in Hnd2 as [Hlp _]. apply not_elem_of_cons in Hlp as [Hlp _].
    destruct c1 as [|[l0 d0] c1]; cbn in Hs; destruct Hs as ([= ->] & _); [done|].
    eapply (Hd1 l0); [by left|]. right. by left.
Qed.

Lemma removed_repr (t : hash_table) chs fd page p c1 l v c2 e :
  chains_ok t chs ->
  let i := key_bucket t (fd, page) in
  hash_table_ t !! i = Some p -> chs !! i = Some (c1 ++ (l, ((fd, page), v)) :: c2) ->
  ht_heap t !! l = Some e ->
  ht_repr (removed t i c1 l e) (delete (fd, page) (chains_map chs)).
Proof.
  intros CK i Hp Hch He. set (ch := c1 ++ (l, ((fd, page), v)) :: c2) in *. set (ch' := c1 ++ c2).
  pose proof (ck_seg _ _ CK _ _ _ Hp Hch) as Hs.
  destruct (chain_nodup _ _ CK _ _ Hch) as [Hndl _].
  assert (ch ≡ₚ (l, ((fd, page), v)) :: ch') as Hperm.
  { unfold ch, ch'. by rewrite Permutation_middle. }
  destruct (chains_map_drop chs i ch ch' l (fd, page) v Hch Hperm (ck_keys _ _ CK)) as [Hpp <-].
  pose proof (ck_locs _ _ CK) as Hl. pose proof (ck_keys _ _ CK) as Hkk.
  rewrite Hpp in Hl, Hkk. cbn in Hl, Hkk. apply NoDup_cons in Hl as [Hl1 Hl2], Hkk as [_ Hk2].
  exists (<[i:=ch']> chs). split; [|done].
  assert (forall l', is_Some (ht_heap (removed t i c1 l e) !! l') <-> l' <> l /\ is_Some (ht_heap t !! l')) as Hdom.
  { intros l'. unfold removed. destruct (last c1) as [[lp dp]|]; cbn; [apply unlink_heap_dom|].
    rewrite lookup_delete_is_Some. intuition congruence. }
  assert (forall lx, lx ∈ c1.*1 \/ lx = l \/ lx ∈ c2.*1 -> lx ∈ ch.*1) as Hlx.
  { intros lx. unfold ch. rewrite fmap_app. cbn. set_solver. }
  assert (forall j cj l', j <> i -> chs !! j = Some cj -> l' ∈ cj.*1 -> l' ∉ ch.*1) as Hdis.
  { intros j cj l' Hj Hcj Hl'. by eapply (chains_disjoint chs j i); [apply CK|..]. }
  eapply (chains_ok_update t) with (p' := match last c1 with None => he_next e | Some _ => p end);
    [done|exact Hch|..]; [| | | |done|done| | |].
  - unfold removed. by destruct (last c1) as [[??]|].
  - unfold removed. destruct (last c1) as [[??]|]; cbn; [|done]. by rewrite list_insert_id.
  - unfold removed, ch', ch in *. destruct c1 as [|[lp dp] c1 _] using rev_ind.
    + cbn in Hs, Hndl |- *. destruct Hs as (_ & e' & He' & _ & _ & Hs). rewrite He in He'. simplify_eq.
      apply NoDup_cons in Hndl as [Hnl _].
      eapply lseg_frame; [|by eapply lseg_weaken]. intros l' Hl'. rewrite lookup_delete_ne; set_solver.
    + rewrite last_snoc. cbn. rewrite <-app_assoc in Hs, Hndl |- *. cbn [app] in Hs, Hndl |- *.
      eapply lseg_unlink; [exact Hs|exact Hndl|exact He].
  - intros j cj l' Hj Hcj Hl'. pose proof (Hdis _ _ _ Hj Hcj Hl') as Hno.
    unfold removed. destruct (last c1) as [[lp dp]|] eqn:Hlast; cbn.
    + apply last_Some in Hlast as [c1' ->]. unfold ch in Hs. rewrite <-app_assoc in Hs.
      destruct (lseg_inner _ _ _ _ _ _ _ _ _ Hs) as (_ & e' & _ & He' & _ & _ & _ & Hs2).
      rewrite He in He'. simplify_eq. apply unlink_heap_other.
      * intros ->. apply Hno, Hlx. auto.
      * intros ->. apply Hno, Hlx. left. rewrite fmap_app. set_solver.
      * intros Hn. rewrite Hn in Hs2. destruct c2 as [|[l2 d2] c2]; cbn in Hs2; [done|].
        destruct Hs2 as ([= ->] & _). apply Hno, Hlx. right. right. by left.
    + rewrite lookup_delete_ne; [done|]. intros ->. apply Hno, Hlx. auto.
  - intros l'. rewrite Hdom, <-(ck_dom _ _ CK), Hpp. cbn. rewrite elem_of_cons. split.
    + intros Hin. split; [|by right]. intros ->. done.
    + intros [Hne [?|?]]; done.
  - intros l' k' v' Hin. eapply (ck_node _ _ CK _ _ l'); [exact Hch|]. unfold ch, ch' in *. set_solver.
  - intros l' [_ Hl']%Hdom. replace (ht_brk (removed t i c1 l e)) with (ht_brk t); [by apply CK|].
    unfold removed. by destruct (last c1) as [[??]|].
Qed.

(** * The contract the buffer manager relies on *)

Section contract.
Context (t : hash_table) (m : gmap (Z * Z) Z) (R : ht_repr t m).

Lemma hash_table_find_spec fd page (Q : Z -> hash_table -> Prop) E :
  key_ok (fd, page) -> Q (default (-1) (m !! (fd, page))) t ->
  wp (hash_table_find fd page) Q E t.
Proof. destruct R as (chs & CK & ->). intros. by eapply wp_find. Qed.

(** No stored slot is -1, so the -1 of find always means absence. *)
Lemma ht_repr_slot k v : m !! k = Some v -> v <> -1 /\ key_ok k.
Proof.
  destruct R as (chs & CK & ->). intros (l & Hin)%(chains_map_Some _ _ CK).
  apply list_elem_of_In, in_concat in Hin as (ch & Hch & Hn).
  apply list_elem_of_In in Hch, Hn. apply list_elem_of_lookup in Hch as [i Hi].
  destruct (ck_node _ _ CK _ _ _ _ _ Hi Hn) as (? & _ & ?). done.
Qed.

Lemma hash_table_insert_spec fd page slot (Q : unit -> hash_table -> Prop) E :
  key_ok (fd, page) -> slot <> -1 ->
  (forall t', ht_repr t' (if m !! (fd, page) is Some _ then m else <[(fd, page) := slot]> m) -> Q tt t') ->
  wp (hash_table_insert fd page slot) Q E t.
Proof.
  intros Hk Hslot HQ. destruct (m !! (fd, page)) as [v|] eqn:Hm.
  - destruct (ht_repr_slot _ _ Hm) as [Hv _]. unfold hash_table_insert. wp_steps.
    apply hash_table_find_spec; [done|]. rewrite Hm. cbn.
    destruct (Z.eqb_spec v (-1)); [done|]. by apply wp_ret, HQ.
  - destruct R as (chs & CK & ->).
    destruct (key_bucket_lookup _ _ CK (fd, page) Hk) as (p & ch & Hp & Hch & _).
    eapply wp_insert_new; [done..|]. apply HQ. by eapply insert_new_repr.
Qed.

Lemma hash_table_remove_spec fd page (Q : unit -> hash_table -> Prop) E :
  key_ok (fd, page) ->
  (forall t', ht_repr t' (delete (fd, page) m) -> Q tt t') ->
  wp (hash_table_remove fd page) Q E t.
Proof.
  intros Hk HQ. destruct (m !! (fd, page)) as [v|] eqn:Hm.
  - destruct R as (chs & CK & ->).
    destruct (key_bucket_lookup _ _ CK (fd, page) Hk) as (p & ch & Hp & Hch & _).
    apply (bucket_map _ _ CK _ _ Hch) in Hm as [l Hin].
    apply list_elem_of_split in Hin as (c1 & c2 & ->).
    assert (exists e, ht_heap t !! l = Some e) as [e He].
    { apply (ck_dom _ _ CK). apply list_elem_of_fmap. exists (l, ((fd, page), v)). split; [done|].
      eapply elem_of_concat; [exact Hch|]. set_solver. }
    eapply wp_remove_found; [done..|]. apply HQ. by eapply removed_repr.
  - unfold hash_table_remove. wp_steps. apply hash_table_find_spec; [done|]. rewrite Hm. cbn.
    apply wp_ret, HQ. by rewrite (delete_id m).
Qed.
End contract.

Lemma hash_table_new_repr n : 0 < n -> ht_repr (hash_table_new n) ∅.
Proof.
  intros Hn. exists (replicate (Z.to_nat n) []).
  assert (forall k, concat (replicate k (@nil node)) = []) as Hc by (induction k; done).
  split; [|unfold chains_map; by rewrite Hc].
  split; cbn; rewrite ?length_replicate, ?Hc; try done; try apply NoDup_nil_2.
  - intros i p ch [-> _]%lookup_replicate [-> _]%lookup_replicate. done.
  - intros l. rewrite lookup_empty. split; [by intros ?%not_elem_of_nil|by intros []].
  - intros i ch l k v [-> _]%lookup_replicate Hin. by apply not_elem_of_nil in Hin.
  - intros l. rewrite lookup_empty. by intros [].
Qed.

(** * A history of operations *)

Inductive ht_op :=
| OpFind (fd page : Z)
| OpInsert (fd page slot : Z)
| OpRemove (fd page : Z).

Definition run_op (o : ht_op) : M hash_table (option Z) :=
  match o with
  | OpFind fd page => v ← hash_table_find fd page; mret (Some v)
  | OpInsert fd page slot => _ ← hash_table_insert fd page slot; mret None
  | OpRemove fd page => _ ← hash_table_remove fd page; mret None
  end.

Fixpoint run_ops (os : list ht_op) : M hash_table (list (option Z)) :=
  match os with
  | [] => mret []
  | o :: os => r ← run_op o; rs ← run_ops os; mret (r :: rs)
  end.

(** What the same history does to a finite map. *)
Definition map_op (o : ht_op) (m : gmap (Z * Z) Z) : option Z * gmap (Z * Z) Z :=
  match o with
  | OpFind fd page => (Some (default (-1) (m !! (fd, page))), m)
  | OpInsert fd page slot => (None, if m !! (fd, page) is Some _ then m else <[(fd, page) := slot]> m)
  | OpRemove fd page => (None, delete (fd, page) m)
  end.

Fixpoint map_ops (os : list ht_op) (m : gmap (Z * Z) Z) : list (option Z) * gmap (Z * Z) Z :=
  match os with
  | [] => ([], m)
  | o :: os =>
      let '(r, m) := map_op o m in
      let '(rs, m) := map_ops os m in (r :: rs, m)
  end.

(** Keys whose hash is a bucket index, and slots other than the not-found value. *)
Definition op_ok (o : ht_op) : Prop :=
  match o with
  | OpFind fd page | OpRemove fd page => key_ok (fd, page)
  | OpInsert fd page slot => key_ok (fd, page) /\ slot <> -1
  end.

Lemma run_op_spec o t m (Q : option Z -> hash_table -> Prop) E :
  ht_repr t m -> op_ok o ->
  (forall t', ht_repr t' (map_op o m).2 -> Q (map_op o m).1 t') ->
  wp (run_op o) Q E t.
Proof.
  intros R Ho HQ. destruct o as [fd page|fd page slot|fd page]; cbn in *; wp_steps.
  - eapply hash_table_find_spec; [done..|]. apply wp_ret. by apply HQ.
  - destruct Ho. eapply hash_table_insert_spec; [done..|]. intros t' R'. apply wp_ret. by apply HQ.
  - eapply hash_table_remove_spec; [done..|]. intros t' R'. apply wp_ret. by apply HQ.
Qed.

Lemma run_ops_spec os t m (Q : list (option Z) -> hash_table -> Prop) E :
  ht_repr t m -> Forall op_ok os ->
  (forall t', ht_repr t' (map_ops os m).2 -> Q (map_ops os m).1 t') ->
  wp (run_ops os) Q E t.
Proof.
  intros R Hos. revert t m R Q. induction Hos as [|o os Ho Hos IH]; intros t m R Q HQ; cbn.
  { by apply wp_ret, HQ. }
  wp_steps. eapply run_op_spec; [done..|]. intros t' R'. wp_steps.
  eapply IH; [done|]. intros t'' R''. apply wp_ret.
  cbn in HQ. destruct (map_op o m) as [r m']. cbn in *.
  destruct (map_ops os m') as [rs m'']. by apply HQ.
Qed.

(** * The destructor *)

Definition delete_all (ls : list loc) (h : gmap loc hash_entry) : gmap loc hash_entry :=
  foldr delete h ls.

Lemma delete_all_lookup ls h l : delete_all ls h !! l = if decide (l ∈ ls) then None else h !! l.
Proof.
  induction ls as [|l' ls IH]; [by rewrite decide_False by apply not_elem_of_nil|].
  change (delete_all (l' :: ls) h) with (delete l' (delete_all ls h)). rewrite lookup_delete, IH. repeat case_decide; set_solver.
Qed.

Lemma delete_all_comm ls l h : delete_all ls (delete l h) = delete l (delete_all ls h).
Proof.
  apply map_eq. intros l'. rewrite lookup_delete, !delete_all_lookup, lookup_delete.
  by repeat case_decide.
Qed.

Lemma wp_free_chain (t : hash_table) fuel q p ch (Q : unit -> hash_table -> Prop) E :
  lseg (ht_heap t) q p ch None -> NoDup ch.*1 -> (length ch < fuel)%nat ->
  Q tt (set_heap (delete_all ch.*1 (ht_heap t)) t) -> wp (free_chain fuel p) Q E t.
Proof.
  revert t fuel q p. induction ch as [|[l d] ch IH]; intros t [|fuel] q p Hs Hnd Hf HQ;
    cbn in Hs, Hnd, Hf; try lia.
  { subst p. apply wp_ret. cbn in HQ. by destruct t. }
  destruct Hs as (-> & e & He & _ & _ & Hs). apply NoDup_cons in Hnd as [Hl Hnd]. cbn.
  wp_steps. eapply wp_load; [done|]. wp_steps. eapply wp_delete_entry; [done|].
  eapply IH; [|done|lia|].
  - cbn. eapply lseg_frame; [|done]. intros l' Hl'. rewrite lookup_delete_ne; set_solver.
  - cbn. rewrite delete_all_comm. exact HQ.
Qed.

Lemma wp_destroy_loop (t : hash_table) chs i (Q : unit -> hash_table -> Prop) E :
  (forall k ch, chs !! k = Some ch -> exists p, hash_table_ t !! (i + k)%nat = Some p /\
     lseg (ht_heap t) None p ch None) ->
  NoDup (concat chs).*1 -> (forall l, l ∈ (concat chs).*1 <-> is_Some (ht_heap t !! l)) ->
  Q tt (set_heap ∅ t) -> wp (destroy_loop (length chs) (Z.of_nat i)) Q E t.
Proof.
  revert t i. induction chs as [|ch chs IH]; intros t i Hseg Hnd Hdom HQ; cbn.
  { apply wp_ret. replace t with (set_heap ∅ t); [done|]. destruct t as [n b h k]. cbn in *.
    unfold set_heap. cbn. f_equal. symmetry. apply map_eq. intros l. rewrite lookup_empty.
    destruct (h !! l) eqn:E'; [|done]. assert (l ∈ @nil loc) as []%not_elem_of_nil.
    apply Hdom. by rewrite E'. }
  pose proof (nodup_dom_size _ _ Hnd Hdom) as Hsz.
  destruct (Hseg 0%nat ch eq_refl) as (p & Hp & Hs). rewrite Nat.add_0_r in Hp.
  cbn in Hnd, Hdom, Hsz. rewrite fmap_app in Hnd, Hsz. setoid_rewrite fmap_app in Hdom.
  apply NoDup_app in Hnd as (Hn1 & Hn2 & Hn3). rewrite length_app, !length_fmap in Hsz.
  wp_steps. eapply wp_bucket_get; [done|]. wp_steps.
  eapply wp_free_chain; [done|done|unfold chain_fuel; lia|].
  replace (Z.of_nat i + 1) with (Z.of_nat (S i)) by lia. apply IH; [|done| |exact HQ].
  - intros k ck Hk. destruct (Hseg (S k) ck Hk) as (pk & Hpk & Hsk).
    exists pk. split; [cbn; rewrite <-Hpk; f_equal; lia|]. cbn.
    eapply lseg_frame; [|done]. intros l Hl. rewrite delete_all_lookup, decide_False; [done|].
    intros Hl'. eapply Hn2; [done|]. apply list_elem_of_fmap in Hl as (n & -> & Hn).
    apply list_elem_of_fmap_2. by eapply elem_of_concat.
  - intros l. cbn. rewrite delete_all_lookup. specialize (Hdom l). rewrite elem_of_app in Hdom.
    case_decide as Hd; [|tauto]. split; [|by intros []]. intros Hl. by destruct (Hn2 l).
Qed.

Lemma hash_table_destroy_ends (t : hash_table) (m : gmap (Z * Z) Z) :
  ht_repr t m ->
  exists t', hash_table_destroy t = Ret tt t' /\ ht_heap t' = ∅ /\ hash_table_ t' = [].
Proof.
  intros (chs & CK & _).
  destruct (wp_no_exn hash_table_destroy
    (fun _ t' => ht_heap t' = ∅ /\ hash_table_ t' = []) t) as ([] & t' & Hr & HQ); [|by exists t'].
  unfold hash_table_destroy. wp_steps. rewrite <-(ck_len _ _ CK).
  apply (wp_destroy_loop t chs 0%nat); [|apply CK|apply CK|by apply wp_modify].
  intros k ch Hk. destruct (lookup_lt_is_Some_2 (hash_table_ t) k) as [p Hp].
  { rewrite (ck_buckets _ _ CK), <-(ck_len _ _ CK). by eapply lookup_lt_Some. }
  exists p. split; [done|]. by eapply (ck_seg _ _ CK).
Qed.

(** * Properties *)

(** C1. Refinement of hash_table by a finite map: from a new table any
    history of find, insert and remove, on keys whose bucket index is defined
    and slots other than -1, runs without reading a null or freed pointer and
    without looping, and answers exactly what the finite map from (fd, page)
    to slot answers (an insert of a present key changes nothing). *)
Theorem hash_table_refines_map (n : Z) (os : list ht_op) :
  0 < n -> Forall op_ok os ->
  exists t, run_ops os (hash_table_new n) = Ret (map_ops os ∅).1 t /\ ht_repr t (map_ops os ∅).2.
Proof.
  intros Hn Hos.
  destruct (wp_no_exn (run_ops os)
    (fun r t => r = (map_ops os ∅).1 /\ ht_repr t (map_ops os ∅).2) (hash_table_new n))
    as (r & t & Hr & -> & R); [|by exists t].
  eapply run_ops_spec; [by apply hash_table_new_repr|done|]. done.
Qed.

Lemma hash_table_refines_map_witness :
  exists t, run_ops [OpInsert 3 1 0; OpInsert 23 1 1; OpInsert 43 1 2; OpRemove 23 1; OpFind 43 1; OpFind 23 1]
              (hash_table_new 20) = Ret [None; None; None; None; Some 2; Some (-1)] t /\
            ht_repr t {[ (43, 1) := 2; (3, 1) := 0 ]}.
Proof.
  destruct (hash_table_refines_map 20
    [OpInsert 3 1 0; OpInsert 23 1 1; OpInsert 43 1 2; OpRemove 23 1; OpFind 43 1; OpFind 23 1])
    as (t & Hr & R).
  - lia.
  - repeat constructor; cbn; unfold INT_MAX; lia.
  - exists t. split; [exact Hr|].
    replace ({[ (43, 1) := 2; (3, 1) := 0 ]} : gmap (Z * Z) Z)
      with (map_ops [OpInsert 3 1 0; OpInsert 23 1 1; OpInsert 43 1 2; OpRemove 23 1; OpFind 43 1; OpFind 23 1] ∅).2;
      [exact R|by vm_compute].
Defined.

(** C7. The destructor of hash_table on any table reached through the API
    frees every entry exactly once: no dangling access, no endless chain, and
    nothing is left allocated, although remove leaves the prev pointer of a new
    bucket head dangling. *)
Theorem hash_table_destroy_frees_all (t : hash_table) (m : gmap (Z * Z) Z) :
  ht_repr t m ->
  exists t', hash_table_destroy t = Ret tt t' /\ ht_heap t' = ∅ /\ hash_table_ t' = [].
Proof. apply hash_table_destroy_ends. Qed.

Definition destroyed_ops : list ht_op := [OpInsert 3 1 0; OpInsert 23 1 1; OpInsert 43 1 2; OpRemove 43 1; OpInsert 4 1 3].

Definition destroyed_table : hash_table :=
  match run_ops destroyed_ops (hash_table_new 20) with Ret _ t => t | _ => hash_table_new 20 end.

Lemma hash_table_destroy_frees_all_witness :
  length (map_to_list (ht_heap destroyed_table)) = 3%nat /\
  exists t', hash_table_destroy destroyed_table = Ret tt t' /\ ht_heap t' = ∅ /\ hash_table_ t' = [].
Proof.
  split; [vm_compute; reflexivity|]. apply (hash_table_destroy_frees_all destroyed_table (map_ops destroyed_ops ∅).2).
  assert (wp (run_ops destroyed_ops) (fun _ t => ht_repr t (map_ops destroyed_ops ∅).2) (fun _ _ => False) (hash_table_new 20)) as Hw.
  { eapply run_ops_spec; [by apply hash_table_new_repr| |done]. repeat constructor; cbn; unfold INT_MAX; lia. }
  exact (wp_returns _ _ _ _ [None; None; None; None; None] destroyed_table Hw ltac:(vm_compute; reflexivity)).
Defined.
