(* ===== verification/Unix.v ===== *)
(** The operating-system interface the storage layer calls (open, close, unlink,
    lseek, read, write of unistd.h and fcntl.h).  It is a parameter of the
    model: the class [Unix] gives the calls, [UnixLaws] the documented behaviour
    the properties rely on.  [MemFs], a file system held in memory, is an
    instance that satisfies the laws and on which runs can be evaluated. *)
From S2P Require Import Prelude.

(** * Files as byte sequences *)

(** Writing [d] at offset [off]; the gap behind the end of the file reads as zeros. *)
Definition file_write (l : list byte) (off : nat) (d : list byte) : list byte :=
  take off (l ++ replicate (off - length l) Byte.x00) ++ d ++ drop (off + length d) l.

(** The block of [n] bytes at [off], if the file has all of it. *)
Definition file_block (l : list byte) (off n : nat) : option (list byte) :=
  if decide (off + n <= length l)%nat then Some (take n (drop off l)) else None.

Lemma length_file_write l off d :
  length (file_write l off d) = Nat.max (length l) (off + length d).
Proof.
  unfold file_write. rewrite !length_app, length_take, length_app, length_replicate, length_drop. lia.
Qed.

Lemma file_write_lookup l off d i :
  file_write l off d !! i =
    if decide (off <= i < off + length d)%nat then d !! (i - off)%nat
    else if decide (i < off)%nat then (l ++ replicate (off - length l) Byte.x00) !! i
    else l !! i.
Proof.
  unfold file_write.
  assert (length (take off (l ++ replicate (off - length l) Byte.x00)) = off) as Hl.
  { rewrite length_take, length_app, length_replicate. lia. }
  destruct (decide (i < off)%nat).
  - rewrite decide_False by lia. rewrite lookup_app_l by lia. by rewrite lookup_take_lt.
  - rewrite lookup_app_r, Hl by lia. case_decide.
    + by rewrite lookup_app_l by lia.
    + rewrite lookup_app_r by lia. rewrite lookup_drop. f_equal. lia.
Qed.

Lemma file_block_Some l off n d :
  file_block l off n = Some d <->
  length d = n /\ (off + n <= length l)%nat /\ forall i, (i < n)%nat -> d !! i = l !! (off + i)%nat.
Proof.
  unfold file_block. case_decide as Hd; split.
  - intros [= <-]. split_and!; [rewrite length_take, length_drop; lia|done|].
    intros i Hi. by rewrite lookup_take_lt, lookup_drop.
  - intros (Hlen & _ & Hi). f_equal. apply list_eq_same_length with n; [done| |].
    + rewrite length_take, length_drop. lia.
    + intros i x y Hlt Hx Hy. rewrite lookup_take_lt, lookup_drop, <-Hi in Hx by done. congruence.
  - done.
  - intros (_ & ? & _). lia.
Qed.

(** What was just written is read back. *)
Lemma file_block_write_same l off d : file_block (file_write l off d) off (length d) = Some d.
Proof.
  apply file_block_Some. split_and!; [done|rewrite length_file_write; lia|].
  intros i Hi. rewrite file_write_lookup, decide_True by lia. f_equal. lia.
Qed.

(** A write outside a block leaves it alone. *)
Lemma file_block_write_other l off d off' n b :
  (off' + n <= off)%nat \/ (off + length d <= off')%nat ->
  file_block l off' n = Some b -> file_block (file_write l off d) off' n = Some b.
Proof.
  intros Hdis (Hlen & Hle & Hi)%file_block_Some. apply file_block_Some.
  split_and!; [done|rewrite length_file_write; lia|].
  intros i Hlt. rewrite (Hi i Hlt), file_write_lookup, decide_False by lia.
  case_decide; [|done]. by rewrite lookup_app_l by lia.
Qed.

(** * The calls *)

Class Unix (U : Type) := {
  u_open : string -> U -> Z * U;                  (* open(filename, O_RDWR) *)
  u_create : string -> U -> Z * U;                (* open(filename, O_CREAT | O_EXCL | O_WRONLY, 0600) *)
  u_close : Z -> U -> Z * U;
  u_unlink : string -> U -> Z * U;
  u_lseek : Z -> Z -> U -> Z * U;                 (* lseek(fd, offset, SEEK_SET) *)
  u_read : Z -> nat -> U -> (Z * list byte) * U;  (* result and the bytes stored *)
  u_write : Z -> list byte -> U -> Z * U;
  (* what the calls act on: the bytes behind a descriptor and its offset *)
  u_bytes : U -> Z -> list byte;
  u_offset : U -> Z -> nat;
  u_separate : U -> Prop;                         (* distinct descriptors name distinct files *)
}.

Class UnixLaws (U : Type) `{Unix U} : Prop := {
  open_ok name u fd u' : u_open name u = (fd, u') -> 0 <= fd -> u_offset u' fd = 0%nat;
  lseek_ok fd off u r u' : u_lseek fd off u = (r, u') ->
    (forall fd', u_bytes u' fd' = u_bytes u fd') /\ (u_separate u -> u_separate u') /\
    (0 <= r -> r = off /\ u_offset u' fd = Z.to_nat off);
  read_ok fd n u r bs u' : u_read fd n u = ((r, bs), u') ->
    (forall fd', u_bytes u' fd' = u_bytes u fd') /\ (u_separate u -> u_separate u') /\
    (length bs <= n)%nat /\
    (0 <= r -> r = Z.of_nat (length bs) /\
       bs = take (length bs) (drop (u_offset u fd) (u_bytes u fd)));
  write_ok fd bs u r u' : u_write fd bs u = (r, u') ->
    (u_separate u -> u_separate u' /\ forall fd', fd' <> fd -> u_bytes u' fd' = u_bytes u fd') /\
    (r < 0 -> u_bytes u' fd = u_bytes u fd) /\
    (0 <= r -> (Z.to_nat r <= length bs)%nat /\
       u_bytes u' fd = file_write (u_bytes u fd) (u_offset u fd) (take (Z.to_nat r) bs));
}.

(** The names behind the descriptors, which creating, opening and closing act on. *)
Class UnixNames (U : Type) := {
  u_names : U -> gmap Z string;                   (* the open descriptors *)
  u_file : U -> string -> option (list byte);     (* the content of a file by its name *)
}.

(** The number of descriptors a process may have. *)
Definition OPEN_MAX : Z := 1024.

Class UnixNameLaws (U : Type) `{Unix U, UnixNames U} : Prop := {
  lseek_names fd off u r u' : u_lseek fd off u = (r, u') -> u_names u' = u_names u;
  read_names fd n u r u' : u_read fd n u = (r, u') -> u_names u' = u_names u;
  write_names fd bs u r u' : u_write fd bs u = (r, u') -> u_names u' = u_names u;
  create_names name u fd u' : u_create name u = (fd, u') -> 0 <= fd -> u_separate u ->
    fd < OPEN_MAX /\ u_names u !! fd = None /\ u_names u' = <[fd := name]> (u_names u) /\ u_separate u' /\
    u_bytes u' fd = [] /\ u_offset u' fd = 0%nat /\ forall fd', fd' <> fd -> u_bytes u' fd' = u_bytes u fd';
  open_names name u fd u' : u_open name u = (fd, u') -> 0 <= fd -> u_separate u ->
    (forall fd', u_names u !! fd' <> Some name) ->
    fd < OPEN_MAX /\ u_names u !! fd = None /\ u_names u' = <[fd := name]> (u_names u) /\ u_separate u' /\
    u_file u name = Some (u_bytes u' fd) /\ forall fd', fd' <> fd -> u_bytes u' fd' = u_bytes u fd';
  close_names fd name u r u' : u_close fd u = (r, u') -> 0 <= r -> u_separate u -> u_names u !! fd = Some name ->
    u_names u' = delete fd (u_names u) /\ u_separate u' /\ u_file u' name = Some (u_bytes u fd) /\
    forall fd', fd' <> fd -> u_bytes u' fd' = u_bytes u fd';
}.

(** * A file system in memory *)

Record MemFs := mk_MemFs {
  fs_files : gmap string (list byte);
  fs_open : gmap Z (string * nat);     (* descriptor: file name and offset *)
}.

Definition fs_bytes (u : MemFs) (fd : Z) : list byte :=
  match fs_open u !! fd with
  | Some (name, _) => default [] (fs_files u !! name)
  | None => []
  end.

Definition fs_fresh (u : MemFs) : Z :=
  default 3 (List.find (fun fd => bool_decide (fs_open u !! fd = None))
               (Z.of_nat <$> seq 3 (S (size (fs_open u))))).

Definition fs_do_open (name : string) (u : MemFs) : Z * MemFs :=
  match fs_files u !! name with
  | None => (-1, u)
  | Some _ =>
      let fd := fs_fresh u in
      if OPEN_MAX <=? fd then (-1, u) else (fd, mk_MemFs (fs_files u) (<[fd := (name, 0%nat)]> (fs_open u)))
  end.

Definition fs_do_create (name : string) (u : MemFs) : Z * MemFs :=
  match fs_files u !! name with
  | Some _ => (-1, u)
  | None =>
      let fd := fs_fresh u in
      if OPEN_MAX <=? fd then (-1, u)
      else (fd, mk_MemFs (<[name := []]> (fs_files u)) (<[fd := (name, 0%nat)]> (fs_open u)))
  end.

Definition fs_do_close (fd : Z) (u : MemFs) : Z * MemFs :=
  match fs_open u !! fd with
  | None => (-1, u)
  | Some _ => (0, mk_MemFs (fs_files u) (delete fd (fs_open u)))
  end.

Definition fs_do_unlink (name : string) (u : MemFs) : Z * MemFs :=
  match fs_files u !! name with
  | None => (-1, u)
  | Some _ => (0, mk_MemFs (delete name (fs_files u)) (fs_open u))
  end.

Definition fs_do_lseek (fd off : Z) (u : MemFs) : Z * MemFs :=
  match fs_open u !! fd with
  | None => (-1, u)
  | Some (name, _) =>
      if off <? 0 then (-1, u)
      else (off, mk_MemFs (fs_files u) (<[fd := (name, Z.to_nat off)]> (fs_open u)))
  end.

Definition fs_do_read (fd : Z) (n : nat) (u : MemFs) : (Z * list byte) * MemFs :=
  match fs_open u !! fd with
  | None => ((-1, []), u)
  | Some (name, off) =>
      let bs := take n (drop off (default [] (fs_files u !! name))) in
      ((Z.of_nat (length bs), bs),
       mk_MemFs (fs_files u) (<[fd := (name, (off + length bs)%nat)]> (fs_open u)))
  end.

Definition fs_do_write (fd : Z) (bs : list byte) (u : MemFs) : Z * MemFs :=
  match fs_open u !! fd with
  | None => (-1, u)
  | Some (name, off) =>
      (Z.of_nat (length bs),
       mk_MemFs (<[name := file_write (default [] (fs_files u !! name)) off bs]> (fs_files u))
                (<[fd := (name, (off + length bs)%nat)]> (fs_open u)))
  end.

(** No file is opened twice, and none of the open ones was removed. *)
Definition fs_separate (u : MemFs) : Prop :=
  (forall fd1 fd2 n o1 o2, fs_open u !! fd1 = Some (n, o1) -> fs_open u !! fd2 = Some (n, o2) -> fd1 = fd2) /\
  (forall fd n o, fs_open u !! fd = Some (n, o) -> is_Some (fs_files u !! n)).

#[export] Instance MemFs_unix : Unix MemFs := {
  u_open := fs_do_open; u_create := fs_do_create; u_close := fs_do_close; u_unlink := fs_do_unlink;
  u_lseek := fs_do_lseek; u_read := fs_do_read; u_write := fs_do_write;
  u_bytes := fs_bytes;
  u_offset u fd := match fs_open u !! fd with Some (_, off) => off | None => 0%nat end;
  u_separate := fs_separate;
}.

(** Moving an offset keeps the bytes and the separation. *)
Lemma fs_seek_frame u fd name o o' :
  fs_open u !! fd = Some (name, o) ->
  let u' := mk_MemFs (fs_files u) (<[fd := (name, o')]> (fs_open u)) in
  (forall fd', fs_bytes u' fd' = fs_bytes u fd') /\ (fs_separate u -> fs_separate u').
Proof.
  intros Hfd u'. split.
  - intros fd'. unfold fs_bytes, u'. cbn. rewrite lookup_insert. case_decide as Hd; [|done].
    subst. by rewrite Hfd.
  - intros [Hs Hf]. split.
    + intros fd1 fd2 n o1 o2 H1 H2. unfold u' in *. cbn in *. rewrite lookup_insert in H1, H2.
      repeat case_decide; simplify_eq; [done|..]; eauto.
    + intros fd1 n o1 H1. unfold u' in *. cbn in *. rewrite lookup_insert in H1.
      case_decide; simplify_eq; eauto.
Qed.

(** Changing the content of a file does not matter to the separation. *)
Lemma fs_separate_files fs files ops :
  (forall n, is_Some (fs !! n) -> is_Some (files !! n)) -> fs_separate (mk_MemFs fs ops) -> fs_separate (mk_MemFs files ops).
Proof. intros Hn [Hs Hf]. split; [done|]. intros fd n o Ho. by eapply Hn, Hf. Qed.

#[export] Instance MemFs_laws : UnixLaws MemFs.
Proof.
  split; cbn.
  - intros name u fd u' Hr Hfd. unfold fs_do_open in Hr. destruct (fs_files u !! name); [|by simplify_eq].
    case_match; simplify_eq; [done|]. cbn. by rewrite lookup_insert_eq.
  - intros fd off u r u' Hr. unfold fs_do_lseek in Hr.
    destruct (fs_open u !! fd) as [[name o]|] eqn:Hfd; [|simplify_eq; split_and!; [done..|lia]].
    destruct (Z.ltb_spec off 0); simplify_eq; [split_and!; [done..|lia]|].
    destruct (fs_seek_frame u fd name o (Z.to_nat r) Hfd) as [H1 H2]. split_and!; [done..|].
    intros _. split; [done|]. cbn. by rewrite lookup_insert_eq.
  - intros fd n u r bs u' Hr. unfold fs_do_read in Hr.
    destruct (fs_open u !! fd) as [[name o]|] eqn:Hfd;
      [|simplify_eq; split_and!; [done..|cbn; lia|lia]].
    simplify_eq. edestruct (fs_seek_frame u fd name o) as [H1 H2]; [done|]. split_and!; [done..| |].
    + rewrite length_take. lia.
    + intros _. split; [done|]. unfold fs_bytes. rewrite Hfd. rewrite length_take.
      apply list_eq. intros i. destruct (decide (i < n)%nat).
      * rewrite lookup_take_lt by done. rewrite lookup_take. case_decide; [done|].
        apply lookup_ge_None. lia.
      * rewrite !lookup_take_ge by lia. done.
  - intros fd bs u r u' Hr. unfold fs_do_write in Hr.
    destruct (fs_open u !! fd) as [[name o]|] eqn:Hfd; simplify_eq; [|split_and!; [done..|lia]].
    split_and!; [intros Hs; split| |].
    + destruct (fs_seek_frame u fd name o (o + length bs)%nat Hfd) as [_ H2].
      eapply fs_separate_files, H2, Hs. intros n [x Hn]. destruct (decide (name = n)) as [->|];
        [by rewrite lookup_insert_eq|by rewrite lookup_insert_ne, Hn].
    + intros fd' Hne. unfold fs_bytes. cbn. rewrite lookup_insert_ne by done.
      destruct (fs_open u !! fd') as [[n' o']|] eqn:Hfd'; [|done].
      rewrite lookup_insert_ne; [done|]. intros ->. apply Hne. by eapply (proj1 Hs).
    + lia.
    + intros _. rewrite Nat2Z.id. split; [lia|]. rewrite (take_ge bs) by lia.
      unfold fs_bytes. cbn. by rewrite lookup_insert_eq, Hfd, lookup_insert_eq.
Qed.

#[export] Instance MemFs_names : UnixNames MemFs := {
  u_names u := fst <$> fs_open u;
  u_file u name := fs_files u !! name;
}.

(** The descriptor chosen for a new file is not in use: one of [size + 1] candidates is free. *)
Lemma fs_fresh_new u : fs_open u !! fs_fresh u = None.
Proof.
  unfold fs_fresh. destruct (List.find _ _) as [fd|] eqn:E; cbn.
  - apply List.find_some in E as [_ E]. by apply bool_decide_eq_true in E.
  - exfalso. pose proof (List.find_none _ _ E) as Hn.
    assert (list_to_set (Z.of_nat <$> seq 3 (S (size (fs_open u)))) ⊆@{gset Z} dom (fs_open u)) as Hsub.
    { intros fd Hfd%elem_of_list_to_set. apply elem_of_dom. destruct (fs_open u !! fd) eqn:Ho; [done|].
      rewrite list_elem_of_In in Hfd. apply Hn in Hfd. by rewrite bool_decide_eq_false in Hfd. }
    apply subseteq_size in Hsub. rewrite size_dom, size_list_to_set in Hsub.
    + rewrite length_fmap, length_seq in Hsub. lia.
    + apply NoDup_fmap_2; [apply _|apply NoDup_seq].
Qed.

(** Moving an offset keeps the names. *)
Lemma fs_seek_names u fd name o o' :
  fs_open u !! fd = Some (name, o) -> fst <$> <[fd := (name, o')]> (fs_open u) = fst <$> fs_open u.
Proof. intros Hfd. rewrite fmap_insert. apply insert_id. by rewrite lookup_fmap, Hfd. Qed.

(** A new descriptor for a file that is not open. *)
Lemma fs_open_frame u name files o :
  let fd := fs_fresh u in
  let u' := mk_MemFs files (<[fd := (name, o)]> (fs_open u)) in
  fs_separate u -> (forall fd', fst <$> fs_open u !! fd' <> Some name) -> is_Some (files !! name) ->
  (forall n, n <> name -> files !! n = fs_files u !! n) ->
  fst <$> fs_open u !! fd = None /\ fst <$> fs_open u' = <[fd := name]> (fst <$> fs_open u) /\ fs_separate u' /\
  forall fd', fd' <> fd -> fs_bytes u' fd' = fs_bytes u fd'.
Proof.
  intros fd u' [Hs Hf] Hname Hfile Hother. pose proof (fs_fresh_new u) as Hfresh.
  assert (forall fd1 o1, fs_open u !! fd1 <> Some (name, o1)) as Hno.
  { intros fd1 o1 H1. apply (Hname fd1). by rewrite H1. }
  split_and!; [by unfold fd; rewrite Hfresh|by unfold u'; cbn; rewrite fmap_insert|split|].
  - intros fd1 fd2 n o1 o2 H1 H2. unfold u' in *. cbn in *. rewrite lookup_insert in H1, H2.
    repeat case_decide; simplify_eq; [done|..]; try by exfalso; eapply Hno. eauto.
  - intros fd1 n o1 H1. unfold u' in *. cbn in *. rewrite lookup_insert in H1.
    case_decide; simplify_eq; [done|]. rewrite Hother; [by eauto|]. intros ->. by eapply Hno.
  - intros fd' Hne. unfold fs_bytes, u'. cbn. rewrite lookup_insert_ne by done.
    destruct (fs_open u !! fd') as [[n o']|] eqn:Ho; [|done]. rewrite Hother; [done|]. intros ->. by eapply Hno.
Qed.

#[export] Instance MemFs_name_laws : UnixNameLaws MemFs.
Proof.
  split; cbn.
  - intros fd off u r u' Hr. unfold fs_do_lseek in Hr.
    destruct (fs_open u !! fd) as [[name o]|] eqn:Hfd; [|by simplify_eq].
    destruct (off <? 0); simplify_eq; [done|]. by eapply fs_seek_names.
  - intros fd n u r u' Hr. unfold fs_do_read in Hr.
    destruct (fs_open u !! fd) as [[name o]|] eqn:Hfd; simplify_eq; [|done]. by eapply fs_seek_names.
  - intros fd bs u r u' Hr. unfold fs_do_write in Hr.
    destruct (fs_open u !! fd) as [[name o]|] eqn:Hfd; simplify_eq; [|done]. by eapply fs_seek_names.
  - intros name u fd u' Hr Hfd Hs. unfold fs_do_create in Hr.
    destruct (fs_files u !! name) eqn:Hn; [by simplify_eq|].
    destruct (Z.leb_spec OPEN_MAX (fs_fresh u)); simplify_eq; [done|].
    destruct (fs_open_frame u name (<[name:=[]]> (fs_files u)) 0 Hs) as (H1 & H2 & H3 & H4).
    + intros fd'. destruct (fs_open u !! fd') as [[n o]|] eqn:Ho; [|done]. cbn. intros [= ->].
      apply (proj2 Hs) in Ho. by rewrite Hn in Ho.
    + by rewrite lookup_insert_eq.
    + intros n Hne. by rewrite lookup_insert_ne.
    + rewrite lookup_fmap. split_and!; try done; cbn; [unfold fs_bytes; cbn|]; by rewrite !lookup_insert_eq.
  - intros name u fd u' Hr Hfd Hs Hname. unfold fs_do_open in Hr.
    destruct (fs_files u !! name) as [bs|] eqn:Hn; [|by simplify_eq].
    destruct (Z.leb_spec OPEN_MAX (fs_fresh u)); simplify_eq; [done|].
    destruct (fs_open_frame u name (fs_files u) 0 Hs) as (H1 & H2 & H3 & H4); [|by rewrite Hn|done|].
    + intros fd'. rewrite <-lookup_fmap. apply Hname.
    + rewrite lookup_fmap. split_and!; try done. unfold fs_bytes. cbn. by rewrite lookup_insert_eq, Hn.
  - intros fd name u r u' Hr Hr0 [Hs Hf] Hname. unfold fs_do_close in Hr. rewrite lookup_fmap in Hname.
    destruct (fs_open u !! fd) as [[n o]|] eqn:Hfd; [|done]. cbn in Hname. simplify_eq. cbn. split_and!.
    + apply fmap_delete.
    + split; cbn; [intros fd1 fd2 n o1 o2 [_ H1]%lookup_delete_Some [_ H2]%lookup_delete_Some; by eauto|].
      intros fd1 n o1 [_ H1]%lookup_delete_Some. by eauto.
    + unfold fs_bytes. rewrite Hfd. by destruct (Hf _ _ _ Hfd) as [x ->].
    + intros fd' Hne. unfold fs_bytes. cbn. by rewrite lookup_delete_ne.
Qed.
