(* ===== verification/BufferManager.v ===== *)
(** The page cache of src/io/buffer_manager.{h,cc}: a pool of page buffers, the
    hash table from (fd, page) to slot, the free list, and the recency list
    [used_list_] with the iterator map [used_map_]. *)
From S2P Require Import Prelude HashTable Unix.

(** * State *)

Definition HASH_TABLE_SIZE : Z := 20.

Record buffer_entry := mk_buffer_entry {
  be_dirty : bool;
  be_fd : Z;
  be_page : Z;
  be_data : list byte;
  be_pin : Z;
}.

(** A [std::list<int>::iterator] is the identity of its node. *)
Abbreviation list_node := positive.

Record buffer_manager {U : Type} := mk_buffer_manager {
  pool_size_ : Z;
  buffer_size_ : Z;
  bm_hash : hash_table;
  buffer_pool_ : list buffer_entry;
  free_list_ : list Z;
  used_list_ : list (list_node * Z);
  used_map_ : gmap Z list_node;
  bm_nodes : list_node;               (* next list node to allocate *)
  bm_sys : U;                         (* the operating system *)
}.
Arguments buffer_manager : clear implicits.

Section setters.
Context {U : Type}.
Implicit Types b : buffer_manager U.

Definition set_hash (t : hash_table) b :=
  mk_buffer_manager U (pool_size_ b) (buffer_size_ b) t (buffer_pool_ b) (free_list_ b)
    (used_list_ b) (used_map_ b) (bm_nodes b) (bm_sys b).
Definition set_pool (p : list buffer_entry) b :=
  mk_buffer_manager U (pool_size_ b) (buffer_size_ b) (bm_hash b) p (free_list_ b)
    (used_list_ b) (used_map_ b) (bm_nodes b) (bm_sys b).
Definition set_free (l : list Z) b :=
  mk_buffer_manager U (pool_size_ b) (buffer_size_ b) (bm_hash b) (buffer_pool_ b) l
    (used_list_ b) (used_map_ b) (bm_nodes b) (bm_sys b).
Definition set_used (l : list (list_node * Z)) (m : gmap Z list_node) (n : list_node) b :=
  mk_buffer_manager U (pool_size_ b) (buffer_size_ b) (bm_hash b) (buffer_pool_ b) (free_list_ b)
    l m n (bm_sys b).
Definition set_sys (u : U) b :=
  mk_buffer_manager U (pool_size_ b) (buffer_size_ b) (bm_hash b) (buffer_pool_ b) (free_list_ b)
    (used_list_ b) (used_map_ b) (bm_nodes b) u.
End setters.

Definition set_dirty (d : bool) (e : buffer_entry) : buffer_entry :=
  mk_buffer_entry d (be_fd e) (be_page e) (be_data e) (be_pin e).
Definition set_data (d : list byte) (e : buffer_entry) : buffer_entry :=
  mk_buffer_entry (be_dirty e) (be_fd e) (be_page e) d (be_pin e).
Definition set_pin (p : Z) (e : buffer_entry) : buffer_entry :=
  mk_buffer_entry (be_dirty e) (be_fd e) (be_page e) (be_data e) p.

(** * Operations *)

Section operations.
Context {U : Type} `{Unix U}.

(** buffer_manager::buffer_manager.  The fd, page, pin and dirty fields of
    [new buffer_entry[pool_size_]] are not initialised: [garbage] is their
    content.  The data blocks are zeroed. *)
Definition buffer_manager_new (pool_size buffer_size : Z) (garbage : nat -> buffer_entry) (u : U) :
    buffer_manager U :=
  mk_buffer_manager U pool_size buffer_size (hash_table_new HASH_TABLE_SIZE)
    ((fun i => set_data (replicate (Z.to_nat buffer_size) Byte.x00) (garbage i)) <$> seq 0 (Z.to_nat pool_size))
    (Z.of_nat <$> seq 0 (Z.to_nat pool_size)) [] ∅ 1%positive u.

(** buffer_pool_[slot] *)
Definition pool_get (slot : Z) : M (buffer_manager U) buffer_entry :=
  if slot <? 0 then undef out_of_bounds
  else p ← gets buffer_pool_; of_option out_of_bounds (p !! Z.to_nat slot).

Definition pool_set (slot : Z) (f : buffer_entry -> buffer_entry) : M (buffer_manager U) unit :=
  e ← pool_get slot;
  p ← gets buffer_pool_;
  modify (set_pool (<[Z.to_nat slot := f e]> p)).

Definition in_hash {A} (m : M hash_table A) : M (buffer_manager U) A := zoom bm_hash set_hash m.

Definition sys {A} (f : U -> A * U) : M (buffer_manager U) A := fun b =>
  let '(a, u) := f (bm_sys b) in Ret a (set_sys u b).

(** buffer_manager::insert_free *)
Definition insert_free (slot : Z) : M (buffer_manager U) unit :=
  modify (fun b => set_free (slot :: free_list_ b) b).

(** buffer_manager::insert_used.  unordered_map::insert keeps an existing binding. *)
Definition insert_used (slot : Z) : M (buffer_manager U) unit :=
  modify (fun b =>
    let n := bm_nodes b in
    set_used ((n, slot) :: used_list_ b)
      (if used_map_ b !! slot is Some _ then used_map_ b else <[slot := n]> (used_map_ b))
      (Pos.succ n) b).

Fixpoint erase_first (slot : Z) (l : list (list_node * Z)) : list (list_node * Z) :=
  match l with
  | [] => []
  | x :: l => if x.2 =? slot then l else x :: erase_first slot l
  end.

(** buffer_manager::remove.  Erasing through an iterator whose node is gone is undefined. *)
Definition buffer_manager_remove (slot : Z) : M (buffer_manager U) unit :=
  b ← gets id;
  match used_map_ b !! slot with
  | Some n =>
      if decide (n ∈ (used_list_ b).*1) then
        modify (set_used (filter (fun x => x.1 <> n) (used_list_ b)) (delete slot (used_map_ b)) (bm_nodes b))
      else undef bad_iterator
  | None => modify (set_used (erase_first slot (used_list_ b)) (used_map_ b) (bm_nodes b))
  end.

(** The file offset of a page, computed in [int]. *)
Definition page_offset (page : Z) : M (buffer_manager U) Z :=
  n ← gets buffer_size_;
  prod ← int_of (page * n);
  int_of (prod + 4096).

(** buffer_manager::read_page into buffer_pool_[slot].data *)
Definition read_page (fd page slot : Z) : M (buffer_manager U) unit :=
  offset ← page_offset page;
  r ← sys (u_lseek fd offset);
  if r <? 0 then throw unix_error else
  n ← gets buffer_size_;
  '(num_bytes, bs) ← sys (u_read fd (Z.to_nat n));
  _ ← pool_set slot (fun e => set_data (bs ++ drop (length bs) (be_data e)) e);
  if num_bytes <? 0 then throw unix_error
  else if negb (num_bytes =? n) then throw incomplete_read_error
  else mret tt.

(** buffer_manager::write_page *)
Definition write_page (fd page : Z) (src : list byte) : M (buffer_manager U) unit :=
  offset ← page_offset page;
  r ← sys (u_lseek fd offset);
  if r <? 0 then throw unix_error else
  n ← gets buffer_size_;
  num_bytes ← sys (u_write fd (take (Z.to_nat n) src));
  if num_bytes <? 0 then throw unix_error
  else if negb (num_bytes =? n) then throw incomplete_write_error
  else mret tt.

(** The reverse scan of buffer_manager::internal_alloc *)
Fixpoint find_victim (l : list (list_node * Z)) : M (buffer_manager U) (option Z) :=
  match l with
  | [] => mret None
  | (_, slot) :: l =>
      e ← pool_get slot;
      if be_pin e =? 0 then mret (Some slot) else find_victim l
  end.

(** buffer_manager::internal_alloc *)
Definition internal_alloc : M (buffer_manager U) Z :=
  fl ← gets free_list_;
  match fl with
  | slot :: rest =>
      _ ← modify (set_free rest);
      _ ← insert_used slot;
      mret slot
  | [] =>
      ul ← gets used_list_;
      it ← find_victim (reverse ul);
      match it with
      | None => throw no_buf_error
      | Some slot =>
          e ← pool_get slot;
          _ ← when (be_dirty e) (write_page (be_fd e) (be_page e) (be_data e));
          _ ← in_hash (hash_table_remove (be_fd e) (be_page e));
          _ ← buffer_manager_remove slot;
          _ ← insert_used slot;
          mret slot
      end
  end.

(** buffer_manager::init_page_info *)
Definition init_page_info (fd page slot : Z) : M (buffer_manager U) unit :=
  pool_set slot (fun e => mk_buffer_entry false fd page (be_data e) 1).

(** buffer_manager::get_page; the returned pointer is the slot whose data it points to. *)
Definition get_page (fd page : Z) (multiple_pins : bool) : M (buffer_manager U) (option Z) :=
  slot ← in_hash (hash_table_find fd page);
  if slot =? -1 then
    slot ← internal_alloc;
    if slot =? -1 then mret None else
    _ ← read_page fd page slot;
    _ ← in_hash (hash_table_insert fd page slot);
    _ ← init_page_info fd page slot;
    mret (Some slot)
  else
    e ← pool_get slot;
    if negb multiple_pins && (0 <? be_pin e) then throw page_pinned_exception else
    p ← int_of (be_pin e + 1);
    _ ← pool_set slot (set_pin p);
    _ ← buffer_manager_remove slot;
    _ ← insert_used slot;
    mret (Some slot).

(** buffer_manager::allocate_page *)
Definition buffer_manager_allocate_page (fd page : Z) : M (buffer_manager U) (option Z) :=
  slot ← in_hash (hash_table_find fd page);
  if negb (slot =? -1) then mret None else
  slot ← internal_alloc;
  _ ← in_hash (hash_table_insert fd page slot);
  _ ← init_page_info fd page slot;
  mret (Some slot).

(** buffer_manager::unpin_page *)
Definition buffer_manager_unpin_page (fd page : Z) : M (buffer_manager U) unit :=
  slot ← in_hash (hash_table_find fd page);
  if slot =? -1 then throw page_not_in_buf_exception else
  e ← pool_get slot;
  if be_pin e =? 0 then throw page_already_unpinned_exception else
  p ← int_of (be_pin e - 1);
  _ ← pool_set slot (set_pin p);
  if p =? 0 then
    _ ← buffer_manager_remove slot;
    insert_used slot
  else mret tt.

(** buffer_manager::mark_dirty *)
Definition buffer_manager_mark_dirty (fd page : Z) : M (buffer_manager U) unit :=
  slot ← in_hash (hash_table_find fd page);
  if slot =? -1 then throw page_not_in_buf_exception else
  _ ← pool_set slot (set_dirty true);
  _ ← buffer_manager_remove slot;
  insert_used slot.

(** The range-for of buffer_manager::force_page *)
Fixpoint force_loop (l : list (list_node * Z)) (fd page : Z) : M (buffer_manager U) unit :=
  match l with
  | [] => mret tt
  | (_, i) :: l =>
      entry ← pool_get i;
      _ ← when ((be_fd entry =? fd) && ((be_page entry =? page) || (page =? -1)))
            (when (be_dirty entry)
               (_ ← write_page fd page (be_data entry);
                pool_set i (set_dirty false)));
      force_loop l fd page
  end.

(** buffer_manager::force_page *)
Definition buffer_manager_force_page (fd page : Z) : M (buffer_manager U) unit :=
  ul ← gets used_list_;
  force_loop ul fd page.

(** The for of buffer_manager::flush_pages over slots i, i+1, ... (n of them) *)
Fixpoint flush_loop (n : nat) (i fd : Z) : M (buffer_manager U) unit :=
  match n with
  | O => mret tt
  | S n =>
      entry ← pool_get i;
      _ ← when (be_fd entry =? fd)
            (if 0 <? be_pin entry then throw page_pinned_exception
             else
               _ ← when (be_dirty entry)
                     (_ ← write_page (be_fd entry) (be_page entry) (be_data entry);
                      pool_set i (set_dirty false));
               _ ← in_hash (hash_table_remove (be_fd entry) (be_page entry));
               _ ← buffer_manager_remove i;
               insert_free i);
      flush_loop n (i + 1) fd
  end.

(** buffer_manager::flush_pages *)
Definition buffer_manager_flush_pages (fd : Z) : M (buffer_manager U) unit :=
  n ← gets pool_size_;
  flush_loop (Z.to_nat n) 0 fd.
End operations.

#[global] Arguments pool_get {U} _ : simpl never.
#[global] Arguments pool_set {U} _ _ : simpl never.

(** * The recency list *)

(** [used_list_] and [used_map_] agree, slots and nodes are unique. *)
Record lru_ok (ul : list (list_node * Z)) (um : gmap Z list_node) (nx : list_node) : Prop := {
  lru_nodes : NoDup ul.*1;
  lru_slots : NoDup ul.*2;
  lru_map : forall slot n, um !! slot = Some n <-> (n, slot) ∈ ul;
  lru_fresh : forall n slot, (n, slot) ∈ ul -> (n < nx)%positive;
}.

Lemma lru_filter_node ul um nx n slot :
  lru_ok ul um nx -> (n, slot) ∈ ul ->
  filter (fun x => x.1 <> n) ul = filter (fun x => x.2 <> slot) ul.
Proof.
  intros [Hn Hs _ _] Hin. apply list_filter_ext_in. intros [n' s'] Hin'. cbn.
  split; intros Hne ->; apply Hne; [by eapply NoDup_snd_unique|by eapply NoDup_fst_unique].
Qed.

Definition lru {U} (b : buffer_manager U) : list Z := (used_list_ b).*2.

Definition lru_inv {U} (b : buffer_manager U) : Prop :=
  lru_ok (used_list_ b) (used_map_ b) (bm_nodes b).

Lemma fmap_filter_snd (ul : list (list_node * Z)) slot :
  (filter (fun x => x.2 <> slot) ul).*2 = filter (fun s => s <> slot) ul.*2.
Proof.
  induction ul as [|[n s] ul IH]; [done|].
  rewrite fmap_cons, !filter_cons. cbn [snd fst]. repeat case_decide; [|done..].
  rewrite fmap_cons. by f_equal.
Qed.

Lemma erase_first_absent slot ul : slot ∉ ul.*2 -> erase_first slot ul = ul.
Proof.
  induction ul as [|[n s] ul IH]; [done|]. rewrite fmap_cons, not_elem_of_cons. cbn.
  intros [Hne Hul]. destruct (Z.eqb_spec s slot); [congruence|]. by rewrite IH.
Qed.

Section lru.
Context {U : Type}.
Implicit Types b : buffer_manager U.

(** Both branches of [remove] drop the slot from the recency list. *)
Lemma wp_remove b slot (Q : unit -> buffer_manager U -> Prop) E :
  lru_inv b ->
  (forall ul um nx, lru_ok ul um nx -> ul.*2 = filter (fun s => s <> slot) (lru b) ->
     Q tt (set_used ul um nx b)) ->
  wp (buffer_manager_remove slot) Q E b.
Proof.
  intros Hl HQ. unfold buffer_manager_remove. wp_steps. cbn.
  destruct (used_map_ b !! slot) as [n|] eqn:Hm.
  - pose proof (proj1 (lru_map _ _ _ Hl slot n) Hm) as Hin.
    rewrite decide_True by (by apply (list_elem_of_fmap_2 fst) in Hin). wp_steps.
    apply HQ; rewrite (lru_filter_node _ _ _ _ _ Hl Hin); [|apply fmap_filter_snd].
    destruct Hl as [Hn Hs Hmap Hf]. split.
    + by apply NoDup_filter_fmap.
    + by apply NoDup_filter_fmap.
    + intros s n'. rewrite lookup_delete_Some, list_elem_of_filter, Hmap. cbn. naive_solver.
    + intros n' s. rewrite list_elem_of_filter. naive_solver.
  - wp_steps. assert (slot ∉ lru b) as Hni.
    { intros ([n s] & -> & Hin)%list_elem_of_fmap. apply (lru_map _ _ _ Hl) in Hin. cbn in Hm. congruence. }
    rewrite erase_first_absent by done. apply HQ; [done|].
    symmetry. apply filter_all. by intros s Hs ->.
Qed.

Lemma wp_insert_used b slot (Q : unit -> buffer_manager U -> Prop) E :
  lru_inv b -> slot ∉ lru b ->
  (forall ul um nx, lru_ok ul um nx -> ul.*2 = slot :: lru b -> Q tt (set_used ul um nx b)) ->
  wp (insert_used slot) Q E b.
Proof.
  intros [Hn Hs Hmap Hf] Hni HQ. unfold insert_used. wp_steps.
  destruct (used_map_ b !! slot) as [n|] eqn:Hm.
  { apply Hmap, (list_elem_of_fmap_2 snd) in Hm. done. }
  apply HQ; [|done].
  assert (bm_nodes b ∉ (used_list_ b).*1) as Hfr.
  { intros ([n s] & Hns & Hin)%list_elem_of_fmap. apply Hf in Hin. cbn in *. lia. }
  split; cbn; [by apply NoDup_cons|by apply NoDup_cons|..].
  - intros s n. rewrite lookup_insert_Some, elem_of_cons, Hmap. split.
    + intros [[<- <-]|[? ?]]; auto.
    + intros [[= -> ->]|Hin]; [auto|]. right. split; [|done]. intros <-.
      apply Hmap in Hin. congruence.
  - intros n s [[= -> ->]|Hin]%elem_of_cons; [lia|]. apply Hf in Hin. lia.
Qed.

(** [remove] then [insert_used], as four of the methods do. *)
Lemma wp_touch {A} b slot (k : unit -> M (buffer_manager U) A) Q E :
  lru_inv b ->
  (forall ul um nx, lru_ok ul um nx -> ul.*2 = slot :: filter (fun s => s <> slot) (lru b) ->
     wp (k tt) Q E (set_used ul um nx b)) ->
  wp (_ ← buffer_manager_remove slot; r ← insert_used slot; k r) Q E b.
Proof.
  intros Hl HQ. wp_steps. apply wp_remove; [done|]. intros ul um nx Hok Hul. wp_steps.
  apply wp_insert_used; [done|..].
  - unfold lru. cbn. rewrite Hul, list_elem_of_filter. naive_solver.
  - intros ul' um' nx' Hok' Hul'. unfold lru in Hul'. cbn in Hul'. rewrite Hul in Hul'. by apply HQ.
Qed.
End lru.

(** * The invariant of the pool *)

Definition be_key (e : buffer_entry) : Z * Z := (be_fd e, be_page e).

(** Keys whose hash and file offset stay inside [int]. *)
Definition fits (size : Z) (k : Z * Z) : Prop :=
  0 <= k.1 /\ 0 <= k.2 /\ k.1 + k.2 <= INT_MAX /\ k.2 * size + 4096 <= INT_MAX.

Lemma fits_key_ok size k : fits size k -> key_ok k.
Proof. unfold fits, key_ok. lia. Qed.
#[export] Hint Resolve fits_key_ok : alphadb.

Definition pool_at {U} (b : buffer_manager U) (slot : Z) : option buffer_entry :=
  if slot <? 0 then None else buffer_pool_ b !! Z.to_nat slot.

Definition entry_ok (size : Z) (e : buffer_entry) : Prop :=
  fits size (be_key e) /\ 0 <= be_pin e /\ length (be_data e) = Z.to_nat size.

(** [m] is the content of the hash table.  Every slot is exactly once in the
    free list or in the recency list; a hashed key names a used slot that holds it. *)
Record bm_ok {U} (b : buffer_manager U) (m : gmap (Z * Z) Z) : Prop := {
  ok_hash : ht_repr (bm_hash b) m;
  ok_size : 0 < buffer_size_ b;
  ok_len : length (buffer_pool_ b) = Z.to_nat (pool_size_ b);
  ok_entries : forall slot e, pool_at b slot = Some e -> entry_ok (buffer_size_ b) e;
  ok_slots : free_list_ b ++ lru b ≡ₚ Z.of_nat <$> seq 0 (Z.to_nat (pool_size_ b));
  ok_lru : lru_inv b;
  ok_tracked : forall k slot, m !! k = Some slot ->
    slot ∈ lru b /\ exists e, pool_at b slot = Some e /\ be_key e = k;
}.

Definition set_entry {U} (slot : Z) (e : buffer_entry) (b : buffer_manager U) : buffer_manager U :=
  set_pool (<[Z.to_nat slot := e]> (buffer_pool_ b)) b.

Section invariant.
Context {U : Type}.
Implicit Types b : buffer_manager U.

Lemma pool_at_nat b slot e : pool_at b slot = Some e -> 0 <= slot /\ buffer_pool_ b !! Z.to_nat slot = Some e.
Proof. unfold pool_at. destruct (Z.ltb_spec slot 0); naive_solver lia. Qed.

Lemma pool_at_set_entry b slot e slot' :
  is_Some (pool_at b slot) ->
  pool_at (set_entry slot e b) slot' = if decide (slot' = slot) then Some e else pool_at b slot'.
Proof.
  intros [e0 [H0 H1]%pool_at_nat]. unfold pool_at, set_entry. cbn. destruct (Z.ltb_spec slot' 0).
  - by rewrite decide_False by lia.
  - case_decide; [subst; by apply list_lookup_insert_eq, lookup_lt_is_Some|].
    apply list_lookup_insert_ne. lia.
Qed.

Lemma wp_pool_get b slot e (Q : buffer_entry -> buffer_manager U -> Prop) E :
  pool_at b slot = Some e -> Q e b -> wp (pool_get slot) Q E b.
Proof.
  unfold pool_at, pool_get. destruct (slot <? 0); [done|]. intros He HQ. wp_steps.
  by eapply wp_of_option.
Qed.

Lemma wp_pool_set b slot e f (Q : unit -> buffer_manager U -> Prop) E :
  pool_at b slot = Some e -> Q tt (set_entry slot (f e) b) -> wp (pool_set slot f) Q E b.
Proof. intros He HQ. unfold pool_set. wp_steps. eapply wp_pool_get; [done|]. by wp_steps. Qed.

Lemma bm_pool_at b m slot : bm_ok b m -> slot ∈ free_list_ b ++ lru b -> exists e, pool_at b slot = Some e.
Proof.
  intros OK. rewrite (ok_slots _ _ OK). intros (i & -> & Hi)%list_elem_of_fmap.
  apply elem_of_seq in Hi. unfold pool_at. destruct (Z.ltb_spec (Z.of_nat i) 0); [lia|].
  rewrite Nat2Z.id. apply lookup_lt_is_Some. rewrite (ok_len _ _ OK). lia.
Qed.

Lemma bm_used_at b m slot : bm_ok b m -> slot ∈ lru b -> exists e, pool_at b slot = Some e.
Proof. intros OK Hs. eapply bm_pool_at; [done|]. apply elem_of_app. by right. Qed.

Lemma bm_slots_nodup b m : bm_ok b m -> NoDup (free_list_ b ++ lru b).
Proof. intros OK. rewrite (ok_slots _ _ OK). apply NoDup_fmap_2; [apply _|]. apply NoDup_seq. Qed.

Lemma bm_free_not_used b m slot : bm_ok b m -> slot ∈ free_list_ b -> slot ∉ lru b.
Proof. intros OK%bm_slots_nodup. apply NoDup_app in OK. naive_solver. Qed.

Lemma bm_tracked_inj b m k k' slot : bm_ok b m -> m !! k = Some slot -> m !! k' = Some slot -> k = k'.
Proof.
  intros OK (_ & e & He & Hk)%(ok_tracked _ _ OK) (_ & e' & He' & Hk')%(ok_tracked _ _ OK).
  congruence.
Qed.

(** Reordering the recency list. *)
Lemma bm_ok_touch b m ul um nx :
  bm_ok b m -> lru_ok ul um nx -> ul.*2 ≡ₚ lru b -> bm_ok (set_used ul um nx b) m.
Proof.
  intros [? ? ? ? Hs ? Ht] Hl Hp. split; try done.
  - unfold lru. cbn. by rewrite Hp.
  - intros k slot Hk. unfold lru. cbn. rewrite Hp. by apply Ht.
Qed.

(** Updating an entry under the same key. *)
Lemma bm_ok_set_entry b m slot e e' :
  bm_ok b m -> pool_at b slot = Some e -> be_key e' = be_key e -> entry_ok (buffer_size_ b) e' ->
  bm_ok (set_entry slot e' b) m.
Proof.
  intros [? ? Hlen He Hs ? Ht] Hslot Hk He'. split; try done.
  - unfold set_entry. cbn. by rewrite length_insert.
  - intros s x. rewrite pool_at_set_entry by done. case_decide; [naive_solver|apply He].
  - intros k s (Hin & x & Hx & Hkx)%Ht. split; [done|]. rewrite pool_at_set_entry by done.
    case_decide; [|by exists x]. exists e'. split; [done|]. congruence.
Qed.

(** The hash table inside the buffer manager. *)
Lemma wp_hash_find b m fd page (Q : Z -> buffer_manager U -> Prop) E :
  bm_ok b m -> key_ok (fd, page) -> Q (default (-1) (m !! (fd, page))) b ->
  wp (in_hash (hash_table_find fd page)) Q E b.
Proof.
  intros OK Hk HQ. unfold in_hash. wp_steps. eapply hash_table_find_spec; [apply OK|done|].
  by destruct b.
Qed.

Lemma wp_hash_insert b m fd page slot (Q : unit -> buffer_manager U -> Prop) E :
  bm_ok b m -> key_ok (fd, page) -> slot <> -1 -> m !! (fd, page) = None ->
  (forall t, ht_repr t (<[(fd, page) := slot]> m) -> Q tt (set_hash t b)) ->
  wp (in_hash (hash_table_insert fd page slot)) Q E b.
Proof.
  intros OK Hk Hs Hn HQ. unfold in_hash. wp_steps. eapply hash_table_insert_spec; [apply OK|done..|].
  rewrite Hn. apply HQ.
Qed.

Lemma wp_hash_remove b m fd page (Q : unit -> buffer_manager U -> Prop) E :
  ht_repr (bm_hash b) m -> key_ok (fd, page) ->
  (forall t, ht_repr t (delete (fd, page) m) -> Q tt (set_hash t b)) ->
  wp (in_hash (hash_table_remove fd page)) Q E b.
Proof. intros OK Hk HQ. unfold in_hash. wp_steps. by eapply hash_table_remove_spec. Qed.

Lemma bm_ok_set_sys b m u : bm_ok b m -> bm_ok (set_sys u b) m.
Proof. by intros []; split. Qed.
End invariant.

(** * Page transfer *)

Definition io_error (e : exn) : Prop :=
  e = unix_error \/ e = incomplete_read_error \/ e = incomplete_write_error.

(** Where a page lies in its file (page 0 behind the file header). *)
Definition page_pos (size page : Z) : nat := Z.to_nat (page * size + 4096).

Section transfer.
Context {U : Type} `{UnixLaws U}.
Implicit Types b : buffer_manager U.

Definition disk_page (size : Z) (u : U) (k : Z * Z) : option (list byte) :=
  file_block (u_bytes u k.1) (page_pos size k.2) (Z.to_nat size).

(** [u'] is [u] after page [k] was replaced by [d]. *)
Definition written (size : Z) (u u' : U) (k : Z * Z) (d : list byte) : Prop :=
  u_bytes u' k.1 = file_write (u_bytes u k.1) (page_pos size k.2) d /\
  (u_separate u -> u_separate u' /\ forall fd, fd <> k.1 -> u_bytes u' fd = u_bytes u fd).

(** Only descriptor [fd] may have changed. *)
Definition sys_frame (fd : Z) (u u' : U) : Prop :=
  u_separate u -> u_separate u' /\ forall fd', fd' <> fd -> u_bytes u' fd' = u_bytes u fd'.

Definition sys_same (u u' : U) : Prop :=
  (forall fd, u_bytes u' fd = u_bytes u fd) /\ (u_separate u -> u_separate u').

Lemma wp_page_offset b page (Q : Z -> buffer_manager U -> Prop) E :
  0 < buffer_size_ b -> 0 <= page -> page * buffer_size_ b + 4096 <= INT_MAX ->
  Q (page * buffer_size_ b + 4096) b -> wp (page_offset page) Q E b.
Proof.
  intros Hs Hp Hf HQ. unfold page_offset. wp_steps.
  apply wp_int_of; [unfold INT_MIN, INT_MAX in *; nia|]. apply wp_int_of; [unfold INT_MIN; nia|done].
Qed.

Lemma wp_sys {A} b (f : U -> A * U) (Q : A -> buffer_manager U -> Prop) E :
  (forall a u, f (bm_sys b) = (a, u) -> Q a (set_sys u b)) -> wp (sys f) Q E b.
Proof. unfold wp, sys. destruct (f (bm_sys b)) as [a u] eqn:Hf. eauto. Qed.

Lemma wp_read_page b m fd page slot e (Q : unit -> buffer_manager U -> Prop) (E : exn -> _ -> Prop) :
  bm_ok b m -> fits (buffer_size_ b) (fd, page) -> pool_at b slot = Some e ->
  (forall u d, sys_same (bm_sys b) u -> disk_page (buffer_size_ b) u (fd, page) = Some d ->
     Q tt (set_sys u (set_entry slot (set_data d e) b))) ->
  (forall x u e', sys_same (bm_sys b) u -> io_error x -> be_key e' = be_key e ->
     entry_ok (buffer_size_ b) e' -> be_pin e' = be_pin e -> be_dirty e' = be_dirty e ->
     E x (set_sys u (set_entry slot e' b))) ->
  wp (read_page fd page slot) Q E b.
Proof.
  intros OK (Hfd & Hpg & _ & Hoff) He HQ HE. cbn in *. unfold read_page. pose proof (ok_size _ _ OK) as Hsz.
  pose proof (ok_entries _ _ OK _ _ He) as (Hek & Hpin & Hlen).
  wp_steps. apply wp_page_offset; [done..|]. wp_steps. apply wp_sys. intros r u Hr.
  destruct (lseek_ok _ _ _ _ _ Hr) as (Hb & Hsep & Hoffs). destruct (Z.ltb_spec r 0).
  { wp_steps. replace b with (set_entry slot e b) at 1.
    - apply HE; [by split|left; done|done..].
    - unfold set_entry. rewrite list_insert_id by (by apply pool_at_nat). by destruct b. }
  destruct (Hoffs ltac:(done)) as [-> Hat]. wp_steps. apply wp_sys. intros [n bs] u' Hrd.
  destruct (read_ok _ _ _ _ _ _ Hrd) as (Hb' & Hsep' & Hlb & Hn). cbn in Hlb, Hn. wp_steps.
  apply wp_pool_set with (e := e); [done|]. cbn. rewrite Hat in Hn.
  assert (sys_same (bm_sys b) u') as Hss.
  { split; [|by auto]. intros fd'. by rewrite Hb', Hb. }
  assert (entry_ok (buffer_size_ b) (set_data (bs ++ drop (length bs) (be_data e)) e)) as Hok.
  { split_and!; [done..|]. cbn. rewrite length_app, length_drop. lia. }
  destruct (Z.ltb_spec n 0); [wp_steps; apply (HE unix_error); (done || (by left))|].
  destruct (Z.eqb_spec n (buffer_size_ b)); cbn.
  - wp_steps. rewrite drop_ge, app_nil_r by lia. apply (HQ u'); [done|].
    destruct (Hn ltac:(lia)) as [-> Hbs]. unfold disk_page. apply file_block_Some. cbn.
    rewrite Hb', Hb. rewrite Hb in Hbs.
    assert (length bs = Z.to_nat (buffer_size_ b)) as Hlb' by lia.
    assert (length (take (length bs) (drop (Z.to_nat (page * buffer_size_ b + 4096)) (u_bytes (bm_sys b) fd))) = length bs)
      as Hl2 by congruence.
    rewrite length_take, length_drop in Hl2. unfold page_pos. split_and!; [done|lia|].
    intros i Hi. rewrite Hbs, lookup_take_lt, lookup_drop by lia. done.
  - wp_steps. apply HE; (done || (by right; left)).
Qed.

Lemma wp_write_page b fd page d (Q : unit -> buffer_manager U -> Prop) (E : exn -> _ -> Prop) :
  0 < buffer_size_ b -> fits (buffer_size_ b) (fd, page) -> length d = Z.to_nat (buffer_size_ b) ->
  (forall u, written (buffer_size_ b) (bm_sys b) u (fd, page) d -> Q tt (set_sys u b)) ->
  (forall x u, io_error x -> sys_frame fd (bm_sys b) u -> E x (set_sys u b)) ->
  wp (write_page fd page d) Q E b.
Proof.
  intros Hsz (Hfd & Hpg & _ & Hoff) Hlen HQ HE. cbn in *. unfold write_page. wp_steps.
  apply wp_page_offset; [done..|]. wp_steps. apply wp_sys. intros r u Hr.
  destruct (lseek_ok _ _ _ _ _ Hr) as (Hb & Hsep & Hoffs). destruct (Z.ltb_spec r 0).
  { wp_steps. apply HE; [by left|]. intros ?. by auto. }
  destruct (Hoffs ltac:(done)) as [-> Hat]. wp_steps. apply wp_sys. intros n u' Hw. cbn in Hw.
  rewrite take_ge in Hw by lia.
  destruct (write_ok _ _ _ _ _ Hw) as (Hfr & _ & Hok). rewrite Hat, Hb in Hok. cbn in *.
  assert (sys_frame fd (bm_sys b) u') as Hsf.
  { intros Hs. destruct (Hfr (Hsep Hs)) as [? Hfr']. split; [done|]. intros. rewrite Hfr' by done. apply Hb. }
  destruct (Z.ltb_spec n 0); [wp_steps; apply HE; [by left|done]|].
  destruct (Z.eqb_spec n (buffer_size_ b)); cbn.
  - wp_steps. subst n. apply HQ. split; [|done]. cbn. destruct (Hok ltac:(lia)) as [_ ->].
    rewrite take_ge by lia. done.
  - wp_steps. apply HE; [by right; right|done].
Qed.

(** What a write does to the pages on disk. *)
Lemma disk_page_written size u u' k d :
  0 < size -> length d = Z.to_nat size -> written size u u' k d -> disk_page size u' k = Some d.
Proof. intros Hs Hl [Hw _]. unfold disk_page. rewrite Hw, <-Hl. apply file_block_write_same. Qed.

Lemma disk_page_other size u u' k d k' x :
  0 < size -> length d = Z.to_nat size -> 0 <= k.2 -> 0 <= k'.2 -> u_separate u -> k <> k' -> written size u u' k d ->
  disk_page size u k' = Some x -> disk_page size u' k' = Some x.
Proof.
  intros Hs Hl Hp Hp' Hsep Hne [Hw Hfr]. unfold disk_page. destruct k as [fd p], k' as [fd' p']. cbn in *.
  destruct (decide (fd' = fd)) as [->|Hfd]; [|by rewrite (proj2 (Hfr Hsep)) by done].
  rewrite Hw. apply file_block_write_other. unfold page_pos. rewrite Hl.
  assert (p < p' \/ p' < p) as [?|?] by (assert (p <> p') by congruence; lia); [right|left]; nia.
Qed.

(** The bytes in front of page 0, where the file header is, stay. *)
Definition headers_kept (u u' : U) : Prop :=
  forall fd n d, (n <= 4096)%nat -> file_block (u_bytes u fd) 0 n = Some d -> file_block (u_bytes u' fd) 0 n = Some d.

Lemma written_headers size u u' k d :
  0 < size -> 0 <= k.2 -> u_separate u -> written size u u' k d -> headers_kept u u'.
Proof.
  intros Hs Hp Hsep [Hw Hfr] fd n x Hn. destruct (decide (fd = k.1)) as [->|]; [|by rewrite (proj2 (Hfr Hsep))].
  rewrite Hw. apply file_block_write_other. left. unfold page_pos. nia.
Qed.

Lemma disk_page_same size u u' k : sys_same u u' -> disk_page size u' k = disk_page size u k.
Proof. intros [Hb _]. unfold disk_page. by rewrite Hb. Qed.
End transfer.

(** * Allocation of a slot *)

Definition pinned {U} (b : buffer_manager U) (slot : Z) : Prop :=
  exists e, pool_at b slot = Some e /\ be_pin e <> 0.

(** The least recently used slot that is not pinned. *)
Definition victim {U} (b : buffer_manager U) (slot : Z) : Prop :=
  exists l1 l2, lru b = l1 ++ slot :: l2 /\ ~ pinned b slot /\ forall s, s ∈ l2 -> pinned b s.

Section alloc.
Context {U : Type} `{UnixLaws U}.
Implicit Types b : buffer_manager U.

(** The evicted page went to disk if it was dirty. *)
Definition written_back b (e : buffer_entry) (u : U) : Prop :=
  if be_dirty e then written (buffer_size_ b) (bm_sys b) u (be_key e) (be_data e) else u = bm_sys b.

Definition alloc_choice b (m : gmap (Z * Z) Z) (slot : Z) (b' : buffer_manager U) (m' : gmap (Z * Z) Z) : Prop :=
  (free_list_ b = slot :: free_list_ b' /\ m' = m /\ bm_sys b' = bm_sys b) \/
  (free_list_ b = [] /\ free_list_ b' = [] /\ victim b slot /\
   exists e, pool_at b slot = Some e /\ m' = delete (be_key e) m /\ written_back b e (bm_sys b')).

Record alloc_post b (m : gmap (Z * Z) Z) (slot : Z) (b' : buffer_manager U) (m' : gmap (Z * Z) Z) : Prop := {
  ap_ok : bm_ok b' m';
  ap_pool : buffer_pool_ b' = buffer_pool_ b;
  ap_size : buffer_size_ b' = buffer_size_ b;
  ap_lru : lru b' = slot :: filter (fun s => s <> slot) (lru b);
  ap_untracked : forall k, m' !! k <> Some slot;
  ap_choice : alloc_choice b m slot b' m';
}.

Definition alloc_fail b (x : exn) (b' : buffer_manager U) : Prop :=
  (x = no_buf_error /\ b' = b /\ free_list_ b = [] /\ forall s, s ∈ lru b -> pinned b s) \/
  (io_error x /\ exists u slot e, b' = set_sys u b /\ pool_at b slot = Some e /\ be_dirty e = true /\
     sys_frame (be_fd e) (bm_sys b) u).

Lemma wp_find_victim b (ul : list (list_node * Z)) (Q : option Z -> buffer_manager U -> Prop) E :
  (forall s, s ∈ ul.*2 -> exists e, pool_at b s = Some e) ->
  ((forall s, s ∈ ul.*2 -> pinned b s) -> Q None b) ->
  (forall l1 l2 s, ul.*2 = l2 ++ s :: l1 -> ~ pinned b s -> (forall s', s' ∈ l2 -> pinned b s') -> Q (Some s) b) ->
  wp (find_victim ul) Q E b.
Proof.
  induction ul as [|[n s] ul IH]; intros Hat HN HS; cbn.
  - wp_steps. apply HN. intros s Hs. by apply not_elem_of_nil in Hs.
  - destruct (Hat s ltac:(by left)) as [e He]. wp_steps. eapply wp_pool_get; [done|].
    destruct (Z.eqb_spec (be_pin e) 0) as [Hp|Hp]; cbn.
    + wp_steps. apply (HS ul.*2 [] s); [done| |by intros ? ?%not_elem_of_nil].
      intros (e' & He' & Hp'). congruence.
    + assert (pinned b s) as Hpin by (by exists e). apply IH.
      * intros s' Hs'. apply Hat. by right.
      * intros Hall. apply HN. intros s' [->|Hs']%elem_of_cons; auto.
      * intros l1 l2 s' Heq Hnp Hall. apply (HS l1 (s :: l2) s'); [cbn; by rewrite Heq|done|].
        intros s'' [->|Hs'']%elem_of_cons; auto.
Qed.

Lemma used_perm_alloc b m slot (rest : list Z) :
  bm_ok b m -> free_list_ b = slot :: rest ->
  (slot ∉ lru b) /\ rest ++ slot :: lru b ≡ₚ free_list_ b ++ lru b.
Proof.
  intros OK Hf. split.
  - eapply bm_free_not_used; [done|]. rewrite Hf. by left.
  - rewrite Hf. symmetry. apply Permutation_middle.
Qed.

(** Taking the first free slot. *)
Lemma alloc_free_post b m slot rest ul um nx :
  bm_ok b m -> free_list_ b = slot :: rest ->
  lru_ok ul um nx -> ul.*2 = slot :: lru b ->
  alloc_post b m slot (set_used ul um nx (set_free rest b)) m.
Proof.
  intros OK Hf Hl Hul. destruct (used_perm_alloc _ _ _ _ OK Hf) as [Hni Hp]. split; try done.
  - destruct OK as [? ? ? ? Hs ? Ht]. split; try done.
    + unfold lru. cbn. by rewrite Hul, Hp.
    + intros k s (Hin & ?)%Ht. unfold lru. cbn. rewrite Hul. split; [by right|done].
  - unfold lru. cbn. rewrite Hul. f_equal. symmetry. apply filter_all. by intros s Hs ->.
  - intros k (Hin & _)%(ok_tracked _ _ OK). done.
  - by left.
Qed.

(** Evicting a victim. *)
Lemma alloc_evict_post b m slot e t u ul um nx :
  bm_ok b m -> free_list_ b = [] -> victim b slot -> pool_at b slot = Some e ->
  written_back b e u -> ht_repr t (delete (be_key e) m) ->
  lru_ok ul um nx -> ul.*2 = slot :: filter (fun s => s <> slot) (lru b) ->
  alloc_post b m slot (set_used ul um nx (set_hash t (set_sys u b))) (delete (be_key e) m).
Proof.
  intros OK Hf Hv He Hw Ht Hl Hul.
  assert (ul.*2 ≡ₚ lru b) as Hp.
  { rewrite Hul. apply filter_ne_perm; [apply (ok_lru _ _ OK)|].
    destruct Hv as (l1 & l2 & -> & _). set_solver. }
  split; try done.
  - apply bm_ok_touch; [|done|done]. destruct OK as [? ? ? ? ? ? Htr]. split; try done.
    intros k s [_ Hk]%lookup_delete_Some. by apply Htr.
  - intros k [Hne Hk]%lookup_delete_Some. apply (ok_tracked _ _ OK) in Hk as (_ & e' & He' & Hk).
    congruence.
  - right. split_and!; [done..|]. by exists e.
Qed.

Lemma wp_internal_alloc b m :
  bm_ok b m ->
  wp internal_alloc (fun slot b' => exists m', alloc_post b m slot b' m') (alloc_fail b) b.
Proof.
  intros OK. unfold internal_alloc. wp_steps. destruct (free_list_ b) as [|slot rest] eqn:Hf.
  2:{ wp_steps. destruct (used_perm_alloc _ _ _ _ OK Hf) as [Hni _].
      apply wp_insert_used; [apply (ok_lru _ _ OK)|done|]. intros ul um nx Hl Hul. wp_steps.
      exists m. by apply alloc_free_post. }
  wp_steps. apply wp_find_victim; cbn.
  - intros s. rewrite fmap_reverse, elem_of_reverse. by apply bm_used_at with (m := m).
  - intros Hall. wp_steps. left. split_and!; [done..|]. intros s Hs. apply Hall.
    by rewrite fmap_reverse, elem_of_reverse.
  - intros l1 l2 slot Heq Hnp Hall.
    assert (victim b slot) as Hv.
    { exists (reverse l1), (reverse l2). split_and!; [|done|].
      - unfold lru. rewrite fmap_reverse in Heq. rewrite <-(reverse_involutive (used_list_ b).*2), Heq.
        rewrite reverse_app, reverse_cons. by rewrite <-app_assoc.
      - intros s. rewrite elem_of_reverse. apply Hall. }
    assert (slot ∈ lru b) as Hin by (destruct Hv as (? & ? & -> & _); set_solver).
    destruct (bm_used_at _ _ _ OK Hin) as [e He].
    destruct (ok_entries _ _ OK _ _ He) as (Hfit & _ & Hlen).
    wp_steps. eapply wp_pool_get; [done|]. wp_steps.
    assert (forall u, written_back b e u ->
      wp (_ ← in_hash (hash_table_remove (be_fd e) (be_page e));
          _ ← buffer_manager_remove slot; _ ← insert_used slot; mret slot)
        (fun slot b' => exists m', alloc_post b m slot b' m') (alloc_fail b) (set_sys u b)) as Hrest.
    { intros u Hw. wp_steps. apply wp_hash_remove with (m := m); [apply OK|by eauto with alphadb|].
      intros t Ht. apply wp_touch; [apply OK|]. intros ul um nx Hl Hul. wp_steps.
      eexists. by apply alloc_evict_post. }
    unfold written_back in Hrest. apply wp_when; intros Hd; rewrite Hd in Hrest.
    + apply wp_write_page; [apply OK|done|done|exact Hrest|].
      intros x u Hx Hfr. right. split; [done|]. by exists u, slot, e.
    + specialize (Hrest _ eq_refl). by destruct b.
Qed.
End alloc.

(** * Coherence of the cache with the files *)

Section coherence.
Context {U : Type} `{UnixLaws U}.
Implicit Types (b : buffer_manager U) (m : gmap (Z * Z) Z).

(** Used slots, but for the hole [h], are hashed under the key they hold. *)
Definition tight_but (h : option Z) b m : Prop :=
  forall slot, slot ∈ lru b -> Some slot <> h -> exists e, pool_at b slot = Some e /\ m !! be_key e = Some slot.

(** Clean cached pages, but for [x], equal the page on disk. *)
Definition clean_but (x : option (Z * Z)) b m : Prop :=
  forall k slot e, m !! k = Some slot -> pool_at b slot = Some e -> be_dirty e = false -> Some k <> x ->
    disk_page (buffer_size_ b) (bm_sys b) k = Some (be_data e).

Record coherent_but (h : option Z) (x : option (Z * Z)) b m : Prop := {
  co_ok : bm_ok b m;
  co_sep : u_separate (bm_sys b);
  co_tight : tight_but h b m;
  co_clean : clean_but x b m;
}.
Definition coherent := coherent_but None None.

(** The content of a page as the clients see it: the cached copy, else the file. *)
Definition view b m (k : Z * Z) : option (list byte) :=
  match m !! k with
  | Some slot => be_data <$> pool_at b slot
  | None => disk_page (buffer_size_ b) (bm_sys b) k
  end.

(** No page that exists is lost or altered. *)
Definition view_le b m b' m' : Prop :=
  forall k d, 0 <= k.2 -> view b m k = Some d -> view b' m' k = Some d.

Lemma view_le_refl b m : view_le b m b m.
Proof. by intros k d. Qed.

Lemma view_le_trans b1 m1 b2 m2 b3 m3 : view_le b1 m1 b2 m2 -> view_le b2 m2 b3 m3 -> view_le b1 m1 b3 m3.
Proof. intros H12 H23 k d Hk Hv. by apply H23, H12. Qed.

Lemma coherent_tracked b m k slot :
  bm_ok b m -> m !! k = Some slot ->
  exists e, pool_at b slot = Some e /\ be_key e = k /\ view b m k = Some (be_data e) /\ slot ∈ lru b.
Proof.
  intros OK Hk. destruct (ok_tracked _ _ OK _ _ Hk) as (Hin & e & He & Hek).
  exists e. split_and!; [done..| |done]. unfold view. by rewrite Hk, He.
Qed.

Lemma pool_at_pool b b' slot : buffer_pool_ b' = buffer_pool_ b -> pool_at b' slot = pool_at b slot.
Proof. unfold pool_at. by intros ->. Qed.

(** Write-back keeps the pages already on disk and adds the evicted one. *)
Lemma written_back_disk b m slot e u k d :
  bm_ok b m -> u_separate (bm_sys b) -> pool_at b slot = Some e -> written_back b e u ->
  0 <= k.2 -> k <> be_key e ->
  disk_page (buffer_size_ b) (bm_sys b) k = Some d -> disk_page (buffer_size_ b) u k = Some d.
Proof.
  intros OK Hsep He Hw Hk Hne Hd. unfold written_back in Hw. destruct (be_dirty e); [|by subst].
  destruct (ok_entries _ _ OK _ _ He) as ((_ & Hp & _) & _ & Hl).
  apply (disk_page_other (buffer_size_ b) (bm_sys b) u (be_key e) (be_data e)); try done. apply OK.
Qed.

Lemma written_back_same b m slot e u :
  coherent b m -> pool_at b slot = Some e -> m !! be_key e = Some slot -> written_back b e u ->
  disk_page (buffer_size_ b) u (be_key e) = Some (be_data e).
Proof.
  intros CO He Hk Hw. unfold written_back in Hw. destruct (be_dirty e) eqn:Hd.
  - destruct (ok_entries _ _ (co_ok _ _ _ _ CO) _ _ He) as (_ & _ & Hl).
    eapply disk_page_written; [|done|done]. apply (co_ok _ _ _ _ CO).
  - subst u. by eapply (co_clean _ _ _ _ CO).
Qed.

Lemma written_back_sep b e u : u_separate (bm_sys b) -> written_back b e u -> u_separate u.
Proof.
  intros Hs. unfold written_back. destruct (be_dirty e); [|by intros ->].
  intros [_ Hw]. by apply Hw.
Qed.

Lemma tracked_fits b m k slot : bm_ok b m -> m !! k = Some slot -> fits (buffer_size_ b) k.
Proof.
  intros OK Hk. destruct (coherent_tracked _ _ _ _ OK Hk) as (e & He & <- & _).
  by apply (ok_entries _ _ OK _ _ He).
Qed.

(** Allocation of a slot leaves a hole at it and changes no page. *)
Lemma alloc_coherent b m slot b' m' :
  coherent b m -> alloc_post b m slot b' m' ->
  coherent_but (Some slot) None b' m' /\ view_le b m b' m' /\ (forall k s, m' !! k = Some s -> m !! k = Some s).
Proof.
  intros CO [Hok Hpool Hsz Hlru Hun Hch]. pose proof (co_ok _ _ _ _ CO) as OK.
  assert (forall s, pool_at b' s = pool_at b s) as Hpa by (intros; by apply pool_at_pool).
  destruct Hch as [(Hf & -> & Hsys)|(Hf & Hf' & Hv & e & He & -> & Hw)].
  - split_and!; [|by intros k d _; unfold view; rewrite Hsys, Hsz; destruct (m !! k); rewrite ?Hpa|done].
    split; [done|rewrite Hsys; apply CO|..].
    + intros s. rewrite Hlru, elem_of_cons, list_elem_of_filter, Hpa. intros [->|[_ Hs]] Hne; [done|].
      by apply (co_tight _ _ _ _ CO).
    + intros k s e. rewrite Hsys, Hsz, Hpa. apply (co_clean _ _ _ _ CO).
  - assert (slot ∈ lru b) as Hin by (destruct Hv as (? & ? & -> & _); set_solver).
    destruct (co_tight _ _ _ _ CO _ Hin ltac:(done)) as (e' & He' & Hk). simplify_eq.
    split_and!.
    + split; [done|by eapply written_back_sep, Hw; apply CO|..].
      * intros s. rewrite Hlru, elem_of_cons, list_elem_of_filter, Hpa. intros [->|[Hne Hs]] Hne'; [done|].
        destruct (co_tight _ _ _ _ CO _ Hs ltac:(done)) as (es & Hes & Hks). exists es. split; [done|].
        rewrite lookup_delete_ne; [done|]. intros Heq. congruence.
      * intros k s es [Hne Hks]%lookup_delete_Some. rewrite Hpa, Hsz. intros Hes Hd _.
        apply (written_back_disk b m slot e); try done; [apply CO| |by eapply (co_clean _ _ _ _ CO)].
        by apply (tracked_fits _ _ _ _ OK Hks).
    + intros k d Hk0. unfold view at 2. rewrite lookup_delete. case_decide as Hd.
      * subst k. unfold view. rewrite Hk, He. intros [= <-]. rewrite Hsz. by eapply written_back_same.
      * unfold view. destruct (m !! k) as [s|]; [by rewrite Hpa|]. rewrite Hsz.
        apply written_back_disk with (m := m) (slot := slot) (e := e); try done. apply CO.
    + by intros k s [_ Hks]%lookup_delete_Some.
Qed.

Lemma coherent_touch h x b m ul um nx :
  coherent_but h x b m -> lru_ok ul um nx -> ul.*2 ≡ₚ lru b -> coherent_but h x (set_used ul um nx b) m.
Proof.
  intros [? ? Ht ?] Hl Hp. split; try done; [by apply bm_ok_touch|].
  intros s. unfold lru. cbn. rewrite Hp. apply Ht.
Qed.

(** Updating the entry of a cached page. *)
Lemma coherent_set_entry x b m slot e e' :
  coherent_but None x b m -> pool_at b slot = Some e -> be_key e' = be_key e -> entry_ok (buffer_size_ b) e' ->
  (be_dirty e' = false -> Some (be_key e) <> x -> be_dirty e = false /\ be_data e' = be_data e) ->
  coherent_but None x (set_entry slot e' b) m.
Proof.
  intros [? ? Ht Hc] He Hk Hok Hd. split; try done; [by eapply bm_ok_set_entry|..].
  - intros s Hs Hne. rewrite pool_at_set_entry by done.
    destruct (Ht s Hs Hne) as (es & Hes & Hks). case_decide; [subst|by exists es].
    exists e'. split; [done|]. congruence.
  - intros k s es Hks. rewrite pool_at_set_entry by done. case_decide; [|by eapply Hc].
    intros [= <-] Hd' Hx. subst s. destruct (ok_tracked _ _ co_ok0 _ _ Hks) as (_ & e0 & He0 & Hk0).
    destruct (Hd Hd') as [Hde Hdat]; [congruence|]. rewrite Hdat. apply (Hc k slot e); auto.
Qed.

Lemma view_set_entry b m slot e e' k :
  bm_ok b m -> pool_at b slot = Some e -> be_data e' = be_data e ->
  view (set_entry slot e' b) m k = view b m k.
Proof.
  intros OK He Hd. unfold view. destruct (m !! k) as [s|]; [|done].
  rewrite pool_at_set_entry by done. case_decide; [|done]. subst s. rewrite He. cbn. by rewrite Hd.
Qed.

(** A page that is not cached is entered under the slot of the hole. *)
Definition installed (fd page slot : Z) (e : buffer_entry) t b : buffer_manager U :=
  set_entry slot (mk_buffer_entry false fd page (be_data e) 1) (set_hash t b).

Lemma install_ok b m fd page slot e t :
  bm_ok b m -> slot ∈ lru b -> pool_at b slot = Some e -> (forall k, m !! k <> Some slot) ->
  fits (buffer_size_ b) (fd, page) -> ht_repr t (<[(fd, page) := slot]> m) ->
  bm_ok (installed fd page slot e t b) (<[(fd, page) := slot]> m).
Proof.
  intros [? ? Hlen He Hs ? Ht] Hin Hslot Hun Hf Hr. split; try done.
  - unfold installed, set_entry. cbn. by rewrite length_insert.
  - intros s x. unfold installed. rewrite pool_at_set_entry by done. case_decide; [|apply He].
    intros [= <-]. split_and!; [done|cbn; lia|]. by apply (He _ _ Hslot).
  - intros k s. unfold installed. rewrite pool_at_set_entry by done.
    intros [[<- <-]|[Hne Hk]]%lookup_insert_Some.
    + rewrite decide_True by done. split; [done|]. by eexists.
    + rewrite decide_False by congruence. by apply Ht.
Qed.

Lemma install_coherent b m fd page slot e t :
  coherent_but (Some slot) None b m -> slot ∈ lru b -> pool_at b slot = Some e ->
  (forall k, m !! k <> Some slot) -> m !! (fd, page) = None ->
  fits (buffer_size_ b) (fd, page) -> ht_repr t (<[(fd, page) := slot]> m) ->
  coherent_but None (Some (fd, page)) (installed fd page slot e t b) (<[(fd, page) := slot]> m).
Proof.
  intros [OK Hsep Ht Hc] Hin Hslot Hun Hnone Hf Hr. split; [by apply install_ok|done|..].
  - intros s Hs _. unfold installed. rewrite pool_at_set_entry by done. case_decide as Hd.
    + subst s. eexists. split; [done|]. by rewrite lookup_insert_eq.
    + destruct (Ht s Hs ltac:(congruence)) as (es & Hes & Hks). exists es. split; [done|].
      rewrite lookup_insert_ne; [done|]. congruence.
  - intros k s es. unfold installed. rewrite pool_at_set_entry by done.
    intros [[<- <-]|[Hne Hk]]%lookup_insert_Some; [done|].
    rewrite decide_False by congruence. intros. by eapply Hc.
Qed.

Lemma view_installed b m fd page slot e t k :
  pool_at b slot = Some e -> (forall k, m !! k <> Some slot) ->
  view (installed fd page slot e t b) (<[(fd, page) := slot]> m) k =
    if decide ((fd, page) = k) then Some (be_data e) else view b m k.
Proof.
  intros He Hun. unfold view, installed. rewrite lookup_insert. case_decide.
  - by rewrite pool_at_set_entry, decide_True.
  - destruct (m !! k) as [s|] eqn:Hk; [|done].
    rewrite pool_at_set_entry, decide_False; [done|congruence|done].
Qed.
End coherence.

(** * The page operations *)

Section page_operations.
Context {U : Type} `{UnixLaws U}.
Implicit Types (b : buffer_manager U) (m : gmap (Z * Z) Z).

Definition pins_le (n : Z) b : Prop := forall slot e, pool_at b slot = Some e -> be_pin e <= n.

Lemma pins_set_entry n b slot e : pins_le n b -> is_Some (pool_at b slot) -> be_pin e <= n -> pins_le n (set_entry slot e b).
Proof.
  intros Hn Hs He s es. rewrite pool_at_set_entry by done. case_decide; [naive_solver|apply Hn].
Qed.

(** Pointers to pinned pages stay valid. *)
Definition pointers_kept b m m' : Prop :=
  forall k slot, m !! k = Some slot -> pinned b slot -> m' !! k = Some slot.

(** No page but [k] enters the cache. *)
Definition only_new (k : Z * Z) m m' : Prop :=
  forall k' s, m' !! k' = Some s -> k' = k \/ m !! k' = Some s.

(** How an operation that brings in a page may fail: nothing has changed, or a
    transfer failed and only the structural invariant is left. *)
Definition page_fail b (x : exn) (b' : buffer_manager U) : Prop :=
  (b' = b /\ (x = page_pinned_exception \/ x = no_buf_error)) \/ (io_error x /\ exists m', bm_ok b' m').

Lemma alloc_fail_page b m x b' : bm_ok b m -> alloc_fail b x b' -> page_fail b x b'.
Proof.
  intros OK [(-> & -> & _)|(Hx & u & _ & _ & -> & _)]; [left; auto|right].
  split; [done|]. exists m. by apply bm_ok_set_sys.
Qed.

Lemma alloc_pointers b m slot b' m' : coherent b m -> alloc_post b m slot b' m' -> pointers_kept b m m'.
Proof.
  intros CO AP k s Hk Hp. destruct (ap_choice _ _ _ _ _ AP) as [(_ & -> & _)|(_ & _ & Hv & e & He & -> & _)]; [done|].
  apply lookup_delete_Some. split; [|done]. intros Heq.
  assert (slot ∈ lru b) as Hin by (destruct Hv as (? & ? & -> & _); set_solver).
  destruct (co_tight _ _ _ _ CO _ Hin ltac:(done)) as (e' & He' & Hk'). simplify_eq.
  by destruct Hv as (_ & _ & _ & Hnp & _).
Qed.

Lemma alloc_slot_at b m slot b' m' :
  alloc_post b m slot b' m' -> slot ∈ lru b' /\ slot <> -1 /\ exists e, pool_at b' slot = Some e.
Proof.
  intros AP. assert (slot ∈ lru b') as Hin by (rewrite (ap_lru _ _ _ _ _ AP); by left).
  destruct (bm_used_at _ _ _ (ap_ok _ _ _ _ _ AP) Hin) as [e He].
  split_and!; [done| |by exists e]. apply pool_at_nat in He. lia.
Qed.

Lemma touch_perm b m slot : bm_ok b m -> slot ∈ lru b -> slot :: filter (fun s => s <> slot) (lru b) ≡ₚ lru b.
Proof. intros OK Hin. apply filter_ne_perm; [apply (ok_lru _ _ OK)|done]. Qed.

Lemma coherent_installed_read b m fd page slot e t u d :
  coherent_but (Some slot) None b m -> slot ∈ lru b -> pool_at b slot = Some e ->
  (forall k, m !! k <> Some slot) -> m !! (fd, page) = None ->
  fits (buffer_size_ b) (fd, page) -> ht_repr t (<[(fd, page) := slot]> m) ->
  sys_same (bm_sys b) u -> disk_page (buffer_size_ b) u (fd, page) = Some d ->
  let b' := installed fd page slot (set_data d e) t (set_sys u (set_entry slot (set_data d e) b)) in
  let m' := <[(fd, page) := slot]> m in
  coherent b' m' /\ view b m (fd, page) = Some d /\ view_le b m b' m'.
Proof.
  intros CO Hin He Hun Hn Hf Hr Hu Hd b' m'. destruct CO as [OK Hsep Ht Hc].
  assert (length d = Z.to_nat (buffer_size_ b)) as Hl by (by apply file_block_Some in Hd as (? & _)).
  set (b1 := set_sys u (set_entry slot (set_data d e) b)).
  assert (forall s, pool_at b1 s = if decide (s = slot) then Some (set_data d e) else pool_at b s) as Hpa.
  { intros s. by apply (pool_at_set_entry b slot (set_data d e) s). }
  assert (coherent_but (Some slot) None b1 m) as CO1.
  { split.
    - apply bm_ok_set_sys. eapply bm_ok_set_entry; [done..|].
      destruct (ok_entries _ _ OK _ _ He) as (? & ? & _). done.
    - by apply Hu.
    - intros s Hs Hne. rewrite Hpa, decide_False by congruence. by apply Ht.
    - intros k s es Hk. rewrite Hpa, decide_False by congruence. cbn. intros ? ? ?.
      rewrite (disk_page_same _ (bm_sys b)) by done. by eapply Hc. }
  assert (pool_at b1 slot = Some (set_data d e)) as He1 by (by rewrite Hpa, decide_True).
  destruct (install_coherent b1 m fd page slot _ t CO1 Hin He1 Hun Hn Hf Hr) as [OK2 Hsep2 Ht2 Hc2].
  assert (view b m (fd, page) = Some d) as Hv.
  { unfold view. rewrite Hn. by rewrite <-(disk_page_same _ _ u). }
  split_and!; [split; [done..|]|done|].
  - intros k s es Hk Hes Hde _. destruct (decide (k = (fd, page))) as [->|Hne].
    + unfold m' in Hk. rewrite lookup_insert_eq in Hk. injection Hk as <-.
      unfold b', installed in Hes. rewrite pool_at_set_entry, decide_True in Hes by done. by simplify_eq.
    + apply (Hc2 k s es Hk Hes Hde). intros [= ->]. done.
  - intros k d' Hk0 Hvk. unfold b', m'. rewrite view_installed by done. case_decide; [simplify_eq; done|].
    unfold view in *. destruct (m !! k) as [s|] eqn:Hk.
    + fold b1. rewrite Hpa, decide_False by congruence. done.
    + cbn. by rewrite (disk_page_same _ (bm_sys b)).
Qed.

(** The state after a hit: the pin count moved and the slot is the most recent. *)
Lemma coherent_update x b m slot e e' ul um nx :
  coherent_but None x b m -> pool_at b slot = Some e -> slot ∈ lru b ->
  be_key e' = be_key e -> entry_ok (buffer_size_ b) e' -> be_data e' = be_data e ->
  (be_dirty e' = false -> Some (be_key e) <> x -> be_dirty e = false) ->
  lru_ok ul um nx -> ul.*2 = slot :: filter (fun s => s <> slot) (lru b) ->
  let b' := set_used ul um nx (set_entry slot e' b) in
  coherent_but None x b' m /\ (forall k, view b' m k = view b m k) /\ pool_at b' slot = Some e'.
Proof.
  intros CO He Hin Hk Hok Hd Hdi Hl Hul b'. pose proof (co_ok _ _ _ _ CO) as OK. split_and!.
  - apply coherent_touch; [|done|].
    + eapply coherent_set_entry; [done..|]. auto.
    + rewrite Hul. exact (touch_perm b m slot OK Hin).
  - intros k. exact (view_set_entry b m slot e e' k OK He Hd).
  - change (pool_at b' slot) with (pool_at (set_entry slot e' b) slot).
    by rewrite pool_at_set_entry, decide_True.
Qed.

Definition page_got b m (k : Z * Z) (r : option Z) (b' : buffer_manager U) : Prop :=
  exists slot e m', r = Some slot /\ coherent b' m' /\ m' !! k = Some slot /\ pool_at b' slot = Some e /\
    0 < be_pin e /\ (forall d, view b m k = Some d -> be_data e = d) /\ view_le b m b' m' /\ pointers_kept b m m' /\ only_new k m m' /\
    forall n, 0 <= n -> pins_le n b -> pins_le (n + 1) b'.

(** The rest of a miss: the page is read into the hole and entered. *)
Lemma wp_fetch b m fd page slot e :
  coherent_but (Some slot) None b m -> slot ∈ lru b -> pool_at b slot = Some e -> slot <> -1 ->
  (forall k, m !! k <> Some slot) -> m !! (fd, page) = None -> fits (buffer_size_ b) (fd, page) ->
  wp (_ ← read_page fd page slot;
      _ ← in_hash (hash_table_insert fd page slot);
      _ ← init_page_info fd page slot;
      mret (Some slot))
    (fun r b' => exists e', r = Some slot /\ coherent b' (<[(fd, page) := slot]> m) /\
       pool_at b' slot = Some e' /\ 0 < be_pin e' /\ view_le b m b' (<[(fd, page) := slot]> m) /\
       forall n, 1 <= n -> pins_le n b -> pins_le n b')
    (fun x b' => io_error x /\ bm_ok b' m) b.
Proof.
  intros CO Hin He Hs1 Hun Hn Hf. pose proof (co_ok _ _ _ _ CO) as OK. wp_steps.
  eapply wp_read_page; [done..| |].
  2:{ intros x u e' Hu Hx Hk' He' _ _. split; [done|].
      by apply bm_ok_set_sys; eapply bm_ok_set_entry. }
  intros u d Hu Hd. assert (length d = Z.to_nat (buffer_size_ b)) as Hld
    by (by apply file_block_Some in Hd as (? & _)).
  wp_steps. eapply (wp_hash_insert _ m); [|by eauto with alphadb|done..|].
  { apply bm_ok_set_sys. eapply bm_ok_set_entry; [done..|].
    destruct (ok_entries _ _ OK _ _ He) as (? & ? & _). done. }
  intros t Ht. wp_steps. unfold init_page_info.
  assert (pool_at (set_entry slot (set_data d e) b) slot = Some (set_data d e)) as He1
    by (by rewrite pool_at_set_entry, decide_True).
  apply wp_pool_set with (e := set_data d e); [exact He1|]. wp_steps.
  destruct (coherent_installed_read b m fd page slot e t u d) as (CO2 & _ & Hv2); try done.
  eexists. split_and!; [done|exact CO2| |..|exact Hv2|].
  - rewrite pool_at_set_entry, decide_True; [done|done|].
    change (is_Some (pool_at (set_entry slot (set_data d e) b) slot)). by rewrite He1.
  - done.
  - intros n' Hn' Hpn. apply pins_set_entry; [|exact (mk_is_Some _ _ He1)|done].
    by apply (pins_set_entry n' b slot (set_data d e)); [..|apply (Hpn _ _ He)].
Qed.

Lemma wp_get_page b m fd page mp :
  coherent b m -> fits (buffer_size_ b) (fd, page) ->
  pins_le (INT_MAX - 1) b ->
  wp (get_page fd page mp) (page_got b m (fd, page)) (page_fail b) b.
Proof.
  intros CO Hf Hpins. pose proof (co_ok _ _ _ _ CO) as OK. unfold get_page. wp_steps.
  eapply wp_hash_find; [done|by eauto with alphadb|].
  destruct (m !! (fd, page)) as [slot|] eqn:Hm; cbn.
  - destruct (coherent_tracked _ _ _ _ OK Hm) as (e & He & Hek & Hv & Hin).
    destruct (ht_repr_slot _ _ (ok_hash _ _ OK) _ _ Hm) as [Hs1 _].
    destruct (Z.eqb_spec slot (-1)); [done|]. wp_steps. eapply wp_pool_get; [done|].
    destruct (ok_entries _ _ OK _ _ He) as (Hfe & Hpe & Hle).
    case_match; [wp_steps; left; auto|]. wp_steps. specialize (Hpins _ _ He).
    apply wp_int_of; [unfold INT_MIN; lia|]. wp_steps. eapply wp_pool_set; [done|].
    apply wp_touch; [apply OK|]. intros ul um nx Hl Hul. wp_steps.
    destruct (coherent_update None b m slot e (set_pin (be_pin e + 1) e) ul um nx) as (CO' & Hv' & He');
      try done. { split_and!; [done|cbn; lia|done]. }
    exists slot, (set_pin (be_pin e + 1) e), m. split_and!; try done; [cbn; lia| | |by intros k s|by intros k s; right|].
    + intros d Hd. cbn. congruence.
    + intros k d _. by rewrite Hv'.
    + intros n' Hn' Hpn. apply (pins_set_entry (n' + 1) b slot); [|done|].
      * intros s es Hes. apply Hpn in Hes. lia.
      * cbn. apply Hpn in He. lia.
  - wp_steps. eapply wp_mono; [by apply wp_internal_alloc with (m := m)| |by eauto using alloc_fail_page].
    cbn. intros slot b1 (m1 & AP). destruct (alloc_slot_at _ _ _ _ _ AP) as (Hin & Hs1 & e & He).
    destruct (alloc_coherent _ _ _ _ _ CO AP) as (CO1 & Hv1 & Hsub).
    assert (m1 !! (fd, page) = None) as Hn1.
    { destruct (m1 !! (fd, page)) eqn:Hm1; [|done]. apply Hsub in Hm1. congruence. }
    destruct (Z.eqb_spec slot (-1)); [done|]. rewrite <-(ap_size _ _ _ _ _ AP) in Hf.
    eapply wp_mono; [apply (wp_fetch b1 m1 fd page slot e); try done; apply (ap_untracked _ _ _ _ _ AP)|..].
    + intros r b2 (e2 & -> & CO2 & He2 & Hp2 & Hv2 & Hpn2).
      pose proof (view_le_trans _ _ _ _ _ _ Hv1 Hv2) as Hv.
      exists slot, e2, (<[(fd, page):=slot]> m1). split_and!; try done; [by rewrite lookup_insert_eq|..].
      * intros d Hd. apply Hv in Hd; [|apply Hf]. unfold view in Hd.
        rewrite lookup_insert_eq, He2 in Hd. by injection Hd.
      * intros k s Hk Hp. rewrite lookup_insert_ne; [|congruence].
        exact (alloc_pointers _ _ _ _ _ CO AP k s Hk Hp).
      * intros k s [[<- _]|[_ Hk]]%lookup_insert_Some; [by left|right; by apply Hsub].
      * intros n' Hn' Hpn. apply Hpn2; [lia|]. intros s es.
        rewrite (pool_at_pool b) by apply (ap_pool _ _ _ _ _ AP). intros Hes%Hpn. lia.
    + intros x b2 [Hx OK2]. right. split; [done|]. by exists m1.
Qed.

(** A fresh page has undefined content until its client fills it and marks it. *)
Lemma wp_allocate_page b m fd page :
  coherent b m -> fits (buffer_size_ b) (fd, page) ->
  wp (buffer_manager_allocate_page fd page)
    (fun r b' =>
       match r with
       | None => b' = b /\ is_Some (m !! (fd, page))
       | Some slot => exists e m', m !! (fd, page) = None /\
           coherent_but None (Some (fd, page)) b' m' /\ m' !! (fd, page) = Some slot /\
           pool_at b' slot = Some e /\ be_pin e = 1 /\ pointers_kept b m m' /\ only_new (fd, page) m m' /\
           (forall s es, s <> slot -> pool_at b' s = Some es -> pool_at b s = Some es) /\
           (forall n, 1 <= n -> pins_le n b -> pins_le n b') /\
           forall k d, k <> (fd, page) -> 0 <= k.2 -> view b m k = Some d -> view b' m' k = Some d
       end) (page_fail b) b.
Proof.
  intros CO Hf. pose proof (co_ok _ _ _ _ CO) as OK. unfold buffer_manager_allocate_page. wp_steps.
  eapply wp_hash_find; [done|by eauto with alphadb|].
  destruct (m !! (fd, page)) as [slot|] eqn:Hm; cbn.
  { destruct (ht_repr_slot _ _ (ok_hash _ _ OK) _ _ Hm) as [Hs1 _].
    destruct (Z.eqb_spec slot (-1)); [done|]. cbn. wp_steps. done. }
  wp_steps. eapply wp_mono; [by apply wp_internal_alloc with (m := m)| |by eauto using alloc_fail_page].
  cbn. intros slot b1 (m1 & AP). destruct (alloc_slot_at _ _ _ _ _ AP) as (Hin & Hs1 & e & He).
  destruct (alloc_coherent _ _ _ _ _ CO AP) as (CO1 & Hv1 & Hsub).
  assert (m1 !! (fd, page) = None) as Hn1.
  { destruct (m1 !! (fd, page)) eqn:Hm1; [|done]. apply Hsub in Hm1. congruence. }
  rewrite <-(ap_size _ _ _ _ _ AP) in Hf. pose proof (ap_untracked _ _ _ _ _ AP) as Hun.
  wp_steps. eapply (wp_hash_insert _ m1); [apply CO1|by eauto with alphadb|done..|].
  intros t Ht. wp_steps. unfold init_page_info. apply wp_pool_set with (e := e); [done|]. wp_steps.
  exists (mk_buffer_entry false fd page (be_data e) 1), (<[(fd, page):=slot]> m1). split_and!; try done.
  - exact (install_coherent b1 m1 fd page slot e t CO1 Hin He Hun Hn1 Hf Ht).
  - by rewrite lookup_insert_eq.
  - by rewrite pool_at_set_entry, decide_True.
  - intros k s Hk Hp. rewrite lookup_insert_ne; [|congruence].
    exact (alloc_pointers _ _ _ _ _ CO AP k s Hk Hp).
  - intros k s [[<- _]|[_ Hk]]%lookup_insert_Some; [by left|right; by apply Hsub].
  - intros s es Hne. rewrite pool_at_set_entry, decide_False by (done || exact (mk_is_Some _ _ He)).
    intros Hes. by rewrite <-(pool_at_pool b b1) by apply (ap_pool _ _ _ _ _ AP).
  - intros n Hn Hpn. apply (pins_set_entry n (set_hash t b1) slot); [|exact (mk_is_Some _ _ He)|done].
    intros s es Hes. apply (Hpn s). by rewrite <-(pool_at_pool b b1) by apply (ap_pool _ _ _ _ _ AP).
  - intros k d Hne Hk Hv. pose proof (view_installed b1 m1 fd page slot e t k He Hun) as Hvi.
    rewrite decide_False in Hvi by done. unfold installed in Hvi. rewrite Hvi. by apply Hv1.
Qed.

Lemma wp_unpin_page x b m fd page :
  coherent_but None x b m -> fits (buffer_size_ b) (fd, page) ->
  pins_le INT_MAX b ->
  wp (buffer_manager_unpin_page fd page)
    (fun _ b' => exists slot e, m !! (fd, page) = Some slot /\ pool_at b slot = Some e /\ 0 < be_pin e /\
       coherent_but None x b' m /\ pool_at b' slot = Some (set_pin (be_pin e - 1) e) /\
       (forall n, pins_le n b -> pins_le n b') /\ forall k, view b' m k = view b m k)
    (fun y b' => b' = b /\
       ((y = page_not_in_buf_exception /\ m !! (fd, page) = None) \/
        (y = page_already_unpinned_exception /\ exists slot e,
           m !! (fd, page) = Some slot /\ pool_at b slot = Some e /\ be_pin e = 0))) b.
Proof.
  intros CO Hf Hpins. pose proof (co_ok _ _ _ _ CO) as OK. unfold buffer_manager_unpin_page. wp_steps.
  eapply wp_hash_find; [done|by eauto with alphadb|].
  destruct (m !! (fd, page)) as [slot|] eqn:Hm; cbn; [|wp_steps; split; [done|by left]].
  destruct (coherent_tracked _ _ _ _ OK Hm) as (e & He & Hek & Hv & Hin).
  destruct (ht_repr_slot _ _ (ok_hash _ _ OK) _ _ Hm) as [Hs1 _].
  destruct (Z.eqb_spec slot (-1)); [done|]. wp_steps. eapply wp_pool_get; [done|].
  destruct (ok_entries _ _ OK _ _ He) as (Hfe & Hpe & Hle). specialize (Hpins _ _ He).
  destruct (Z.eqb_spec (be_pin e) 0); [wp_steps; split; [done|right; split; [done|by exists slot, e]]|]. wp_steps.
  apply wp_int_of; [unfold INT_MIN; lia|]. wp_steps. eapply wp_pool_set; [done|].
  assert (entry_ok (buffer_size_ b) (set_pin (be_pin e - 1) e)) by (split_and!; [done|cbn; lia|done]).
  assert (forall n, pins_le n b -> pins_le n (set_entry slot (set_pin (be_pin e - 1) e) b)) as Hpn.
  { intros n' Hn'. apply pins_set_entry; [done|done|]. apply Hn' in He. cbn. lia. }
  destruct (Z.eqb_spec (be_pin e - 1) 0).
  - wp_steps. apply wp_remove; [apply OK|]. intros ul um nx Hl Hul.
    apply wp_insert_used; [done|unfold lru; cbn; rewrite Hul, list_elem_of_filter; naive_solver|].
    intros ul' um' nx' Hl' Hul'. unfold lru in Hul'. cbn in Hul'. rewrite Hul in Hul'.
    destruct (coherent_update x b m slot e (set_pin (be_pin e - 1) e) ul' um' nx') as (CO' & Hv' & He'); try done.
    exists slot, e. split_and!; try done. lia.
  - wp_steps. exists slot, e. split_and!; try done; [lia| | |].
    + by eapply coherent_set_entry.
    + by rewrite pool_at_set_entry, decide_True.
    + intros k. by eapply view_set_entry.
Qed.

Lemma wp_mark_dirty x b m fd page :
  coherent_but None x b m -> x = None \/ x = Some (fd, page) -> fits (buffer_size_ b) (fd, page) ->
  wp (buffer_manager_mark_dirty fd page)
    (fun _ b' => exists slot e, m !! (fd, page) = Some slot /\ pool_at b slot = Some e /\
       coherent b' m /\ pool_at b' slot = Some (set_dirty true e) /\
       (forall n, pins_le n b -> pins_le n b') /\ forall k, view b' m k = view b m k)
    (fun y b' => b' = b /\ y = page_not_in_buf_exception /\ m !! (fd, page) = None) b.
Proof.
  intros CO Hx Hf. pose proof (co_ok _ _ _ _ CO) as OK. unfold buffer_manager_mark_dirty. wp_steps.
  eapply wp_hash_find; [done|by eauto with alphadb|].
  destruct (m !! (fd, page)) as [slot|] eqn:Hm; cbn; [|by wp_steps].
  destruct (coherent_tracked _ _ _ _ OK Hm) as (e & He & Hek & Hv & Hin).
  destruct (ht_repr_slot _ _ (ok_hash _ _ OK) _ _ Hm) as [Hs1 _].
  destruct (Z.eqb_spec slot (-1)); [done|]. wp_steps. eapply wp_pool_set; [done|].
  wp_steps. apply wp_remove; [apply OK|]. intros ul um nx Hl Hul.
  apply wp_insert_used; [done|unfold lru; cbn; rewrite Hul, list_elem_of_filter; naive_solver|].
  intros ul' um' nx' Hl' Hul'. unfold lru in Hul'. cbn in Hul'. rewrite Hul in Hul'.
  destruct (coherent_update x b m slot e (set_dirty true e) ul' um' nx') as (CO' & Hv' & He'); try done.
  { destruct (ok_entries _ _ OK _ _ He) as (? & ? & ?). done. }
  assert (forall n, pins_le n b -> pins_le n (set_entry slot (set_dirty true e) b)) as Hpn.
  { intros n' Hn'. apply pins_set_entry; [done|done|]. by apply Hn' in He. }
  exists slot, e. split_and!; try done. destruct CO' as [? ? ? Hc]. split; try done.
  intros k s es Hk Hes Hd _. apply (Hc k s es); [done..|]. intros <-.
  destruct Hx as [|[= ->]]; [done|]. rewrite Hm in Hk. injection Hk as <-. by pose proof (eq_trans (eq_sym Hes) He') as [= ->].
Qed.

(** The client stores into a page it holds a pointer to; it must mark the page after that. *)
Lemma client_write_coherent x b m k slot e d :
  coherent_but None x b m -> x = None \/ x = Some k ->
  m !! k = Some slot -> pool_at b slot = Some e -> length d = Z.to_nat (buffer_size_ b) ->
  coherent_but None (Some k) (set_entry slot (set_data d e) b) m /\
  forall k', view (set_entry slot (set_data d e) b) m k' = if decide (k' = k) then Some d else view b m k'.
Proof.
  intros CO Hx Hk He Hl. pose proof (co_ok _ _ _ _ CO) as OK.
  destruct (ok_entries _ _ OK _ _ He) as (Hf & Hp & _).
  destruct (ok_tracked _ _ OK _ _ Hk) as (_ & e0 & He0 & Hk0). simplify_eq. split.
  - eapply coherent_set_entry; [|done..|].
    + destruct CO as [? ? ? Hc]. split; try done. intros k s es Hks Hes Hd Hne. apply (Hc k s es); [done..|].
      by destruct Hx as [->| ->].
    + done.
  - intros k'. unfold view. case_decide as Hd.
    + subst k'. by rewrite Hk, pool_at_set_entry, decide_True.
    + destruct (m !! k') as [s|] eqn:Hk'; [|done]. rewrite pool_at_set_entry by done.
      rewrite decide_False; [done|]. intros ->. apply Hd. by eapply bm_tracked_inj.
Qed.

(** A dirty page is written to its place and marked clean. *)
Lemma coherent_cleaned b m slot e u :
  coherent b m -> pool_at b slot = Some e -> m !! be_key e = Some slot ->
  written (buffer_size_ b) (bm_sys b) u (be_key e) (be_data e) ->
  let b' := set_entry slot (set_dirty false e) (set_sys u b) in
  coherent b' m /\ view_le b m b' m.
Proof.
  intros CO He Hk Hw b'. pose proof (co_ok _ _ _ _ CO) as OK.
  destruct (ok_entries _ _ OK _ _ He) as (Hf & Hp & Hl). pose proof (ok_size _ _ OK) as Hsz.
  pose proof (co_sep _ _ _ _ CO) as Hsep.
  assert (forall s, pool_at b' s = if decide (s = slot) then Some (set_dirty false e) else pool_at b s) as Hpa.
  { intros s. by apply (pool_at_set_entry (set_sys u b) slot). }
  split; [split|].
  - by apply (bm_ok_set_entry (set_sys u b) m slot e); [apply bm_ok_set_sys|..].
  - by apply Hw.
  - intros s Hs _. rewrite Hpa. destruct (co_tight _ _ _ _ CO s Hs ltac:(done)) as (es & Hes & Hks).
    case_decide; [|by exists es]. subst s. by exists (set_dirty false e).
  - intros k s es Hks. rewrite Hpa. case_decide as Hd.
    + intros [= <-] _ _. subst s. rewrite (bm_tracked_inj _ _ _ _ _ OK Hks Hk). by eapply disk_page_written.
    + intros Hes Hde _. pose proof (tracked_fits _ _ _ _ OK Hks) as Hfk.
      apply (disk_page_other _ (bm_sys b) u (be_key e) (be_data e)); try done; [apply Hf|apply Hfk|congruence|].
      by eapply (co_clean _ _ _ _ CO).
  - intros k d Hk0. unfold view. destruct (m !! k) as [s|] eqn:Hks.
    + rewrite Hpa. case_decide; [|done]. subst s. by rewrite He.
    + apply (disk_page_other _ (bm_sys b) u (be_key e) (be_data e)); try done; [apply Hf|congruence].
Qed.

Lemma force_loop_spec (l : list (list_node * Z)) b m fd page :
  coherent b m -> fits (buffer_size_ b) (fd, page) -> (forall s, s ∈ l.*2 -> s ∈ lru b) ->
  wp (force_loop l fd page)
    (fun _ b' => coherent b' m /\ view_le b m b' m /\ used_list_ b' = used_list_ b /\
       (forall s e, pool_at b' s = Some e -> exists e0, pool_at b s = Some e0 /\ be_key e = be_key e0 /\ be_pin e = be_pin e0 /\
          (be_dirty e = true -> be_dirty e0 = true /\ (s ∈ l.*2 -> be_key e0 <> (fd, page)))))
    (fun x b' => io_error x /\ bm_ok b' m) b.
Proof.
  revert b. induction l as [|[n i] l IH]; intros b CO Hf Hl; cbn.
  { wp_steps. split_and!; [done|apply view_le_refl|done|]. intros s e He. exists e. split_and!; [done..|].
    intros Hd. split; [done|]. by intros ?%not_elem_of_nil. }
  pose proof (co_ok _ _ _ _ CO) as OK. assert (i ∈ lru b) as Hi by (apply Hl; by left).
  destruct (co_tight _ _ _ _ CO _ Hi ltac:(done)) as (e & He & Hk).
  destruct (ok_entries _ _ OK _ _ He) as (Hfe & Hp & Hle).
  assert (forall s, s ∈ l.*2 -> s ∈ lru b) as Hl' by (intros; apply Hl; by right).
  wp_steps. eapply wp_pool_get; [done|]. wp_steps.
  assert ((be_page e =? page) || (page =? -1) = (be_page e =? page)) as ->.
  { destruct Hf as (_ & ? & _). cbn in *. destruct (Z.eqb_spec page (-1)); [lia|]. apply orb_false_r. }
  apply wp_when; [intros Hmatch; apply wp_when; intros Hd|intros Hmatch].
  - apply andb_true_iff in Hmatch as [Hfd Hpg]. apply Z.eqb_eq in Hfd, Hpg. subst fd page. wp_steps.
    apply wp_write_page; [apply OK|done|done|..].
    2:{ intros x u Hx _. split; [done|]. by apply bm_ok_set_sys. }
    intros u Hw. apply wp_pool_set with (e := e); [done|].
    destruct (coherent_cleaned b m i e u CO He Hk Hw) as [CO1 Hv1].
    eapply wp_mono; [by apply IH| |done]. cbn. intros _ b2 (CO2 & Hv2 & Hu2 & Hp2).
    split_and!; [done|by eapply view_le_trans|done|]. intros s es Hes.
    destruct (Hp2 _ _ Hes) as (e1 & He1 & Hk1 & Hp1 & Hd1).
    change (pool_at (set_entry i (set_dirty false e) (set_sys u b)) s = Some e1) in He1.
    rewrite pool_at_set_entry in He1 by done. change (pool_at (set_sys u b) s) with (pool_at b s) in He1.
    case_decide as Hsi.
    + subst s. exists e. injection He1 as <-. split_and!; [done..|]. intros Hde. by apply Hd1 in Hde as [? _].
    + exists e1. split_and!; [done..|]. intros Hde. apply Hd1 in Hde as [? Hne]. split; [done|].
      intros [->|?]%elem_of_cons; [done|by apply Hne].
  - eapply wp_mono; [by apply IH| |done]. cbn. intros _ b2 (CO2 & Hv2 & Hu2 & Hp2).
    split_and!; [done..|]. intros s es Hes. destruct (Hp2 _ _ Hes) as (e1 & He1 & Hk1 & Hp1 & Hd1).
    exists e1. split_and!; [done..|]. intros Hde. apply Hd1 in Hde as [? Hne]. split; [done|].
    intros [->|?]%elem_of_cons; [congruence|by apply Hne].
  - eapply wp_mono; [by apply IH| |done]. cbn. intros _ b2 (CO2 & Hv2 & Hu2 & Hp2).
    split_and!; [done..|]. intros s es Hes. destruct (Hp2 _ _ Hes) as (e1 & He1 & Hk1 & Hp1 & Hd1).
    exists e1. split_and!; [done..|]. intros Hde. apply Hd1 in Hde as [? Hne]. split; [done|].
    intros [->|?]%elem_of_cons; [|by apply Hne]. rewrite He in He1. injection He1 as <-.
    intros Hkk. unfold be_key in Hkk. injection Hkk as <- <-. by rewrite !Z.eqb_refl in Hmatch.
Qed.

(** ** flush_pages *)

(** Free slots from [i] on do not carry descriptor [fd]. *)
Definition free_without (fd i : Z) b : Prop :=
  forall s e, s ∈ free_list_ b -> i <= s -> pool_at b s = Some e -> be_fd e <> fd.

(** Some slot from [i] on holds a pinned page of [fd]. *)
Definition pinned_from (fd i : Z) b : Prop :=
  exists s e, i <= s /\ pool_at b s = Some e /\ be_fd e = fd /\ 0 < be_pin e.

Lemma pinned_from_next fd i b b' e :
  pool_at b i = Some e -> be_fd e <> fd \/ be_pin e <= 0 -> (forall s, s <> i -> pool_at b' s = pool_at b s) ->
  pinned_from fd i b <-> pinned_from fd (i + 1) b'.
Proof.
  intros He Hi Hsame. split; intros (s & es & Hs & Hes & Hfd & Hp).
  - assert (s <> i) by (intros ->; rewrite He in Hes; injection Hes as <-; destruct Hi; [done|lia]).
    exists s, es. split; [lia|]. by rewrite Hsame.
  - exists s, es. split; [lia|]. by rewrite <-Hsame by lia.
Qed.

(** A clean page is dropped from the cache and its slot freed. *)
Lemma coherent_dropped b m slot e t ul um nx :
  coherent b m -> pool_at b slot = Some e -> m !! be_key e = Some slot -> be_dirty e = false ->
  ht_repr t (delete (be_key e) m) -> lru_ok ul um nx -> ul.*2 = filter (fun s => s <> slot) (lru b) ->
  let b' := set_free (slot :: free_list_ b) (set_used ul um nx (set_hash t b)) in
  coherent b' (delete (be_key e) m) /\ view_le b m b' (delete (be_key e) m).
Proof.
  intros CO He Hk Hd Ht Hl Hul b'. destruct CO as [[? ? ? ? Hs Hlru Htr] Hsep Hti Hc].
  destruct (Htr _ _ Hk) as [Hin _]. split; [split; [split; try done|done|..]|].
  - unfold lru. cbn. rewrite Hul. rewrite Permutation_middle.
    rewrite filter_ne_perm; [done|apply Hlru|done].
  - intros k s [Hne Hks]%lookup_delete_Some. destruct (Htr _ _ Hks) as (Hin' & es & Hes & Hkes).
    split; [|by exists es]. unfold lru. cbn. rewrite Hul. apply list_elem_of_filter. split; [|done]. congruence.
  - intros s. unfold lru. cbn. rewrite Hul, list_elem_of_filter. intros [Hne Hs'] _.
    destruct (Hti s Hs' ltac:(done)) as (es & Hes & Hks). exists es. split; [done|].
    rewrite lookup_delete_ne; [done|]. congruence.
  - intros k s es [Hne Hks]%lookup_delete_Some. by apply (Hc k s es).
  - intros k d Hk0. unfold view. rewrite lookup_delete. case_decide as Hkk; [|done]. subst k.
    rewrite Hk, He. cbn. intros [= <-]. by apply (Hc _ slot e).
Qed.

(** The entry of a slot that is written back ends up clean, also when it was. *)
Lemma wp_write_back b m slot e (Q : unit -> buffer_manager U -> Prop) (E : exn -> _ -> Prop) :
  coherent b m -> pool_at b slot = Some e -> m !! be_key e = Some slot ->
  (forall u, let b' := set_entry slot (set_dirty false e) (set_sys u b) in
     coherent b' m -> view_le b m b' m -> headers_kept (bm_sys b) u -> Q tt b') ->
  (forall x u, io_error x -> E x (set_sys u b)) ->
  wp (when (be_dirty e) (_ ← write_page (be_fd e) (be_page e) (be_data e); pool_set slot (set_dirty false))) Q E b.
Proof.
  intros CO He Hk HQ HE. pose proof (co_ok _ _ _ _ CO) as OK.
  destruct (ok_entries _ _ OK _ _ He) as (Hfe & _ & Hle). apply wp_when; intros Hd.
  - wp_steps. apply wp_write_page; [apply OK|done|done| |by auto].
    intros u Hw. apply wp_pool_set with (e := e); [done|].
    destruct (coherent_cleaned b m slot e u CO He Hk Hw) as [CO1 Hv1].
    apply HQ; [done..|]. eapply written_headers; [apply OK|apply Hfe|apply CO|done].
  - assert (set_entry slot (set_dirty false e) (set_sys (bm_sys b) b) = b) as Hb.
    { replace (set_dirty false e) with e by (destruct e; cbn in *; by subst).
      unfold set_entry. cbn. rewrite list_insert_id by (by apply pool_at_nat). by destruct b. }
    rewrite <-Hb. apply HQ; [by rewrite Hb|rewrite Hb; apply view_le_refl|by intros fd n d].
Qed.

Lemma flush_loop_spec n i b m fd :
  coherent b m -> free_without fd i b -> 0 <= i -> i + Z.of_nat n = pool_size_ b ->
  (forall k s, m !! k = Some s -> k.1 = fd -> i <= s) ->
  wp (flush_loop n i fd)
    (fun _ b' => headers_kept (bm_sys b) (bm_sys b') /\ ~ pinned_from fd i b /\
       exists m', coherent b' m' /\ view_le b m b' m' /\ forall k s, m' !! k = Some s -> k.1 <> fd)
    (fun x b' => exists m', bm_ok b' m' /\
       (x = page_pinned_exception /\ pinned_from fd i b /\ coherent b' m' /\ view_le b m b' m' \/ io_error x)) b.
Proof.
  revert i b m. induction n as [|n IH]; intros i b m CO Hfw Hi Hn Hbelow; cbn -[Z.add].
  { wp_steps. split; [by intros f n d|]. split.
    { intros (s & e & Hs & [_ He]%pool_at_nat & _). apply lookup_lt_Some in He. pose proof (ok_len _ _ (co_ok _ _ _ _ CO)). lia. }
    exists m. split_and!; [done|apply view_le_refl|]. intros k s Hk Hfd.
    pose proof (Hbelow _ _ Hk Hfd). pose proof (co_ok _ _ _ _ CO) as OK.
    destruct (coherent_tracked _ _ _ _ OK Hk) as (e & [_ He]%pool_at_nat & _).
    apply lookup_lt_Some in He. rewrite (ok_len _ _ OK) in He. lia. }
  pose proof (co_ok _ _ _ _ CO) as OK.
  assert (i ∈ free_list_ b ++ lru b) as Hin.
  { rewrite (ok_slots _ _ OK). apply list_elem_of_fmap. exists (Z.to_nat i). rewrite elem_of_seq. lia. }
  destruct (bm_pool_at _ _ _ OK Hin) as [e He]. wp_steps. eapply wp_pool_get; [done|]. wp_steps.
  apply wp_when; intros Hfd.
  2:{ apply Z.eqb_neq in Hfd. pose proof (pinned_from_next fd i b b e He ltac:(by left) ltac:(done)) as Hpf.
      eapply wp_mono; [apply (IH (i + 1) b m); try done; [|lia..|]|cbn; setoid_rewrite Hpf; done|cbn; setoid_rewrite Hpf; done].
      - intros s es Hs Hle. apply Hfw; [done|lia].
      - intros k s Hk Hkfd. pose proof (Hbelow _ _ Hk Hkfd). assert (s <> i); [|lia]. intros ->.
        destruct (coherent_tracked _ _ _ _ OK Hk) as (e' & He' & Hk' & _). by simplify_eq. }
  apply Z.eqb_eq in Hfd. destruct (Z.ltb_spec 0 (be_pin e)) as [Hpin|Hpin].
  { wp_steps. exists m. split; [done|]. left. split_and!; [done| |done|apply view_le_refl]. exists i, e. split_and!; [lia|done..]. }
  assert (i ∈ lru b) as Hused.
  { apply elem_of_app in Hin as [Hf|?]; [|done]. by destruct (Hfw i e Hf). }
  destruct (co_tight _ _ _ _ CO _ Hused ltac:(done)) as (e' & He' & Hk). rewrite He in He'. injection He' as <-.
  wp_steps. apply (wp_write_back b m i e); [done..| |].
  2:{ intros x u Hx. exists m. split; [by apply bm_ok_set_sys|by right]. }
  intros u b1 CO1 Hv1 Hh1. pose proof (co_ok _ _ _ _ CO1) as OK1.
  assert (pool_at b1 i = Some (set_dirty false e)) as He1.
  { unfold b1. by rewrite pool_at_set_entry, decide_True. }
  wp_steps. apply wp_hash_remove with (m := m); [apply OK1|apply (fits_key_ok (buffer_size_ b)); by apply (ok_entries _ _ OK _ _ He)|].
  intros t Ht. wp_steps. apply wp_remove; [apply OK1|]. intros ul um nx Hl Hul. wp_steps.
  unfold insert_free. wp_steps.
  destruct (coherent_dropped b1 m i _ t ul um nx CO1 He1 Hk eq_refl Ht Hl Hul) as [CO2 Hv2].
  set (b2 := set_free _ _) in *.
  assert (pinned_from fd i b <-> pinned_from fd (i + 1) b2) as Hpf.
  { apply (pinned_from_next fd i b b2 e He); [by right|]. intros s Hs. change (pool_at b2 s) with (pool_at b1 s). unfold b1.
    by rewrite pool_at_set_entry, decide_False. }
  eapply wp_mono; [apply (IH (i + 1) _ _ CO2); [|lia|cbn; lia|]|cbn..].
  - intros s es Hs Hle Hes. change (pool_at b1 s = Some es) in Hes. unfold b1 in Hes.
    rewrite pool_at_set_entry, decide_False in Hes by (done || lia).
    apply elem_of_cons in Hs as [->|Hs]; [lia|]. apply (Hfw s es Hs); [lia|done].
  - intros k s [Hne Hks]%lookup_delete_Some Hkfd. pose proof (Hbelow _ _ Hks Hkfd).
    assert (s <> i); [|lia]. intros ->. apply Hne. by eapply (bm_tracked_inj b).
  - intros _ b3 (Hh3 & Hnp & m3 & CO3 & Hv3 & Hm3). split; [intros f n' d Hn' Hd; by apply Hh3, Hh1|]. split; [by rewrite Hpf|]. exists m3. split_and!; [done| |done].
    by eapply view_le_trans, view_le_trans.
  - intros x b3 (m3 & OK3 & Hx). exists m3. split; [done|]. destruct Hx as [(-> & Hpin3 & CO3 & Hv3)|Hx]; [left|by right].
    split_and!; [done|by apply Hpf|done|]. by eapply view_le_trans, view_le_trans.
Qed.

Lemma wp_flush_pages b m fd :
  coherent b m -> 0 <= pool_size_ b -> free_without fd 0 b ->
  wp (buffer_manager_flush_pages fd)
    (fun _ b' => headers_kept (bm_sys b) (bm_sys b') /\ ~ pinned_from fd 0 b /\
       exists m', coherent b' m' /\ view_le b m b' m' /\ forall k s, m' !! k = Some s -> k.1 <> fd)
    (fun x b' => exists m', bm_ok b' m' /\
       (x = page_pinned_exception /\ pinned_from fd 0 b /\ coherent b' m' /\ view_le b m b' m' \/ io_error x)) b.
Proof.
  intros CO Hp Hfw. unfold buffer_manager_flush_pages. wp_steps.
  apply flush_loop_spec; try done; [lia|]. intros k s Hk _.
  destruct (coherent_tracked _ _ _ _ (co_ok _ _ _ _ CO) Hk) as (e & [? _]%pool_at_nat & _). done.
Qed.
End page_operations.

(** * What no operation changes *)

Section sizes.
Context {U : Type} `{Unix U}.

Definition sizes (b : buffer_manager U) : Z * Z := (pool_size_ b, buffer_size_ b).

Lemma keeps_pool_get slot : keeps sizes (pool_get slot).
Proof. unfold pool_get. keeps. Qed.
Lemma keeps_pool_set slot f : keeps sizes (pool_set slot f).
Proof. unfold pool_set. pose proof keeps_pool_get. keeps. Qed.
Lemma keeps_sys {A} (f : U -> A * U) : keeps sizes (sys f).
Proof. intros b. unfold sys. by destruct (f (bm_sys b)). Qed.
Lemma keeps_remove slot : keeps sizes (buffer_manager_remove slot).
Proof. unfold buffer_manager_remove. keeps. Qed.
Lemma keeps_insert_used slot : keeps sizes (insert_used slot).
Proof. unfold insert_used. keeps. Qed.
Lemma keeps_in_hash {A} (m : M hash_table A) : keeps sizes (in_hash m).
Proof. unfold in_hash. keeps. Qed.
#[local] Hint Resolve keeps_pool_get keeps_pool_set keeps_sys keeps_remove keeps_insert_used keeps_in_hash : keeps.

Lemma keeps_read_page fd page slot : keeps sizes (read_page fd page slot).
Proof. unfold read_page, page_offset. keeps. Qed.
Lemma keeps_write_page fd page d : keeps sizes (write_page fd page d).
Proof. unfold write_page, page_offset. keeps. Qed.
Lemma keeps_find_victim l : keeps sizes (find_victim l).
Proof. induction l as [|[n s] l IH]; cbn; keeps. Qed.
#[local] Hint Resolve keeps_read_page keeps_write_page keeps_find_victim : keeps.
Lemma keeps_internal_alloc : keeps sizes internal_alloc.
Proof. unfold internal_alloc. keeps. Qed.
#[local] Hint Resolve keeps_internal_alloc : keeps.

Lemma keeps_get_page fd page mp : keeps sizes (get_page fd page mp).
Proof. unfold get_page, init_page_info. keeps. Qed.
Lemma keeps_allocate_page fd page : keeps sizes (buffer_manager_allocate_page fd page).
Proof. unfold buffer_manager_allocate_page, init_page_info. keeps. Qed.
Lemma keeps_unpin_page fd page : keeps sizes (buffer_manager_unpin_page fd page).
Proof. unfold buffer_manager_unpin_page. keeps. Qed.
Lemma keeps_mark_dirty fd page : keeps sizes (buffer_manager_mark_dirty fd page).
Proof. unfold buffer_manager_mark_dirty. keeps. Qed.
Lemma keeps_force_page fd page : keeps sizes (buffer_manager_force_page fd page).
Proof.
  unfold buffer_manager_force_page. keeps. induction a as [|[n s] l IH]; cbn; keeps.
Qed.
Lemma keeps_flush_pages fd : keeps sizes (buffer_manager_flush_pages fd).
Proof.
  unfold buffer_manager_flush_pages. keeps. generalize 0. induction (Z.to_nat a) as [|n IH]; intros i; cbn -[Z.add];
    unfold insert_free; keeps.
Qed.

(** The descriptors in the slots. *)
Definition fds (b : buffer_manager U) : list Z := be_fd <$> buffer_pool_ b.
Definition slots (b : buffer_manager U) : list Z * list Z := (free_list_ b, fds b).

(** Changing anything in a slot but its descriptor. *)
Lemma keeps_slots_set slot f : (forall e, be_fd (f e) = be_fd e) -> keeps slots (pool_set slot f).
Proof.
  intros Hf b. unfold pool_set, pool_get, mbind, M_bind. destruct (slot <? 0); [done|]. unfold gets, of_option.
  destruct (buffer_pool_ b !! Z.to_nat slot) as [e|] eqn:He; [|done]. cbn. unfold slots, fds. cbn. f_equal.
  rewrite list_fmap_insert, Hf. apply list_insert_id. by rewrite list_lookup_fmap, He.
Qed.
Lemma keeps_slots_get slot : keeps slots (pool_get slot).
Proof. unfold pool_get. keeps. Qed.
Lemma keeps_slots_remove slot : keeps slots (buffer_manager_remove slot).
Proof. unfold buffer_manager_remove. keeps. Qed.
Lemma keeps_slots_used slot : keeps slots (insert_used slot).
Proof. unfold insert_used. keeps. Qed.
Lemma keeps_slots_hash {A} (m : M hash_table A) : keeps slots (in_hash m).
Proof. unfold in_hash. keeps. Qed.
#[local] Hint Resolve keeps_slots_get keeps_slots_remove keeps_slots_used keeps_slots_hash : keeps.

Lemma keeps_fds_sys {A} (f : U -> A * U) : keeps fds (sys f).
Proof. intros b. unfold sys. by destruct (f (bm_sys b)). Qed.
Lemma keeps_fds_slots {A} (x : M (buffer_manager U) A) : keeps slots x -> keeps fds x.
Proof. intros Hx b. specialize (Hx b). unfold slots in Hx. by destruct (x b); try congruence. Qed.
Lemma keeps_fds_flush fd : keeps fds (buffer_manager_flush_pages fd).
Proof.
  pose proof (fun s => keeps_fds_slots _ (keeps_slots_remove s)). pose proof (fun A m => keeps_fds_slots _ (@keeps_slots_hash A m)).
  pose proof (fun s => keeps_fds_slots _ (keeps_slots_get s)). pose proof (@keeps_fds_sys).
  unfold buffer_manager_flush_pages. keeps. generalize 0. induction (Z.to_nat a) as [|n IH]; intros i; cbn -[Z.add];
    unfold insert_free, write_page, page_offset; keeps. by apply keeps_fds_slots, keeps_slots_set.
Qed.

Lemma keeps_slots_unpin fd page : keeps slots (buffer_manager_unpin_page fd page).
Proof. unfold buffer_manager_unpin_page. keeps. by apply keeps_slots_set. Qed.
Lemma keeps_slots_mark fd page : keeps slots (buffer_manager_mark_dirty fd page).
Proof. unfold buffer_manager_mark_dirty. keeps. by apply keeps_slots_set. Qed.

Lemma slots_pool_at (b b' : buffer_manager U) s e :
  slots b' = slots b -> pool_at b' s = Some e -> exists e0, pool_at b s = Some e0 /\ be_fd e0 = be_fd e.
Proof.
  intros [= _ Hf] [Hs He]%pool_at_nat. assert (fds b !! Z.to_nat s = Some (be_fd e)) as Hl.
  { rewrite <-Hf. unfold fds. by rewrite list_lookup_fmap, He. }
  apply list_lookup_fmap_Some in Hl as (e0 & -> & He0). exists e0. split; [|done]. unfold pool_at.
  destruct (Z.ltb_spec s 0); [lia|done].
Qed.

Lemma slots_set_entry (b : buffer_manager U) s e e0 :
  pool_at b s = Some e0 -> be_fd e = be_fd e0 -> slots (set_entry s e b) = slots b.
Proof.
  intros [Hs He]%pool_at_nat Hfd. unfold slots, fds, set_entry. cbn. f_equal. rewrite list_fmap_insert, Hfd.
  apply list_insert_id. by rewrite list_lookup_fmap, He.
Qed.
End sizes.

#[export] Hint Resolve keeps_get_page keeps_allocate_page keeps_unpin_page keeps_mark_dirty keeps_force_page
  keeps_flush_pages keeps_pool_get keeps_pool_set keeps_in_hash : keeps.

(** * A client of the cache *)

(** The store the clients of the cache have in mind: pages and their contents. *)
Abbreviation store := (gmap (Z * Z) (list byte)).

Inductive bm_op :=
| BGet (fd page : Z) (multiple_pins : bool)    (* pins a page and looks at it *)
| BUnpin (fd page : Z)
| BStore (fd page : Z) (d : list byte)         (* fills a page it holds and marks it dirty *)
| BCreate (fd page : Z) (d : list byte)        (* allocates a page, fills it and marks it dirty *)
| BForce (fd page : Z).

Section client.
Context {U : Type} `{UnixLaws U}.
Implicit Types (b : buffer_manager U) (m : gmap (Z * Z) Z).

Definition fill_page (fd page slot : Z) (d : list byte) : M (buffer_manager U) unit :=
  _ ← pool_set slot (set_data d);
  buffer_manager_mark_dirty fd page.

Definition run_bm_op (o : bm_op) : M (buffer_manager U) (option (list byte)) :=
  match o with
  | BGet fd page mp =>
      r ← get_page fd page mp;
      match r with
      | None => undef null_deref
      | Some slot => e ← pool_get slot; mret (Some (be_data e))
      end
  | BUnpin fd page => _ ← buffer_manager_unpin_page fd page; mret None
  | BStore fd page d =>
      slot ← in_hash (hash_table_find fd page);
      if slot =? -1 then throw page_not_in_buf_exception
      else _ ← fill_page fd page slot d; mret (Some d)
  | BCreate fd page d =>
      r ← buffer_manager_allocate_page fd page;
      match r with
      | None => mret None
      | Some slot => _ ← fill_page fd page slot d; mret (Some d)
      end
  | BForce fd page => _ ← buffer_manager_force_page fd page; mret None
  end.

Definition is_io_error (x : exn) : bool :=
  match x with unix_error | incomplete_read_error | incomplete_write_error => true | _ => false end.

(** The client carries on after an exception, unless a transfer failed. *)
Fixpoint run_bm_ops (os : list bm_op) : M (buffer_manager U) (list (option (list byte) + exn)) :=
  match os with
  | [] => mret []
  | o :: os =>
      r ← attempt (run_bm_op o);
      match r with
      | inr x => if is_io_error x then throw x else rs ← run_bm_ops os; mret (r :: rs)
      | inl _ => rs ← run_bm_ops os; mret (r :: rs)
      end
  end.

Definition op_key (o : bm_op) : Z * Z :=
  match o with
  | BGet fd page _ | BUnpin fd page | BStore fd page _ | BCreate fd page _ | BForce fd page => (fd, page)
  end.

Definition bm_op_ok (size : Z) (o : bm_op) : Prop :=
  fits size (op_key o) /\
  match o with BStore _ _ d | BCreate _ _ d => length d = Z.to_nat size | _ => True end.

(** The abstract store: a page that is known is read back unchanged. *)
Definition spec_op (o : bm_op) (st : store) (r : option (list byte) + exn) (st' : store) : Prop :=
  match o, r with
  | BGet fd page _, inl (Some d) => (forall d0, st !! (fd, page) = Some d0 -> d = d0) /\ st' = <[(fd, page) := d]> st
  | BGet _ _ _, inl None => False
  | (BStore fd page d | BCreate fd page d), inl (Some d') => d' = d /\ st' = <[(fd, page) := d]> st
  | _, _ => st' = st
  end.

Fixpoint spec_ops (os : list bm_op) (st : store) (rs : list (option (list byte) + exn)) (st' : store) : Prop :=
  match os, rs with
  | [], [] => st' = st
  | o :: os, r :: rs => exists st1, spec_op o st r st1 /\ spec_ops os st1 rs st'
  | _, _ => False
  end.

Definition knows (st : store) b m : Prop := forall k d, st !! k = Some d -> 0 <= k.2 /\ view b m k = Some d.

Lemma is_io_error_iff x : is_io_error x = true <-> io_error x.
Proof. unfold io_error. destruct x; cbn; naive_solver. Qed.

Lemma knows_le st b m b' m' : knows st b m -> view_le b m b' m' -> knows st b' m'.
Proof. intros Hk Hv k d Hd. destruct (Hk _ _ Hd) as [? ?]. auto. Qed.

Lemma knows_insert st b m k d : knows st b m -> 0 <= k.2 -> view b m k = Some d -> knows (<[k := d]> st) b m.
Proof. intros Hk Hk0 Hv k' d' [[<- <-]|[_ ?]]%lookup_insert_Some; [done|by apply Hk]. Qed.

Lemma wp_fill_page x b m fd page slot e d (Q : unit -> buffer_manager U -> Prop) E :
  coherent_but None x b m -> x = None \/ x = Some (fd, page) ->
  m !! (fd, page) = Some slot -> pool_at b slot = Some e -> length d = Z.to_nat (buffer_size_ b) ->
  (forall b', coherent b' m -> (forall n, pins_le n b -> pins_le n b') ->
     (forall k, view b' m k = if decide (k = (fd, page)) then Some d else view b m k) -> Q tt b') ->
  wp (fill_page fd page slot d) Q E b.
Proof.
  intros CO Hx Hm He Hl HQ. unfold fill_page. wp_steps. eapply wp_pool_set; [done|].
  destruct (client_write_coherent x b m _ _ _ d CO Hx Hm He Hl) as [CO1 Hv1].
  eapply wp_mono; [apply (wp_mark_dirty (Some (fd, page)) _ m); [done|by right|]|..].
  - by apply (tracked_fits b m _ slot); [apply CO|].
  - intros [] b' (s & e' & _ & _ & CO' & _ & Hpn & Hv). apply HQ; [done| |].
    + intros n Hn. apply Hpn, pins_set_entry; [done|done|]. by apply (Hn _ _ He).
    + intros k. by rewrite Hv, Hv1.
  - intros y b' (-> & _ & Hn). congruence.
Qed.

Definition op_post (o : bm_op) (n : Z) st (r : option (list byte)) b' : Prop :=
  exists m' st', coherent b' m' /\ spec_op o st (inl r) st' /\ knows st' b' m' /\ pins_le (n + 1) b'.

Definition op_fail b (x : exn) (b' : buffer_manager U) : Prop :=
  if is_io_error x then exists m', bm_ok b' m' else b' = b.

Lemma page_fail_op b x b' : page_fail b x b' -> op_fail b x b'.
Proof.
  unfold op_fail. intros [[-> [-> | ->]]|[Hx OK]]; [done..|]. by apply is_io_error_iff in Hx as ->.
Qed.

(** A page that its client has filled. *)
Lemma knows_filled st b m b' m' k d :
  knows st b m -> 0 <= k.2 -> view b' m' k = Some d ->
  (forall k' d', k' <> k -> 0 <= k'.2 -> view b m k' = Some d' -> view b' m' k' = Some d') ->
  knows (<[k := d]> st) b' m'.
Proof.
  intros Hk Hk0 Hd Hv k' d' [[<- <-]|[Hne Hd']]%lookup_insert_Some; [done|].
  destruct (Hk _ _ Hd'). auto.
Qed.

Section one_op.
Context (b : buffer_manager U) (m : gmap (Z * Z) Z) (st : store) (n : Z).
Hypothesis CO : coherent b m.
Hypothesis Hknows : knows st b m.
Hypothesis Hn : 0 < n < INT_MAX.
Hypothesis Hpins : pins_le n b.

Lemma pins_le_succ b' : pins_le n b' -> pins_le (n + 1) b'.
Proof. intros Hb s e He%Hb. lia. Qed.

Lemma pins_le_max k : n <= k -> pins_le k b.
Proof. intros Hk s e He%Hpins. lia. Qed.

Lemma run_get_spec fd page mp :
  fits (buffer_size_ b) (fd, page) ->
  wp (run_bm_op (BGet fd page mp)) (op_post (BGet fd page mp) n st) (op_fail b) b.
Proof.
  intros Hf. cbn. wp_steps.
  eapply wp_mono; [apply (wp_get_page b m fd page mp CO Hf), pins_le_max; lia| |by eauto using page_fail_op].
  cbn. intros r b' (slot & e & m' & -> & CO' & Hm' & He & Hp & Hd & Hv & _ & _ & Hpn).
  wp_steps. eapply wp_pool_get; [done|]. wp_steps.
  exists m', (<[(fd, page) := be_data e]> st). split_and!; [done|..].
  - split; [|done]. intros d0 Hd0. apply Hd. by apply Hknows.
  - apply knows_insert; [by eapply knows_le|apply Hf|]. unfold view. by rewrite Hm', He.
  - apply Hpn; [lia|done].
Qed.

Lemma run_unpin_spec fd page :
  fits (buffer_size_ b) (fd, page) ->
  wp (run_bm_op (BUnpin fd page)) (op_post (BUnpin fd page) n st) (op_fail b) b.
Proof.
  intros Hf. cbn. wp_steps.
  eapply wp_mono; [apply (wp_unpin_page None b m fd page CO Hf), pins_le_max; lia|cbn..].
  - intros _ b' (slot & e & _ & _ & _ & CO' & _ & Hpn & Hv). wp_steps. exists m, st. split_and!; try done.
    + intros k d Hk. rewrite Hv. by apply Hknows.
    + by apply pins_le_succ, Hpn.
  - by intros x b' [-> [[-> _]|[-> _]]].
Qed.

Lemma run_store_spec fd page d :
  fits (buffer_size_ b) (fd, page) -> length d = Z.to_nat (buffer_size_ b) ->
  wp (run_bm_op (BStore fd page d)) (op_post (BStore fd page d) n st) (op_fail b) b.
Proof.
  intros Hf Hl. pose proof (co_ok _ _ _ _ CO) as OK. cbn. wp_steps.
  eapply wp_hash_find; [done|by eauto with alphadb|].
  destruct (m !! (fd, page)) as [slot|] eqn:Hm; cbn; [|by wp_steps].
  destruct (ht_repr_slot _ _ (ok_hash _ _ OK) _ _ Hm) as [Hs1 _]. destruct (Z.eqb_spec slot (-1)); [done|].
  destruct (coherent_tracked _ _ _ _ OK Hm) as (e & He & _). wp_steps.
  eapply wp_fill_page; [exact CO|by left|done..|]. intros b' CO' Hpn Hv. wp_steps.
  exists m, (<[(fd, page) := d]> st). split_and!; [done..| |by apply pins_le_succ, Hpn].
  eapply knows_filled; [done|apply Hf|by rewrite Hv, decide_True|].
  intros k' d' Hne _ Hk'. by rewrite Hv, decide_False.
Qed.

Lemma run_create_spec fd page d :
  fits (buffer_size_ b) (fd, page) -> length d = Z.to_nat (buffer_size_ b) ->
  wp (run_bm_op (BCreate fd page d)) (op_post (BCreate fd page d) n st) (op_fail b) b.
Proof.
  intros Hf Hl. cbn. wp_steps.
  eapply wp_mono; [apply (wp_keeps sizes); [by apply keeps_allocate_page|by apply (wp_allocate_page b m fd page CO Hf)]
    |cbn|intros x b' [Hx _]; by apply page_fail_op].
  intros [slot|] b' [Hpost Hsz]; wp_steps.
  - destruct Hpost as (e & m' & Hm & CO' & Hm' & He & Hp & _ & _ & _ & Hpn & Hv). injection Hsz as _ Hsz.
    eapply wp_fill_page; [exact CO'|by right|done|done|by rewrite Hsz|].
    intros b2 CO2 Hpn2 Hv2. wp_steps. exists m', (<[(fd, page) := d]> st).
    split_and!; [done..| |by apply pins_le_succ, Hpn2, Hpn; [lia|]].
    eapply knows_filled; [done|apply Hf|by rewrite Hv2, decide_True|].
    intros k' d' Hne Hk0 Hk'. rewrite Hv2, decide_False by done. by apply Hv.
  - destruct Hpost as [-> _]. exists m, st. split_and!; try done. by apply pins_le_succ.
Qed.

Lemma run_force_spec fd page :
  fits (buffer_size_ b) (fd, page) ->
  wp (run_bm_op (BForce fd page)) (op_post (BForce fd page) n st) (op_fail b) b.
Proof.
  intros Hf. cbn. unfold buffer_manager_force_page. wp_steps.
  eapply wp_mono; [by apply (force_loop_spec _ b m fd page CO Hf)|cbn..].
  - intros _ b' (CO' & Hv & _ & Hp). wp_steps. exists m, st. split_and!; [done|done|by eapply knows_le|].
    apply pins_le_succ. intros s e (e0 & He0 & _ & Hpe & _)%Hp. apply Hpins in He0. lia.
  - intros x b' [Hx OK]. unfold op_fail. apply is_io_error_iff in Hx as ->. by exists m.
Qed.
End one_op.

Lemma run_bm_op_spec o b m st n :
  coherent b m -> knows st b m -> 0 < n < INT_MAX -> pins_le n b -> bm_op_ok (buffer_size_ b) o ->
  wp (run_bm_op o) (op_post o n st) (op_fail b) b.
Proof.
  intros CO Hk Hn Hp [Hf Ho]. destruct o.
  - by eapply run_get_spec.
  - by eapply run_unpin_spec.
  - by eapply run_store_spec.
  - by eapply run_create_spec.
  - by eapply run_force_spec.
Qed.

Lemma run_bm_ops_spec os b m st n :
  coherent b m -> knows st b m -> 0 < n -> n + Z.of_nat (length os) <= INT_MAX -> pins_le n b ->
  Forall (bm_op_ok (buffer_size_ b)) os ->
  wp (run_bm_ops os)
    (fun rs b' => exists m' st', coherent b' m' /\ spec_ops os st rs st' /\ knows st' b' m')
    (fun x b' => io_error x /\ exists m', bm_ok b' m') b.
Proof.
  revert b m st n. induction os as [|o os IH]; intros b m st n CO Hk Hn Hlen Hp Hos; cbn -[run_bm_op].
  { wp_steps. by exists m, st. }
  apply Forall_cons in Hos as [Ho Hos]. cbn in Hlen. wp_steps. apply wp_attempt.
  assert (keeps sizes (run_bm_op o)) as Hkeep.
  { unfold run_bm_op, fill_page. destruct o; keeps. }
  eapply wp_mono; [apply (wp_keeps sizes); [done|]; apply (run_bm_op_spec o b m st n); (done || lia)|cbn..].
  - intros r b' [(m' & st' & CO' & Hs & Hk' & Hp') [= _ Hsz]]. wp_steps. rewrite <-Hsz in Hos.
    eapply wp_mono; [apply (IH b' m' st' (n + 1)); (done || lia)|cbn|done].
    intros rs b2 (m2 & st2 & CO2 & Hs2 & Hk2). wp_steps. exists m2, st2. split_and!; [done|by exists st'|done].
  - intros x b' [Hfail _]. unfold op_fail in Hfail. destruct (is_io_error x) eqn:Hx.
    + wp_steps. split; [by apply is_io_error_iff|done].
    + subst b'. wp_steps. eapply wp_mono; [apply (IH b m st n); (done || lia)|cbn|done].
      intros rs b2 (m2 & st2 & CO2 & Hs2 & Hk2). wp_steps. exists m2, st2. split_and!; [done| |done].
      exists st. split; [|done]. by destruct o.
Qed.

(** ** The initial state *)

(** Whatever the uninitialised entries hold, their keys must be in range. *)
Definition garbage_ok (size n : Z) (g : nat -> buffer_entry) : Prop :=
  forall i, fits size (be_key (g i)) /\ 0 <= be_pin (g i) <= n.

Lemma new_pool_at (g : nat -> buffer_entry) pool size (u : U) slot e :
  pool_at (buffer_manager_new pool size g u) slot = Some e ->
  exists i, e = set_data (replicate (Z.to_nat size) Byte.x00) (g i).
Proof.
  intros [_ He]%pool_at_nat. cbn in He. apply list_lookup_fmap_Some in He as (i & -> & _). by exists i.
Qed.

Lemma buffer_manager_new_coherent pool size g n (u : U) :
  0 < size -> garbage_ok size n g -> u_separate u ->
  coherent (buffer_manager_new pool size g u) ∅ /\ pins_le n (buffer_manager_new pool size g u).
Proof.
  intros Hsz Hg Hu. split; [split; [split|done|..]|]; try done.
  - by apply hash_table_new_repr.
  - cbn. by rewrite length_fmap, length_seq.
  - intros slot e (i & ->)%new_pool_at. destruct (Hg i) as (? & ? & ?). split_and!; [done..|].
    cbn. by rewrite length_replicate.
  - unfold lru. cbn. by rewrite app_nil_r.
  - split; cbn; try apply NoDup_nil_2.
    + intros s n'. rewrite lookup_empty. split; [done|]. by intros ?%not_elem_of_nil.
    + by intros n' s ?%not_elem_of_nil.
  - intros s Hs. by apply not_elem_of_nil in Hs.
  - intros slot e (i & ->)%new_pool_at. apply (Hg i).
Qed.
End client.

(** * Properties *)

(** C2. The cache is transparent.  From a new buffer manager on separate files,
    any sequence of page operations (get, unpin, store through the pointer and mark
    dirty, allocate, force) behaves like a map from (fd, page) to page contents:
    get returns the last content stored or, for a page never stored, the content of
    the file, whatever was evicted and written back in between.  No operation is
    undefined; an exception leaves the state as it was, unless a transfer failed,
    and then the structural invariant of the pool still holds.  (The constructor leaves fd,
    page and pin of the slots unset; what they hold is an argument, required to be in
    range: [garbage_ok].) *)
Theorem buffer_cache_transparent {U} `{UnixLaws U} (pool size n : Z) (g : nat -> buffer_entry) (u : U)
    (st : store) (os : list bm_op) :
  0 < size -> garbage_ok size n g -> u_separate u -> 0 < n -> n + Z.of_nat (length os) <= INT_MAX ->
  (forall k d, st !! k = Some d -> 0 <= k.2 /\ disk_page size u k = Some d) ->
  Forall (bm_op_ok size) os ->
  wp (run_bm_ops os)
    (fun rs b' => exists m' st', coherent b' m' /\ spec_ops os st rs st' /\ knows st' b' m')
    (fun x b' => io_error x /\ exists m', bm_ok b' m')
    (buffer_manager_new pool size g u).
Proof.
  intros Hsz Hg Hu Hn Hlen Hst Hos.
  destruct (buffer_manager_new_coherent pool size g n u Hsz Hg Hu) as [CO Hp].
  eapply run_bm_ops_spec; [done| |done|done|done|done].
  intros k d Hk. by apply Hst.
Qed.

(** The concrete setting of the witnesses: one file of a header and two pages of 8 bytes. *)
Definition demo_entry (i : nat) : buffer_entry := mk_buffer_entry false 0 0 [] 0.
Definition demo_page (x : byte) : list byte := replicate 8 x.
Definition demo_fs : MemFs :=
  mk_MemFs {[ "t" := replicate 4096 Byte.x07 ++ demo_page Byte.x01 ++ demo_page Byte.x02 ]} {[ 3 := ("t", 0%nat) ]}.
Definition demo_bm (pool : Z) : buffer_manager MemFs := buffer_manager_new pool 8 demo_entry demo_fs.

Lemma demo_separate : u_separate demo_fs.
Proof.
  split.
  - intros fd1 fd2 x o1 o2 H1 H2. cbn in *. apply lookup_singleton_Some in H1 as [<- _], H2 as [<- _]. done.
  - intros fd n o H1. cbn in *. apply lookup_singleton_Some in H1 as [_ [= <- _]]. by rewrite lookup_singleton_eq.
Defined.

Lemma buffer_cache_transparent_witness :
  wp (run_bm_ops [BGet 3 0 true; BStore 3 0 (demo_page Byte.x09); BUnpin 3 0; BGet 3 1 true; BUnpin 3 1; BGet 3 0 true])
    (fun rs b' => exists m' st', coherent b' m' /\
       spec_ops [BGet 3 0 true; BStore 3 0 (demo_page Byte.x09); BUnpin 3 0; BGet 3 1 true; BUnpin 3 1; BGet 3 0 true] ∅ rs st' /\
       knows st' b' m')
    (fun x b' => io_error x /\ exists m', bm_ok b' m')
    (demo_bm 1).
Proof.
  apply (buffer_cache_transparent 1 8 1 demo_entry demo_fs ∅).
  - lia.
  - intros i. unfold fits, INT_MAX. cbn. lia.
  - apply demo_separate.
  - lia.
  - unfold INT_MAX. cbn. lia.
  - intros k d Hk. by rewrite lookup_empty in Hk.
  - repeat constructor; unfold fits, INT_MAX; cbn; lia.
Defined.

(** C25. Allocation of a slot.  With a free slot the first one is taken; otherwise
    the victim is the least recently used slot that is not pinned, it is written to
    its place in its file if it is dirty and leaves the hash table; the slot becomes
    the most recently used one.  It throws no_buf_error, and then nothing has
    changed, only when every slot is pinned; the invariant is kept. *)
Theorem internal_alloc_lru {U} `{UnixLaws U} (b : buffer_manager U) (m : gmap (Z * Z) Z) :
  bm_ok b m ->
  wp internal_alloc (fun slot b' => exists m', alloc_post b m slot b' m') (alloc_fail b) b.
Proof. apply wp_internal_alloc. Qed.

Lemma internal_alloc_lru_witness :
  bm_ok (demo_bm 2) ∅ /\
  wp internal_alloc (fun slot b' => exists m', alloc_post (demo_bm 2) ∅ slot b' m') (alloc_fail (demo_bm 2)) (demo_bm 2).
Proof.
  assert (bm_ok (demo_bm 2) ∅) as OK.
  { eapply co_ok, (buffer_manager_new_coherent 2 8 demo_entry 1 demo_fs); [lia| |apply demo_separate].
    intros i. unfold fits, INT_MAX. cbn. lia. }
  split; [exact OK|]. exact (internal_alloc_lru _ _ OK).
Defined.

(** C26. flush_pages, when no free slot still carries the descriptor.  It returns only
    if no slot of the file was pinned, and then no page of the file is left in the cache and
    the file holds every page content; it throws page_pinned_exception only if a slot of
    the file was pinned, and then no content is lost; otherwise a system call failed.  So a
    pinned page makes it throw. *)
Theorem flush_pages_writes_file {U} `{UnixLaws U} (b : buffer_manager U) (m : gmap (Z * Z) Z) (fd : Z) :
  coherent b m -> 0 <= pool_size_ b -> free_without fd 0 b ->
  wp (buffer_manager_flush_pages fd)
    (fun _ b' => ~ pinned_from fd 0 b /\
       (forall p d, 0 <= p -> view b m (fd, p) = Some d -> disk_page (buffer_size_ b') (bm_sys b') (fd, p) = Some d) /\
       exists m', coherent b' m' /\ view_le b m b' m' /\ forall k s, m' !! k = Some s -> k.1 <> fd)
    (fun x b' => exists m', bm_ok b' m' /\
       (x = page_pinned_exception /\ pinned_from fd 0 b /\ coherent b' m' /\ view_le b m b' m' \/ io_error x)) b.
Proof.
  intros CO Hp Hfw. eapply wp_mono; [by apply (wp_flush_pages b m fd)| |done].
  intros [] b' (_ & Hnp & m' & CO' & Hv & Hm'). split; [done|]. split; [|by exists m']. intros p d Hp0 Hvd. apply Hv in Hvd; [|done].
  unfold view in Hvd. destruct (m' !! (fd, p)) as [s|] eqn:Hk; [|done]. by apply Hm' in Hk.
Qed.

Lemma flush_pages_writes_file_witness :
  wp (buffer_manager_flush_pages 3)
    (fun _ b' => ~ pinned_from 3 0 (demo_bm 2) /\
       (forall p d, 0 <= p -> view (demo_bm 2) ∅ (3, p) = Some d -> disk_page (buffer_size_ b') (bm_sys b') (3, p) = Some d) /\
       exists m', coherent b' m' /\ view_le (demo_bm 2) ∅ b' m' /\ forall k s, m' !! k = Some s -> k.1 <> 3)
    (fun x b' => exists m', bm_ok b' m' /\
       (x = page_pinned_exception /\ pinned_from 3 0 (demo_bm 2) /\ coherent b' m' /\ view_le (demo_bm 2) ∅ b' m' \/ io_error x))
    (demo_bm 2) /\
  match (_ ← get_page 3 0 true; buffer_manager_flush_pages 3) (demo_bm 2) with
  | Exc page_pinned_exception _ => True
  | _ => False
  end.
Proof.
  split; [|vm_compute; exact I]. apply flush_pages_writes_file.
  - apply (buffer_manager_new_coherent 2 8 demo_entry 1 demo_fs); [lia| |apply demo_separate].
    intros i. unfold fits, INT_MAX. cbn. lia.
  - cbn. lia.
  - intros s e _ _ He. apply new_pool_at in He as (i & ->). cbn. lia.
Defined.

(** C27. force_page(fd, page) for a page number (not -1) leaves the content of the
    page on disk and every page content unchanged. *)
Theorem force_page_reaches_disk {U} `{UnixLaws U} (b : buffer_manager U) (m : gmap (Z * Z) Z) (fd page : Z) :
  coherent b m -> fits (buffer_size_ b) (fd, page) ->
  wp (buffer_manager_force_page fd page)
    (fun _ b' => coherent b' m /\ view_le b m b' m /\
       forall d, view b m (fd, page) = Some d -> disk_page (buffer_size_ b') (bm_sys b') (fd, page) = Some d)
    (fun x b' => io_error x /\ bm_ok b' m) b.
Proof.
  intros CO Hf. unfold buffer_manager_force_page. wp_steps.
  eapply wp_mono; [by apply (force_loop_spec _ b m fd page CO Hf)|cbn|done].
  intros [] b' (CO' & Hv & Hul & Hp). split_and!; [done..|]. intros d Hd. apply Hv in Hd; [|apply Hf].
  unfold view in Hd. destruct (m !! (fd, page)) as [s|] eqn:Hm; [|done].
  destruct (coherent_tracked _ _ _ _ (co_ok _ _ _ _ CO') Hm) as (e & He & Hk & _ & Hin).
  rewrite He in Hd. injection Hd as <-. apply (co_clean _ _ _ _ CO' _ s); [done|done| |done].
  destruct (Hp _ _ He) as (e0 & He0 & Hk0 & _ & Hdirty). destruct (be_dirty e); [|done].
  destruct (Hdirty eq_refl) as [_ Hne]. unfold lru in Hin. rewrite Hul in Hin. destruct (Hne Hin). congruence.
Qed.

Lemma force_page_reaches_disk_witness :
  wp (buffer_manager_force_page 3 0)
    (fun _ b' => coherent b' ∅ /\ view_le (demo_bm 2) ∅ b' ∅ /\
       forall d, view (demo_bm 2) ∅ (3, 0) = Some d -> disk_page (buffer_size_ b') (bm_sys b') (3, 0) = Some d)
    (fun x b' => io_error x /\ bm_ok b' ∅) (demo_bm 2).
Proof.
  apply force_page_reaches_disk.
  - apply (buffer_manager_new_coherent 2 8 demo_entry 1 demo_fs); [lia| |apply demo_separate].
    intros i. unfold fits, INT_MAX. cbn. lia.
  - unfold fits, INT_MAX. cbn. lia.
Defined.

(** ** Runs that leave the contract *)

Definition final_state {U A} (o : outcome (buffer_manager U) A) : option (buffer_manager U) :=
  match o with Ret _ b | Exc _ b => Some b | _ => None end.

(** A page is created, dirtied and "forced" with page = -1, the documented request for
    all pages of the file. *)
Definition force_all_run : M (buffer_manager MemFs) unit :=
  _ ← run_bm_op (BGet 3 1 true);
  _ ← run_bm_op (BStore 3 1 (demo_page Byte.x09));
  buffer_manager_force_page 3 (-1).

(** force_page(fd, -1) passes -1 on to write_page: with a buffer size of 8 the
    dirty page 1 goes to offset 4088, inside the file header, its own place on disk
    keeps the old content, and the page is marked clean, so the update is lost. *)
Theorem force_all_writes_into_header :
  exists b, final_state (force_all_run (demo_bm 2)) = Some b /\
    disk_page 8 (bm_sys b) (3, 1) = Some (demo_page Byte.x02) /\
    file_block (u_bytes (bm_sys b) 3) 4088 8 = Some (demo_page Byte.x09) /\
    (be_dirty <$> pool_at b 0) = Some false.
Proof. eexists. split; [vm_compute; reflexivity|]. vm_compute. auto. Qed.

(** A page is used and flushed twice, as closing a file, reopening it under the same
    descriptor and closing it again does; then two pages are created. *)
Definition reflush_run : M (buffer_manager MemFs) (option Z * option Z) :=
  _ ← get_page 3 0 true;
  _ ← buffer_manager_unpin_page 3 0;
  _ ← buffer_manager_flush_pages 3;
  _ ← buffer_manager_flush_pages 3;
  r1 ← buffer_manager_allocate_page 3 5;
  r2 ← buffer_manager_allocate_page 3 6;
  mret (r1, r2).

(** flush_pages looks at the descriptor of free slots too: the second flush enters
    slot 0 into the free list again, and the next two allocations hand out the same
    buffer for two different pages. *)
Theorem reflush_aliases_pages :
  exists b, reflush_run (demo_bm 2) = Ret (Some 0, Some 0) b /\ free_list_ b = [1].
Proof. eexists. split; vm_compute; reflexivity. Qed.

(** The file has one full page and three bytes of page 1; the pool has one slot. *)
Definition torn_fs : MemFs :=
  mk_MemFs {[ "t" := replicate 4096 Byte.x07 ++ demo_page Byte.x01 ++ replicate 3 Byte.x0f ]} {[ 3 := ("t", 0%nat) ]}.

(** Page 0 is updated and unpinned; a get of page 1 fails; page 0 is read again. *)
Definition torn_read_run : M (buffer_manager MemFs) (option (list byte)) :=
  _ ← run_bm_op (BGet 3 0 true);
  _ ← run_bm_op (BStore 3 0 (demo_page Byte.x09));
  _ ← buffer_manager_unpin_page 3 0;
  _ ← attempt (get_page 3 1 true);
  run_bm_op (BGet 3 0 true).

(** A read that fails after an eviction leaves the evicted key and the dirty flag
    in the slot, which now holds the bytes read: the next eviction writes them over the
    page that was evicted, and page 0 comes back corrupted. *)
Theorem failed_read_corrupts_evicted_page :
  (fst <$> returns (torn_read_run (buffer_manager_new 1 8 demo_entry torn_fs))) =
    Some (Some (replicate 3 Byte.x0f ++ replicate 5 Byte.x09)).
Proof. vm_compute. reflexivity. Qed.
