(* ===== verification/FileHandle.v ===== *)
(** Paged files: src/io/file_handle.{h,cc}, page_handle.{h,cc} and
    io_manager.{h,cc}, over the buffer manager.  A file is a header (head of the
    free list, number of pages) and pages whose first word links the free list. *)
From S2P Require Import Prelude HashTable Unix BufferManager.

(** * State *)

Definition DEFAULT_PAGE_SIZE : Z := 4096.
Definition PAGE_LIST_END : Z := -1.
Definition PAGE_USED : Z := -2.
Definition ALL_PAGES : Z := -1.
Definition POOL_SIZE : Z := 2.
Definition BUFFER_SIZE : Z := 4096.

Record file_header := mk_file_header { first_free : Z; page_num : Z }.

(** [sizeof(page_header)] *)
Definition page_header_size : nat := 4.

(** [data_] points into the buffer of a slot, at a byte offset. *)
Record page_handle := mk_page_handle { page_ : Z; data_ : option (Z * nat) }.

(** page_handle::page_handle *)
Definition page_handle_new : page_handle := mk_page_handle (-1) None.

Record file_handle := mk_file_handle {
  fd_ : Z;
  header_ : file_header;
  buffer_manager_ : bool;          (* points to the buffer manager, not nullptr *)
  file_is_open_ : bool;
  header_changed_ : bool;
}.

(** file_handle::file_handle; fd_, header_ and header_changed_ are not initialised. *)
Definition file_handle_new (garbage : file_handle) : file_handle :=
  mk_file_handle (fd_ garbage) (header_ garbage) false false (header_changed_ garbage).

Definition set_header (hd : file_header) (h : file_handle) : file_handle :=
  mk_file_handle (fd_ h) hd (buffer_manager_ h) (file_is_open_ h) (header_changed_ h).
Definition set_header_changed (c : bool) (h : file_handle) : file_handle :=
  mk_file_handle (fd_ h) (header_ h) (buffer_manager_ h) (file_is_open_ h) c.

(** A handle and the buffer manager it shares with the other handles. *)
Record file_state {U : Type} := mk_file_state { fs_handle : file_handle; fs_bm : buffer_manager U }.
Arguments file_state : clear implicits.

Section operations.
Context {U : Type} `{Unix U}.

Definition set_handle (h : file_handle) (s : file_state U) : file_state U := mk_file_state U h (fs_bm s).
Definition set_bm (b : buffer_manager U) (s : file_state U) : file_state U := mk_file_state U (fs_handle s) b.

Definition handle : M (file_state U) file_handle := gets fs_handle.
Definition update_handle (f : file_handle -> file_handle) : M (file_state U) unit :=
  modify (fun s => set_handle (f (fs_handle s)) s).

(** A call through [buffer_manager_]. *)
Definition in_bm {A} (m : M (buffer_manager U) A) : M (file_state U) A :=
  h ← handle;
  if buffer_manager_ h then zoom fs_bm set_bm m else undef null_deref.

(** Reading an int and storing bytes through a pointer into the buffer of a slot. *)
Definition load_int (slot : Z) (off : nat) : M (buffer_manager U) Z :=
  e ← pool_get slot;
  if decide (off + 4 <= length (be_data e))%nat then mret (bytes_int (drop off (be_data e)))
  else undef out_of_bounds.

Definition store_bytes (slot : Z) (off : nat) (bs : list byte) : M (buffer_manager U) unit :=
  e ← pool_get slot;
  if decide (off + length bs <= length (be_data e))%nat
  then pool_set slot (set_data (splice (be_data e) off bs))
  else undef out_of_bounds.

(** file_handle::is_valid_page *)
Definition is_valid_page (page : Z) (h : file_handle) : bool :=
  (0 <=? page) && (page <? page_num (header_ h)).

Definition check_open : M (file_state U) unit :=
  h ← handle; if file_is_open_ h then mret tt else throw closed_file_exception.
Definition check_page (page : Z) : M (file_state U) unit :=
  h ← handle; if is_valid_page page h then mret tt else throw invalid_page_exception.

(** file_handle::mark_dirty *)
Definition file_mark_dirty (page : Z) : M (file_state U) unit :=
  _ ← check_open;
  _ ← check_page page;
  h ← handle;
  in_bm (buffer_manager_mark_dirty (fd_ h) page).

(** file_handle::unpin_page *)
Definition file_unpin_page (page : Z) : M (file_state U) unit :=
  _ ← check_open;
  _ ← check_page page;
  h ← handle;
  in_bm (buffer_manager_unpin_page (fd_ h) page).

(** file_handle::allocate_page *)
Definition file_allocate_page : M (file_state U) page_handle :=
  _ ← check_open;
  h ← handle;
  '(page, data) ←
    (if negb (first_free (header_ h) =? PAGE_LIST_END) then
       let page := first_free (header_ h) in
       data ← in_bm (get_page (fd_ h) page true);
       slot ← of_option null_deref data;
       next ← in_bm (load_int slot 0);
       _ ← update_handle (fun h => set_header (mk_file_header next (page_num (header_ h))) h);
       mret (page, data)
     else
       let page := page_num (header_ h) in
       data ← in_bm (buffer_manager_allocate_page (fd_ h) page);
       n ← int_of (page_num (header_ h) + 1);
       _ ← update_handle (fun h => set_header (mk_file_header (first_free (header_ h)) n) h);
       mret (page, data));
  _ ← update_handle (set_header_changed true);
  slot ← of_option null_deref data;
  _ ← in_bm (store_bytes slot 0 (int_bytes PAGE_USED));
  _ ← in_bm (store_bytes slot page_header_size
               (replicate (Z.to_nat DEFAULT_PAGE_SIZE - page_header_size) Byte.x00));
  _ ← file_mark_dirty page;
  mret (mk_page_handle page (Some (slot, page_header_size))).

(** file_handle::dispose_page *)
Definition file_dispose_page (page : Z) : M (file_state U) unit :=
  _ ← check_open;
  _ ← check_page page;
  h ← handle;
  data ← in_bm (get_page (fd_ h) page false);
  slot ← of_option null_deref data;
  next ← in_bm (load_int slot 0);
  if negb (next =? PAGE_USED) then
    _ ← file_unpin_page page;
    throw page_already_free_exception
  else
    _ ← in_bm (store_bytes slot 0 (int_bytes (first_free (header_ h))));
    _ ← update_handle (fun h => set_header (mk_file_header page (page_num (header_ h))) h);
    _ ← update_handle (set_header_changed true);
    _ ← file_mark_dirty page;
    file_unpin_page page.

(** file_handle::get_this_page *)
Definition get_this_page (page : Z) : M (file_state U) page_handle :=
  _ ← check_open;
  _ ← check_page page;
  h ← handle;
  data ← in_bm (get_page (fd_ h) page true);
  slot ← of_option null_deref data;
  next ← in_bm (load_int slot 0);
  if next =? -2 then mret (mk_page_handle page (Some (slot, page_header_size)))
  else
    _ ← file_unpin_page page;
    throw invalid_page_exception.

Definition header_bytes (hd : file_header) : list byte := int_bytes (first_free hd) ++ int_bytes (page_num hd).

(** The header write of flush_pages and force_page *)
Definition write_header : M (file_state U) unit :=
  h ← handle;
  when (header_changed_ h)
    (r ← zoom fs_bm set_bm (sys (u_lseek (fd_ h) 0));
     if r <? 0 then throw unix_error else
     num_bytes ← zoom fs_bm set_bm (sys (u_write (fd_ h) (header_bytes (header_ h))));
     if num_bytes <? 0 then throw unix_error
     else if negb (num_bytes =? 8) then throw incomplete_header_write_error
     else update_handle (set_header_changed false)).

(** file_handle::flush_pages *)
Definition file_flush_pages : M (file_state U) unit :=
  _ ← check_open;
  _ ← write_header;
  h ← handle;
  in_bm (buffer_manager_flush_pages (fd_ h)).

(** file_handle::force_page *)
Definition file_force_page (page : Z) : M (file_state U) unit :=
  _ ← check_open;
  _ ← write_header;
  h ← handle;
  in_bm (buffer_manager_force_page (fd_ h) page).

(** The for loops of get_next_page and get_prev_page: every exception of
    get_this_page is printed and the scan goes on. *)
Fixpoint next_loop (n : nat) (current : Z) : M (file_state U) page_handle :=
  match n with
  | O => throw eof_exception
  | S n => try_catch (get_this_page current) (next_loop n (current + 1))
  end.

Fixpoint prev_loop (n : nat) (current : Z) : M (file_state U) page_handle :=
  match n with
  | O => throw eof_exception
  | S n => try_catch (get_this_page current) (prev_loop n (current - 1))
  end.

(** file_handle::get_next_page; the loop runs for current+1 .. page_num-1. *)
Definition get_next_page (current : Z) : M (file_state U) page_handle :=
  h ← handle;
  if negb (file_is_open_ h) then throw std_exception
  else if negb (current =? -1) && negb (is_valid_page current h) then throw invalid_page_exception
  else next_loop (Z.to_nat (page_num (header_ h) - (current + 1))) (current + 1).

(** file_handle::get_prev_page; the loop runs for current-1 .. 0. *)
Definition get_prev_page (current : Z) : M (file_state U) page_handle :=
  h ← handle;
  if negb (file_is_open_ h) then throw closed_file_exception
  else if negb (current =? page_num (header_ h)) && negb (is_valid_page current h) then throw invalid_page_exception
  else prev_loop (Z.to_nat current) (current - 1).

Definition get_first_page : M (file_state U) page_handle := get_next_page (-1).
Definition get_last_page : M (file_state U) page_handle :=
  h ← handle; get_prev_page (page_num (header_ h)).

(** * The I/O manager: the state is the buffer manager with its operating system *)

(** io_manager::create_file *)
Definition create_file (filename : string) : M (buffer_manager U) unit :=
  fd ← sys (u_create filename);
  if fd <? 0 then throw unix_error else
  num_bytes ← sys (u_write fd (header_bytes (mk_file_header (-1) 0)
                     ++ replicate (Z.to_nat BUFFER_SIZE - 8) Byte.x00));
  if negb (num_bytes =? BUFFER_SIZE) then
    _ ← sys (u_close fd);
    _ ← sys (u_unlink filename);
    if num_bytes <? 0 then throw unix_error else throw incomplete_header_write_error
  else
    r ← sys (u_close fd);
    if r <? 0 then throw unix_error else mret tt.

(** io_manager::open_file; [garbage] is the content of the uninitialised handle. *)
Definition open_file (garbage : file_handle) (filename : string) : M (buffer_manager U) file_handle :=
  fd ← sys (u_open filename);
  if fd <? 0 then throw unix_error else
  '(num_bytes, bs) ← sys (u_read fd 8);
  if negb (num_bytes =? 8) then throw incomplete_header_read_error
  else mret (mk_file_handle fd (mk_file_header (bytes_int bs) (bytes_int (drop 4 bs))) true true false).

(** io_manager::close_file *)
Definition close_file : M (file_state U) unit :=
  h ← handle;
  if negb (file_is_open_ h) then throw closed_file_exception else
  _ ← file_flush_pages;
  h ← handle;
  r ← zoom fs_bm set_bm (sys (u_close (fd_ h)));
  if r <? 0 then throw unix_error
  else update_handle (fun h => mk_file_handle (fd_ h) (header_ h) false false (header_changed_ h)).

(** io_manager::destroy_file *)
Definition destroy_file (filename : string) : M (buffer_manager U) unit :=
  r ← sys (u_unlink filename);
  if r <? 0 then throw unix_error else mret tt.

(** io_manager::io_manager *)
Definition io_manager_new (garbage : nat -> buffer_entry) (u : U) : buffer_manager U :=
  buffer_manager_new POOL_SIZE BUFFER_SIZE garbage u.
End operations.

(** * The free list *)

(** The first word of page [p] when [fl] is the free list. *)
Fixpoint link (fl : list Z) (p : Z) : Z :=
  match fl with
  | [] => PAGE_USED
  | q :: fl => if q =? p then hd PAGE_LIST_END fl else link fl p
  end.

Definition fl_ok (n : Z) (fl : list Z) : Prop := NoDup fl /\ forall p, p ∈ fl -> 0 <= p < n.

Lemma link_not_free fl p : p ∉ fl -> link fl p = PAGE_USED.
Proof.
  induction fl as [|q fl IH]; [done|]. rewrite not_elem_of_cons. cbn. intros [Hq Hfl].
  destruct (Z.eqb_spec q p); [congruence|]. by apply IH.
Qed.

Lemma link_free n fl p : fl_ok n fl -> p ∈ fl -> link fl p <> PAGE_USED.
Proof.
  intros [_ Hfl]. induction fl as [|q fl IH]; [by intros ?%not_elem_of_nil|]. cbn.
  intros Hp. destruct (Z.eqb_spec q p).
  - destruct fl as [|r fl]; [done|]. cbn. specialize (Hfl r ltac:(right; by left)). unfold PAGE_USED. lia.
  - apply IH; [intros; apply Hfl; by right|]. by apply elem_of_cons in Hp as [->|?].
Qed.

Lemma link_range n fl p : fl_ok n fl -> n <= INT_MAX -> INT_MIN <= link fl p <= INT_MAX.
Proof.
  intros [_ Hfl] Hn. induction fl as [|q fl IH]; cbn; [unfold PAGE_USED, INT_MIN, INT_MAX; lia|].
  destruct (q =? p); [|apply IH; intros; apply Hfl; by right].
  destruct fl as [|r fl]; cbn; [unfold PAGE_LIST_END, INT_MIN, INT_MAX; lia|].
  specialize (Hfl r ltac:(right; by left)). unfold INT_MIN. lia.
Qed.

Lemma link_push fl p q : q <> p -> link (p :: fl) q = link fl q.
Proof. intros. cbn. destruct (Z.eqb_spec p q); [congruence|done]. Qed.

Lemma link_head fl p : link (p :: fl) p = hd PAGE_LIST_END fl.
Proof. cbn. by rewrite Z.eqb_refl. Qed.

Lemma fl_hd n fl : fl_ok n fl -> hd PAGE_LIST_END fl = PAGE_LIST_END -> fl = [].
Proof.
  intros [_ Hfl]. destruct fl as [|p fl]; [done|]. cbn. intros ->.
  specialize (Hfl PAGE_LIST_END ltac:(by left)). unfold PAGE_LIST_END in Hfl. lia.
Qed.

Lemma bytes_int_splice d z : (4 <= length d)%nat -> INT_MIN <= z <= INT_MAX ->
  bytes_int (splice d 0 (int_bytes z)) = z.
Proof. intros Hd Hz. unfold splice. cbn [take app]. by apply bytes_int_bytes. Qed.

Lemma bytes_int_app d d' : (4 <= length d)%nat -> bytes_int (d ++ d') = bytes_int d.
Proof. intros. unfold bytes_int. by rewrite take_app_le. Qed.

(** * The invariant of an open file *)

#[local] Arguments set_entry : simpl never.
#[local] Arguments int_bytes : simpl never.

Section file.
Context {U : Type} `{UnixLaws U}.
Implicit Types (h : file_handle) (b : buffer_manager U) (m : gmap (Z * Z) Z) (fl : list Z).

Record file_ok h b m fl : Prop := {
  fo_co : coherent b m;
  fo_open : file_is_open_ h = true;
  fo_bm : buffer_manager_ h = true;
  fo_size : buffer_size_ b = DEFAULT_PAGE_SIZE;
  fo_fd : 0 <= fd_ h;
  fo_num : 0 <= page_num (header_ h);
  fo_bound : page_num (header_ h) * 4096 <= INT_MAX /\ fd_ h + page_num (header_ h) <= INT_MAX;
  fo_cached : forall p s, m !! (fd_ h, p) = Some s -> p < page_num (header_ h);
  fo_fl : fl_ok (page_num (header_ h)) fl;
  fo_head : first_free (header_ h) = hd PAGE_LIST_END fl;
  fo_pages : forall p, 0 <= p < page_num (header_ h) ->
    exists d, view b m (fd_ h, p) = Some d /\ bytes_int d = link fl p;
}.

Lemma wp_in_bm {A} h b (x : M (buffer_manager U) A) Q E :
  buffer_manager_ h = true ->
  wp x (fun a b' => Q a (mk_file_state U h b')) (fun e b' => E e (mk_file_state U h b')) b ->
  wp (in_bm x) Q E (mk_file_state U h b).
Proof. intros Hh Hx. unfold in_bm, handle. wp_steps. cbn. rewrite Hh. by apply wp_zoom. Qed.

Lemma wp_update_handle {A} h b f (k : unit -> M (file_state U) A) Q E :
  wp (k tt) Q E (mk_file_state U (f h) b) -> wp (x ← update_handle f; k x) Q E (mk_file_state U h b).
Proof. done. Qed.

Lemma wp_check_open {A} h b (k : unit -> M (file_state U) A) Q E :
  file_is_open_ h = true -> wp (k tt) Q E (mk_file_state U h b) ->
  wp (x ← check_open; k x) Q E (mk_file_state U h b).
Proof. intros Hh Hk. unfold check_open, handle. wp_steps. cbn. rewrite Hh. by wp_steps. Qed.

Lemma wp_check_page {A} h b page (k : unit -> M (file_state U) A) Q (E : exn -> file_state U -> Prop) :
  (0 <= page < page_num (header_ h) -> wp (k tt) Q E (mk_file_state U h b)) ->
  (~ (0 <= page < page_num (header_ h)) -> E invalid_page_exception (mk_file_state U h b)) ->
  wp (x ← check_page page; k x) Q E (mk_file_state U h b).
Proof.
  intros Hk HE. unfold check_page, handle. wp_steps. cbn. unfold is_valid_page.
  destruct (Z.leb_spec 0 page), (Z.ltb_spec page (page_num (header_ h))); cbn; wp_steps;
    (apply Hk; lia) || (apply HE; lia).
Qed.

Lemma file_fits h b m fl p : file_ok h b m fl -> 0 <= p < page_num (header_ h) -> fits (buffer_size_ b) (fd_ h, p).
Proof.
  intros F Hp. destruct (fo_bound _ _ _ _ F). pose proof (fo_fd _ _ _ _ F).
  rewrite (fo_size _ _ _ _ F). unfold fits, DEFAULT_PAGE_SIZE. cbn. lia.
Qed.

Lemma view_length b m k d : bm_ok b m -> view b m k = Some d -> length d = Z.to_nat (buffer_size_ b).
Proof.
  intros OK. unfold view. destruct (m !! k) as [s|] eqn:Hk.
  - destruct (coherent_tracked _ _ _ _ OK Hk) as (e & He & _). rewrite He. intros [= <-].
    by apply (ok_entries _ _ OK _ _ He).
  - intros (? & _)%file_block_Some. done.
Qed.

Lemma wp_load_int h b m fl slot e (Q : Z -> buffer_manager U -> Prop) E :
  file_ok h b m fl -> pool_at b slot = Some e -> Q (bytes_int (be_data e)) b -> wp (load_int slot 0) Q E b.
Proof.
  intros F He HQ. unfold load_int. wp_steps. eapply wp_pool_get; [done|].
  destruct (ok_entries _ _ (co_ok _ _ _ _ (fo_co _ _ _ _ F)) _ _ He) as (_ & _ & Hl).
  rewrite (fo_size _ _ _ _ F) in Hl. rewrite decide_True by (rewrite Hl; unfold DEFAULT_PAGE_SIZE; lia).
  by wp_steps.
Qed.

(** Operations that change no page keep the file. *)
Lemma file_ok_le h b m b' m' fl :
  file_ok h b m fl -> coherent b' m' -> view_le b m b' m' -> buffer_size_ b' = buffer_size_ b ->
  (forall p s, m' !! (fd_ h, p) = Some s -> p < page_num (header_ h)) ->
  file_ok h b' m' fl.
Proof.
  intros [? ? ? Hsz ? ? ? ? ? ? Hp] CO Hv Hs Hc. split; try done; [congruence|].
  intros p Hpn. destruct (Hp p Hpn) as (d & Hd & Hl). exists d. split; [|done]. apply Hv; [cbn; lia|done].
Qed.

(** Bringing in a page of the file and reading its link word. *)
Lemma wp_fetch_page {A} h b m fl p mp (k : option Z -> Z -> Z -> M (file_state U) A) Q (E : exn -> file_state U -> Prop) :
  file_ok h b m fl -> 0 <= p < page_num (header_ h) -> pins_le (INT_MAX - 1) b ->
  (forall b' m' slot e, file_ok h b' m' fl -> m' !! (fd_ h, p) = Some slot -> pool_at b' slot = Some e ->
     0 < be_pin e -> view b m (fd_ h, p) = Some (be_data e) -> view_le b m b' m' ->
     (forall n, 0 <= n -> pins_le n b -> pins_le (n + 1) b') ->
     wp (k (Some slot) slot (link fl p)) Q E (mk_file_state U h b')) ->
  (forall x b', page_fail b x b' -> E x (mk_file_state U h b')) ->
  wp (data ← in_bm (get_page (fd_ h) p mp); slot ← of_option null_deref data;
      next ← in_bm (load_int slot 0); k data slot next) Q E (mk_file_state U h b).
Proof.
  intros F Hp Hpin Hk HE. wp_steps. apply wp_in_bm; [apply F|].
  eapply wp_mono; [apply (wp_keeps sizes); [apply keeps_get_page|];
    apply (wp_get_page b m (fd_ h) p mp (fo_co _ _ _ _ F) (file_fits _ _ _ _ _ F Hp) Hpin)|cbn|].
  2:{ intros x b' [Hx _]. by apply HE. }
  intros r b' [(slot & e & m' & -> & CO' & Hm' & He & Hpe & Hd & Hv & _ & Hnew & Hpn) [= _ Hsz]].
  assert (file_ok h b' m' fl) as F'.
  { eapply file_ok_le; [done..|]. intros q s [[= ->]|Hq]%Hnew; [lia|by eapply (fo_cached _ _ _ _ F)]. }
  destruct (fo_pages _ _ _ _ F p Hp) as (d & Hd0 & Hl). rewrite <-(Hd _ Hd0) in Hl.
  wp_steps. apply wp_in_bm; [apply F|]. eapply wp_load_int; [done..|]. rewrite Hl.
  apply (Hk b' m' slot e); try done. by rewrite (Hd _ Hd0).
Qed.

Lemma wp_store_bytes b slot e off bs (Q : unit -> buffer_manager U -> Prop) E :
  pool_at b slot = Some e -> (off + length bs <= length (be_data e))%nat ->
  Q tt (set_entry slot (set_data (splice (be_data e) off bs) e) b) -> wp (store_bytes slot off bs) Q E b.
Proof.
  intros He Hl HQ. unfold store_bytes. wp_steps. eapply wp_pool_get; [done|]. rewrite decide_True by done.
  by eapply wp_pool_set.
Qed.

(** Unpinning a page that is held. *)
Lemma wp_file_unpin h b m p slot e (Q : unit -> file_state U -> Prop) (E : exn -> file_state U -> Prop) :
  coherent b m -> file_is_open_ h = true -> buffer_manager_ h = true -> 0 <= p < page_num (header_ h) ->
  pins_le INT_MAX b -> m !! (fd_ h, p) = Some slot -> pool_at b slot = Some e -> 0 < be_pin e ->
  (forall b', coherent b' m -> (forall k, view b' m k = view b m k) -> buffer_size_ b' = buffer_size_ b ->
     (forall n, pins_le n b -> pins_le n b') -> Q tt (mk_file_state U h b')) ->
  wp (file_unpin_page p) Q E (mk_file_state U h b).
Proof.
  intros CO Ho Hb Hp Hpin Hm He Hpe HQ. unfold file_unpin_page, handle.
  apply wp_check_open; [done|]. apply wp_check_page; [|done]. intros _. wp_steps. apply wp_in_bm; [done|]. cbn.
  eapply wp_mono; [apply (wp_keeps sizes); [apply keeps_unpin_page|]; apply (wp_unpin_page None b m (fd_ h) p CO); [|done]|cbn..].
  - by apply (tracked_fits b m _ slot); [apply CO|].
  - intros [] b' [(s & e' & _ & _ & _ & CO' & _ & Hpn & Hv) [= _ Hsz]]. by apply HQ.
  - intros x b' [(_ & [(_ & ?)|(_ & s & e' & ? & ? & ?)]) _]; [congruence|]. simplify_eq. lia.
Qed.

(** Marking a page whose content was just changed through the pointer. *)
Lemma wp_file_mark h b m p slot (Q : unit -> file_state U -> Prop) (E : exn -> file_state U -> Prop) :
  coherent_but None (Some (fd_ h, p)) b m -> file_is_open_ h = true -> buffer_manager_ h = true ->
  0 <= p < page_num (header_ h) -> m !! (fd_ h, p) = Some slot ->
  (forall b', coherent b' m -> (forall k, view b' m k = view b m k) -> buffer_size_ b' = buffer_size_ b ->
     (forall n, pins_le n b -> pins_le n b') ->
     (forall e, pool_at b slot = Some e -> pool_at b' slot = Some (set_dirty true e)) -> slots b' = slots b ->
     Q tt (mk_file_state U h b')) ->
  wp (file_mark_dirty p) Q E (mk_file_state U h b).
Proof.
  intros CO Ho Hb Hp Hm HQ. unfold file_mark_dirty, handle.
  apply wp_check_open; [done|]. apply wp_check_page; [|done]. intros _. wp_steps. apply wp_in_bm; [done|]. cbn.
  eapply wp_mono; [apply (wp_keeps slots), (wp_keeps sizes); [apply keeps_slots_mark|apply keeps_mark_dirty|];
    apply (wp_mark_dirty (Some (fd_ h, p)) b m (fd_ h) p CO); [by right|]|cbn..].
  - by apply (tracked_fits b m _ slot); [apply CO|].
  - intros [] b' [[(s & e' & Hs & He' & CO' & Hpe' & Hpn & Hv) [= _ Hsz]] Hsl]. apply HQ; try done.
    intros e He. simplify_eq. done.
  - intros x b' [[(_ & _ & ?) _] _]. congruence.
Qed.

(** ** The page operations of a file *)

(** The buffer manager refused, with nothing changed, or a transfer failed. *)
Definition file_fail h b (x : exn) (s' : file_state U) : Prop :=
  ((x = page_pinned_exception \/ x = no_buf_error) /\ s' = mk_file_state U h b) \/
  (io_error x /\ exists b' m', s' = mk_file_state U h b' /\ bm_ok b' m').

Lemma page_fail_file h b x b' : page_fail b x b' -> file_fail h b x (mk_file_state U h b').
Proof.
  intros [[-> Hx]|[Hx (m' & OK)]]; [left|right]; (split; [done|]); [done|]. by exists b', m'.
Qed.

(** Same file, same contents. *)
Definition same_file h b m fl (s' : file_state U) : Prop :=
  exists b' m', s' = mk_file_state U h b' /\ file_ok h b' m' fl /\ view_le b m b' m' /\
    forall n, 0 <= n -> pins_le n b -> pins_le (n + 1) b'.

Lemma same_file_refl h b m fl : file_ok h b m fl -> same_file h b m fl (mk_file_state U h b).
Proof.
  intros F. exists b, m. split_and!; [done..|apply view_le_refl|]. intros n Hn Hp s e He%Hp. lia.
Qed.

(** A fetched page that is let go again. *)
Lemma wp_file_unpin_same {A} h b m b' m' fl p slot e (k : unit -> M (file_state U) A) Q E :
  file_ok h b' m' fl -> view_le b m b' m' -> 0 <= p < page_num (header_ h) ->
  pins_le (INT_MAX - 1) b -> (forall n, 0 <= n -> pins_le n b -> pins_le (n + 1) b') ->
  m' !! (fd_ h, p) = Some slot -> pool_at b' slot = Some e -> 0 < be_pin e ->
  (forall s', same_file h b m fl s' -> wp (k tt) Q E s') ->
  wp (x ← file_unpin_page p; k x) Q E (mk_file_state U h b').
Proof.
  intros F Hv Hp Hpin Hpn Hm He Hpe Hk. wp_steps.
  eapply wp_file_unpin; [apply F|apply F|apply F|done| |done..|].
  { replace INT_MAX with (INT_MAX - 1 + 1) by lia. apply Hpn; [unfold INT_MAX; lia|done]. }
  intros b2 CO2 Hv2 Hsz2 Hpn2. apply Hk. exists b2, m'. split_and!; [done|..].
  - eapply file_ok_le; [done|done| |done|apply F]. intros k' d _. by rewrite Hv2.
  - intros k' d Hk0 Hd. rewrite Hv2. by apply Hv.
  - intros n Hn Hpb. by apply Hpn2, Hpn.
Qed.

Lemma wp_get_this_page h b m fl p :
  file_ok h b m fl -> pins_le (INT_MAX - 1) b ->
  wp (get_this_page p)
    (fun ph s' => exists slot d, ph = mk_page_handle p (Some (slot, page_header_size)) /\
       0 <= p < page_num (header_ h) /\ (p ∉ fl) /\ view b m (fd_ h, p) = Some d /\ same_file h b m fl s' /\
       exists e, pool_at (fs_bm s') slot = Some e /\ be_data e = d /\ 0 < be_pin e)
    (fun x s' => x = invalid_page_exception /\ (p ∈ fl \/ ~ (0 <= p < page_num (header_ h))) /\ same_file h b m fl s' \/
       file_fail h b x s') (mk_file_state U h b).
Proof.
  intros F Hpin. unfold get_this_page, handle. apply wp_check_open; [apply F|].
  apply wp_check_page; [intros Hp|intros Hp; left; split_and!; [done|by right|by apply same_file_refl]].
  wp_step. wp_step. cbn beta. apply (wp_fetch_page h b m fl); [done..| |].
  2:{ intros x b' Hx. right. by apply page_fail_file. }
  intros b' m' slot e F' Hm' He Hpe Hd Hv Hpn. change (-2) with PAGE_USED.
  destruct (Z.eqb_spec (link fl p) PAGE_USED) as [Hl|Hl].
  - wp_steps. assert (p ∉ fl) as Hfl by (intros Hfl; by eapply link_free in Hfl; [|apply F]).
    exists slot, (be_data e). do 4 (split; [done|]). split; [by exists b', m'|by exists e].
  - eapply wp_file_unpin_same; [done..|]. intros s' Hs'. wp_steps. left. split_and!; [done| |done].
    left. destruct (decide (p ∈ fl)) as [|Hn]; [done|]. by apply link_not_free in Hn.
Qed.

(** Every page but [k] keeps its content. *)
Definition others_kept (k : Z * Z) b m b' m' : Prop :=
  forall k' d, k' <> k -> 0 <= k'.2 -> view b m k' = Some d -> view b' m' k' = Some d.

Definition header_set h (hd : file_header) : file_handle := set_header_changed true (set_header hd h).

(** Rewriting the link of one page and the header. *)
Lemma file_ok_relink h b m fl b' m' ff n p d fl' :
  file_ok h b m fl -> coherent b' m' -> buffer_size_ b' = buffer_size_ b ->
  others_kept (fd_ h, p) b m b' m' -> view b' m' (fd_ h, p) = Some d ->
  page_num (header_ h) <= n -> n * 4096 <= INT_MAX /\ fd_ h + n <= INT_MAX ->
  (forall q, 0 <= q < n -> q <> p -> q < page_num (header_ h) /\ link fl' q = link fl q) ->
  (forall q s, m' !! (fd_ h, q) = Some s -> q < n) ->
  bytes_int d = link fl' p -> fl_ok n fl' -> ff = hd PAGE_LIST_END fl' ->
  file_ok (header_set h (mk_file_header ff n)) b' m' fl'.
Proof.
  intros [? ? ? Hsz ? Hn ? ? ? ? Hp] CO Hs Hv Hd Hle Hb Hl Hc Hdl Hfl Hff.
  split; try done; cbn; [congruence|lia|]. intros q Hq.
  destruct (decide (q = p)) as [->|Hne]; [by exists d|]. destruct (Hl q Hq Hne) as [Hq' ->].
  destruct (Hp q) as (dq & Hdq & Hlq); [lia|]. exists dq. split; [|done].
  apply Hv; [congruence|cbn; lia|done].
Qed.

Lemma wp_file_dispose_page h b m fl p :
  file_ok h b m fl -> pins_le (INT_MAX - 1) b ->
  wp (file_dispose_page p)
    (fun _ s' => 0 <= p < page_num (header_ h) /\ (p ∉ fl) /\ exists b' m',
       let h' := header_set h (mk_file_header p (page_num (header_ h))) in
       s' = mk_file_state U h' b' /\ file_ok h' b' m' (p :: fl) /\ others_kept (fd_ h, p) b m b' m' /\
       forall n, 0 <= n -> pins_le n b -> pins_le (n + 1) b')
    (fun x s' => (x = invalid_page_exception /\ ~ (0 <= p < page_num (header_ h)) /\ same_file h b m fl s') \/
       (x = page_already_free_exception /\ p ∈ fl /\ same_file h b m fl s') \/ file_fail h b x s') (mk_file_state U h b).
Proof.
  intros F Hpin. unfold file_dispose_page, handle. apply wp_check_open; [apply F|].
  apply wp_check_page; [intros Hp|intros Hp; left; split_and!; [done|done|by apply same_file_refl]].
  wp_step. wp_step. cbn beta. apply (wp_fetch_page h b m fl); [done..| |].
  2:{ intros x b' Hx. right. right. by apply page_fail_file. }
  intros b1 m1 slot e F1 Hm1 He Hpe Hd Hv Hpn.
  destruct (Z.eqb_spec (link fl p) PAGE_USED) as [Hl|Hl]; cbn [negb].
  2:{ eapply wp_file_unpin_same; [done..|]. intros s' Hs'. wp_steps. right. left. split_and!; [done| |done].
      destruct (decide (p ∈ fl)) as [|Hn]; [done|]. by apply link_not_free in Hn. }
  assert (p ∉ fl) as Hfl by (intros Hfl; by eapply link_free in Hfl; [|apply F]).
  pose proof (fo_co _ _ _ _ F1) as CO1.
  destruct (ok_entries _ _ (co_ok _ _ _ _ CO1) _ _ He) as (_ & _ & Hlen).
  rewrite (fo_size _ _ _ _ F1) in Hlen. unfold DEFAULT_PAGE_SIZE in Hlen.
  set (d := splice (be_data e) 0 (int_bytes (first_free (header_ h)))).
  assert (length d = length (be_data e)) as Hld by (apply length_splice; rewrite length_int_bytes; lia).
  wp_steps. apply wp_in_bm; [apply F|]. eapply wp_store_bytes; [done|rewrite length_int_bytes; lia|].
  destruct (client_write_coherent None b1 m1 _ _ _ d CO1 ltac:(by left) Hm1 He) as [CO2 Hv2];
    [by rewrite Hld, (fo_size _ _ _ _ F1)|].
  apply wp_update_handle, wp_update_handle. wp_step.
  eapply wp_file_mark; [exact CO2|apply F|apply F|done|done|]. intros b3 CO3 Hv3 Hsz3 Hpn3 Hd3 _.
  assert (pool_at b3 slot = Some (set_dirty true (set_data d e))) as Hd3'.
  { apply Hd3. by rewrite pool_at_set_entry, decide_True. }
  assert (forall n, 0 <= n -> pins_le n b -> pins_le (n + 1) b3) as Hpn3'.
  { intros n Hn Hpb. apply Hpn3, pins_set_entry; [by apply Hpn|done|]. apply (Hpn n Hn Hpb _ _ He). }
  eapply wp_file_unpin; [done|apply F|apply F|done| |done|done|done|].
  { replace INT_MAX with (INT_MAX - 1 + 1) by lia. apply Hpn3'; [unfold INT_MAX; lia|done]. }
  intros b4 CO4 Hv4 Hsz4 Hpn4. split; [done|]. split; [done|]. exists b4, m1. cbn.
  assert (others_kept (fd_ h, p) b m b4 m1) as Hoth.
  { intros k' d' Hne Hk0 Hd'. rewrite Hv4, Hv3, Hv2, decide_False by done. by apply Hv. }
  split_and!; [done| |done|by auto].
  destruct (fo_fl _ _ _ _ F) as [Hnd Hr]. destruct (fo_bound _ _ _ _ F) as [Hb1 Hb2].
  assert (buffer_size_ b4 = buffer_size_ b) as Hszb.
  { rewrite Hsz4, Hsz3. exact (eq_trans (fo_size _ _ _ _ F1) (eq_sym (fo_size _ _ _ _ F))). }
  eapply (file_ok_relink h b m fl); [done|done|done|done|by rewrite Hv4, Hv3, Hv2, decide_True|lia|done| |apply F1| |split; [by apply NoDup_cons|]|done].
  - intros q Hq Hne. rewrite link_push by done. split; [lia|done].
  - unfold d. rewrite bytes_int_splice; [|lia|].
    + rewrite link_head. apply (fo_head _ _ _ _ F).
    + rewrite (fo_head _ _ _ _ F). destruct fl as [|q fl']; cbn; [unfold PAGE_LIST_END, INT_MIN, INT_MAX; lia|].
      specialize (Hr q ltac:(by left)). unfold INT_MIN. lia.
  - intros q [->|Hq]%elem_of_cons; [done|by apply Hr].
Qed.

Definition fresh_page : list byte :=
  int_bytes PAGE_USED ++ replicate (Z.to_nat DEFAULT_PAGE_SIZE - page_header_size) Byte.x00.

Lemma fresh_page_splice (d : list byte) :
  length d = Z.to_nat DEFAULT_PAGE_SIZE ->
  splice (splice d 0 (int_bytes PAGE_USED)) page_header_size
    (replicate (Z.to_nat DEFAULT_PAGE_SIZE - page_header_size) Byte.x00) = fresh_page.
Proof.
  intros Hd. unfold splice, fresh_page, page_header_size. rewrite !take_0, !app_nil_l.
  rewrite (take_app_length' (int_bytes PAGE_USED)) by (symmetry; apply length_int_bytes). f_equal.
  rewrite drop_ge; [by rewrite app_nil_r|].
  rewrite length_app, length_drop, length_replicate, length_int_bytes, Hd. unfold DEFAULT_PAGE_SIZE. lia.
Qed.

(** The end of allocate_page: the page is filled and marked. *)
Lemma wp_init_page h b m p slot e x (Q : page_handle -> file_state U -> Prop) E :
  coherent_but None x b m -> x = None \/ x = Some (fd_ h, p) ->
  file_is_open_ h = true -> buffer_manager_ h = true -> buffer_size_ b = DEFAULT_PAGE_SIZE ->
  0 <= p < page_num (header_ h) -> m !! (fd_ h, p) = Some slot -> pool_at b slot = Some e -> 0 < be_pin e ->
  (forall b' e', coherent b' m -> buffer_size_ b' = buffer_size_ b -> pool_at b' slot = Some e' -> 0 < be_pin e' ->
     (forall n, pins_le n b -> pins_le n b') ->
     (forall k, view b' m k = if decide (k = (fd_ h, p)) then Some fresh_page else view b m k) -> slots b' = slots b ->
     Q (mk_page_handle p (Some (slot, page_header_size))) (mk_file_state U h b')) ->
  wp (_ ← in_bm (store_bytes slot 0 (int_bytes PAGE_USED));
      _ ← in_bm (store_bytes slot page_header_size (replicate (Z.to_nat DEFAULT_PAGE_SIZE - page_header_size) Byte.x00));
      _ ← file_mark_dirty p;
      mret (mk_page_handle p (Some (slot, page_header_size)))) Q E (mk_file_state U h b).
Proof.
  intros CO Hx Ho Hb Hsz Hp Hm He Hpe HQ.
  destruct (ok_entries _ _ (co_ok _ _ _ _ CO) _ _ He) as (_ & _ & Hlen). rewrite Hsz in Hlen.
  assert (length (int_bytes PAGE_USED) = 4%nat) as Hli by apply length_int_bytes.
  assert (4 <= length (be_data e))%nat as Hl4 by (rewrite Hlen; unfold DEFAULT_PAGE_SIZE; lia).
  set (d1 := splice (be_data e) 0 (int_bytes PAGE_USED)).
  assert (length d1 = length (be_data e)) as Hl1 by (apply length_splice; lia).
  wp_steps. apply wp_in_bm; [done|]. eapply wp_store_bytes; [done|lia|]. fold d1.
  destruct (client_write_coherent x b m _ _ _ d1 CO Hx Hm He) as [CO1 Hv1]; [by rewrite Hl1, Hlen, Hsz|].
  assert (pool_at (set_entry slot (set_data d1 e) b) slot = Some (set_data d1 e)) as He1
    by (by rewrite pool_at_set_entry, decide_True).
  wp_steps. apply wp_in_bm; [done|]. eapply wp_store_bytes; [exact He1| |].
  { cbn -[Z.to_nat]. rewrite Hl1, Hlen, length_replicate. unfold DEFAULT_PAGE_SIZE, page_header_size. lia. }
  change (be_data (set_data d1 e)) with d1. unfold d1 at 1. rewrite (fresh_page_splice (be_data e) Hlen).
  destruct (client_write_coherent _ _ m _ _ _ fresh_page CO1 ltac:(by right) Hm He1) as [CO2 Hv2].
  { unfold fresh_page. rewrite length_app, Hli, length_replicate. change (buffer_size_ _) with (buffer_size_ b).
    rewrite Hsz. unfold DEFAULT_PAGE_SIZE, page_header_size. lia. }
  wp_steps. eapply wp_file_mark; [exact CO2|done..|]. intros b3 CO3 Hv3 Hsz3 Hpn3 Hd3 Hsl3. wp_steps.
  eapply HQ; [done|done|apply Hd3; rewrite pool_at_set_entry, decide_True; done|done| | |].
  - intros n Hn. apply Hpn3. apply pins_set_entry; [|by rewrite He1|apply (Hn _ _ He)].
    apply pins_set_entry; [done|done|apply (Hn _ _ He)].
  - intros k. rewrite Hv3, Hv2. case_decide; [done|]. by rewrite Hv1, decide_False.
  - rewrite Hsl3. erewrite slots_set_entry by done. by erewrite slots_set_entry.
Qed.

(** What allocate_page returns: the head of the free list, else a new page. *)
Definition page_taken h fl (p : Z) fl' (n' : Z) : Prop :=
  (fl = p :: fl' /\ n' = page_num (header_ h)) \/
  (fl = [] /\ fl' = [] /\ p = page_num (header_ h) /\ n' = page_num (header_ h) + 1).

(** Only [slot] got another descriptor. *)
Definition one_slot b b' (slot : Z) : Prop :=
  forall s e, pool_at b' s = Some e -> s = slot \/ exists e0, pool_at b s = Some e0 /\ be_fd e0 = be_fd e.

Definition allocated h b m fl (ph : page_handle) (s' : file_state U) : Prop :=
  exists p fl' n' b' m' slot e,
    let h' := header_set h (mk_file_header (hd PAGE_LIST_END fl') n') in
    ph = mk_page_handle p (Some (slot, page_header_size)) /\ page_taken h fl p fl' n' /\
    s' = mk_file_state U h' b' /\ file_ok h' b' m' fl' /\ m' !! (fd_ h, p) = Some slot /\
    pool_at b' slot = Some e /\ 0 < be_pin e /\ be_data e = fresh_page /\ others_kept (fd_ h, p) b m b' m' /\
    (forall n, 0 <= n -> pins_le n b -> pins_le (n + 1) b') /\
    (fl = [] -> one_slot b b' slot).

(** A page found in the cache after a coherent run is the viewed one. *)
Lemma view_entry b m k slot e d : m !! k = Some slot -> pool_at b slot = Some e -> view b m k = Some d -> be_data e = d.
Proof. unfold view. intros -> ->. by intros [= ->]. Qed.

Lemma allocated_intro h b m fl p fl' n' b1 m1 x b' slot e :
  file_ok h b m fl -> page_taken h fl p fl' n' ->
  n' * 4096 <= INT_MAX -> fd_ h + n' <= INT_MAX -> 0 <= p ->
  coherent_but None x b1 m1 -> buffer_size_ b1 = buffer_size_ b -> others_kept (fd_ h, p) b m b1 m1 ->
  (forall q s, m1 !! (fd_ h, q) = Some s -> q < n') -> m1 !! (fd_ h, p) = Some slot ->
  (forall n, 0 <= n -> pins_le n b -> pins_le (n + 1) b1) ->
  coherent b' m1 -> buffer_size_ b' = buffer_size_ b1 -> pool_at b' slot = Some e -> 0 < be_pin e ->
  (forall n, pins_le n b1 -> pins_le n b') ->
  (forall k, view b' m1 k = if decide (k = (fd_ h, p)) then Some fresh_page else view b1 m1 k) ->
  (fl = [] -> one_slot b b' slot) ->
  allocated h b m fl (mk_page_handle p (Some (slot, page_header_size)))
    (mk_file_state U (header_set h (mk_file_header (hd PAGE_LIST_END fl') n')) b').
Proof.
  intros F Ht Hn1 Hn2 Hp0 CO1 Hsz1 Hoth Hnew Hm1 Hpn CO' Hsz He Hpe Hpn' Hv Hone.
  assert (others_kept (fd_ h, p) b m b' m1) as Hoth'.
  { intros k d Hne Hk0 Hd. rewrite Hv, decide_False by done. by apply Hoth. }
  assert (view b' m1 (fd_ h, p) = Some fresh_page) as Hvp by (by rewrite Hv, decide_True).
  destruct (fo_fl _ _ _ _ F) as [Hnd Hr]. pose proof (fo_num _ _ _ _ F).
  assert ((p ∉ fl') /\ fl_ok n' fl' /\ page_num (header_ h) <= n' /\ p < n') as (Hpfl & Hfl' & Hle & Hlt).
  { destruct Ht as [[-> ->]|(-> & -> & -> & ->)].
    - apply NoDup_cons in Hnd as [? ?]. pose proof (Hr p ltac:(by left)).
      split_and!; [done|split; [done|]|lia|lia]. intros q Hq. apply Hr. by right.
    - split_and!; [apply not_elem_of_nil|split; [apply NoDup_nil_2|by intros ? ?%not_elem_of_nil]|lia|lia]. }
  exists p, fl', n', b', m1, slot, e. cbn. split_and!; try done; [|by eapply view_entry|by auto].
  eapply (file_ok_relink h b m fl); try done; [congruence|..].
  - intros q Hq Hne. destruct Ht as [[-> ->]|(-> & -> & -> & ->)]; [rewrite link_push by done; lia|]. split; [lia|done].
  - rewrite (link_not_free _ _ Hpfl). apply bytes_int_bytes. unfold PAGE_USED, INT_MIN, INT_MAX. lia.
Qed.

Lemma wp_file_allocate_page h b m fl :
  file_ok h b m fl -> pins_le (INT_MAX - 1) b ->
  (fl = [] -> page_num (header_ h) * 4096 + 4096 <= INT_MAX /\ fd_ h + page_num (header_ h) < INT_MAX) ->
  wp file_allocate_page (allocated h b m fl) (file_fail h b) (mk_file_state U h b).
Proof.
  intros F Hpin Hroom. unfold file_allocate_page, handle. apply wp_check_open; [apply F|].
  pose proof (fo_num _ _ _ _ F) as Hn0. destruct (fo_bound _ _ _ _ F) as [Hb1 Hb2].
  wp_step. wp_step. cbn beta. cbn [fs_handle]. rewrite (fo_head _ _ _ _ F).
  destruct (Z.eqb_spec (hd PAGE_LIST_END fl) PAGE_LIST_END) as [Hhd|Hhd]; cbn [negb].
  - apply (fl_hd _ _ (fo_fl _ _ _ _ F)) in Hhd. subst fl. destruct (Hroom eq_refl) as [Hr1 Hr2].
    set (p := page_num (header_ h)) in *.
    assert (fits (buffer_size_ b) (fd_ h, p)) as Hf.
    { pose proof (fo_fd _ _ _ _ F). rewrite (fo_size _ _ _ _ F). unfold fits, DEFAULT_PAGE_SIZE. cbn. lia. }
    wp_steps. apply wp_in_bm; [apply F|].
    eapply wp_mono; [apply (wp_keeps sizes); [apply keeps_allocate_page|];
      apply (wp_allocate_page b m (fd_ h) p (fo_co _ _ _ _ F) Hf)|cbn|].
    2:{ intros x b' [Hx _]. by apply page_fail_file. }
    intros [slot|] b1 [Hpost [= _ Hsz]].
    2:{ destruct Hpost as [_ [s Hs]]. apply (fo_cached _ _ _ _ F) in Hs. lia. }
    destruct Hpost as (e & m1 & Hm & CO1 & Hm1 & He & Hpe & _ & Hnew & Hkeep & Hpn & Hoth).
    wp_steps. apply wp_int_of; [unfold INT_MIN; lia|]. apply wp_update_handle. wp_steps.
    apply wp_update_handle. wp_steps.
    eapply wp_init_page; [exact CO1|by right|apply F|apply F| |cbn; lia|done|done|lia|].
    { rewrite Hsz. apply F. }
    intros b2 e2 CO2 Hsz2 He2 Hpe2 Hpn2 Hv2 Hsl2.
    rewrite (fo_head _ _ _ _ F).
    apply (allocated_intro h b m [] p [] (p + 1) b1 m1 (Some (fd_ h, p)) b2 slot e2); try done; try lia.
    + right. done.
    + intros q s [[= ->]|Hq]%Hnew; [lia|]. apply (fo_cached _ _ _ _ F) in Hq. lia.
    + intros n Hn Hpb. apply Hpn; [lia|]. intros s es Hes%Hpb. lia.
    + intros _ s es Hes. destruct (slots_pool_at b1 b2 s es Hsl2 Hes) as (e0 & He0 & Hfd).
      destruct (decide (s = slot)); [by left|right]. exists e0. split; [by apply Hkeep|done].
  - destruct fl as [|p fl']; [done|]. cbn [hd].
    assert (0 <= p < page_num (header_ h)) as Hp by (apply (fo_fl _ _ _ _ F); by left).
    wp_step. apply (wp_fetch_page h b m (p :: fl')); [done..| |by eauto using page_fail_file].
    intros b1 m1 slot e F1 Hm1 He Hpe Hd Hv Hpn. rewrite link_head.
    apply wp_update_handle. wp_steps. apply wp_update_handle. wp_steps.
    eapply wp_init_page; [apply F1|by left|apply F|apply F|apply F1|done|done|done|done|].
    intros b2 e2 CO2 Hsz2 He2 Hpe2 Hpn2 Hv2 Hsl2.
    apply (allocated_intro h b m (p :: fl') p fl' (page_num (header_ h)) b1 m1 None b2 slot e2); try done; try lia.
    + by left.
    + apply F1.
    + by rewrite (fo_size _ _ _ _ F1), (fo_size _ _ _ _ F).
    + intros k d Hne. apply Hv.
    + apply F1.
Qed.
End file.

(** * A client of a paged file *)

Inductive file_op :=
| FAlloc                             (* allocate a page; it stays pinned *)
| FGet (page : Z)                    (* pin a page and look at its payload *)
| FWrite (page : Z) (d : list byte)  (* fill the payload through the pointer, mark dirty *)
| FUnpin (page : Z)
| FDispose (page : Z).

Inductive file_res := RPage (page : Z) | RData (d : list byte) | RUnit.

(** The abstract paged file: number of pages, stack of free pages, payloads. *)
Record afile := mk_afile { af_num : Z; af_free : list Z; af_data : gmap Z (list byte) }.

Definition payload_size : nat := Z.to_nat DEFAULT_PAGE_SIZE - page_header_size.
Definition zero_payload : list byte := replicate payload_size Byte.x00.

Definition spec_file_op (o : file_op) (a : afile) (r : file_res + exn) (a' : afile) : Prop :=
  match o, r with
  | FAlloc, inl (RPage p) =>
      (af_free a = p :: af_free a' /\ af_num a' = af_num a \/
       af_free a = [] /\ af_free a' = [] /\ p = af_num a /\ af_num a' = af_num a + 1) /\
      af_data a' = <[p := zero_payload]> (af_data a)
  | FGet p, inl (RData d) =>
      0 <= p < af_num a /\ (p ∉ af_free a) /\ (forall d0, af_data a !! p = Some d0 -> d = d0) /\
      a' = mk_afile (af_num a) (af_free a) (<[p := d]> (af_data a))
  | FGet p, inr invalid_page_exception => (p ∈ af_free a \/ ~ (0 <= p < af_num a)) /\ a' = a
  | FWrite p d, inl RUnit => a' = mk_afile (af_num a) (af_free a) (<[p := d]> (af_data a))
  | FUnpin p, inl RUnit => a' = a
  | FDispose p, inl RUnit =>
      0 <= p < af_num a /\ (p ∉ af_free a) /\ a' = mk_afile (af_num a) (p :: af_free a) (delete p (af_data a))
  | FDispose p, inr page_already_free_exception => p ∈ af_free a /\ a' = a
  | FDispose p, inr invalid_page_exception => ~ (0 <= p < af_num a) /\ a' = a
  | _, inr _ => a' = a
  | _, _ => False
  end.

Fixpoint spec_file_ops (os : list file_op) (a : afile) (rs : list (file_res + exn)) (a' : afile) : Prop :=
  match os, rs with
  | [], [] => a' = a
  | o :: os, r :: rs => exists a1, spec_file_op o a r a1 /\ spec_file_ops os a1 rs a'
  | _, _ => False
  end.

Section client.
Context {U : Type} `{UnixLaws U}.
Implicit Types (h : file_handle) (b : buffer_manager U) (m : gmap (Z * Z) Z) (fl : list Z).

Definition run_file_op (o : file_op) : M (file_state U) file_res :=
  match o with
  | FAlloc => ph ← file_allocate_page; mret (RPage (page_ ph))
  | FGet p =>
      ph ← get_this_page p;
      '(slot, off) ← of_option null_deref (data_ ph);
      e ← in_bm (pool_get slot);
      mret (RData (drop off (be_data e)))
  | FWrite p d =>
      h ← handle;
      slot ← in_bm (in_hash (hash_table_find (fd_ h) p));
      if slot =? -1 then throw page_not_in_buf_exception else
      _ ← in_bm (store_bytes slot page_header_size d);
      _ ← file_mark_dirty p;
      mret RUnit
  | FUnpin p => _ ← file_unpin_page p; mret RUnit
  | FDispose p => _ ← file_dispose_page p; mret RUnit
  end.

Fixpoint run_file_ops (os : list file_op) : M (file_state U) (list (file_res + exn)) :=
  match os with
  | [] => mret []
  | o :: os =>
      r ← attempt (run_file_op o);
      match r with
      | inr x => if is_io_error x then throw x else rs ← run_file_ops os; mret (r :: rs)
      | inl _ => rs ← run_file_ops os; mret (r :: rs)
      end
  end.

Definition file_op_ok (fd : Z) (o : file_op) : Prop :=
  match o with
  | FWrite p d => length d = payload_size /\ 0 <= fd + p <= INT_MAX
  | _ => True
  end.

(** The concrete file holds the abstract one. *)
Record file_abs h b m (a : afile) : Prop := {
  fa_ok : file_ok h b m (af_free a);
  fa_num : af_num a = page_num (header_ h);
  fa_data : forall p d, af_data a !! p = Some d ->
    0 <= p < af_num a /\ exists full, view b m (fd_ h, p) = Some full /\ drop page_header_size full = d;
}.

(** What one operation guarantees: [n] bounds the pins before it. *)
Definition file_op_post o a fd (n : Z) (r : file_res) (s' : file_state U) : Prop :=
  exists m' a', spec_file_op o a (inl r) a' /\ file_abs (fs_handle s') (fs_bm s') m' a' /\
    pins_le (n + 1) (fs_bm s') /\ af_num a' <= af_num a + 1 /\ fd_ (fs_handle s') = fd.

Definition file_op_fail o a h (n : Z) (x : exn) (s' : file_state U) : Prop :=
  if is_io_error x then exists m', bm_ok (fs_bm s') m'
  else exists m', spec_file_op o a (inr x) a /\ file_abs h (fs_bm s') m' a /\ fs_handle s' = h /\ pins_le (n + 1) (fs_bm s').

Section one_op.
Context h b m (a : afile) (n : Z).
Hypothesis FA : file_abs h b m a.
Hypothesis Hn : 0 < n < INT_MAX.
Hypothesis Hpins : pins_le n b.

Lemma file_pins_max : pins_le (INT_MAX - 1) b.
Proof. intros s e He%Hpins. lia. Qed.

Lemma file_abs_same s' : same_file h b m (af_free a) s' ->
  exists b' m', s' = mk_file_state U h b' /\ file_abs h b' m' a /\ pins_le (n + 1) b' /\ view_le b m b' m'.
Proof.
  intros (b' & m' & -> & F' & Hv & Hpn). exists b', m'. split_and!; [done| |apply Hpn; [lia|done]|done].
  split; [done|apply FA|]. intros p d Hd. destruct (fa_data _ _ _ _ FA _ _ Hd) as (Hp & full & Hf & Hdr).
  split; [done|]. exists full. split; [|done]. apply Hv; [cbn; lia|done].
Qed.

Lemma file_fail_op o x s' :
  file_fail h b x s' -> spec_file_op o a (inr page_pinned_exception) a -> spec_file_op o a (inr no_buf_error) a ->
  file_op_fail o a h n x s'.
Proof.
  unfold file_op_fail. intros [[Hx ->]|[Hx (b' & m' & -> & OK)]] Hs1 Hs2.
  - assert (pins_le (n + 1) b) by (intros s e He%Hpins; lia). destruct Hx as [-> | ->]; cbn; by exists m.
  - apply is_io_error_iff in Hx as ->. by exists m'.
Qed.

Lemma file_pins_succ b' : pins_le n b' -> pins_le (n + 1) b'.
Proof. intros Hb s e He%Hb. lia. Qed.

Lemma run_file_get p : wp (run_file_op (FGet p)) (file_op_post (FGet p) a (fd_ h) n) (file_op_fail (FGet p) a h n) (mk_file_state U h b).
Proof.
  cbn. wp_steps. pose proof (fa_num _ _ _ _ FA) as Hnum.
  eapply wp_mono; [apply (wp_get_this_page h b m (af_free a) p); [apply FA|apply file_pins_max]|cbn..].
  - intros ph s' (slot & d & -> & Hp & Hfl & Hd & Hsame & e & He & <- & Hpe).
    destruct (file_abs_same _ Hsame) as (b' & m' & -> & FA' & Hpn' & Hv'). cbn in *. wp_steps.
    apply wp_in_bm; [apply FA'|]. eapply wp_pool_get; [done|]. wp_steps.
    exists m', (mk_afile (af_num a) (af_free a) (<[p := drop page_header_size (be_data e)]> (af_data a))).
    split_and!; [cbn; rewrite Hnum; split_and!; try done; try lia| |done|cbn; lia|done].
    + intros d0 Hd0. destruct (fa_data _ _ _ _ FA _ _ Hd0) as (_ & full & Hf & <-). rewrite Hd in Hf. by injection Hf as ->.
    + split; [apply FA'|done|]. cbn. intros q d [[<- <-]|[_ Hq]]%lookup_insert_Some; [|by apply (fa_data _ _ _ _ FA')].
      split; [lia|]. exists (be_data e). split; [|done]. apply Hv'; [cbn; lia|done].
  - intros x s' [(-> & Hp & Hsame)|Hfail]; [|by apply file_fail_op].
    destruct (file_abs_same _ Hsame) as (b' & m' & -> & FA' & Hpn' & _). exists m'. cbn. rewrite Hnum. done.
Qed.

Lemma run_file_unpin p : wp (run_file_op (FUnpin p)) (file_op_post (FUnpin p) a (fd_ h) n) (file_op_fail (FUnpin p) a h n) (mk_file_state U h b).
Proof.
  cbn. wp_steps. pose proof (fa_ok _ _ _ _ FA) as F. pose proof (fo_co _ _ _ _ F) as CO.
  assert (file_abs h b m a /\ pins_le (n + 1) b) as [_ Hsucc] by (split; [done|by apply file_pins_succ]).
  unfold file_unpin_page, handle. apply wp_check_open; [apply F|].
  apply wp_check_page; [intros Hp|by exists m]. wp_steps. apply wp_in_bm; [apply F|]. cbn.
  eapply wp_mono; [apply (wp_keeps sizes); [apply keeps_unpin_page|];
    apply (wp_unpin_page None b m (fd_ h) p CO); [by eapply file_fits|intros s e He%Hpins; lia]|cbn..].
  - intros [] b' [(s & e & _ & _ & _ & CO' & _ & Hpn & Hv) [= _ Hsz]]. wp_steps. exists m, a. cbn.
    split_and!; [done| |by apply file_pins_succ, Hpn|lia|done].
    split; [|apply FA|].
    + eapply file_ok_le; [done|done| |done|apply F]. intros k d _. by rewrite Hv.
    + intros q d Hq. rewrite Hv. by apply (fa_data _ _ _ _ FA).
  - intros x b' [(-> & [[-> _]|[-> _]]) _]; by exists m.
Qed.

Lemma run_file_dispose p : wp (run_file_op (FDispose p)) (file_op_post (FDispose p) a (fd_ h) n) (file_op_fail (FDispose p) a h n) (mk_file_state U h b).
Proof.
  cbn. wp_steps. pose proof (fa_num _ _ _ _ FA) as Hnum.
  eapply wp_mono; [apply (wp_file_dispose_page h b m (af_free a) p); [apply FA|apply file_pins_max]|cbn..].
  - intros [] s' (Hp & Hfl & b' & m' & -> & F' & Hoth & Hpn). wp_steps.
    exists m', (mk_afile (af_num a) (p :: af_free a) (delete p (af_data a))). cbn.
    split_and!; try done; try lia; [|apply Hpn; [lia|done]].
    split; [done|done|]. cbn. intros q d [Hne Hq]%lookup_delete_Some.
    destruct (fa_data _ _ _ _ FA _ _ Hq) as (Hq0 & full & Hf & Hdr).
    split; [done|]. exists full. split; [|done]. apply Hoth; [congruence|cbn; lia|done].
  - intros x s' [(-> & Hp & Hsame)|[(-> & Hp & Hsame)|Hfail]]; [| |by apply file_fail_op];
      destruct (file_abs_same _ Hsame) as (b' & m' & -> & FA' & Hpn' & _); exists m'; cbn; by rewrite ?Hnum.
Qed.

Lemma drop_payload (d : list byte) : drop page_header_size (int_bytes PAGE_USED ++ d) = d.
Proof. by rewrite drop_app_length' by (by rewrite length_int_bytes). Qed.

Lemma run_file_alloc :
  (af_num a + 1) * 4096 <= INT_MAX -> fd_ h + af_num a < INT_MAX ->
  wp (run_file_op FAlloc) (file_op_post FAlloc a (fd_ h) n) (file_op_fail FAlloc a h n) (mk_file_state U h b).
Proof.
  intros Hr1 Hr2. cbn. wp_steps. pose proof (fa_num _ _ _ _ FA) as Hnum. pose proof (fa_ok _ _ _ _ FA) as F.
  eapply wp_mono; [apply (wp_file_allocate_page h b m (af_free a)); [apply FA|apply file_pins_max|lia]|cbn..].
  2:{ intros x s' Hfail. by apply file_fail_op. }
  intros ph s' (p & fl' & n' & b' & m' & slot & e & -> & Ht & -> & F' & Hm' & He & Hpe & Hd & Hoth & Hpn & _). wp_steps.
  assert (0 <= p < n' /\ af_num a <= n' <= af_num a + 1) as [Hp Hn'].
  { destruct Ht as [[Hfl ->]|(_ & _ & -> & ->)].
    - rewrite <-Hnum. destruct (fo_fl _ _ _ _ F) as [_ Hr]. specialize (Hr p). rewrite Hfl in Hr.
      specialize (Hr ltac:(by left)). lia.
    - pose proof (fo_num _ _ _ _ F). lia. }
  exists m', (mk_afile n' fl' (<[p := zero_payload]> (af_data a))). cbn.
  split_and!; try done; try lia; [|split; [done|done|]|apply Hpn; [lia|done]].
  - destruct Ht as [[-> ->]|(-> & -> & -> & ->)]; [left|right]; rewrite <-?Hnum; done.
  - cbn. intros q d [[<- <-]|[Hne Hq]]%lookup_insert_Some.
    + split; [done|]. exists fresh_page. split; [|apply drop_payload]. unfold view. by rewrite Hm', He, <-Hd.
    + destruct (fa_data _ _ _ _ FA _ _ Hq) as (Hq0 & full & Hf & Hdr). split; [lia|].
      exists full. split; [|done]. apply Hoth; [congruence|cbn; lia|done].
Qed.

(** A store behind the page header keeps the link word. *)
Lemma splice_payload (full d : list byte) :
  length full = Z.to_nat DEFAULT_PAGE_SIZE -> length d = payload_size ->
  splice full page_header_size d = take page_header_size full ++ d /\
  bytes_int (splice full page_header_size d) = bytes_int full /\
  drop page_header_size (splice full page_header_size d) = d.
Proof.
  intros Hf Hd. unfold payload_size, page_header_size, DEFAULT_PAGE_SIZE in *.
  assert (splice full 4 d = take 4 full ++ d) as ->.
  { unfold splice. rewrite (drop_ge full) by lia. by rewrite app_nil_r. }
  assert (length (take 4 full) = 4%nat) as Hl by (rewrite length_take; lia). split_and!; [done|..].
  - unfold bytes_int. rewrite take_app_length' by done. done.
  - by rewrite drop_app_length'.
Qed.

Lemma run_file_write p d :
  length d = payload_size -> 0 <= fd_ h + p <= INT_MAX ->
  wp (run_file_op (FWrite p d)) (file_op_post (FWrite p d) a (fd_ h) n) (file_op_fail (FWrite p d) a h n) (mk_file_state U h b).
Proof.
  intros Hld Hk. pose proof (fa_ok _ _ _ _ FA) as F. pose proof (fo_co _ _ _ _ F) as CO.
  pose proof (co_ok _ _ _ _ CO) as OK. pose proof (fa_num _ _ _ _ FA) as Hnum.
  cbn. unfold handle. wp_steps. apply wp_in_bm; [apply F|]. cbn. eapply wp_hash_find; [done|done|].
  destruct (m !! (fd_ h, p)) as [slot|] eqn:Hm; cbn.
  2:{ wp_steps. exists m. split_and!; [done|done|done|by apply file_pins_succ]. }
  destruct (ht_repr_slot _ _ (ok_hash _ _ OK) _ _ Hm) as [Hs1 _]. destruct (Z.eqb_spec slot (-1)); [done|].
  destruct (coherent_tracked _ _ _ _ OK Hm) as (e & He & _ & Hve & _).
  pose proof (fo_cached _ _ _ _ F _ _ Hm) as Hpn. destruct (tracked_fits _ _ _ _ OK Hm) as (_ & Hp0 & _). cbn in Hp0.
  destruct (ok_entries _ _ OK _ _ He) as (_ & _ & Hle). rewrite (fo_size _ _ _ _ F) in Hle.
  destruct (splice_payload (be_data e) d Hle Hld) as (_ & Hlink & Hdrop).
  wp_steps. apply wp_in_bm; [apply F|]. eapply wp_store_bytes; [done| |].
  { rewrite Hle, Hld. unfold payload_size, page_header_size, DEFAULT_PAGE_SIZE. lia. }
  set (full := splice (be_data e) page_header_size d) in *.
  destruct (client_write_coherent None b m _ _ _ full CO ltac:(by left) Hm He) as [CO1 Hv1].
  { unfold full. rewrite length_splice, Hle, (fo_size _ _ _ _ F); [done|].
    rewrite Hle, Hld. unfold payload_size, page_header_size, DEFAULT_PAGE_SIZE. lia. }
  wp_steps. eapply wp_file_mark; [exact CO1|apply F|apply F|lia|done|]. intros b2 CO2 Hv2 Hsz2 Hpn2 _ _. wp_steps.
  assert (forall k, view b2 m k = if decide (k = (fd_ h, p)) then Some full else view b m k) as Hv by (intros k; by rewrite Hv2, Hv1).
  exists m, (mk_afile (af_num a) (af_free a) (<[p := d]> (af_data a))). cbn. split_and!; [done| | |lia|done].
  - split; cbn; [|done|].
    + destruct F as [? ? ? Hsz ? ? ? ? ? ? Hpages]. split; try done; [by rewrite Hsz2|]. intros q Hq.
      destruct (Hpages q Hq) as (dq & Hdq & Hlq). rewrite Hv. case_decide as Hkk; [|by exists dq].
      injection Hkk as ->. exists full. split; [done|]. rewrite Hlink. congruence.
    + intros q dq. rewrite Hv. intros [[<- <-]|[Hne Hq]]%lookup_insert_Some.
      * split; [lia|]. rewrite decide_True by done. by exists full.
      * rewrite decide_False by congruence. by apply (fa_data _ _ _ _ FA).
  - apply file_pins_succ, Hpn2, pins_set_entry; [done|done|]. apply (Hpins _ _ He).
Qed.
End one_op.

Lemma run_file_ops_spec os h b m a n :
  file_abs h b m a -> 0 < n -> n + Z.of_nat (length os) <= INT_MAX -> pins_le n b ->
  (af_num a + Z.of_nat (length os)) * 4096 <= INT_MAX -> fd_ h + af_num a + Z.of_nat (length os) <= INT_MAX ->
  Forall (file_op_ok (fd_ h)) os ->
  wp (run_file_ops os)
    (fun rs s' => exists m' a', spec_file_ops os a rs a' /\ file_abs (fs_handle s') (fs_bm s') m' a')
    (fun x s' => io_error x /\ exists m', bm_ok (fs_bm s') m') (mk_file_state U h b).
Proof.
  revert h b m a n. induction os as [|o os IH]; intros h b m a n FA Hn Hlen Hp Hr1 Hr2 Hos; cbn -[run_file_op].
  { wp_steps. by exists m, a. }
  apply Forall_cons in Hos as [Ho Hos]. cbn [length] in *. wp_steps. apply wp_attempt.
  assert (wp (run_file_op o) (file_op_post o a (fd_ h) n) (file_op_fail o a h n) (mk_file_state U h b)) as Hop.
  { assert (0 < n < INT_MAX) by lia. destruct o.
    - by eapply run_file_alloc; try lia.
    - by eapply run_file_get.
    - destruct Ho. by eapply run_file_write.
    - by eapply run_file_unpin.
    - by eapply run_file_dispose. }
  eapply wp_mono; [exact Hop|cbn..].
  - intros r [h' b'] (m' & a' & Hs & FA' & Hp' & Hnum & Hfd). wp_steps. cbn in *.
    eapply wp_mono; [apply (IH h' b' m' a' (n + 1)); rewrite ?Hfd; (done || lia)|cbn|done].
    intros rs s2 (m2 & a2 & Hs2 & FA2). wp_steps. exists m2, a2. split; [by exists a'|done].
  - intros x [h' b'] Hfail. unfold file_op_fail in Hfail. destruct (is_io_error x) eqn:Hx.
    + wp_steps. split; [by apply is_io_error_iff|done].
    + destruct Hfail as (m' & Hs & FA' & Hh & Hp'). cbn in Hh. subst h'. wp_steps.
      eapply wp_mono; [apply (IH h b' m' a (n + 1)); (done || lia)|cbn|done].
      intros rs s2 (m2 & a2 & Hs2 & FA2). wp_steps. exists m2, a2. split; [by exists a|done].
Qed.
End client.

(** * The file header *)

Section header.
Context {U : Type} `{UnixLaws U}.
Implicit Types (h : file_handle) (b : buffer_manager U) (m : gmap (Z * Z) Z).

Lemma length_header_bytes hd : length (header_bytes hd) = 8%nat.
Proof. unfold header_bytes. by rewrite length_app, !length_int_bytes. Qed.

(** A write to the header leaves the pages alone. *)
Lemma header_write_coherent b m fd u hdb :
  coherent b m -> (length hdb <= 8)%nat ->
  u_bytes u fd = file_write (u_bytes (bm_sys b) fd) 0 hdb ->
  (u_separate u /\ forall fd', fd' <> fd -> u_bytes u fd' = u_bytes (bm_sys b) fd') ->
  coherent (set_sys u b) m /\ view_le b m (set_sys u b) m.
Proof.
  intros CO Hl Hw [Hsep Hfr]. pose proof (ok_size _ _ (co_ok _ _ _ _ CO)) as Hsz.
  assert (forall k d, 0 <= k.2 -> disk_page (buffer_size_ b) (bm_sys b) k = Some d ->
    disk_page (buffer_size_ b) u k = Some d) as Hd.
  { intros [fd' p] d Hp. unfold disk_page. cbn in *. destruct (decide (fd' = fd)) as [->|]; [|by rewrite Hfr].
    rewrite Hw. apply file_block_write_other. right. unfold page_pos. nia. }
  split; [split|].
  - apply bm_ok_set_sys, CO.
  - done.
  - apply CO.
  - intros k s e Hk He Hde Hx. apply Hd; [|by eapply (co_clean _ _ _ _ CO)].
    apply (tracked_fits _ _ _ _ (co_ok _ _ _ _ CO) Hk).
  - intros k d Hk. unfold view. destruct (m !! k); [done|]. by apply Hd.
Qed.

Lemma wp_write_header h b m (Q : unit -> file_state U -> Prop) (E : exn -> file_state U -> Prop) :
  coherent b m ->
  (header_changed_ h = false -> Q tt (mk_file_state U h b)) ->
  (forall u, header_changed_ h = true -> coherent (set_sys u b) m -> view_le b m (set_sys u b) m ->
     file_block (u_bytes u (fd_ h)) 0 8 = Some (header_bytes (header_ h)) ->
     Q tt (mk_file_state U (set_header_changed false h) (set_sys u b))) ->
  (forall x u, io_error x \/ x = incomplete_header_write_error -> E x (mk_file_state U h (set_sys u b))) ->
  wp write_header Q E (mk_file_state U h b).
Proof.
  intros CO HQ0 HQ HE. unfold write_header, handle. wp_steps. cbn [fs_handle].
  apply wp_when; intros Hc; [|by apply HQ0]. wp_steps. apply wp_sys. intros r u Hr.
  destruct (lseek_ok _ _ _ _ _ Hr) as (Hb & Hsep & Hoff).
  destruct (Z.ltb_spec r 0); [wp_steps; apply HE; left; by left|].
  destruct (Hoff ltac:(done)) as [-> Hat]. wp_steps. apply wp_sys. intros n u' Hw. cbn in Hw.
  destruct (write_ok _ _ _ _ _ Hw) as (Hfr & _ & Hok).
  destruct (Z.ltb_spec n 0); [wp_steps; apply (HE _ u'); left; by left|].
  destruct (Z.eqb_spec n 8); cbn [negb]; wp_steps; [|apply (HE _ u'); by right].
  subst n. destruct (Hok ltac:(done)) as [_ Hbytes].
  rewrite Hat, Hb, take_ge in Hbytes by (rewrite length_header_bytes; lia).
  destruct (header_write_coherent b m (fd_ h) u' (header_bytes (header_ h)) CO) as [CO' Hv]; [..|done| |].
  - by rewrite length_header_bytes.
  - destruct (Hfr (Hsep (co_sep _ _ _ _ CO))) as [Hs Hf]. split; [done|]. intros fd' Hne. by rewrite Hf, Hb.
  - apply (HQ u'); try done. rewrite Hbytes. rewrite <-(length_header_bytes (header_ h)). apply file_block_write_same.
Qed.

(** Reading the header back. *)
Lemma header_bytes_decode hd :
  INT_MIN <= first_free hd <= INT_MAX -> INT_MIN <= page_num hd <= INT_MAX ->
  mk_file_header (bytes_int (header_bytes hd)) (bytes_int (drop 4 (header_bytes hd))) = hd.
Proof.
  intros Hf Hp. unfold header_bytes. rewrite bytes_int_bytes by done.
  rewrite drop_app_length' by (by rewrite length_int_bytes).
  rewrite <-(app_nil_r (int_bytes (page_num hd))), bytes_int_bytes by done. by destruct hd.
Qed.

(** The header in the file is the one of the handle, unless the handle says it changed. *)
Definition header_saved h b : Prop :=
  header_changed_ h = false -> file_block (u_bytes (bm_sys b) (fd_ h)) 0 8 = Some (header_bytes (header_ h)).

Lemma wp_save_header h b m (Q : unit -> file_state U -> Prop) (E : exn -> file_state U -> Prop) :
  coherent b m -> header_saved h b ->
  (forall u, coherent (set_sys u b) m -> view_le b m (set_sys u b) m ->
     file_block (u_bytes u (fd_ h)) 0 8 = Some (header_bytes (header_ h)) ->
     Q tt (mk_file_state U (set_header_changed false h) (set_sys u b))) ->
  (forall x u, io_error x \/ x = incomplete_header_write_error -> E x (mk_file_state U h (set_sys u b))) ->
  wp write_header Q E (mk_file_state U h b).
Proof.
  intros CO Hsv HQ HE. apply wp_write_header with (m := m); [done| |by intros u _; apply HQ|done].
  intros Hc. assert (set_header_changed false h = h) as Eh by (destruct h; cbn in *; by subst).
  assert (set_sys (bm_sys b) b = b) as Eb by (by destruct b).
  specialize (HQ (bm_sys b)). rewrite Eh, Eb in HQ. apply HQ; [done|apply view_le_refl|by apply Hsv].
Qed.

Lemma file_header_decode h b m fl :
  file_ok h b m fl -> mk_file_header (bytes_int (header_bytes (header_ h))) (bytes_int (drop 4 (header_bytes (header_ h)))) = header_ h.
Proof.
  intros F. destruct (fo_bound _ _ _ _ F). pose proof (fo_num _ _ _ _ F). apply header_bytes_decode; [|unfold INT_MIN; lia].
  rewrite (fo_head _ _ _ _ F). destruct (fo_fl _ _ _ _ F) as [_ Hr].
  destruct fl as [|q fl']; cbn; [unfold PAGE_LIST_END, INT_MIN, INT_MAX; lia|].
  specialize (Hr q ltac:(by left)). unfold INT_MIN. lia.
Qed.

(** What flushing a file may throw: a system call failed, or a page of it is pinned. *)
Definition flush_error h b (x : exn) : Prop :=
  io_error x \/ x = incomplete_header_write_error \/ (x = page_pinned_exception /\ pinned_from (fd_ h) 0 b).

(** Header and pages reach the disk. *)
Lemma wp_file_flush h b m fl :
  file_ok h b m fl -> header_saved h b -> 0 <= pool_size_ b -> free_without (fd_ h) 0 b ->
  wp file_flush_pages
    (fun _ s' =>
       file_block (u_bytes (bm_sys (fs_bm s')) (fd_ h)) 0 8 = Some (header_bytes (header_ h)) /\
       (forall p d, 0 <= p -> view b m (fd_ h, p) = Some d ->
          disk_page DEFAULT_PAGE_SIZE (bm_sys (fs_bm s')) (fd_ h, p) = Some d) /\
       fs_handle s' = set_header_changed false h /\
       exists m', coherent (fs_bm s') m' /\ forall k s, m' !! k = Some s -> k.1 <> fd_ h)
    (fun x s' => flush_error h b x /\ exists m', bm_ok (fs_bm s') m') (mk_file_state U h b).
Proof.
  intros F Hc Hps Hfw. pose proof (fo_co _ _ _ _ F) as CO.
  unfold file_flush_pages. apply wp_check_open; [apply F|]. wp_steps.
  apply wp_save_header with (m := m); [done..| |].
  2:{ intros x u Hx. split; [unfold flush_error; tauto|]. exists m. apply bm_ok_set_sys, CO. }
  intros u CO1 Hv1 Hhd. unfold handle. wp_steps. apply wp_in_bm; [apply F|]. cbn.
  eapply wp_mono; [apply (wp_keeps sizes); [apply keeps_flush_pages|]; by apply (wp_flush_pages _ m (fd_ h) CO1)|cbn|].
  2:{ intros x b' [(m' & OK & Hx) _]. split; [|by exists m']. unfold flush_error. destruct Hx as [(-> & Hpin & _)|?]; [|by left].
      right; right. by split. }
  intros [] b' [(Hh & _ & m' & CO' & Hv & Hm') [= _ Hsz]]. split_and!; [by apply Hh; [lia|]| |done|by exists m'].
  intros p d Hp Hd. apply Hv1, Hv in Hd; [|done..]. unfold view in Hd. cbn in Hsz.
  rewrite Hsz, (fo_size _ _ _ _ F) in Hd.
  destruct (m' !! (fd_ h, p)) as [s|] eqn:Hk; [|done]. by apply Hm' in Hk.
Qed.
End header.

(** * Properties *)

(** C3. A paged file refines its abstract description, a number of pages, a stack of
    free pages and the payloads: allocate_page returns the page disposed of last, or
    a new page at the end when none is free, zeroed; get_this_page returns the last
    payload written, and exactly the pages in range and not free; dispose_page accepts
    exactly those pages; errors change nothing.  The free list threaded through the
    first words of the pages survives any history, whatever the cache evicts. *)
Theorem paged_file_refines {U} `{UnixLaws U} (os : list file_op) (h : file_handle) (b : buffer_manager U)
    (m : gmap (Z * Z) Z) (a : afile) (n : Z) :
  file_abs h b m a -> 0 < n -> n + Z.of_nat (length os) <= INT_MAX -> pins_le n b ->
  (af_num a + Z.of_nat (length os)) * 4096 <= INT_MAX -> fd_ h + af_num a + Z.of_nat (length os) <= INT_MAX ->
  Forall (file_op_ok (fd_ h)) os ->
  wp (run_file_ops os)
    (fun rs s' => exists m' a', spec_file_ops os a rs a' /\ file_abs (fs_handle s') (fs_bm s') m' a')
    (fun x s' => io_error x /\ exists m', bm_ok (fs_bm s') m') (mk_file_state U h b).
Proof. apply run_file_ops_spec. Qed.

(** An empty file, as create_file and open_file leave it. *)
Definition empty_handle (fd : Z) : file_handle := mk_file_handle fd (mk_file_header (-1) 0) true true false.
Definition empty_bm : buffer_manager MemFs := io_manager_new demo_entry demo_fs.

Lemma empty_file_abs : file_abs (empty_handle 3) empty_bm ∅ (mk_afile 0 [] ∅) /\ pins_le 1 empty_bm.
Proof.
  destruct (buffer_manager_new_coherent POOL_SIZE BUFFER_SIZE demo_entry 1 demo_fs) as [CO Hp];
    [done|intros i; unfold fits, INT_MAX; cbn; lia|apply demo_separate|].
  split; [|done]. split; [split; cbn; try done|done|].
  - split; [apply NoDup_nil_2|]. by intros p ?%not_elem_of_nil.
  - lia.
  - intros p d Hd. done.
Defined.

Lemma paged_file_refines_witness :
  wp (run_file_ops [FAlloc; FUnpin 0; FDispose 0; FAlloc; FGet 0; FGet 1])
    (fun rs s' => exists m' a', spec_file_ops [FAlloc; FUnpin 0; FDispose 0; FAlloc; FGet 0; FGet 1] (mk_afile 0 [] ∅) rs a' /\
       file_abs (fs_handle s') (fs_bm s') m' a')
    (fun x s' => io_error x /\ exists m', bm_ok (fs_bm s') m') (mk_file_state MemFs (empty_handle 3) empty_bm).
Proof.
  apply (paged_file_refines _ _ _ ∅ _ 1); try apply empty_file_abs; try (unfold INT_MAX; cbn; lia).
  repeat constructor.
Defined.

(** flush_pages of a file with a changed header persists everything: on return
    the first 8 bytes of the file decode to the header of the handle and every page in
    range is on disk with the content the clients saw; no page stays cached.  Decoding
    is what open_file does, so reopening finds the same pages and the same free list. *)
Theorem file_flush_persists {U} `{UnixLaws U} (h : file_handle) (b : buffer_manager U) (m : gmap (Z * Z) Z) (fl : list Z) :
  file_ok h b m fl -> header_changed_ h = true -> 0 <= pool_size_ b -> free_without (fd_ h) 0 b ->
  wp file_flush_pages
    (fun _ s' =>
       (exists bs, file_block (u_bytes (bm_sys (fs_bm s')) (fd_ h)) 0 8 = Some bs /\
          mk_file_header (bytes_int bs) (bytes_int (drop 4 bs)) = header_ h) /\
       (forall p d, 0 <= p -> view b m (fd_ h, p) = Some d ->
          disk_page DEFAULT_PAGE_SIZE (bm_sys (fs_bm s')) (fd_ h, p) = Some d) /\
       fs_handle s' = set_header_changed false h /\
       exists m', coherent (fs_bm s') m' /\ forall k s, m' !! k = Some s -> k.1 <> fd_ h)
    (fun x s' => exists m', bm_ok (fs_bm s') m') (mk_file_state U h b).
Proof.
  intros F Hc Hp Hfw. eapply wp_mono; [by apply (wp_file_flush h b m fl F); [intros ?; congruence|..]|cbn|by intros x s' [_ ?]].
  intros [] s' (Hb & Hrest). split; [|done]. exists (header_bytes (header_ h)). split; [done|]. by eapply file_header_decode.
Qed.

Definition touched_handle : file_handle := set_header_changed true (empty_handle 3).

Lemma file_flush_persists_witness :
  wp file_flush_pages
    (fun _ s' =>
       (exists bs, file_block (u_bytes (bm_sys (fs_bm s')) 3) 0 8 = Some bs /\
          mk_file_header (bytes_int bs) (bytes_int (drop 4 bs)) = header_ touched_handle) /\
       (forall p d, 0 <= p -> view empty_bm ∅ (3, p) = Some d ->
          disk_page DEFAULT_PAGE_SIZE (bm_sys (fs_bm s')) (3, p) = Some d) /\
       fs_handle s' = set_header_changed false touched_handle /\
       exists m', coherent (fs_bm s') m' /\ forall k s, m' !! k = Some s -> k.1 <> 3)
    (fun x s' => exists m', bm_ok (fs_bm s') m') (mk_file_state MemFs touched_handle empty_bm).
Proof.
  apply (file_flush_persists touched_handle empty_bm ∅ []).
  - destruct empty_file_abs as [[[] _ _] _]. by split.
  - done.
  - done.
  - intros s e _ _ He. apply new_pool_at in He as (i & ->). cbn. lia.
Defined.

(** A file_handle is copied by value, header included.  When two copies of a
    handle share a file without free pages and the first allocates a page, the second
    still has the old page count: its allocate_page asks the buffer manager for the same
    page, gets a null pointer and writes through it. *)
Theorem stale_copy_null_deref {U} `{UnixLaws U} (h : file_handle) (b : buffer_manager U) (m : gmap (Z * Z) Z)
    (ph : page_handle) (s' : file_state U) :
  file_ok h b m [] -> pins_le (INT_MAX - 1) b ->
  page_num (header_ h) * 4096 + 4096 <= INT_MAX -> fd_ h + page_num (header_ h) < INT_MAX ->
  file_allocate_page (mk_file_state U h b) = Ret ph s' ->
  file_allocate_page (mk_file_state U h (fs_bm s')) = Undef null_deref.
Proof.
  intros F Hpin Hr1 Hr2 Hrun.
  pose proof (wp_returns _ _ _ _ _ _ (wp_file_allocate_page h b m [] F Hpin ltac:(done)) Hrun) as
    (p & fl' & n' & b' & m' & slot & e & _ & Ht & -> & F' & Hm' & _). cbn [fs_bm].
  destruct Ht as [[? _]|(_ & -> & -> & ->)]; [done|].
  set (p := page_num (header_ h)) in *. pose proof (fo_co _ _ _ _ F') as CO'. pose proof (co_ok _ _ _ _ CO') as OK'.
  assert (buffer_manager_allocate_page (fd_ h) p b' = Ret None b') as Hnull.
  { pose proof (wp_hash_find b' m' (fd_ h) p (fun v b'' => v = slot /\ b'' = b') (fun _ _ => False) OK') as Hf.
    destruct (ht_repr_slot _ _ (ok_hash _ _ OK') _ _ Hm') as [Hs1 Hk].
    specialize (Hf Hk ltac:(by rewrite Hm')). apply wp_no_exn in Hf as (v & b'' & Hv & -> & ->).
    unfold buffer_manager_allocate_page, mbind, M_bind. rewrite Hv.
    by destruct (Z.eqb_spec slot (-1)). }
  unfold file_allocate_page, check_open, in_bm, handle, zoom, update_handle, mbind, M_bind, gets, modify, of_option.
  cbn -[int_of PAGE_LIST_END buffer_manager_allocate_page]. rewrite (fo_open _ _ _ _ F).
  cbn -[int_of PAGE_LIST_END buffer_manager_allocate_page]. rewrite (fo_head _ _ _ _ F).
  cbn -[int_of buffer_manager_allocate_page]. rewrite (fo_bm _ _ _ _ F). fold p. cbn [fs_bm]. rewrite Hnull. cbn -[int_of].
  unfold int_of. replace (int_ok (p + 1)) with true; [done|]. symmetry. unfold int_ok. apply andb_true_iff.
  pose proof (fo_num _ _ _ _ F). unfold INT_MIN. split; apply Z.leb_le; lia.
Qed.

Lemma stale_copy_null_deref_witness :
  exists ph s', file_allocate_page (mk_file_state MemFs (empty_handle 3) empty_bm) = Ret ph s' /\
    file_allocate_page (mk_file_state MemFs (empty_handle 3) (fs_bm s')) = Undef null_deref.
Proof.
  eexists _, _. split; [vm_compute; reflexivity|].
  eapply (stale_copy_null_deref (empty_handle 3) empty_bm ∅).
  - apply empty_file_abs.
  - intros s e He. apply (proj2 empty_file_abs) in He. unfold INT_MAX. lia.
  - vm_compute. discriminate.
  - vm_compute. reflexivity.
  - vm_compute. reflexivity.
Defined.
