(* ===== verification/Varint.v ===== *)
(** Variable-length integers: src/network/coding.{h,cc}.  Unsigned 64-bit values in
    groups of seven bits, least significant first, the top bit of a byte telling
    that more follow; signed values are folded onto unsigned ones first. *)
From S2P Require Import Prelude.

Definition u64 (z : Z) : Z := z mod 2 ^ 64.
Definition i64 (z : Z) : Z := to_signed 64 z.

(** varint::encode_uint: the bytes stored in [buf], the loop body first.  The loop
    runs at most ten times on 64-bit values; [n] counts the rounds left. *)
Fixpoint encode_uint_loop (n : nat) (val : Z) : list byte :=
  match n with
  | O => []
  | S n =>
      let next := Z.land val 0x7f in
      let val := Z.shiftr val 7 in
      if val =? 0 then [byte_of_Z next]
      else byte_of_Z (Z.lor next 0x80) :: encode_uint_loop n val
  end.
Definition encode_uint (val : Z) : list byte := encode_uint_loop 10 val.

(** varint::decode_uvarint on the bytes behind [data]: value and number of bytes
    consumed.  Reading past the bytes and shifting a 64-bit value by 64 or more are
    undefined. *)
Fixpoint decode_uvarint_loop (data : list byte) (shift val i : Z) : (Z * Z) + ub :=
  match data with
  | [] => inr out_of_bounds
  | b :: data =>
      if 64 <=? shift then inr bad_shift
      else
        let val := Z.lor val (u64 (Z.shiftl (Z.land (byte_to_Z b) 0x7f) shift)) in
        if Z.land (byte_to_Z b) 0x80 =? 0 then inl (val, i + 1)
        else decode_uvarint_loop data (shift + 7) val (i + 1)
  end.
Definition decode_uvarint (data : list byte) : (Z * Z) + ub := decode_uvarint_loop data 0 0 0.

(** varint::encode_int; the shift of a negative value wraps. *)
Definition encode_int (val : Z) : list byte :=
  encode_uint (u64 (if val <? 0 then Z.lnot (i64 (Z.shiftl val 1)) else i64 (Z.shiftl val 1))).

(** varint::decode_varint; the complement is taken in uint64_t. *)
Definition decode_varint (data : list byte) : (Z * Z) + ub :=
  match decode_uvarint data with
  | inl (uvalue, bytes) =>
      inl (i64 (if Z.land uvalue 1 =? 0 then Z.shiftr uvalue 1 else u64 (Z.lnot (Z.shiftr uvalue 1))), bytes)
  | inr r => inr r
  end.

(** * Lemmas *)

Lemma land_7f v : Z.land v 0x7f = v mod 128.
Proof. change 0x7f with (Z.ones 7). by rewrite Z.land_ones. Qed.

Lemma land_80 v : 0 <= v < 256 -> (Z.land v 0x80 =? 0) = (v <? 128).
Proof.
  intros Hv. assert (forallb (fun n => Bool.eqb (Z.land (Z.of_nat n) 0x80 =? 0) (Z.of_nat n <? 128)) (seq 0 256) = true)
    as Hall by (vm_compute; reflexivity).
  rewrite forallb_forall in Hall. specialize (Hall (Z.to_nat v)). rewrite Z2Nat.id in Hall by lia.
  apply Bool.eqb_prop, Hall, in_seq. lia.
Qed.

Lemma testbit_small a s n : 0 <= a < 2 ^ s -> 0 <= s <= n -> Z.testbit a n = false.
Proof.
  intros Ha Hn. destruct (decide (a = 0)) as [->|]; [apply Z.bits_0|]. apply Z.bits_above_log2; [lia|].
  apply Z.log2_lt_pow2; [lia|]. eapply Z.lt_le_trans; [apply Ha|]. apply Z.pow_le_mono_r; lia.
Qed.

Lemma lor_add a b s : 0 <= s -> 0 <= a < 2 ^ s -> Z.lor a (Z.shiftl b s) = a + b * 2 ^ s.
Proof.
  intros Hs Ha. rewrite Z.shiftl_mul_pow2 by done.
  assert (Z.land a (b * 2 ^ s) = 0) as Hl.
  { apply Z.bits_inj'. intros n Hn. rewrite Z.land_spec, Z.bits_0. destruct (decide (n < s)).
    - rewrite Z.mul_pow2_bits_low by lia. by rewrite andb_false_r.
    - by rewrite (testbit_small a s n) by lia. }
  rewrite <-Z.lxor_lor by done. symmetry. by apply Z.add_nocarry_lxor.
Qed.

(** Each round stores the low seven bits and keeps the rest. *)
Lemma encode_uint_loop_length n val :
  0 <= val -> (length (encode_uint_loop n val) <= n)%nat.
Proof.
  revert val. induction n as [|n IH]; intros val Hv; cbn; [lia|]. case_match; cbn; [lia|].
  specialize (IH (Z.shiftr val 7)). rewrite Z.shiftr_nonneg in IH. specialize (IH Hv). lia.
Qed.

(** Decoding what the loop stored, in front of any other bytes. *)
Lemma decode_encode_loop n val shift acc i rest :
  0 <= val -> val * 2 ^ shift < 2 ^ 64 -> 0 <= shift < 64 -> 0 <= acc < 2 ^ shift ->
  val < 2 ^ (7 * Z.of_nat n) -> (0 < n)%nat ->
  decode_uvarint_loop (encode_uint_loop n val ++ rest) shift acc i =
    inl (acc + val * 2 ^ shift, i + Z.of_nat (length (encode_uint_loop n val))).
Proof.
  revert val shift acc i. induction n as [|n IH]; intros val shift acc i Hv Hb Hs Hacc Hn Hn0; [lia|].
  cbn [encode_uint_loop]. rewrite land_7f, Z.shiftr_div_pow2 by lia. change (2 ^ 7) with 128.
  pose proof (Z.mod_pos_bound val 128 eq_refl) as Hmod. pose proof (Z.div_mod val 128 ltac:(done)) as Hdm.
  pose proof (Z.pow_pos_nonneg 2 shift eq_refl ltac:(lia)) as Hpow.
  assert (u64 (Z.shiftl (val mod 128) shift) = Z.shiftl (val mod 128) shift) as Hu.
  { unfold u64. rewrite Z.shiftl_mul_pow2 by lia. apply Z.mod_small. split; [nia|].
    assert (val mod 128 <= val) by (apply Z.mod_le; lia). nia. }
  destruct (Z.eqb_spec (val / 128) 0) as [Hz|Hz]; cbn [app decode_uvarint_loop length].
  - rewrite byte_to_of_Z, (Z.mod_small (val mod 128) 256) by lia.
    destruct (Z.leb_spec 64 shift); [lia|]. rewrite land_7f, Z.mod_mod by done. rewrite Hu, land_80 by lia.
    destruct (Z.ltb_spec (val mod 128) 128); [|lia]. rewrite lor_add by lia.
    do 3 f_equal. nia.
  - assert (Z.lor (val mod 128) 0x80 = val mod 128 + 128) as Hlor
      by exact (lor_add (val mod 128) 1 7 ltac:(lia) Hmod).
    rewrite Hlor, byte_to_of_Z, (Z.mod_small _ 256) by lia.
    destruct (Z.leb_spec 64 shift); [lia|]. rewrite land_7f, land_80 by lia.
    destruct (Z.ltb_spec (val mod 128 + 128) 128); [lia|].
    replace ((val mod 128 + 128) mod 128) with (val mod 128)
      by (rewrite <-Z.add_mod_idemp_r by done; rewrite Z.mod_same, Z.add_0_r, Z.mod_mod by done; done).
    rewrite Hu, lor_add by lia.
    assert (0 < val / 128) by (assert (0 <= val / 128) by (apply Z.div_pos; lia); lia).
    assert (2 ^ (shift + 7) = 128 * 2 ^ shift) as Hp7 by (rewrite Z.pow_add_r by lia; change (2 ^ 7) with 128; lia).
    assert (2 ^ (7 * Z.of_nat (S n)) = 128 * 2 ^ (7 * Z.of_nat n)) as Hpn.
    { replace (7 * Z.of_nat (S n)) with (7 + 7 * Z.of_nat n) by lia. rewrite Z.pow_add_r by lia. done. }
    rewrite IH; [do 2 f_equal; rewrite ?Hp7; nia|lia|rewrite Hp7; nia| |rewrite Hp7; nia| |].
    + split; [lia|]. assert (2 ^ (shift + 7) < 2 ^ 64) as Hlt by (rewrite Hp7; nia).
      apply Z.pow_lt_mono_r_iff in Hlt; lia.
    + apply Z.div_lt_upper_bound; lia.
    + destruct n; [|lia]. exfalso. change (2 ^ (7 * Z.of_nat 1)) with 128 in Hn. rewrite Z.div_small in Hz by lia. lia.
Qed.

Lemma encode_uint_pos n val : (0 < n)%nat -> (1 <= length (encode_uint_loop n val))%nat.
Proof. destruct n; [lia|]. cbn. case_match; cbn; lia. Qed.

(** Folding a signed value: non-negative values to even, negative ones to odd numbers. *)
Definition fold_int (val : Z) : Z := if val <? 0 then -2 * val - 1 else 2 * val.

Lemma encode_int_fold val : - 2 ^ 63 <= val < 2 ^ 63 -> encode_int val = encode_uint (fold_int val).
Proof.
  intros Hv. unfold encode_int, fold_int. f_equal. rewrite Z.shiftl_mul_pow2 by done. change (2 ^ 1) with 2.
  destruct (Z.ltb_spec val 0); unfold u64, i64, to_signed, Z.lnot; change (2 ^ (64 - 1)) with (2 ^ 63).
  - destruct (decide (- 2 ^ 62 <= val)).
    + rewrite <-(Z.mod_add (val * 2) 1 (2 ^ 64)) by lia. rewrite (Z.mod_small (val * 2 + 1 * 2 ^ 64)) by lia.
      destruct (Z.ltb_spec (val * 2 + 1 * 2 ^ 64) (2 ^ 63)); [lia|]. rewrite Z.mod_small by lia. lia.
    + rewrite <-(Z.mod_add (val * 2) 1 (2 ^ 64)) by lia. rewrite (Z.mod_small (val * 2 + 1 * 2 ^ 64)) by lia.
      destruct (Z.ltb_spec (val * 2 + 1 * 2 ^ 64) (2 ^ 63)); [|lia].
      rewrite <-(Z.mod_add _ 1 (2 ^ 64)) by lia. rewrite Z.mod_small by lia. lia.
  - rewrite (Z.mod_small (val * 2)) by lia. destruct (Z.ltb_spec (val * 2) (2 ^ 63)).
    + rewrite Z.mod_small by lia. lia.
    + rewrite <-(Z.mod_add _ 1 (2 ^ 64)) by lia. rewrite Z.mod_small by lia. lia.
Qed.

Lemma land_1 v : Z.land v 1 = v mod 2.
Proof. exact (Z.land_ones v 1 ltac:(done)). Qed.

Lemma unfold_int val :
  - 2 ^ 63 <= val < 2 ^ 63 ->
  i64 (if Z.land (fold_int val) 1 =? 0 then Z.shiftr (fold_int val) 1 else u64 (Z.lnot (Z.shiftr (fold_int val) 1))) = val.
Proof.
  intros Hv. unfold fold_int. rewrite land_1, Z.shiftr_div_pow2 by done.
  change (2 ^ 1) with 2. unfold i64. destruct (Z.ltb_spec val 0).
  - replace (-2 * val - 1) with (1 + (- val - 1) * 2) by lia.
    rewrite Z.mod_add, Z.div_add by done. change (1 mod 2 =? 0) with false. change (1 / 2) with 0. cbn [Z.add].
    unfold u64, Z.lnot. rewrite <-(Z.mod_add _ 1 (2 ^ 64)) by lia. rewrite Z.mod_small by lia.
    unfold to_signed. rewrite Z.mod_small by lia.
    change (2 ^ (64 - 1)) with (2 ^ 63).
    replace (Z.pred (- (0 + (- val - 1)))) with val by lia.
    destruct (Z.ltb_spec (val + 1 * 2 ^ 64) (2 ^ 63)); lia.
  - rewrite (Z.mul_comm 2 val), Z.mod_mul, Z.div_mul by done. cbn [Z.eqb].
    apply to_signed_id; [lia|]. change (64 - 1) with 63. lia.
Qed.

(** * Properties *)

(** C28. Decoding inverts encoding for every 64-bit unsigned value, whatever bytes
    follow, reports the number of bytes the encoder returned, and that is one to ten. *)
Theorem varint_uint_roundtrip (val : Z) (rest : list byte) :
  0 <= val < 2 ^ 64 ->
  let n := length (encode_uint val) in
  decode_uvarint (encode_uint val ++ rest) = inl (val, Z.of_nat n) /\ (1 <= n <= 10)%nat.
Proof.
  intros Hv n. split; [|split; [by apply encode_uint_pos; lia|apply encode_uint_loop_length; lia]].
  unfold decode_uvarint, encode_uint. rewrite decode_encode_loop by lia. f_equal. f_equal. lia.
Qed.

Lemma varint_uint_roundtrip_witness :
  decode_uvarint (encode_uint (2 ^ 64 - 1) ++ [Byte.x07]) = inl (2 ^ 64 - 1, Z.of_nat (length (encode_uint (2 ^ 64 - 1)))) /\
  (1 <= length (encode_uint (2 ^ 64 - 1)) <= 10)%nat.
Proof. apply (varint_uint_roundtrip (2 ^ 64 - 1) [Byte.x07]). lia. Defined.

(** C29. Decoding inverts encoding for every 64-bit signed value, the minimum included. *)
Theorem varint_int_roundtrip (val : Z) (rest : list byte) :
  - 2 ^ 63 <= val < 2 ^ 63 ->
  decode_varint (encode_int val ++ rest) = inl (val, Z.of_nat (length (encode_int val))).
Proof.
  intros Hv. unfold decode_varint. rewrite encode_int_fold by done.
  unfold decode_uvarint, encode_uint. rewrite decode_encode_loop.
  - rewrite Z.add_0_l, Z.pow_0_r, Z.mul_1_r, unfold_int by done. f_equal.
  - unfold fold_int. case_match; lia.
  - unfold fold_int. rewrite Z.pow_0_r, Z.mul_1_r. destruct (Z.ltb_spec val 0); lia.
  - lia.
  - lia.
  - change (7 * Z.of_nat 10) with 70. unfold fold_int. destruct (Z.ltb_spec val 0); lia.
  - lia.
Qed.

Lemma varint_int_roundtrip_witness :
  decode_varint (encode_int (- 2 ^ 63) ++ []) = inl (- 2 ^ 63, Z.of_nat (length (encode_int (- 2 ^ 63)))).
Proof. apply (varint_int_roundtrip (- 2 ^ 63) []). lia. Defined.

(** A peer that sends ten bytes with the top bit set and one more drives
    decode_uvarint into a shift by 70, which is undefined: the decoder has no bound. *)
Theorem decode_uvarint_unbounded (bs rest : list byte) :
  length bs = 10%nat -> Forall (fun b => 128 <= byte_to_Z b) bs -> rest <> [] ->
  decode_uvarint (bs ++ rest) = inr bad_shift.
Proof.
  intros Hl Hall Hrest.
  assert (forall n bs shift acc i, Forall (fun b => 128 <= byte_to_Z b) bs -> length bs = n ->
    64 <= shift + 7 * Z.of_nat n -> decode_uvarint_loop (bs ++ rest) shift acc i = inr bad_shift) as Hgen.
  { clear bs Hl Hall. induction n as [|n IH]; intros bs shift acc i Hall Hl Hs; destruct bs as [|b bs]; try done.
    - destruct rest; [done|]. cbn [app decode_uvarint_loop]. destruct (Z.leb_spec 64 shift); [done|lia].
    - apply Forall_cons in Hall as [Hb Hall]. cbn [app decode_uvarint_loop]. destruct (64 <=? shift); [done|].
      rewrite land_80 by (split; [|apply byte_to_Z_range]; lia). destruct (Z.ltb_spec (byte_to_Z b) 128); [lia|].
      injection Hl as Hl. apply IH; [done|done|lia]. }
  by apply (Hgen 10%nat).
Qed.

Lemma decode_uvarint_unbounded_witness :
  decode_uvarint (replicate 10 Byte.xff ++ [Byte.x01]) = inr bad_shift.
Proof.
  apply decode_uvarint_unbounded; [reflexivity| |discriminate].
  apply Forall_replicate. vm_compute. discriminate.
Defined.
