(* ===== verification/RingBuffer.v ===== *)
(** The circular byte buffer of the network layer: src/network/buffer.{h,cc}.
    The methods hold [mutex_] for their whole body and do not lock it twice, so
    each of them is one atomic step. *)
From S2P Require Import Prelude.

Definition DEFAULT_BUFFER_SIZE : Z := 0xffff.

Record buffer := mk_buffer {
  buf_ : option (list byte);     (* the array, None: no valid pointer *)
  full_ : bool;
  head_ : Z;
  tail_ : Z;
  max_size_ : Z;
}.

Definition SIZE_T : Z := 2 ^ 64.
Definition size_t (z : Z) : Z := z mod SIZE_T.

(** buffer::buffer: the member initialisers and the array of [new char[max_size_]],
    whose bytes are not initialised. *)
Definition buffer_init (size : Z) (garbage : list byte) : buffer := mk_buffer (Some garbage) false 0 0 size.

(** buffer::buffer, its last statement: the memset goes to the address of the member
    [buf_], 8 bytes, not to the array.  It destroys the pointer, and writes past it for
    every size above 8. *)
Definition buffer_memset (b : buffer) : buffer + ub :=
  if max_size_ b =? 0 then inl b
  else if max_size_ b <=? 8 then inl (mk_buffer None (full_ b) (head_ b) (tail_ b) (max_size_ b))
  else inr out_of_bounds.

Definition buffer_new (size : Z) (garbage : list byte) : buffer + ub := buffer_memset (buffer_init size garbage).

Definition set_buf (l : list byte) (b : buffer) : buffer := mk_buffer (Some l) (full_ b) (head_ b) (tail_ b) (max_size_ b).
Definition set_full (f : bool) (b : buffer) : buffer := mk_buffer (buf_ b) f (head_ b) (tail_ b) (max_size_ b).
Definition set_head (h : Z) (b : buffer) : buffer := mk_buffer (buf_ b) (full_ b) h (tail_ b) (max_size_ b).
Definition set_tail (t : Z) (b : buffer) : buffer := mk_buffer (buf_ b) (full_ b) (head_ b) t (max_size_ b).

(** buffer::empty, full, capacity, size *)
Definition buffer_empty (b : buffer) : bool := negb (full_ b) && (head_ b =? tail_ b).
Definition buffer_full (b : buffer) : bool := full_ b.
Definition buffer_capacity (b : buffer) : Z := max_size_ b.
Definition buffer_size (b : buffer) : Z :=
  if full_ b then max_size_ b
  else if tail_ b <=? head_ b then size_t (head_ b - tail_ b)
  else size_t (max_size_ b - size_t (tail_ b - head_ b)).

(** x % max_size_; a remainder by zero is undefined. *)
Definition mod_size (x : Z) : M buffer Z :=
  m ← gets max_size_;
  if m =? 0 then undef out_of_bounds else mret (size_t x mod m).

(** Reading and writing [len] bytes at [off] of the array *)
Definition array : M buffer (list byte) := b ← gets buf_; of_option null_deref b.
Definition array_read (off len : Z) : M buffer (list byte) :=
  l ← array;
  if off + len <=? Z.of_nat (length l) then mret (take (Z.to_nat len) (drop (Z.to_nat off) l)) else undef out_of_bounds.
Definition array_write (off : Z) (d : list byte) : M buffer unit :=
  l ← array;
  if off + Z.of_nat (length d) <=? Z.of_nat (length l) then modify (set_buf (splice l (Z.to_nat off) d))
  else undef out_of_bounds.

(** buffer::advance_get, advance_put *)
Definition advance_get (s : Z) : M buffer unit :=
  b ← gets id; t ← mod_size (tail_ b + s); modify (set_tail t).
Definition advance_put (s : Z) : M buffer unit :=
  b ← gets id; h ← mod_size (head_ b + s); modify (set_head h).

(** buffer::put(char) *)
Definition put (c : byte) : M buffer unit :=
  b ← gets id;
  _ ← array_write (head_ b) [c];
  _ ← when (full_ b) (t ← mod_size (tail_ b + 1); modify (set_tail t));
  h ← mod_size (head_ b + 1);
  _ ← modify (set_head h);
  modify (fun b => set_full (head_ b =? tail_ b) b).

(** buffer::put(const char*, size_t); the branch for a lack of room is empty. *)
Definition put_block (s : list byte) : M buffer unit :=
  b ← gets id;
  _ ← array_write (head_ b) s;
  h ← mod_size (head_ b + Z.of_nat (length s));
  modify (set_head h).

(** buffer::get() *)
Definition get : M buffer byte :=
  b ← gets id;
  if buffer_empty b then mret Byte.x00 else
  val ← array_read (tail_ b) 1;
  _ ← modify (set_full false);
  t ← mod_size (tail_ b + 1);
  _ ← modify (set_tail t);
  of_option out_of_bounds (head val).

(** buffer::get(char*, size_t): what is stored in the destination, None when nothing is. *)
Definition get_block (len : Z) : M buffer (option (list byte)) :=
  b ← gets id;
  if buffer_size b <? len then mret None else
  _ ← modify (set_full false);
  d ← array_read (tail_ b) len;
  t ← mod_size (tail_ b + len);
  _ ← modify (set_tail t);
  mret (Some d).

(** buffer::unget *)
Definition unget (s : Z) : M buffer unit :=
  b ← gets id;
  if buffer_full b || (buffer_size b <? s) then mret tt else
  t ← mod_size (tail_ b - s);
  modify (set_tail t).

(** buffer::reset *)
Definition reset : M buffer unit :=
  modify (fun b => set_full false (set_head (tail_ b) b)).

(** * Representation *)

Record rb_ok (b : buffer) (l : list byte) : Prop := {
  rb_buf : buf_ b = Some l;
  rb_len : Z.of_nat (length l) = max_size_ b;
  rb_max : 0 < max_size_ b <= 2 ^ 62;
  rb_head : 0 <= head_ b < max_size_ b;
  rb_tail : 0 <= tail_ b < max_size_ b;
  rb_full : full_ b = true -> head_ b = tail_ b;
}.

Lemma mod_wrap x m : 0 < m -> 0 <= x < 2 * m -> x mod m = if x <? m then x else x - m.
Proof.
  intros Hm Hx. destruct (Z.ltb_spec x m); [apply Z.mod_small; lia|].
  replace x with (x - m + 1 * m) at 1 by lia. rewrite Z.mod_add, Z.mod_small by lia. done.
Qed.

(** The number of bytes stored and the bytes, oldest first. *)
Definition rb_size (b : buffer) : Z :=
  if full_ b then max_size_ b else if tail_ b <=? head_ b then head_ b - tail_ b else head_ b - tail_ b + max_size_ b.
Definition rb_at (b : buffer) (l : list byte) (i : Z) : byte :=
  default Byte.x00 (l !! Z.to_nat ((tail_ b + i) mod max_size_ b)).
Definition rb_contents (b : buffer) (l : list byte) : list byte := rb_at b l <$> seqZ 0 (rb_size b).

Section lemmas.
Context (b : buffer) (l : list byte) (OK : rb_ok b l).

Lemma buffer_size_rb : buffer_size b = rb_size b.
Proof using OK.
  destruct OK as [? ? Hm Hh Ht Hf]. unfold buffer_size, rb_size, size_t, SIZE_T. destruct (full_ b); [done|].
  destruct (Z.leb_spec (tail_ b) (head_ b)); rewrite ?Z.mod_small; rewrite ?Z.mod_small by lia; lia.
Qed.

Lemma rb_size_range : 0 <= rb_size b <= max_size_ b /\ (rb_size b = max_size_ b <-> full_ b = true).
Proof using OK.
  destruct OK as [? ? Hm Hh Ht Hf]. unfold rb_size. destruct (full_ b); [lia|].
  destruct (Z.leb_spec (tail_ b) (head_ b)); split; (lia || (split; [lia|done])).
Qed.

Lemma length_contents : Z.of_nat (length (rb_contents b l)) = rb_size b.
Proof using OK.
  unfold rb_contents. rewrite length_fmap, length_seqZ. pose proof rb_size_range. lia.
Qed.

(** The head is where byte number [size] would be. *)
Lemma head_index : (tail_ b + rb_size b) mod max_size_ b = head_ b.
Proof using OK.
  destruct OK as [? ? Hm Hh Ht Hf]. unfold rb_size. destruct (full_ b) eqn:E.
  - rewrite mod_wrap by lia. specialize (Hf eq_refl). destruct (Z.ltb_spec (tail_ b + max_size_ b) (max_size_ b)); lia.
  - destruct (Z.leb_spec (tail_ b) (head_ b)); rewrite mod_wrap by lia; case_match; lia.
Qed.

Lemma wp_mod_size x (Q : Z -> buffer -> Prop) E b' :
  max_size_ b' = max_size_ b -> 0 <= x < 2 * max_size_ b -> Q (x mod max_size_ b) b' -> wp (mod_size x) Q E b'.
Proof using OK.
  intros Hm Hx HQ. destruct OK as [? ? Hmax ? ? ?]. unfold mod_size. wp_steps. rewrite Hm.
  destruct (Z.eqb_spec (max_size_ b) 0); [lia|]. wp_steps. unfold size_t, SIZE_T.
  rewrite (Z.mod_small x) by lia. done.
Qed.
End lemmas.

(** Positions of distinct bytes are distinct. *)
Lemma wrap_inj t m i j : 0 <= t < m -> 0 <= i < m -> 0 <= j < m -> (t + i) mod m = (t + j) mod m -> i = j.
Proof. intros Ht Hi Hj. rewrite !mod_wrap by lia. repeat case_match; reflect_bool; lia. Qed.

Lemma rb_at_lookup b l i : rb_ok b l -> l !! Z.to_nat ((tail_ b + i) mod max_size_ b) = Some (rb_at b l i).
Proof.
  intros [? Hl Hm ? ? ?]. unfold rb_at.
  destruct (lookup_lt_is_Some_2 l (Z.to_nat ((tail_ b + i) mod max_size_ b))) as [x Hx]; [|by rewrite Hx].
  pose proof (Z.mod_pos_bound (tail_ b + i) (max_size_ b)). lia.
Qed.

Lemma splice_one {A} (l : list A) i x : (i < length l)%nat -> splice l i [x] = <[i := x]> l.
Proof.
  intros Hi. unfold splice. rewrite insert_take_drop by done. cbn. do 3 f_equal. lia.
Qed.

(** The buffer after the byte at its head was stored. *)
Lemma rb_at_insert b l i c :
  rb_ok b l -> 0 <= i ->
  default Byte.x00 (<[Z.to_nat (head_ b) := c]> l !! Z.to_nat ((tail_ b + i) mod max_size_ b)) =
    if decide ((tail_ b + i) mod max_size_ b = head_ b) then c else rb_at b l i.
Proof.
  intros OK Hi. pose proof (rb_at_lookup b l i OK) as Hat. destruct OK as [? Hl Hm Hh ? ?].
  pose proof (Z.mod_pos_bound (tail_ b + i) (max_size_ b)). case_decide as Hd.
  - rewrite Hd, list_lookup_insert_eq by lia. done.
  - rewrite list_lookup_insert_ne by lia. by rewrite Hat.
Qed.

Lemma contents_lookup b l i : rb_ok b l -> Z.of_nat i < rb_size b -> rb_contents b l !! i = Some (rb_at b l (Z.of_nat i)).
Proof.
  intros OK Hi. unfold rb_contents. rewrite list_lookup_fmap, lookup_seqZ_lt by lia. done.
Qed.

(** A list is the contents when it agrees byte by byte. *)
Lemma contents_eq b l (q : list byte) :
  rb_ok b l -> rb_size b = Z.of_nat (length q) ->
  (forall i x, q !! i = Some x -> rb_at b l (Z.of_nat i) = x) -> rb_contents b l = q.
Proof.
  intros OK Hs Hq. pose proof (length_contents b l OK).
  apply list_eq_same_length with (length q); [lia|lia|]. intros i x y Hi Hx Hy.
  rewrite contents_lookup in Hx by (done || lia). injection Hx as <-. by apply Hq.
Qed.

Lemma wp_array_write b l off d (Q : unit -> buffer -> Prop) E :
  rb_ok b l -> off + Z.of_nat (length d) <= max_size_ b -> Q tt (set_buf (splice l (Z.to_nat off) d) b) ->
  wp (array_write off d) Q E b.
Proof.
  intros [Hb Hl _ _ _ _] Ho HQ. unfold array_write, array. wp_steps. eapply wp_of_option; [done|].
  destruct (Z.leb_spec (off + Z.of_nat (length d)) (Z.of_nat (length l))); [by wp_steps|lia].
Qed.

Lemma wp_array_read b l off len (Q : list byte -> buffer -> Prop) E :
  buf_ b = Some l -> off + len <= Z.of_nat (length l) -> Q (take (Z.to_nat len) (drop (Z.to_nat off) l)) b ->
  wp (array_read off len) Q E b.
Proof.
  intros Hb Ho HQ. unfold array_read, array. wp_steps. eapply wp_of_option; [done|].
  destruct (Z.leb_spec (off + len) (Z.of_nat (length l))); [by wp_steps|lia].
Qed.

Section put.
Context (b : buffer) (l : list byte) (c : byte) (OK : rb_ok b l).
Let l' := <[Z.to_nat (head_ b) := c]> l.
Let m := max_size_ b.

(** The state after put(char) *)
Definition put_state : buffer :=
  let t := if full_ b then (tail_ b + 1) mod max_size_ b else tail_ b in
  let h := (head_ b + 1) mod max_size_ b in
  mk_buffer (Some (<[Z.to_nat (head_ b) := c]> l)) (h =? t) h t (max_size_ b).

Lemma put_state_ok : rb_ok put_state l'.
Proof using OK.
  destruct OK as [Hbuf Hl Hm Hh Ht Hf]. unfold put_state, l'. split; cbn; try done.
  - by rewrite length_insert.
  - rewrite mod_wrap by lia. case_match; reflect_bool; lia.
  - destruct (full_ b); [|done]. rewrite mod_wrap by lia. case_match; reflect_bool; lia.
  - intros ?%Z.eqb_eq. done.
Qed.

Lemma put_state_size : rb_size put_state = if full_ b then max_size_ b else rb_size b + 1.
Proof using OK.
  destruct OK as [Hbuf Hl Hm Hh Ht Hf]. unfold rb_size, put_state. cbn. destruct (full_ b).
  - rewrite (Hf eq_refl), Z.eqb_refl. done.
  - rewrite !mod_wrap by lia. repeat case_match; reflect_bool; lia.
Qed.

Lemma put_state_contents :
  rb_contents put_state l' = (if full_ b then tail (rb_contents b l) else rb_contents b l) ++ [c].
Proof using OK.
  pose proof (rb_size_range b l OK) as [Hsz Hfull]. pose proof (head_index b l OK) as Hhi.
  pose proof (length_contents b l OK) as Hlen. pose proof put_state_size as Hps.
  destruct (OK) as [Hbuf Hl Hm Hh Ht Hf].
  apply contents_eq; [apply put_state_ok|rewrite Hps|]; rewrite ?length_app.
  - destruct (full_ b); [|cbn; lia]. rewrite length_tl. cbn. destruct Hfull as [_ Hfull]. specialize (Hfull eq_refl). lia.
  - intros i x Hx. unfold rb_at, put_state, l'. cbn. destruct (full_ b) eqn:Hb.
    + assert (((tail_ b + 1) mod max_size_ b + Z.of_nat i) mod max_size_ b = (tail_ b + Z.of_nat (S i)) mod max_size_ b) as ->.
      { rewrite Zplus_mod_idemp_l. f_equal. lia. }
      rewrite (rb_at_insert b l) by (done || lia). specialize (Hf eq_refl). destruct Hfull as [_ Hfull]. specialize (Hfull eq_refl).
      apply lookup_app_Some in Hx as [Hx|[Hi Hx]].
      * rewrite lookup_tail in Hx. apply lookup_lt_Some in Hx as Hlt.
        rewrite contents_lookup in Hx by (done || lia). rewrite decide_False; [congruence|].
        rewrite mod_wrap by lia. case_match; reflect_bool; lia.
      * rewrite length_tl in Hi, Hx. apply list_lookup_singleton_Some in Hx as [Hi' <-].
        rewrite decide_True; [done|]. rewrite mod_wrap by lia. case_match; reflect_bool; lia.
    + rewrite (rb_at_insert b l) by (done || lia).
      assert (rb_size b < max_size_ b) as Hlt by (destruct Hfull as [Hfull _]; destruct (decide (rb_size b = max_size_ b)); [by apply Hfull in e|lia]).
      apply lookup_app_Some in Hx as [Hx|[Hi Hx]].
      * apply lookup_lt_Some in Hx as Hi. rewrite contents_lookup in Hx by (done || lia).
        rewrite decide_False; [congruence|]. rewrite <-Hhi. intros Heq. apply wrap_inj in Heq; lia.
      * apply list_lookup_singleton_Some in Hx as [Hi' <-]. rewrite decide_True; [done|].
        rewrite <-Hhi. f_equal. lia.
Qed.

Lemma wp_put (Q : unit -> buffer -> Prop) E : Q tt put_state -> wp (put c) Q E b.
Proof using OK.
  intros HQ. destruct (OK) as [Hbuf Hl Hm Hh Ht Hf]. unfold put. wp_steps. cbn [id].
  eapply wp_array_write; [done|cbn; lia|]. rewrite splice_one by lia. wp_steps. unfold put_state in HQ.
  apply wp_when; intros Hfl; rewrite Hfl in HQ; wp_steps.
  - eapply (wp_mod_size b l OK); [done|lia|]. wp_steps. eapply (wp_mod_size b l OK); [done|lia|]. by wp_steps.
  - eapply (wp_mod_size b l OK); [done|lia|]. by wp_steps.
Qed.
End put.

(** ** Taking bytes out *)

Definition advanced (n : Z) (b : buffer) : buffer :=
  mk_buffer (buf_ b) false (head_ b) ((tail_ b + n) mod max_size_ b) (max_size_ b).

Lemma advanced_spec b l n :
  rb_ok b l -> 0 < n <= rb_size b \/ (n = 0 /\ full_ b = false) ->
  rb_ok (advanced n b) l /\ rb_contents (advanced n b) l = drop (Z.to_nat n) (rb_contents b l).
Proof.
  intros OK Hn. pose proof (rb_size_range b l OK) as [Hsz Hfull]. pose proof (length_contents b l OK) as Hlen.
  destruct (OK) as [Hbuf Hl Hm Hh Ht Hf].
  assert (0 <= n <= rb_size b) as Hn' by lia.
  assert (rb_ok (advanced n b) l) as OK'.
  { unfold advanced. split; cbn; try done. apply Z.mod_pos_bound. lia. }
  split; [done|]. apply contents_eq; [done|rewrite length_drop|].
  - rewrite Nat2Z.inj_sub, Z2Nat.id by lia. rewrite Hlen. unfold rb_size, advanced in *. cbn.
    rewrite mod_wrap by lia. destruct (full_ b); repeat case_match; reflect_bool; try specialize (Hf eq_refl); lia.
  - intros i x. rewrite lookup_drop. intros Hx. apply lookup_lt_Some in Hx as Hi.
    rewrite contents_lookup in Hx by (done || lia). injection Hx as <-. unfold rb_at, advanced. cbn.
    rewrite Zplus_mod_idemp_l. do 4 f_equal. lia.
Qed.

(** Without wrap-around the bytes are contiguous. *)
Lemma take_contents b l n :
  rb_ok b l -> 0 <= n <= rb_size b -> tail_ b + n <= max_size_ b ->
  take (Z.to_nat n) (drop (Z.to_nat (tail_ b)) l) = take (Z.to_nat n) (rb_contents b l).
Proof.
  intros OK Hn Hw. pose proof (length_contents b l OK) as Hlen. destruct (OK) as [Hbuf Hl Hm Hh Ht Hf].
  apply list_eq_same_length with (Z.to_nat n).
  - rewrite length_take, ?length_drop. lia.
  - rewrite length_take, ?length_drop. lia.
  - intros i x y Hi Hx Hy. rewrite lookup_take_lt in Hx, Hy by done.
    rewrite contents_lookup in Hy by (done || lia). injection Hy as <-. rewrite lookup_drop in Hx.
    unfold rb_at. rewrite Z.mod_small by lia.
    replace (Z.to_nat (tail_ b + Z.of_nat i)) with (Z.to_nat (tail_ b) + i)%nat by lia. by rewrite Hx.
Qed.

Lemma rb_size_empty b l : rb_ok b l -> buffer_empty b = (rb_size b =? 0).
Proof.
  intros [Hbuf Hl Hm Hh Ht Hf]. unfold buffer_empty, rb_size. destruct (full_ b); cbn.
  - destruct (Z.eqb_spec (max_size_ b) 0); [lia|done].
  - destruct (Z.eqb_spec (head_ b) (tail_ b)), (Z.leb_spec (tail_ b) (head_ b)); symmetry;
      (apply Z.eqb_eq; lia) || (apply Z.eqb_neq; lia).
Qed.

Lemma wp_get b l (Q : byte -> buffer -> Prop) E :
  rb_ok b l ->
  (rb_contents b l = [] -> Q Byte.x00 b) ->
  (forall c q b', rb_contents b l = c :: q -> rb_ok b' l -> rb_contents b' l = q -> max_size_ b' = max_size_ b -> Q c b') ->
  wp get Q E b.
Proof.
  intros OK HQ0 HQ. pose proof (rb_size_range b l OK) as [Hsz Hfull]. pose proof (length_contents b l OK) as Hlen.
  destruct (OK) as [Hbuf Hl Hm Hh Ht Hf]. unfold get. wp_steps. cbn [id]. rewrite (rb_size_empty b l OK).
  destruct (Z.eqb_spec (rb_size b) 0) as [Hz|Hz].
  - wp_steps. apply HQ0. destruct (rb_contents b l); [done|]. cbn in Hlen. lia.
  - wp_steps. eapply wp_array_read; [done|lia|]. rewrite (take_contents b l 1) by (done || lia).
    wp_steps. eapply (wp_mod_size b l OK); [done|lia|]. wp_steps.
    destruct (rb_contents b l) as [|c q] eqn:Hc; [cbn in Hlen; lia|]. cbn. eapply wp_of_option; [done|].
    destruct (advanced_spec b l 1 OK) as [OK' Hc']; [lia|]. rewrite Hc in Hc'. by apply (HQ c q (advanced 1 b)).
Qed.

Lemma wp_reset b l (Q : unit -> buffer -> Prop) E :
  rb_ok b l ->
  (forall b', rb_ok b' l -> rb_contents b' l = [] -> max_size_ b' = max_size_ b -> Q tt b') -> wp reset Q E b.
Proof.
  intros [Hbuf Hl Hm Hh Ht Hf] HQ. unfold reset. wp_steps. apply HQ; [by split| |done].
  unfold rb_contents, rb_size. cbn. rewrite Z.leb_refl, Z.sub_diag. done.
Qed.

Lemma wp_get_block b l len (Q : option (list byte) -> buffer -> Prop) E :
  rb_ok b l ->
  (rb_size b < len -> Q None b) ->
  (0 < len <= rb_size b -> tail_ b + len <= max_size_ b ->
     forall b', rb_ok b' l -> rb_contents b' l = drop (Z.to_nat len) (rb_contents b l) ->
       Q (Some (take (Z.to_nat len) (rb_contents b l))) b') ->
  0 < len -> tail_ b + len <= max_size_ b \/ rb_size b < len ->
  wp (get_block len) Q E b.
Proof.
  intros OK HQ0 HQ Hlen Hw. destruct (OK) as [Hbuf Hl Hm Hh Ht Hf]. pose proof (rb_size_range b l OK) as [Hsz _].
  unfold get_block. wp_steps. cbn [id]. rewrite (buffer_size_rb b l OK).
  destruct (Z.ltb_spec (rb_size b) len); [by wp_steps; apply HQ0|]. wp_steps.
  eapply wp_array_read; [done|lia|]. rewrite (take_contents b l len) by (done || lia).
  wp_steps. eapply (wp_mod_size b l OK); [done|lia|]. wp_steps.
  destruct (advanced_spec b l len OK) as [OK' Hc']; [lia|]. apply (HQ ltac:(lia) ltac:(lia) (advanced len b)); done.
Qed.

(** ** A block put *)

Definition block_state (b : buffer) (l s : list byte) : buffer :=
  mk_buffer (Some (splice l (Z.to_nat (head_ b)) s)) (full_ b)
    ((head_ b + Z.of_nat (length s)) mod max_size_ b) (tail_ b) (max_size_ b).

Lemma wp_put_block b l s (Q : unit -> buffer -> Prop) E :
  rb_ok b l -> head_ b + Z.of_nat (length s) <= max_size_ b -> Q tt (block_state b l s) -> wp (put_block s) Q E b.
Proof.
  intros OK Hs HQ. destruct (OK) as [Hbuf Hl Hm Hh Ht Hf]. unfold put_block. wp_steps. cbn [id].
  eapply wp_array_write; [done|done|]. wp_steps. eapply (wp_mod_size b l OK); [done|lia|]. by wp_steps.
Qed.

Lemma splice_lookup {A} (l d : list A) off i :
  (off + length d <= length l)%nat ->
  splice l off d !! i = if decide (off <= i < off + length d)%nat then d !! (i - off)%nat else l !! i.
Proof.
  intros Hl. unfold splice. destruct (decide (i < off)%nat).
  - rewrite decide_False by lia. rewrite lookup_app_l by (rewrite length_take; lia). by rewrite lookup_take_lt.
  - rewrite lookup_app_r by (rewrite length_take; lia). rewrite length_take, Nat.min_l by lia. case_decide.
    + by rewrite lookup_app_l by lia.
    + rewrite lookup_app_r by lia. rewrite lookup_drop. f_equal. lia.
Qed.

Lemma block_state_spec b l s :
  rb_ok b l -> full_ b = false -> head_ b + Z.of_nat (length s) <= max_size_ b ->
  rb_size b + Z.of_nat (length s) < max_size_ b ->
  let l' := splice l (Z.to_nat (head_ b)) s in
  rb_ok (block_state b l s) l' /\ rb_contents (block_state b l s) l' = rb_contents b l ++ s.
Proof.
  intros OK Hfl Hs Hroom l'. pose proof (rb_size_range b l OK) as [Hsz _]. pose proof (length_contents b l OK) as Hlen.
  pose proof (head_index b l OK) as Hhi. destruct (OK) as [Hbuf Hl Hm Hh Ht Hf].
  assert (rb_ok (block_state b l s) l') as OK'.
  { unfold block_state, l'. split; cbn; try done; [by rewrite length_splice by lia|apply Z.mod_pos_bound; lia|by rewrite Hfl]. }
  split; [done|]. apply contents_eq; [done|rewrite length_app, Nat2Z.inj_add, Hlen|].
  - unfold rb_size, block_state in *. cbn. rewrite Hfl in *. rewrite mod_wrap by lia.
    repeat case_match; reflect_bool; lia.
  - intros i x Hx. apply lookup_lt_Some in Hx as Hi. rewrite length_app in Hi.
    unfold rb_at, block_state, l'. cbn. pose proof (Z.mod_pos_bound (tail_ b + Z.of_nat i) (max_size_ b)) as Hb.
    rewrite splice_lookup by lia. apply lookup_app_Some in Hx as [Hx|[Hi' Hx]].
    + apply lookup_lt_Some in Hx as Hlt. rewrite contents_lookup in Hx by (done || lia). injection Hx as <-.
      rewrite decide_False; [done|]. rewrite mod_wrap in * by lia.
      repeat case_match; reflect_bool; lia.
    + assert ((tail_ b + Z.of_nat i) mod max_size_ b = head_ b + (Z.of_nat i - rb_size b)) as ->.
      { rewrite mod_wrap in * by lia. repeat case_match; reflect_bool; lia. }
      rewrite decide_True by lia. replace (Z.to_nat _ - _)%nat with (i - length (rb_contents b l))%nat by lia.
      by rewrite Hx.
Qed.

(** * Histories *)

Inductive rb_op := RPut (c : byte) | RGet | RReset.

Definition run_rb (o : rb_op) : M buffer (option byte) :=
  match o with
  | RPut c => _ ← put c; mret None
  | RGet => c ← get; mret (Some c)
  | RReset => _ ← reset; mret None
  end.

Fixpoint run_rbs (os : list rb_op) : M buffer (list (option byte)) :=
  match os with
  | [] => mret []
  | o :: os => r ← run_rb o; rs ← run_rbs os; mret (r :: rs)
  end.

(** The bounded queue that drops its oldest byte when it is full. *)
Definition queue_op (cap : nat) (o : rb_op) (q : list byte) : option byte * list byte :=
  match o with
  | RPut c => (None, (if decide (length q = cap) then tail q else q) ++ [c])
  | RGet => (Some (default Byte.x00 (head q)), tail q)
  | RReset => (None, [])
  end.

Fixpoint queue_ops (cap : nat) (os : list rb_op) (q : list byte) : list (option byte) * list byte :=
  match os with
  | [] => ([], q)
  | o :: os => let '(r, q1) := queue_op cap o q in let '(rs, q2) := queue_ops cap os q1 in (r :: rs, q2)
  end.

Lemma run_rb_spec o b l (Q : option byte -> buffer -> Prop) E :
  rb_ok b l ->
  (forall b' l', rb_ok b' l' -> max_size_ b' = max_size_ b ->
     rb_contents b' l' = (queue_op (Z.to_nat (max_size_ b)) o (rb_contents b l)).2 ->
     Q (queue_op (Z.to_nat (max_size_ b)) o (rb_contents b l)).1 b') ->
  wp (run_rb o) Q E b.
Proof.
  intros OK HQ. pose proof (length_contents b l OK) as Hlen. destruct (rb_size_range b l OK) as [Hsz Hfull].
  destruct o; cbn in *; wp_steps.
  - apply (wp_put b l c OK). wp_steps. apply (HQ _ _ (put_state_ok b l c OK)); [done|].
    rewrite (put_state_contents b l c OK). f_equal. destruct (full_ b).
    + rewrite decide_True; [done|]. destruct Hfull as [_ Hf]. specialize (Hf eq_refl). lia.
    + rewrite decide_False; [done|]. intros Hc. destruct Hfull as [Hf _]. discriminate Hf. lia.
  - apply (wp_get b l); [done|..].
    + intros Hc. wp_steps. rewrite Hc in HQ. by apply (HQ b l).
    + intros c q b' Hc OK' Hc' Hm. wp_steps. rewrite Hc in HQ. by apply (HQ b' l).
  - apply (wp_reset b l); [done|]. intros b' OK' Hc Hm. wp_steps. by apply (HQ b' l).
Qed.

Lemma ring_queue_history (os : list rb_op) (b : buffer) (l : list byte) :
  rb_ok b l ->
  exists b' l', run_rbs os b = Ret (queue_ops (Z.to_nat (max_size_ b)) os (rb_contents b l)).1 b' /\
    rb_ok b' l' /\ rb_contents b' l' = (queue_ops (Z.to_nat (max_size_ b)) os (rb_contents b l)).2 /\
    buffer_size b' = Z.of_nat (length (rb_contents b' l')).
Proof.
  revert b l. induction os as [|o os IH]; intros b l OK.
  { exists b, l. split_and!; [done..|]. by rewrite (buffer_size_rb b l OK), (length_contents b l OK). }
  assert (wp (run_rb o) (fun r b' => r = (queue_op (Z.to_nat (max_size_ b)) o (rb_contents b l)).1 /\ exists l',
    rb_ok b' l' /\ max_size_ b' = max_size_ b /\
    rb_contents b' l' = (queue_op (Z.to_nat (max_size_ b)) o (rb_contents b l)).2) (fun _ _ => False) b) as Ho.
  { eapply run_rb_spec; [done|]. intros b' l' OK' Hm Hc. split; [done|]. by exists l'. }
  apply wp_no_exn in Ho as (r & b1 & Hrun & -> & l1 & OK1 & Hm1 & Hc1).
  destruct (IH b1 l1 OK1) as (b2 & l2 & Hrun2 & OK2 & Hc2 & Hs2). rewrite Hm1, Hc1 in Hrun2, Hc2.
  cbn [run_rbs queue_ops]. destruct (queue_op (Z.to_nat (max_size_ b)) o (rb_contents b l)) as [r q1]. cbn in *.
  destruct (queue_ops (Z.to_nat (max_size_ b)) os q1) as [rs q2]. cbn in *.
  exists b2, l2. split_and!; try done. unfold mbind, M_bind. by rewrite Hrun, Hrun2.
Qed.

Lemma buffer_init_ok size garbage : 0 < size <= 2 ^ 62 -> Z.of_nat (length garbage) = size ->
  rb_ok (buffer_init size garbage) garbage /\ rb_contents (buffer_init size garbage) garbage = [].
Proof. intros Hs Hl. split; [split; cbn; (done || lia)|done]. Qed.

(** C4. The ring algorithms, on the array that [new char[max_size_]] returned: from the
    members the constructor initialises, any history of single-byte put, get and reset
    behaves like a bounded queue that overwrites its oldest byte when full, get of an
    empty buffer returns 0, and size() is the length of the queue.  The constructor then
    runs memset(&buf_, 0, max_size_) over those members: for a size above 8 that is
    undefined, and up to 8 it leaves a null pointer, so that every put is. *)
Theorem ring_buffer_queue (os : list rb_op) (size : Z) (garbage : list byte) :
  0 < size <= 2 ^ 62 -> Z.of_nat (length garbage) = size ->
  (exists b' l', run_rbs os (buffer_init size garbage) = Ret (queue_ops (Z.to_nat size) os []).1 b' /\
    rb_ok b' l' /\ rb_contents b' l' = (queue_ops (Z.to_nat size) os []).2 /\
    buffer_size b' = Z.of_nat (length (rb_contents b' l'))) /\
  match buffer_new size garbage with
  | inl b => size <= 8 /\ forall c, put c b = Undef null_deref
  | inr u => 8 < size /\ u = out_of_bounds
  end.
Proof.
  intros Hs Hl. split.
  - destruct (buffer_init_ok size garbage Hs Hl) as [OK Hc].
    destruct (ring_queue_history os _ _ OK) as (b' & l' & H). rewrite Hc in H. by exists b', l'.
  - unfold buffer_new, buffer_memset. cbn. rewrite (proj2 (Z.eqb_neq _ _)) by lia. by destruct (Z.leb_spec size 8).
Qed.

Definition small_ring (n : nat) : buffer := buffer_init (Z.of_nat n) (replicate n Byte.x00).

Lemma ring_buffer_queue_witness :
  (exists b' l', run_rbs [RPut Byte.x01; RPut Byte.x02; RPut Byte.x03; RGet] (small_ring 2) =
      Ret [None; None; None; Some Byte.x02] b' /\ rb_ok b' l' /\ rb_contents b' l' = [Byte.x03] /\
      buffer_size b' = Z.of_nat (length (rb_contents b' l'))) /\
  2 <= 8 /\ forall c, put c (mk_buffer None false 0 0 2) = Undef null_deref.
Proof.
  apply (ring_buffer_queue [RPut Byte.x01; RPut Byte.x02; RPut Byte.x03; RGet] 2 (replicate 2 Byte.x00)).
  - lia.
  - reflexivity.
Defined.

(** The block operations.  A block that fits behind the head without wrapping and
    leaves at least one byte free is appended; a block no longer than the contents that
    does not wrap is taken from the front, and a request for more than is there changes
    nothing. *)
Theorem block_put_get (b : buffer) (l s : list byte) (len : Z) :
  rb_ok b l -> full_ b = false ->
  head_ b + Z.of_nat (length s) <= max_size_ b -> rb_size b + Z.of_nat (length s) < max_size_ b ->
  0 < len -> tail_ b + len <= max_size_ b \/ rb_size b < len ->
  (exists b' l', put_block s b = Ret tt b' /\ rb_ok b' l' /\ rb_contents b' l' = rb_contents b l ++ s) /\
  (exists b', get_block len b =
     Ret (if rb_size b <? len then None else Some (take (Z.to_nat len) (rb_contents b l))) b' /\ rb_ok b' l /\
     rb_contents b' l = if rb_size b <? len then rb_contents b l else drop (Z.to_nat len) (rb_contents b l)).
Proof.
  intros OK Hfl Hh Hs Hlen Hw. split.
  - destruct (block_state_spec b l s OK Hfl Hh Hs) as [OK' Hc'].
    assert (wp (put_block s) (fun _ b' => b' = block_state b l s) (fun _ _ => False) b) as Hp by (by apply (wp_put_block b l)).
    apply wp_no_exn in Hp as ([] & b' & Hrun & ->). eexists _, _. split; [exact Hrun|]. done.
  - assert (wp (get_block len) (fun r b' => r = (if rb_size b <? len then None else Some (take (Z.to_nat len) (rb_contents b l))) /\
      rb_ok b' l /\ rb_contents b' l = if rb_size b <? len then rb_contents b l else drop (Z.to_nat len) (rb_contents b l))
      (fun _ _ => False) b) as Hg.
    { apply (wp_get_block b l); try done; destruct (Z.ltb_spec (rb_size b) len); try lia; done. }
    apply wp_no_exn in Hg as (r & b' & Hrun & -> & OK' & Hc). by exists b'.
Qed.

Lemma block_put_get_witness :
  (exists b' l', put_block [Byte.x01] (small_ring 4) = Ret tt b' /\ rb_ok b' l' /\ rb_contents b' l' = [] ++ [Byte.x01]) /\
  (exists b', get_block 1 (small_ring 4) = Ret None b' /\ rb_ok b' (replicate 4 Byte.x00) /\ rb_contents b' (replicate 4 Byte.x00) = []).
Proof.
  apply (block_put_get (small_ring 4) (replicate 4 Byte.x00) [Byte.x01] 1); try reflexivity; try (vm_compute; (discriminate || reflexivity)).
  - split; cbn; (done || lia).
  - left. vm_compute. discriminate.
Defined.

(** A block put that fills the buffer exactly, within all bounds, makes it look
    empty: put(const char*, size_t) never sets full_, so every stored byte is lost. *)
Theorem block_put_exact_fill_loses_all (b : buffer) (l s : list byte) :
  rb_ok b l -> full_ b = false -> (0 < length s)%nat ->
  head_ b + Z.of_nat (length s) <= max_size_ b -> rb_size b + Z.of_nat (length s) = max_size_ b ->
  exists b' , put_block s b = Ret tt b' /\ buffer_empty b' = true /\ buffer_size b' = 0.
Proof.
  intros OK Hfl Hs Hh Hfit.
  assert (wp (put_block s) (fun _ b' => b' = block_state b l s) (fun _ _ => False) b) as Hp by (by apply (wp_put_block b l)).
  apply wp_no_exn in Hp as ([] & b' & Hrun & ->). exists (block_state b l s). split; [done|].
  destruct OK as [Hbuf Hl Hm Hh' Ht Hf].
  assert ((head_ b + Z.of_nat (length s)) mod max_size_ b = tail_ b) as Hht.
  { unfold rb_size in Hfit. rewrite Hfl in Hfit. rewrite mod_wrap by lia. repeat case_match; reflect_bool; lia. }
  unfold buffer_empty, buffer_size, block_state. cbn. rewrite Hfl, Hht. cbn. rewrite Z.eqb_refl, Z.leb_refl, Z.sub_diag. done.
Qed.

Lemma block_put_exact_fill_loses_all_witness :
  exists b', put_block [Byte.x01; Byte.x02] (small_ring 2) = Ret tt b' /\ buffer_empty b' = true /\ buffer_size b' = 0.
Proof.
  apply (block_put_exact_fill_loses_all (small_ring 2) (replicate 2 Byte.x00) [Byte.x01; Byte.x02]).
  - split; cbn; (done || lia).
  - reflexivity.
  - cbn. lia.
  - vm_compute. discriminate.
  - vm_compute. reflexivity.
Defined.

(** unget across the start of the array computes tail_ - s in size_t: for the
    default size 0xffff, which does not divide 2^64, the tail lands one byte too far,
    so unget after a get that wrapped does not restore the byte. *)
Theorem unget_wraps_off_by_one (b : buffer) (s : Z) :
  max_size_ b = DEFAULT_BUFFER_SIZE -> full_ b = false -> 0 <= tail_ b < s -> s <= buffer_size b -> s <= SIZE_T ->
  unget s b = Ret tt (set_tail ((tail_ b - s + 1) mod DEFAULT_BUFFER_SIZE) b).
Proof.
  intros Hm Hf Ht Hs Hmax. unfold unget, mod_size, gets, mbind, M_bind, buffer_full. cbn. rewrite Hf. cbn.
  destruct (Z.ltb_spec (buffer_size b) s); [lia|]. rewrite Hm. cbn -[size_t DEFAULT_BUFFER_SIZE Z.modulo].
  do 2 f_equal. unfold size_t. rewrite <-(Z.mod_add (tail_ b - s) 1 SIZE_T) by done.
  rewrite (Z.mod_small (tail_ b - s + 1 * SIZE_T)) by lia.
  rewrite Zplus_mod, (Zplus_mod (tail_ b - s) 1). done.
Qed.

Lemma unget_wraps_off_by_one_witness :
  let b := mk_buffer (Some []) false 100 0 DEFAULT_BUFFER_SIZE in
  unget 1 b = Ret tt b.
Proof.
  apply (unget_wraps_off_by_one (mk_buffer (Some []) false 100 0 DEFAULT_BUFFER_SIZE) 1).
  - reflexivity.
  - reflexivity.
  - cbn. lia.
  - vm_compute. discriminate.
  - vm_compute. discriminate.
Defined.

(** No constructed buffer is usable: memset(&buf_, 0, max_size_) writes over the
    pointer instead of the array, past it for the default size. *)
Theorem constructor_destroys_pointer garbage :
  buffer_new DEFAULT_BUFFER_SIZE garbage = inr out_of_bounds /\
  forall size b l, buffer_new size garbage = inl b -> ~ rb_ok b l.
Proof.
  split; [reflexivity|]. intros size b l Hn [Hb Hl Hm _ _ _]. unfold buffer_new, buffer_memset in Hn. cbn in Hn.
  destruct (Z.eqb_spec size 0); [simplify_eq; cbn in *; lia|]. destruct (size <=? 8); simplify_eq.
Qed.
