(* ===== verification/Raft.v ===== *)
(** The Raft server: src/consensus/raft/raft_server.{h,cc} with the messages of
    rpc_args.h and the log entries of log.h.  One server object, its handlers run
    under [mutex_]; what it sends and the timers it sets are recorded in order. *)
From S2P Require Import Prelude.

(** * Data *)

Record log := mk_log { index : Z; term : Z }.                    (* uint64_t each *)

Record request_vote_args := mk_request_vote_args {
  rv_term : Z; rv_candidate_id : Z; rv_last_log_index : Z; rv_last_log_term : Z }.
Record request_vote_reply := mk_request_vote_reply { rvr_term : Z; rvr_vote_granted : bool }.
Record append_entries_args := mk_append_entries_args {
  ae_term : Z; ae_leader_id : Z; ae_prev_log_index : Z; ae_prev_log_term : Z; ae_leader_commit : Z;
  ae_log_entries : list log }.
Record append_entries_reply := mk_append_entries_reply { aer_term : Z; aer_success : bool }.

Definition TIMEOUT_TOP : Z := 300.
Definition HEARTBEAT_INTERVAL : Z := 30.

Inductive role := follower | candidate | leader.
#[global] Instance role_eq_dec : EqDecision role.
Proof. solve_decision. Defined.

(** What a timer runs when it fires. *)
Inductive callback :=
| cb_send_request_vote                            (* reschedule_election *)
| cb_election_retry (rpcids : list Z)             (* send_request_vote_args *)
| cb_heartbeat                                    (* convert_to(leader) *)
| cb_cancel_rpcs (rpcids : list Z).               (* send_append_entries_args *)

(** The calls the server makes on its peers and on the dispatcher, in order. *)
Inductive action :=
| act_cancel (timer : Z)
| act_run_after (timer delay : Z) (cb : callback)
| act_run_every (timer delay interval : Z) (cb : callback)
| act_call_vote (peer rpc : Z) (args : request_vote_args)
| act_call_append (peer rpc : Z) (args : append_entries_args).

Record raft_server := mk_raft_server {
  mutex_ : bool;                 (* held by the running thread *)
  timer_id_ : Z; election_timer_id_ : Z; heartbeat_timer_id_ : Z;
  id_ : Z; role_ : role; votes_ : Z;
  current_term_ : Z; voted_for_ : Z; log_entries_ : list log;
  commit_index_ : Z; last_applied_ : Z;
  next_index_ : list Z; match_index_ : list Z; peers_ : list Z;
  rs_ids : Z;                    (* next id handed out by the dispatcher or a peer *)
  rs_random : nat -> Z;          (* values get_election_timeout will draw *)
  rs_out : list action;          (* newest first *)
}.

Abbreviation R := (M raft_server).

Definition u64 (z : Z) : Z := z mod 2 ^ 64.
Definition int32 (z : Z) : Z := to_signed 32 z.
Definition uint32 (z : Z) : Z := z mod 2 ^ 32.

(** Field updates *)
Definition with_mutex b (s : raft_server) := mk_raft_server b (timer_id_ s) (election_timer_id_ s) (heartbeat_timer_id_ s) (id_ s) (role_ s) (votes_ s) (current_term_ s) (voted_for_ s) (log_entries_ s) (commit_index_ s) (last_applied_ s) (next_index_ s) (match_index_ s) (peers_ s) (rs_ids s) (rs_random s) (rs_out s).
Definition with_timers t e h (s : raft_server) := mk_raft_server (mutex_ s) t e h (id_ s) (role_ s) (votes_ s) (current_term_ s) (voted_for_ s) (log_entries_ s) (commit_index_ s) (last_applied_ s) (next_index_ s) (match_index_ s) (peers_ s) (rs_ids s) (rs_random s) (rs_out s).
Definition with_vote r v t f (s : raft_server) := mk_raft_server (mutex_ s) (timer_id_ s) (election_timer_id_ s) (heartbeat_timer_id_ s) (id_ s) r v t f (log_entries_ s) (commit_index_ s) (last_applied_ s) (next_index_ s) (match_index_ s) (peers_ s) (rs_ids s) (rs_random s) (rs_out s).
Definition with_log l c a (s : raft_server) := mk_raft_server (mutex_ s) (timer_id_ s) (election_timer_id_ s) (heartbeat_timer_id_ s) (id_ s) (role_ s) (votes_ s) (current_term_ s) (voted_for_ s) l c a (next_index_ s) (match_index_ s) (peers_ s) (rs_ids s) (rs_random s) (rs_out s).
Definition with_peers n m p (s : raft_server) := mk_raft_server (mutex_ s) (timer_id_ s) (election_timer_id_ s) (heartbeat_timer_id_ s) (id_ s) (role_ s) (votes_ s) (current_term_ s) (voted_for_ s) (log_entries_ s) (commit_index_ s) (last_applied_ s) n m p (rs_ids s) (rs_random s) (rs_out s).
Definition with_env i r o (s : raft_server) := mk_raft_server (mutex_ s) (timer_id_ s) (election_timer_id_ s) (heartbeat_timer_id_ s) (id_ s) (role_ s) (votes_ s) (current_term_ s) (voted_for_ s) (log_entries_ s) (commit_index_ s) (last_applied_ s) (next_index_ s) (match_index_ s) (peers_ s) i r o.

Definition set_role (r : role) : R unit := modify (fun s => with_vote r (votes_ s) (current_term_ s) (voted_for_ s) s).
Definition set_voted_for (v : Z) : R unit := modify (fun s => with_vote (role_ s) (votes_ s) (current_term_ s) v s).

(** std::mutex: locking it again in the thread that holds it never returns. *)
Definition lock : R unit :=
  l ← gets mutex_; if (l : bool) then blocked else modify (with_mutex true).
(** A block under std::lock_guard, released on every way out. *)
Definition releasing {A} (m : R A) : R A := fun s =>
  match m s with
  | Ret a s' => Ret a (with_mutex false s')
  | Exc e s' => Exc e (with_mutex false s')
  | Undef r => Undef r
  | Blocked => Blocked
  end.
Definition locked {A} (m : R A) : R A := _ ← lock; releasing m.

Definition emit (a : action) : R unit := modify (fun s => with_env (rs_ids s) (rs_random s) (a :: rs_out s) s).
Definition fresh_id : R Z :=
  i ← gets rs_ids; _ ← modify (fun s => with_env (i + 1) (rs_random s) (rs_out s) s); mret i.

(** raft_server::get_election_timeout *)
Definition get_election_timeout : R Z :=
  f ← gets rs_random;
  _ ← modify (fun s => with_env (rs_ids s) (fun n => f (S n)) (rs_out s) s);
  mret (f O).

Definition run_after (delay : Z) (cb : callback) : R Z :=
  i ← fresh_id; _ ← emit (act_run_after i delay cb); mret i.
Definition run_every (delay interval : Z) (cb : callback) : R Z :=
  i ← fresh_id; _ ← emit (act_run_every i delay interval cb); mret i.

(** v[i]: an index out of range is undefined; a negative int becomes a huge size_t. *)
Definition at_ {A} (l : list A) (i : Z) : R A :=
  if i <? 0 then undef out_of_bounds else of_option out_of_bounds (l !! Z.to_nat i).

(** log_entries_.back() *)
Definition back : R log := l ← gets log_entries_; of_option out_of_bounds (last l).

(** raft_server::raft_server; role_, votes_ and the timer ids are not initialised.
    Registering the handlers and starting the rpc server is the network layer. *)
Definition raft_server_new (id : Z) (garbage : raft_server) : raft_server :=
  mk_raft_server false (timer_id_ garbage) (election_timer_id_ garbage) (heartbeat_timer_id_ garbage)
    id (role_ garbage) (votes_ garbage) 0 (-1) [] 0 0 [] [] [] 0 (rs_random garbage) [].

(** raft_server::majority *)
Definition majority : R Z := locked (p ← gets peers_; mret (Z.quot (Z.of_nat (length p) + 1) 2)).

(** raft_server::is_leader *)
Definition is_leader (t : Z) : R bool := locked (r ← gets role_; mret (bool_decide (r = leader))).

(** raft_server::reschedule_election *)
Definition reschedule_election : R unit :=
  d ← get_election_timeout;
  i ← run_after d cb_send_request_vote;
  modify (fun s => with_timers (timer_id_ s) i (heartbeat_timer_id_ s) s).

(** Calls to all peers, collecting the rpc ids *)
Fixpoint call_peers (ps : list Z) (mk : Z -> R (Z -> action)) (i : Z) : R (list Z) :=
  match ps with
  | [] => mret []
  | _ :: ps =>
      a ← mk i;
      rpc ← fresh_id;
      _ ← emit (a rpc);
      rest ← call_peers ps mk (i + 1);
      mret (rpc :: rest)
  end.

(** raft_server::send_request_vote_args; the unique_lock lives to the end of the body. *)
Definition send_request_vote_args : R unit := locked (
  s ← gets id;
  b1 ← back; b2 ← back;
  let args := mk_request_vote_args (current_term_ s) (uint32 (id_ s)) (index b1) (term b2) in
  rpcids ← call_peers (peers_ s) (fun i => mret (fun rpc => act_call_vote i rpc args)) 0;
  d ← get_election_timeout;
  i ← run_after d (cb_election_retry rpcids);
  modify (fun s => with_timers (timer_id_ s) i (heartbeat_timer_id_ s) s)).

(** The election timer of send_request_vote_args: retries while it holds the lock. *)
Definition election_retry (rpcids : list Z) : R unit := locked (
  r ← gets role_;
  when (bool_decide (r = candidate)) send_request_vote_args).

(** The arguments for peer [i] in send_append_entries_args *)
Definition append_args_for (i : Z) : R append_entries_args :=
  s ← gets id;
  n ← at_ (next_index_ s) i;
  e1 ← at_ (log_entries_ s) (n - 1); e2 ← at_ (log_entries_ s) (n - 1);
  mret (mk_append_entries_args (current_term_ s) (id_ s mod 256) (index e1) (term e2) (commit_index_ s)
          (if n <? 0 then [] else drop (Z.to_nat n) (log_entries_ s))).

(** raft_server::send_append_entries_args *)
Definition send_append_entries_args (heartbeat : bool) : R unit := locked (
  s ← gets id;
  if negb (bool_decide (role_ s = leader)) then mret tt else
  rpcids ← call_peers (peers_ s) (fun i => args ← append_args_for i; mret (fun rpc => act_call_append i rpc args)) 0;
  t ← run_after TIMEOUT_TOP (cb_cancel_rpcs rpcids);
  modify (fun s => with_timers t (election_timer_id_ s) (heartbeat_timer_id_ s) s)).

(** raft_server::convert_to; the term parameter is an int, current_term_ a uint64_t. *)
Definition convert_to (r : role) (t : Z) : R unit :=
  match r with
  | follower =>
      s ← gets id;
      _ ← match role_ s with
          | leader => emit (act_cancel (heartbeat_timer_id_ s))
          | candidate => emit (act_cancel (election_timer_id_ s))
          | follower => mret tt
          end;
      _ ← locked (modify (fun s => with_vote follower (votes_ s) (u64 (int32 t)) (-1) s));
      reschedule_election
  | candidate =>
      _ ← locked (modify (fun s => with_vote candidate 1 (u64 (current_term_ s + 1)) (id_ s) s));
      send_request_vote_args
  | leader =>
      _ ← locked (
        _ ← set_role leader;
        modify (fun s =>
          let last_log_index := Z.of_nat (length (log_entries_ s)) in
          with_peers ((fun _ => last_log_index + 1) <$> next_index_ s) ((fun _ => 0) <$> match_index_ s) (peers_ s) s));
      i ← run_every 0 HEARTBEAT_INTERVAL cb_heartbeat;
      modify (fun s => with_timers (timer_id_ s) (election_timer_id_ s) i s)
  end.

(** raft_server::request_vote; [reply] is passed by reference.  In the granting branch
    "reply.term == args.term" is a comparison. *)
Definition request_vote (args : request_vote_args) (reply : request_vote_reply) : R request_vote_reply := locked (
  s ← gets id;
  if rv_term args <? current_term_ s then mret (mk_request_vote_reply (rv_term args) false)
  else
    _ ← when (current_term_ s <? rv_term args) (convert_to follower (rv_term args));
    s ← gets id;
    granted ←
      (if (voted_for_ s =? -1) || (uint32 (voted_for_ s) =? rv_candidate_id args) then
         b1 ← back;
         if index b1 =? rv_last_log_index args then
           b2 ← back; mret (term b2 =? rv_last_log_term args)
         else mret false
       else mret false);
    if (granted : bool) then
      _ ← set_voted_for (int32 (rv_candidate_id args));
      mret (mk_request_vote_reply (rvr_term reply) true)
    else mret (mk_request_vote_reply (rv_term args) false)).

(** raft_server::receive_request_vote_reply *)
Definition receive_request_vote_reply (id : Z) (reply : request_vote_reply) : R unit := locked (
  s ← gets (fun s => s);
  if negb (bool_decide (role_ s = candidate)) then mret tt else
  _ ← when (current_term_ s <? rvr_term reply) (convert_to follower (rvr_term reply));
  s ← gets (fun s => s);
  if (rvr_term reply =? current_term_ s) && rvr_vote_granted reply then
    v ← int_of (votes_ s + 1);
    _ ← modify (fun s => with_vote (role_ s) v (current_term_ s) (voted_for_ s) s);
    m ← majority;
    when (m <=? v) (convert_to leader (-1))
  else mret tt).

(** The conflict scan of append_entries: the value [index] has after the loop. *)
Fixpoint conflict_loop (es : list log) (idx : option Z) : R (option Z) :=
  match es with
  | [] => mret idx
  | e :: es =>
      let i := int32 (index e) in
      l ← gets log_entries_;
      x ← at_ l i;
      if negb (term x =? u64 (int32 (term e))) then
        _ ← modify (fun s => with_log (take (Z.to_nat i) l) (commit_index_ s) (last_applied_ s) s);
        mret (Some i)
      else conflict_loop es (Some i)
  end.

(** append_entries after its consistency check.  [index] is uninitialised when there are
    no entries; begin()+index beyond end() is undefined.  The reply is not set. *)
Definition append_tail (args : append_entries_args) (reply : append_entries_reply) : R append_entries_reply :=
  idx ← conflict_loop (ae_log_entries args) None;
  i ← of_option uninitialised_read idx;
  if (i <? 0) || (Z.of_nat (length (ae_log_entries args)) <? i) then undef out_of_bounds else
  _ ← modify (fun s => with_log (log_entries_ s ++ drop (Z.to_nat i) (ae_log_entries args)) (commit_index_ s) (last_applied_ s) s);
  s ← gets id;
  _ ← when (commit_index_ s <? ae_leader_commit args)
        (modify (fun s => with_log (log_entries_ s)
           (Z.min (ae_leader_commit args) (u64 (Z.of_nat (length (log_entries_ s)) - 1))) (last_applied_ s) s));
  mret reply.

(** raft_server::append_entries *)
Definition append_entries (args : append_entries_args) (reply : append_entries_reply) : R append_entries_reply := locked (
  s ← gets id;
  let refuse := mk_append_entries_reply (ae_term args) false in
  if ae_term args <? current_term_ s then mret refuse else
  if Z.of_nat (length (log_entries_ s)) <? ae_prev_log_index args then mret refuse else
  p ← at_ (log_entries_ s) (ae_prev_log_index args);
  if negb (term p =? ae_prev_log_term args) then mret refuse else
  append_tail args reply).

(** How many followers have entry [n] *)
Fixpoint count_match (ms : list Z) (n : Z) : Z :=
  match ms with
  | [] => 0
  | x :: ms => (if n <=? x then 1 else 0) + count_match ms n
  end.

(** The loop of update_commit_index from [n] on, [k] rounds *)
Fixpoint commit_loop (k : nat) (n : Z) : R unit :=
  match k with
  | O => mret tt
  | S k =>
      s ← gets id;
      _ ← when (Z.of_nat (length (match_index_ s)) <? Z.of_nat (length (peers_ s))) (undef out_of_bounds);
      let count := count_match (take (length (peers_ s)) (match_index_ s)) n in
      m ← majority;
      _ ← (if m <=? count then
             e ← at_ (log_entries_ s) n;
             when (term e =? current_term_ s) (modify (fun s => with_log (log_entries_ s) n (last_applied_ s) s))
           else mret tt);
      commit_loop k (n + 1)
  end.

(** raft_server::update_commit_index; n is an int. *)
Definition update_commit_index : R unit :=
  s ← gets id;
  let n := int32 (commit_index_ s + 1) in
  if n <? 0 then mret tt   (* n is compared as a size_t *)
  else commit_loop (Z.to_nat (Z.of_nat (length (log_entries_ s)) - n)) n.

Definition list_update (l : list Z) (i : Z) (f : Z -> Z) : R (list Z) :=
  x ← at_ l i; y ← int_of (f x); mret (<[Z.to_nat i := y]> l).

(** raft_server::receive_append_entries_reply *)
Definition receive_append_entries_reply (id : Z) (reply : append_entries_reply) : R unit := locked (
  s ← gets (fun s => s);
  if negb (bool_decide (role_ s = leader)) then mret tt else
  _ ← when (current_term_ s <? aer_term reply) (convert_to follower (aer_term reply));
  s ← gets (fun s => s);
  _ ← (if aer_success reply then
         n ← list_update (next_index_ s) id (fun x => x + 1);
         m ← list_update (match_index_ s) id (fun x => x + 1);
         modify (with_peers n m (peers_ s))
       else
         n ← list_update (next_index_ s) id (fun x => x - 1);
         _ ← modify (with_peers n (match_index_ s) (peers_ s));
         send_append_entries_args false);
  update_commit_index).

(** raft_server::add_peer *)
Definition add_peer (conn : Z) : R unit := locked (
  modify (fun s => with_peers (next_index_ s ++ [0]) (match_index_ s ++ [0]) (peers_ s ++ [conn]) s)).

(** raft_server::apply_to_statemachine; [apply_func] is the client's state machine.
    The result is uninitialised when nothing is to be applied. *)
Definition apply_to_statemachine (apply_func : log -> bool) : R (option bool) :=
  s ← gets id;
  if last_applied_ s <? commit_index_ s then
    e ← at_ (log_entries_ s) (last_applied_ s + 1);
    let ret := apply_func e in
    _ ← modify (fun s => with_log (log_entries_ s) (commit_index_ s) (if ret then last_applied_ s + 1 else last_applied_ s) s);
    mret (Some ret)
  else mret None.

(** raft_server::replicate *)
Definition replicate_entry (apply_func : log -> bool) (entry : log) : R bool :=
  ok ← locked (
    s ← gets id;
    if negb (bool_decide (role_ s = leader)) then mret false else
    _ ← modify (fun s => with_log (log_entries_ s ++ [mk_log (Z.of_nat (length (log_entries_ s))) (current_term_ s)])
                  (commit_index_ s) (last_applied_ s) s);
    mret true);
  if (ok : bool) then _ ← apply_to_statemachine apply_func; mret true else mret false.

(** raft_server::shutdown, the part behind persist_state_to_disk *)
Definition shutdown_timers : R unit :=
  s ← gets id;
  emit (act_cancel (match role_ s with
                    | leader => heartbeat_timer_id_ s
                    | candidate => election_timer_id_ s
                    | follower => timer_id_ s
                    end)).

(** * Events *)

(** What can happen to a server: the rpc handlers, the replies, the timers and the client. *)
Inductive event :=
| EvRequestVote (args : request_vote_args) (reply : request_vote_reply)
| EvVoteReply (id : Z) (reply : request_vote_reply)
| EvAppendEntries (args : append_entries_args) (reply : append_entries_reply)
| EvAppendReply (id : Z) (reply : append_entries_reply)
| EvElectionTimer
| EvElectionRetry (rpcids : list Z)
| EvHeartbeat
| EvReplicate (apply_func : log -> bool) (entry : log)
| EvAddPeer (conn : Z).

(** The vote reply, for the event that has one. *)
Definition run_event (ev : event) : R (option request_vote_reply) :=
  match ev with
  | EvRequestVote args reply => r ← request_vote args reply; mret (Some r)
  | EvVoteReply id reply => _ ← receive_request_vote_reply id reply; mret None
  | EvAppendEntries args reply => _ ← append_entries args reply; mret None
  | EvAppendReply id reply => _ ← receive_append_entries_reply id reply; mret None
  | EvElectionTimer => _ ← send_request_vote_args; mret None
  | EvElectionRetry rpcids => _ ← election_retry rpcids; mret None
  | EvHeartbeat => _ ← send_append_entries_args true; mret None
  | EvReplicate f entry => _ ← replicate_entry f entry; mret None
  | EvAddPeer conn => _ ← add_peer conn; mret None
  end.

Fixpoint run_events (evs : list event) : R (list (option request_vote_reply)) :=
  match evs with
  | [] => mret []
  | ev :: evs => r ← run_event ev; rs ← run_events evs; mret (r :: rs)
  end.

(** * The lock *)

Lemma with_mutex_same (s : raft_server) : mutex_ s = false -> with_mutex false (with_mutex true s) = s.
Proof. destruct s. cbn. by intros ->. Qed.

Lemma locked_free {A} (m : R A) s :
  mutex_ s = false ->
  locked m s = match m (with_mutex true s) with
               | Ret a s' => Ret a (with_mutex false s')
               | Exc e s' => Exc e (with_mutex false s')
               | Undef r => Undef r
               | Blocked => Blocked
               end.
Proof. intros Hm. unfold locked, lock, releasing, mbind, M_bind, gets, modify. by rewrite Hm. Qed.

Lemma locked_held {A} (m : R A) s : mutex_ s = true -> locked m s = Blocked.
Proof. intros Hm. unfold locked, lock, mbind, M_bind, gets. by rewrite Hm. Qed.

(** Every role change locks the mutex again. *)
Lemma convert_to_held r t s : mutex_ s = true -> convert_to r t s = Blocked.
Proof.
  intros Hm. destruct r; unfold convert_to.
  - unfold mbind at 1, M_bind at 1, gets. cbn [id]. unfold mbind at 1, M_bind at 1.
    destruct (role_ s); cbn -[locked]; unfold mbind, M_bind; rewrite locked_held; done.
  - unfold mbind, M_bind. by rewrite locked_held.
  - unfold mbind, M_bind. by rewrite locked_held.
Qed.

(** * What the operations leave alone *)

Definition vote_state (s : raft_server) : bool * role * Z * Z := (mutex_ s, role_ s, current_term_ s, voted_for_ s).

Lemma keeps_locked {A} (m : R A) : keeps vote_state m -> keeps vote_state (locked m).
Proof.
  intros Hm s. destruct (mutex_ s) eqn:Hs; [by rewrite locked_held|]. rewrite locked_free by done.
  specialize (Hm (with_mutex true s)). unfold vote_state in *.
  destruct (m (with_mutex true s)); cbn in *; congruence.
Qed.

Lemma post_locked {A} (m : R A) (Q : A -> raft_server -> Prop) s :
  mutex_ s = false -> post m (fun a s' => Q a (with_mutex false s')) (with_mutex true s) -> post (locked m) Q s.
Proof. intros Hm. unfold post. rewrite locked_free by done. by destruct (m (with_mutex true s)). Qed.

Lemma keeps_emit a : keeps vote_state (emit a).
Proof. unfold emit. keeps. Qed.
Lemma keeps_fresh_id : keeps vote_state fresh_id.
Proof. unfold fresh_id. keeps. Qed.
Lemma keeps_timeout : keeps vote_state get_election_timeout.
Proof. unfold get_election_timeout. keeps. Qed.
Lemma keeps_at {A} (l : list A) i : keeps vote_state (at_ l i).
Proof. unfold at_. keeps. Qed.
Lemma keeps_back : keeps vote_state back.
Proof. unfold back. keeps. Qed.
#[local] Hint Resolve keeps_emit keeps_fresh_id keeps_timeout keeps_at keeps_back : keeps.
Lemma keeps_run_after d c : keeps vote_state (run_after d c).
Proof. unfold run_after. keeps. Qed.
Lemma keeps_majority : keeps vote_state majority.
Proof. unfold majority. apply keeps_locked. keeps. Qed.
#[local] Hint Resolve keeps_run_after keeps_majority : keeps.
Lemma keeps_call_peers ps (mk : Z -> R (Z -> action)) i :
  (forall i, keeps vote_state (mk i)) -> keeps vote_state (call_peers ps mk i).
Proof. intros Hmk. revert i. induction ps as [|p ps IH]; intros i; cbn; keeps. Qed.

Lemma keeps_send_request_vote_args : keeps vote_state send_request_vote_args.
Proof.
  unfold send_request_vote_args. apply keeps_locked. keeps. apply keeps_call_peers. keeps.
Qed.
#[local] Hint Resolve keeps_send_request_vote_args : keeps.

Lemma keeps_election_retry rpcids : keeps vote_state (election_retry rpcids).
Proof. unfold election_retry. apply keeps_locked. keeps. Qed.

Lemma keeps_send_append_entries_args h : keeps vote_state (send_append_entries_args h).
Proof.
  unfold send_append_entries_args. apply keeps_locked. keeps. apply keeps_call_peers. unfold append_args_for. keeps.
Qed.

Lemma keeps_conflict_loop es idx : keeps vote_state (conflict_loop es idx).
Proof. revert idx. induction es as [|e es IH]; intros idx; cbn -[negb]; keeps. Qed.
#[local] Hint Resolve keeps_send_append_entries_args keeps_conflict_loop : keeps.

Lemma keeps_append_entries args reply : keeps vote_state (append_entries args reply).
Proof. unfold append_entries, append_tail. apply keeps_locked. keeps. Qed.

Lemma keeps_commit_loop k n : keeps vote_state (commit_loop k n).
Proof. revert n. induction k as [|k IH]; intros n; cbn; keeps. Qed.
#[local] Hint Resolve keeps_commit_loop : keeps.
Lemma keeps_update_commit_index : keeps vote_state update_commit_index.
Proof. unfold update_commit_index. keeps. Qed.

Lemma keeps_list_update l i f : keeps vote_state (list_update l i f).
Proof. unfold list_update. keeps. Qed.

Lemma keeps_replicate f entry : keeps vote_state (replicate_entry f entry).
Proof.
  unfold replicate_entry, apply_to_statemachine. apply keeps_bind; [apply keeps_locked; keeps|]. keeps.
Qed.

Lemma keeps_add_peer conn : keeps vote_state (add_peer conn).
Proof. unfold add_peer. apply keeps_locked. keeps. Qed.
#[export] Hint Resolve keeps_append_entries keeps_update_commit_index keeps_list_update keeps_replicate keeps_add_peer
  keeps_election_retry keeps_send_append_entries_args keeps_send_request_vote_args keeps_at keeps_back keeps_majority : keeps.

(** * The vote *)

(** Whether the candidate of [args] may get the vote of [s] in its term. *)
Definition may_vote (s : raft_server) (args : request_vote_args) : bool :=
  (voted_for_ s =? -1) || (uint32 (voted_for_ s) =? rv_candidate_id args).
Definition log_matches (b : log) (args : request_vote_args) : bool :=
  (index b =? rv_last_log_index args) && (term b =? rv_last_log_term args).

Definition voted (s : raft_server) (c : Z) : raft_server :=
  with_vote (role_ s) (votes_ s) (current_term_ s) (int32 c) s.

Lemma request_vote_eq args reply s :
  mutex_ s = false ->
  request_vote args reply s =
    if rv_term args <? current_term_ s then Ret (mk_request_vote_reply (rv_term args) false) s
    else if current_term_ s <? rv_term args then Blocked
    else if may_vote s args then
      match last (log_entries_ s) with
      | None => Undef out_of_bounds
      | Some b =>
          if log_matches b args then Ret (mk_request_vote_reply (rvr_term reply) true) (voted s (rv_candidate_id args))
          else Ret (mk_request_vote_reply (rv_term args) false) s
      end
    else Ret (mk_request_vote_reply (rv_term args) false) s.
Proof.
  intros Hm. unfold request_vote. rewrite locked_free by done.
  unfold mbind at 1, M_bind at 1, gets at 1. cbn [id].
  change (current_term_ (with_mutex true s)) with (current_term_ s).
  destruct (rv_term args <? current_term_ s); [unfold mret, M_ret; by rewrite with_mutex_same|].
  unfold mbind at 1, M_bind at 1. destruct (current_term_ s <? rv_term args); cbn [when].
  { by rewrite convert_to_held. }
  destruct s. cbn in Hm. subst.
  unfold mbind, M_bind, gets, mret, M_ret, set_voted_for, back, of_option, may_vote, log_matches, undef, modify. cbn.
  destruct ((_ =? -1) || _); cbn; [|done].
  unfold mbind, M_bind, gets, mret, M_ret. cbn. destruct (last _) as [b|] eqn:Hl; cbn; [|done].
  destruct (index b =? rv_last_log_index args); cbn; [|done].
  unfold mbind, M_bind, gets, mret, M_ret. cbn. rewrite Hl. by destruct (term b =? rv_last_log_term args).
Qed.

(** What an event may do to the vote of a server. *)
Definition vote_step (ev : event) (s : raft_server) (r : option request_vote_reply) (s' : raft_server) : Prop :=
  mutex_ s' = false /\ role_ s' = role_ s /\ current_term_ s' = current_term_ s /\
  match ev, r with
  | EvRequestVote args _, Some (mk_request_vote_reply _ true) =>
      rv_term args = current_term_ s /\ may_vote s args = true /\ voted_for_ s' = int32 (rv_candidate_id args)
  | _, _ => voted_for_ s' = voted_for_ s
  end.

Lemma keeps_vote_step {A} ev (m : R A) s :
  keeps vote_state m -> mutex_ s = false ->
  post (_ ← m; mret None) (vote_step ev s) s.
Proof.
  intros Hk Hm. apply post_bind. eapply post_mono; [apply (post_keeps vote_state), Hk|]. cbn.
  intros _ s' [= Hm' Hr Ht Hv]. unfold post, mret, M_ret, vote_step. split_and!; try congruence.
  destruct ev; congruence.
Qed.

(** A handler whose role changes all happen under the lock it holds. *)
Lemma handler_vote_step {A} ev (m : R A) s :
  mutex_ s = false ->
  (forall s, mutex_ s = true -> post m (fun _ s' => vote_state s' = vote_state s) s) ->
  post (_ ← locked m; mret None) (vote_step ev s) s.
Proof.
  intros Hm Hpost. apply post_bind, post_locked; [done|].
  eapply post_mono; [by apply Hpost|]. cbn. intros _ s' [= Hm' Hr Ht Hv].
  unfold post, mret, M_ret, vote_step. cbn. split_and!; try done. by destruct ev.
Qed.

(** A conditional conversion under the lock: it is not taken when the run returns. *)
Lemma post_when_convert {B} (c : bool) r t (k : unit -> R B) (Q : B -> raft_server -> Prop) s :
  mutex_ s = true -> (c = false -> post (k tt) Q s) -> post (u ← when c (convert_to r t); k u) Q s.
Proof.
  intros Hm Hk. unfold post, mbind, M_bind. destruct c; cbn; [by rewrite convert_to_held|by apply Hk].
Qed.

Lemma run_event_vote_step ev s : mutex_ s = false -> post (run_event ev) (vote_step ev s) s.
Proof.
  intros Hm. destruct ev; cbn [run_event].
  - apply post_bind. unfold post. rewrite request_vote_eq by done.
    destruct (rv_term args <? current_term_ s) eqn:E1; [done|].
    destruct (current_term_ s <? rv_term args) eqn:E2; [done|]. reflect_bool.
    destruct (may_vote s args) eqn:Hv; [|done].
    destruct (last (log_entries_ s)) as [b|]; [|done]. destruct (log_matches b args); [|done].
    cbn. split_and!; try done. lia.
  - apply handler_vote_step; [done..|]. clear s Hm. intros s Hm. apply post_bind, post_gets.
    destruct (negb _); [done|]. apply post_when_convert; [done|]. intros _. apply post_bind, post_gets.
    destruct (_ && _); [|done]. apply post_bind, post_int_of, post_bind, post_modify, post_bind.
    unfold post at 1. unfold majority. by rewrite locked_held.
  - apply keeps_vote_step; auto with keeps.
  - apply handler_vote_step; [done|]. clear s Hm. intros s Hm. apply post_bind, post_gets.
    destruct (negb _); [done|]. apply post_when_convert; [done|]. intros _.
    apply (post_keeps vote_state). keeps.
  - apply keeps_vote_step; auto with keeps.
  - apply keeps_vote_step; auto with keeps.
  - apply keeps_vote_step; auto with keeps.
  - apply keeps_vote_step; auto with keeps.
  - apply keeps_vote_step; auto with keeps.
Qed.

(** ** One candidate *)

Definition granted (r : option request_vote_reply) : bool :=
  match r with Some (mk_request_vote_reply _ g) => g | None => false end.

Lemma run_events_cons ev evs s rs s' :
  run_events (ev :: evs) s = Ret rs s' ->
  exists r s1 rs', run_event ev s = Ret r s1 /\ run_events evs s1 = Ret rs' s' /\ rs = r :: rs'.
Proof.
  cbn. unfold mbind, M_bind, mret, M_ret. destruct (run_event ev s) as [r s1| | |] eqn:E1; try done.
  destruct (run_events evs s1) as [rs1 s2| | |] eqn:E2; try done. intros [= <- <-]. eauto 6.
Qed.

Lemma int32_id c : 0 <= c < 2 ^ 31 -> int32 c = c.
Proof. intros Hc. apply to_signed_id; [lia|]. change (32 - 1) with 31. lia. Qed.

(** The ids of candidates that a vote can record: a uint32_t that is not the encoding of
    -1, which voted_for_ uses for no vote. *)
Definition candidate_id (k : Z) : Prop := 0 <= k < 2 ^ 32 - 1.
Definition holds_vote (s : raft_server) (k : Z) : Prop := voted_for_ s <> -1 /\ uint32 (voted_for_ s) = k.

Lemma vote_of_candidate k : candidate_id k -> int32 k <> -1 /\ uint32 (int32 k) = k.
Proof.
  unfold candidate_id, int32, to_signed, to_unsigned, uint32. intros Hk. change (32 - 1) with 31. rewrite (Z.mod_small k) by lia.
  destruct (Z.ltb_spec k (2 ^ 31)); [split; [lia|by rewrite Z.mod_small by lia]|]. split; [lia|].
  rewrite <-(Z.mod_add _ 1), Z.mod_small by lia. lia.
Qed.

Lemma may_vote_held s k args : holds_vote s k -> may_vote s args = true -> rv_candidate_id args = k.
Proof.
  unfold may_vote. intros [Hne <-]. rewrite (proj2 (Z.eqb_neq _ _) Hne). intros Hmay. symmetry. by apply Z.eqb_eq.
Qed.

(** Once the vote is given, later grants go to the same candidate. *)
Lemma votes_after evs c s rs s' j a rep r :
  mutex_ s = false -> holds_vote s c -> candidate_id c -> run_events evs s = Ret rs s' ->
  evs !! j = Some (EvRequestVote a rep) -> rs !! j = Some r -> granted r = true -> rv_candidate_id a = c.
Proof.
  revert s rs j. induction evs as [|ev evs IH]; intros s rs j Hm Hv Hc Hrun Hj Hr Hg; [done|].
  apply run_events_cons in Hrun as (r0 & s1 & rs1 & H1 & H2 & ->).
  pose proof (post_ret _ _ _ _ _ (run_event_vote_step ev s Hm) H1) as (Hm1 & _ & _ & Hstep).
  assert (forall a rep, ev = EvRequestVote a rep -> granted r0 = true -> rv_candidate_id a = c) as Hsame.
  { intros a' rep' -> Hg'. destruct r0 as [[t []]|]; try done. destruct Hstep as (_ & Hmay & _). by eapply may_vote_held. }
  destruct j as [|j]; cbn in Hj, Hr; [simplify_eq; eauto|]. apply (IH s1 rs1 j); try done. unfold holds_vote in *.
  destruct ev; try by rewrite Hstep. destruct r0 as [[t []]|]; try by rewrite Hstep.
  destruct Hstep as (_ & _ & ->). rewrite (Hsame _ _ eq_refl eq_refl). by apply vote_of_candidate.
Qed.

(** * Properties *)

(** C30. request_vote on every path: a request of an older term is refused with nothing
    changed; one of a newer term never returns, because convert_to locks the mutex the
    handler holds; in the current term the vote is granted exactly when the server has
    not voted for someone else and its last entry is the candidate's (equal, not at most
    as recent), and then reply.term keeps what it was; on an empty log it is undefined. *)
Theorem request_vote_spec (args : request_vote_args) (reply : request_vote_reply) (s : raft_server) :
  mutex_ s = false ->
  request_vote args reply s =
    if rv_term args <? current_term_ s then Ret (mk_request_vote_reply (rv_term args) false) s
    else if current_term_ s <? rv_term args then Blocked
    else if may_vote s args then
      match last (log_entries_ s) with
      | None => Undef out_of_bounds
      | Some b =>
          if log_matches b args then Ret (mk_request_vote_reply (rvr_term reply) true) (voted s (rv_candidate_id args))
          else Ret (mk_request_vote_reply (rv_term args) false) s
      end
    else Ret (mk_request_vote_reply (rv_term args) false) s.
Proof. apply request_vote_eq. Qed.

Definition demo_server (r : role) (t : Z) (l : list log) : raft_server :=
  mk_raft_server false 0 0 0 1 r 0 t (-1) l 0 0 [] [] [] 0 (fun _ => 150) [].

Lemma request_vote_spec_witness :
  request_vote (mk_request_vote_args 3 2 0 1) (mk_request_vote_reply 9 false) (demo_server follower 3 [mk_log 0 1]) =
    Ret (mk_request_vote_reply 9 true) (voted (demo_server follower 3 [mk_log 0 1]) 2).
Proof. apply (request_vote_spec (mk_request_vote_args 3 2 0 1) (mk_request_vote_reply 9 false)). reflexivity. Defined.

(** C8. Vote safety.  In any history of rpc handlers, replies, timers and client calls
    that return, all the votes a server grants to candidates whose id is not 0xffffffff go
    to one candidate.  (The id 0xffffffff is recorded as -1, no vote.) *)
Theorem one_candidate_per_server (evs : list event) (s : raft_server) rs s' i j a1 p1 r1 a2 p2 r2 :
  mutex_ s = false -> run_events evs s = Ret rs s' ->
  evs !! i = Some (EvRequestVote a1 p1) -> rs !! i = Some r1 -> granted r1 = true ->
  evs !! j = Some (EvRequestVote a2 p2) -> rs !! j = Some r2 -> granted r2 = true ->
  candidate_id (rv_candidate_id a1) -> candidate_id (rv_candidate_id a2) -> rv_candidate_id a1 = rv_candidate_id a2.
Proof.
  revert s rs i j. induction evs as [|ev evs IH]; intros s rs i j Hm Hrun Hi Hr1 Hg1 Hj Hr2 Hg2 Hc1 Hc2; [done|].
  apply run_events_cons in Hrun as (r0 & s1 & rs1 & H1 & H2 & ->).
  pose proof (post_ret _ _ _ _ _ (run_event_vote_step ev s Hm) H1) as (Hm1 & _ & _ & Hstep).
  assert (forall a rep, ev = EvRequestVote a rep -> granted r0 = true -> candidate_id (rv_candidate_id a) ->
    holds_vote s1 (rv_candidate_id a)) as Hvote.
  { intros a rep -> Hg Hc. destruct r0 as [[t []]|]; try done. destruct Hstep as (_ & _ & Hv). unfold holds_vote. rewrite Hv.
    by apply vote_of_candidate. }
  destruct i as [|i], j as [|j]; cbn in *; simplify_eq.
  - done.
  - symmetry. apply (votes_after evs _ s1 rs1 s' j a2 p2 r2); eauto.
  - apply (votes_after evs _ s1 rs1 s' i a1 p1 r1); eauto.
  - by eapply (IH s1).
Qed.

Definition vote_event (term cand : Z) : event := EvRequestVote (mk_request_vote_args term cand 0 1) (mk_request_vote_reply 0 false).
Definition demo_request : event := vote_event 3 2.

Lemma one_candidate_per_server_witness :
  run_events [demo_request; vote_event 3 1; demo_request] (demo_server follower 3 [mk_log 0 1]) =
    Ret [Some (mk_request_vote_reply 0 true); Some (mk_request_vote_reply 3 false); Some (mk_request_vote_reply 0 true)]
      (voted (demo_server follower 3 [mk_log 0 1]) 2) /\ 2 = 2.
Proof.
  assert (run_events [demo_request; vote_event 3 1; demo_request] (demo_server follower 3 [mk_log 0 1]) =
    Ret [Some (mk_request_vote_reply 0 true); Some (mk_request_vote_reply 3 false); Some (mk_request_vote_reply 0 true)]
      (voted (demo_server follower 3 [mk_log 0 1]) 2)) as Hrun by reflexivity.
  split; [exact Hrun|].
  refine (one_candidate_per_server [demo_request; vote_event 3 1; demo_request] (demo_server follower 3 [mk_log 0 1]) _ _ 0 2
    (mk_request_vote_args 3 2 0 1) _ _ (mk_request_vote_args 3 2 0 1) _ _ eq_refl Hrun eq_refl eq_refl eq_refl eq_refl eq_refl eq_refl _ _);
    unfold candidate_id; cbn; lia.
Defined.

(** A vote for 0xffffffff is not remembered: the server votes for another candidate of the
    same term. *)
Theorem unrecorded_vote (s : raft_server) b l t k p :
  mutex_ s = false -> voted_for_ s = -1 -> log_entries_ s = l ++ [b] -> current_term_ s = t ->
  exists s', run_events [EvRequestVote (mk_request_vote_args t 0xffffffff (index b) (term b)) p;
      EvRequestVote (mk_request_vote_args t k (index b) (term b)) p] s =
    Ret [Some (mk_request_vote_reply (rvr_term p) true); Some (mk_request_vote_reply (rvr_term p) true)] s'.
Proof.
  intros Hm Hv Hl <-. eexists. cbn [run_events run_event]. unfold mbind, M_bind.
  assert (last (log_entries_ s) = Some b) as Hb by (by rewrite Hl, last_snoc).
  assert (forall k, log_matches b (mk_request_vote_args (current_term_ s) k (index b) (term b)) = true) as Hmt
    by (intros k'; unfold log_matches; cbn; by rewrite !Z.eqb_refl).
  assert (forall s' k, mutex_ s' = false -> voted_for_ s' = -1 -> last (log_entries_ s') = Some b -> current_term_ s' = current_term_ s ->
    request_vote (mk_request_vote_args (current_term_ s) k (index b) (term b)) p s' =
      Ret (mk_request_vote_reply (rvr_term p) true) (voted s' k)) as Hgrant.
  { intros s' k' Hm' Hv' Hb' Ht'. rewrite request_vote_eq by done. cbn [rv_term rv_candidate_id]. rewrite Ht', Z.ltb_irrefl, Hb', Hmt.
    unfold may_vote. by rewrite Hv'. }
  rewrite Hgrant by done. cbn [mret M_ret]. unfold mret, M_ret. rewrite Hgrant; done.
Qed.

(** C9. No election ever succeeds.  Whatever events a server handles, as long as the
    handlers return, its role and its term never change: every conversion of role is made
    with the mutex held and locks it again, and the conversion to candidate is never made. *)
Theorem role_and_term_frozen (evs : list event) (s : raft_server) rs s' :
  mutex_ s = false -> run_events evs s = Ret rs s' -> role_ s' = role_ s /\ current_term_ s' = current_term_ s.
Proof.
  revert s rs. induction evs as [|ev evs IH]; intros s rs Hm Hrun; [by injection Hrun as _ <-|].
  apply run_events_cons in Hrun as (r0 & s1 & rs1 & H1 & H2 & ->).
  pose proof (post_ret _ _ _ _ _ (run_event_vote_step ev s Hm) H1) as (Hm1 & Hr1 & Ht1 & _).
  destruct (IH s1 rs1 Hm1 H2). split; congruence.
Qed.

Lemma role_and_term_frozen_witness :
  role_ (voted (demo_server follower 3 [mk_log 0 1]) 2) = follower /\
  current_term_ (voted (demo_server follower 3 [mk_log 0 1]) 2) = 3.
Proof.
  exact (role_and_term_frozen [demo_request] (demo_server follower 3 [mk_log 0 1])
           [Some (mk_request_vote_reply 0 true)] _ eq_refl eq_refl).
Defined.

(** The deadlocks.  A vote request, a vote reply to a candidate or an append reply to
    a leader that carries a newer term, and every vote granted to a candidate in its term,
    leave the handler waiting for the mutex it holds. *)
Theorem newer_term_deadlocks (s : raft_server) (id : Z) :
  mutex_ s = false ->
  (forall args reply, current_term_ s < rv_term args -> request_vote args reply s = Blocked) /\
  (forall reply, role_ s = candidate -> current_term_ s < rvr_term reply ->
     receive_request_vote_reply id reply s = Blocked) /\
  (forall reply, role_ s = candidate -> rvr_term reply = current_term_ s -> rvr_vote_granted reply = true ->
     INT_MIN <= votes_ s < INT_MAX -> receive_request_vote_reply id reply s = Blocked) /\
  (forall reply, role_ s = leader -> current_term_ s < aer_term reply ->
     receive_append_entries_reply id reply s = Blocked).
Proof.
  intros Hm. split_and!.
  - intros args reply Ht. rewrite request_vote_eq by done.
    destruct (Z.ltb_spec (rv_term args) (current_term_ s)); [lia|].
    destruct (Z.ltb_spec (current_term_ s) (rv_term args)); [done|lia].
  - intros reply Hr Ht. unfold receive_request_vote_reply. rewrite locked_free by done.
    unfold mbind at 1, M_bind at 1, gets at 1. change (role_ (with_mutex true s)) with (role_ s). rewrite Hr, bool_decide_eq_true_2 by done. cbn [negb].
    unfold mbind at 1, M_bind at 1. change (current_term_ (with_mutex true s)) with (current_term_ s).
    destruct (Z.ltb_spec (current_term_ s) (rvr_term reply)); [|lia]. cbn [when]. by rewrite convert_to_held.
  - intros reply Hr Ht Hg Hv. unfold receive_request_vote_reply. rewrite locked_free by done.
    unfold mbind at 1, M_bind at 1, gets at 1. change (role_ (with_mutex true s)) with (role_ s). rewrite Hr, bool_decide_eq_true_2 by done. cbn [negb].
    unfold mbind at 1, M_bind at 1. change (current_term_ (with_mutex true s)) with (current_term_ s).
    rewrite Ht, Z.ltb_irrefl. cbn [when]. unfold mret at 1, M_ret at 1. unfold mbind at 1, M_bind at 1, gets at 1.
    change (current_term_ (with_mutex true s)) with (current_term_ s). rewrite Z.eqb_refl, Hg. cbn [andb].
    unfold mbind at 1, M_bind at 1. change (votes_ (with_mutex true s)) with (votes_ s).
    unfold int_of. replace (int_ok (votes_ s + 1)) with true
      by (symmetry; unfold int_ok; apply andb_true_iff; split; apply Z.leb_le; lia).
    unfold mret at 1, M_ret at 1, modify. unfold mbind, M_bind. unfold majority. by rewrite locked_held.
  - intros reply Hr Ht. unfold receive_append_entries_reply. rewrite locked_free by done.
    unfold mbind at 1, M_bind at 1, gets at 1. change (role_ (with_mutex true s)) with (role_ s). rewrite Hr, bool_decide_eq_true_2 by done. cbn [negb].
    unfold mbind at 1, M_bind at 1. change (current_term_ (with_mutex true s)) with (current_term_ s).
    destruct (Z.ltb_spec (current_term_ s) (aer_term reply)); [|lia]. cbn [when]. by rewrite convert_to_held.
Qed.

Lemma newer_term_deadlocks_witness :
  (forall args reply, 3 < rv_term args -> request_vote args reply (demo_server follower 3 []) = Blocked) /\
  (forall reply, follower = candidate -> 3 < rvr_term reply ->
     receive_request_vote_reply 0 reply (demo_server follower 3 []) = Blocked) /\
  (forall reply, follower = candidate -> rvr_term reply = 3 -> rvr_vote_granted reply = true ->
     INT_MIN <= 0 < INT_MAX -> receive_request_vote_reply 0 reply (demo_server follower 3 []) = Blocked) /\
  (forall reply, follower = leader -> 3 < aer_term reply ->
     receive_append_entries_reply 0 reply (demo_server follower 3 []) = Blocked).
Proof. apply (newer_term_deadlocks (demo_server follower 3 []) 0). reflexivity. Defined.

(** ** Log replication *)

(** The log passes the consistency check of append_entries. *)
Definition consistent (s : raft_server) (args : append_entries_args) : Prop :=
  current_term_ s <= ae_term args /\ 0 <= ae_prev_log_index args /\
  exists e, log_entries_ s !! Z.to_nat (ae_prev_log_index args) = Some e /\ term e = ae_prev_log_term args.

Lemma append_entries_refuse args reply s :
  mutex_ s = false -> 0 <= ae_prev_log_index args -> ~ consistent s args ->
  ae_prev_log_index args <> Z.of_nat (length (log_entries_ s)) ->
  append_entries args reply s = Ret (mk_append_entries_reply (ae_term args) false) s.
Proof.
  intros Hm Hp Hnc Hne. unfold append_entries. rewrite locked_free by done.
  unfold mbind at 1, M_bind at 1, gets at 1. cbn [id].
  change (current_term_ (with_mutex true s)) with (current_term_ s).
  change (log_entries_ (with_mutex true s)) with (log_entries_ s).
  destruct (Z.ltb_spec (ae_term args) (current_term_ s)); [unfold mret, M_ret; by rewrite with_mutex_same|].
  destruct (Z.ltb_spec (Z.of_nat (length (log_entries_ s))) (ae_prev_log_index args));
    [unfold mret, M_ret; by rewrite with_mutex_same|].
  destruct (lookup_lt_is_Some_2 (log_entries_ s) (Z.to_nat (ae_prev_log_index args))) as [e He]; [lia|].
  unfold mbind at 1, M_bind at 1, at_. destruct (Z.ltb_spec (ae_prev_log_index args) 0); [lia|]. rewrite He. cbn [of_option].
  unfold mret at 1, M_ret at 1. destruct (Z.eqb_spec (term e) (ae_prev_log_term args)) as [Heq|Hneq]; cbn [negb].
  - destruct Hnc. split_and!; [lia|done|by exists e].
  - unfold mret, M_ret. by rewrite with_mutex_same.
Qed.

Lemma append_entries_consistent args reply s :
  mutex_ s = false -> consistent s args ->
  append_entries args reply s = locked (append_tail args reply) s.
Proof.
  intros Hm (Ht & Hp & e & He & Hte). unfold append_entries. rewrite !locked_free by done.
  unfold mbind at 1, M_bind at 1, gets at 1. cbn [id].
  change (current_term_ (with_mutex true s)) with (current_term_ s).
  change (log_entries_ (with_mutex true s)) with (log_entries_ s).
  destruct (Z.ltb_spec (ae_term args) (current_term_ s)); [lia|].
  apply lookup_lt_Some in He as Hlt.
  destruct (Z.ltb_spec (Z.of_nat (length (log_entries_ s))) (ae_prev_log_index args)); [lia|].
  unfold mbind at 1, M_bind at 1, at_. destruct (Z.ltb_spec (ae_prev_log_index args) 0); [lia|]. rewrite He. cbn [of_option].
  unfold mret at 1, M_ret at 1. by rewrite Hte, Z.eqb_refl.
Qed.

(** A follower never takes an entry.  On a consistent request, a heartbeat (no
    entries) reads the uninitialised index, and a request whose first entry is the next
    one, at the index of the end of the log, reads the log out of bounds; in both cases the
    handler does not return, so it neither appends nor resets anything. *)
Theorem follower_never_extends (args : append_entries_args) (reply : append_entries_reply) (s : raft_server) :
  mutex_ s = false -> consistent s args ->
  (ae_log_entries args = [] -> append_entries args reply s = Undef uninitialised_read) /\
  (forall e es, ae_log_entries args = e :: es -> index e = Z.of_nat (length (log_entries_ s)) -> index e < 2 ^ 31 ->
     append_entries args reply s = Undef out_of_bounds).
Proof.
  intros Hm Hc. rewrite append_entries_consistent, locked_free by done. unfold append_tail. split.
  - intros ->. done.
  - intros e es -> Hi Hlt. cbn [conflict_loop]. rewrite (int32_id (index e)) by lia.
    unfold mbind, M_bind, gets, at_. change (log_entries_ (with_mutex true s)) with (log_entries_ s).
    destruct (Z.ltb_spec (index e) 0); [lia|].
    rewrite (lookup_ge_None_2 (log_entries_ s)) by lia. done.
Qed.

Lemma demo_consistent es : consistent (demo_server follower 3 [mk_log 0 1]) (mk_append_entries_args 3 2 0 1 0 es).
Proof. unfold consistent. cbn. split; [lia|]. split; [lia|]. by exists (mk_log 0 1). Defined.

Lemma follower_never_extends_witness :
  append_entries (mk_append_entries_args 3 2 0 1 0 []) (mk_append_entries_reply 0 false) (demo_server follower 3 [mk_log 0 1]) =
    Undef uninitialised_read /\
  append_entries (mk_append_entries_args 3 2 0 1 0 [mk_log 1 3]) (mk_append_entries_reply 0 false) (demo_server follower 3 [mk_log 0 1]) =
    Undef out_of_bounds.
Proof.
  split.
  - apply follower_never_extends; [reflexivity|apply demo_consistent|reflexivity].
  - eapply follower_never_extends; [reflexivity|apply demo_consistent|reflexivity|reflexivity|cbn; lia].
Defined.

(** Refusals of append_entries.  A request of an older term, with a gap before its
    entries or with another term at prev_log_index is refused and changes nothing; the
    one exception is prev_log_index equal to the length of the log, which is out of bounds. *)
Theorem append_entries_refusals (args : append_entries_args) (reply : append_entries_reply) (s : raft_server) :
  mutex_ s = false -> 0 <= ae_prev_log_index args -> ~ consistent s args ->
  append_entries args reply s =
    if (current_term_ s <=? ae_term args) && (ae_prev_log_index args =? Z.of_nat (length (log_entries_ s)))
    then Undef out_of_bounds
    else Ret (mk_append_entries_reply (ae_term args) false) s.
Proof.
  intros Hm Hp Hnc. destruct (Z.eqb_spec (ae_prev_log_index args) (Z.of_nat (length (log_entries_ s)))) as [Heq|].
  2:{ rewrite andb_false_r. by apply append_entries_refuse. }
  rewrite andb_true_r. unfold append_entries. rewrite locked_free by done.
  unfold mbind at 1, M_bind at 1, gets at 1. cbn [id].
  change (current_term_ (with_mutex true s)) with (current_term_ s).
  change (log_entries_ (with_mutex true s)) with (log_entries_ s).
  destruct (Z.ltb_spec (ae_term args) (current_term_ s)), (Z.leb_spec (current_term_ s) (ae_term args)); try lia.
  - unfold mret, M_ret. by rewrite with_mutex_same.
  - rewrite Heq, Z.ltb_irrefl. unfold mbind at 1, M_bind at 1, at_.
    destruct (Z.ltb_spec (Z.of_nat (length (log_entries_ s))) 0); [lia|].
    by rewrite (lookup_ge_None_2 (log_entries_ s)) by lia.
Qed.

Lemma append_entries_refusals_witness :
  append_entries (mk_append_entries_args 2 2 0 1 0 []) (mk_append_entries_reply 7 true) (demo_server follower 3 [mk_log 0 1]) =
    Ret (mk_append_entries_reply 2 false) (demo_server follower 3 [mk_log 0 1]).
Proof.
  apply (append_entries_refusals (mk_append_entries_args 2 2 0 1 0 [])); [reflexivity|cbn; lia|].
  intros (Ht & _). cbn in Ht. lia.
Defined.

(** With an even number of servers in peers_, majority() is exactly half of them:
    two disjoint groups of servers both reach it. *)
Theorem majority_of_even_is_half (s : raft_server) (k : nat) :
  mutex_ s = false -> length (peers_ s) = (2 * k)%nat -> majority s = Ret (Z.of_nat k) s.
Proof.
  intros Hm Hl. unfold majority. rewrite locked_free by done. unfold mbind, M_bind, gets, mret, M_ret.
  change (peers_ (with_mutex true s)) with (peers_ s). rewrite with_mutex_same by done. rewrite Hl. f_equal.
  replace (Z.of_nat (2 * k) + 1) with (1 + Z.of_nat k * 2) by lia.
  rewrite Z.quot_div_nonneg, Z.div_add by lia. done.
Qed.

Lemma majority_of_even_is_half_witness :
  majority (mk_raft_server false 0 0 0 1 follower 0 3 (-1) [] 0 0 [] [] [5; 6; 7; 8] 0 (fun _ => 150) []) =
    Ret 2 (mk_raft_server false 0 0 0 1 follower 0 3 (-1) [] 0 0 [] [] [5; 6; 7; 8] 0 (fun _ => 150) []).
Proof. apply (majority_of_even_is_half _ 2); reflexivity. Defined.
