(* ===== verification/LockManager.v ===== *)
(** Two-phase-locking support: src/transaction/lock_table.{h,cc} and
    lock_manager.{h,cc}.  The first part is the grant logic on one lock entry, with the
    threads of the transactions interleaving at the granularity of the entry's mutex;
    the second part is the table of entries at the level of its pointers. *)
From S2P Require Import Prelude.

(** * One lock entry *)

Abbreviation txn_id_t := Z.

Inductive lock_status := granted | waiting.
Inductive lock_mode := none | shared | exclusive.
#[global] Instance lock_status_eq_dec : EqDecision lock_status.
Proof. solve_decision. Defined.
#[global] Instance lock_mode_eq_dec : EqDecision lock_mode.
Proof. solve_decision. Defined.

Abbreviation request := (txn_id_t * lock_mode * lock_status)%type.
Definition req_txn (r : request) : txn_id_t := r.1.1.
Definition req_mode (r : request) : lock_mode := r.1.2.
Definition req_status (r : request) : lock_status := r.2.

Record lock_entry := mk_lock_entry {
  wait_list : list request;
  current_lock_mode : lock_mode;
  shared_lock_cnt : Z;
}.

(** lock_entry::lock_entry initialises nothing but the list. *)
Definition lock_entry_new (mode : lock_mode) (cnt : Z) : lock_entry := mk_lock_entry [] mode cnt.

(** The first critical section of lock_manager::lock *)
Definition enqueue (txn : txn_id_t) (mode : lock_mode) (e : lock_entry) : lock_entry :=
  mk_lock_entry (wait_list e ++ [(txn, mode, waiting)]) (current_lock_mode e) (shared_lock_cnt e).

(** The scan of the shared branch: the list with the request granted and the verdict,
    None when the request is not in the list (the lambda then returns nothing). *)
Fixpoint shared_scan (l : list request) (txn : txn_id_t) (mode : lock_mode) (all_shared all_granted : bool) : option (bool * list request) :=
  match l with
  | [] => None
  | r :: l =>
      if req_txn r =? txn then
        if all_shared && all_granted then Some (true, (txn, mode, granted) :: l) else Some (false, r :: l)
      else
        '(ok, l') ← shared_scan l txn mode (all_shared && bool_decide (req_mode r = shared))
                      (all_granted && bool_decide (req_status r = granted));
        Some (ok, r :: l')
  end.

(** The predicate of cond_var.wait in lock_manager::lock: verdict and entry, or undefined. *)
Definition wait_predicate (txn : txn_id_t) (mode : lock_mode) (e : lock_entry) : (bool * lock_entry) + ub :=
  match mode with
  | exclusive =>
      match wait_list e with
      | [] => inr bad_iterator
      | r :: l =>
          if req_txn r =? txn then inl (true, mk_lock_entry ((txn, mode, granted) :: l) exclusive (shared_lock_cnt e))
          else inl (false, e)
      end
  | _ =>
      match shared_scan (wait_list e) txn mode true true with
      | None => inr uninitialised_read
      | Some (true, l) => inl (true, mk_lock_entry l (current_lock_mode e) (shared_lock_cnt e + 1))
      | Some (false, _) => inl (false, e)
      end
  end.

(** The critical section of lock_manager::unlock: entry and need_notify *)
Definition release (txn : txn_id_t) (e : lock_entry) : lock_entry * bool :=
  let l := filter (fun r => r <> (txn, current_lock_mode e, granted)) (wait_list e) in
  match current_lock_mode e with
  | shared =>
      let cnt := shared_lock_cnt e - 1 in
      if cnt =? 0 then (mk_lock_entry l none cnt, true) else (mk_lock_entry l shared cnt, false)
  | exclusive => (mk_lock_entry l none (shared_lock_cnt e), true)
  | none => (mk_lock_entry l none (shared_lock_cnt e), false)
  end.

(** The rest of lock_manager::unlock tests, without the mutex, whether the entry is to be
    removed from the table (which deletes it). *)
Definition unlock_empty (e : lock_entry) : bool := bool_decide (length (wait_list e) = 0%nat).

(** lock_manager::unlock of a thread that runs alone: the entry afterwards, None when it is
    removed, and whether the waiters are notified *)
Definition unlock (txn : txn_id_t) (e : lock_entry) : option lock_entry * bool :=
  let '(e', need_notify) := release txn e in (if unlock_empty e' then None else Some e', need_notify).

(** * Interleavings *)

(** One critical section of some transaction's thread.  A transaction asks once per item
    (its requests are told apart by its id); a thread tests the predicate while its own
    request waits; unlock may come from anywhere. *)
Inductive step : lock_entry -> lock_entry -> Prop :=
| step_enqueue txn mode e :
    mode <> none -> txn ∉ (req_txn <$> wait_list e) -> step e (enqueue txn mode e)
| step_wake txn mode e ok e' :
    (txn, mode, waiting) ∈ wait_list e -> wait_predicate txn mode e = inl (ok, e') -> step e e'
| step_unlock txn e : step e (release txn e).1.

Definition steps : lock_entry -> lock_entry -> Prop := rtc step.

(** The life of one entry object: the threads between lock_table_->add and their first
    critical section, those between lock_table_->search and theirs, those in unlock before
    the test for an empty list, those between that test and lock_table_->remove, and whether
    the object is still there. *)
Record entry_life := mk_entry_life {
  el_entry : lock_entry;
  el_locking : list (txn_id_t * lock_mode);
  el_unlocking : list txn_id_t;
  el_testing : nat;
  el_removing : nat;
  el_alive : bool;
}.

Definition life_new (mode : lock_mode) (cnt : Z) : entry_life := mk_entry_life (lock_entry_new mode cnt) [] [] 0 0 true.

(** A thread that touches an object that was deleted is undefined: there are no steps from
    there. *)
Inductive life_step : entry_life -> entry_life -> Prop :=
| life_add txn mode e ls us t r : life_step (mk_entry_life e ls us t r true) (mk_entry_life e ((txn, mode) :: ls) us t r true)
| life_enqueue txn mode e ls1 ls2 us t r :
    mode <> none -> txn ∉ (req_txn <$> wait_list e) ->
    life_step (mk_entry_life e (ls1 ++ (txn, mode) :: ls2) us t r true) (mk_entry_life (enqueue txn mode e) (ls1 ++ ls2) us t r true)
| life_wake txn mode e ok e' ls us t r :
    (txn, mode, waiting) ∈ wait_list e -> wait_predicate txn mode e = inl (ok, e') ->
    life_step (mk_entry_life e ls us t r true) (mk_entry_life e' ls us t r true)
| life_search txn e ls us t r : life_step (mk_entry_life e ls us t r true) (mk_entry_life e ls (txn :: us) t r true)
| life_release txn e ls us1 us2 t r :
    life_step (mk_entry_life e ls (us1 ++ txn :: us2) t r true) (mk_entry_life (release txn e).1 ls (us1 ++ us2) (S t) r true)
| life_test e ls us t r :
    life_step (mk_entry_life e ls us (S t) r true) (mk_entry_life e ls us t (if unlock_empty e then S r else r) true)
| life_remove e ls us t r : life_step (mk_entry_life e ls us t (S r) true) (mk_entry_life e ls us t r false).

Definition life_steps : entry_life -> entry_life -> Prop := rtc life_step.

(** A thread that unlocks alone takes these steps one after another: what [unlock] computes. *)
Lemma unlock_steps txn e ls :
  life_steps (mk_entry_life e ls [] 0 0 true)
    (match (unlock txn e).1 with
     | Some e' => mk_entry_life e' ls [] 0 0 true
     | None => mk_entry_life (release txn e).1 ls [] 0 0 false
     end).
Proof.
  eapply rtc_l; [apply (life_search txn)|]. eapply rtc_l; [apply (life_release txn e ls [] [])|]. cbn.
  eapply rtc_l; [apply life_test|]. unfold unlock. destruct (release txn e) as [e' n]. cbn.
  destruct (unlock_empty e'); cbn; [|apply rtc_refl]. apply rtc_once, life_remove.
Qed.

Lemma life_steps_entry l l' : life_steps l l' -> steps (el_entry l) (el_entry l').
Proof.
  intros Hs. induction Hs as [|l1 l2 l3 H12 _ IH]; [apply rtc_refl|].
  assert (el_entry l2 = el_entry l1 \/ step (el_entry l1) (el_entry l2)) as [E|Hs].
  { destruct H12; cbn; [by left|right|right|by left|right|by left..]; [by constructor|by econstructor|constructor]. }
  - by rewrite <-E.
  - by eapply rtc_l.
Qed.

(** Granted requests come first; they are all shared, or there is one exclusive one. *)
Record entry_ok (e : lock_entry) : Prop := {
  eo_txns : NoDup (req_txn <$> wait_list e);
  eo_modes : Forall (fun r => req_mode r <> none) (wait_list e);
  eo_shape : exists g w, wait_list e = g ++ w /\
    Forall (fun r => req_status r = granted) g /\ Forall (fun r => req_status r = waiting) w /\
    (Forall (fun r => req_mode r = shared) g \/ exists t, g = [(t, exclusive, granted)]);
}.

Lemma entry_ok_new mode cnt : entry_ok (lock_entry_new mode cnt).
Proof.
  split; cbn; [apply NoDup_nil_2|done|]. exists [], []. split_and!; [done..|by left].
Qed.

Lemma entry_ok_enqueue txn mode e :
  mode <> none -> txn ∉ (req_txn <$> wait_list e) -> entry_ok e -> entry_ok (enqueue txn mode e).
Proof.
  intros Hm Hn [Ht Hmo (g & w & Hl & Hg & Hw & Hs)]. split; cbn.
  - rewrite fmap_app. apply NoDup_app. split_and!; [done| |apply NoDup_singleton]. intros x Hx Hin.
    apply list_elem_of_singleton in Hin as ->. done.
  - apply Forall_app. split; [done|]. by apply Forall_singleton.
  - exists g, (w ++ [(txn, mode, waiting)]). rewrite Hl, app_assoc. split_and!; [done..| |done].
    apply Forall_app. split; [done|]. by apply Forall_singleton.
Qed.

Lemma Forall_filter_keep {A} (P Q : A -> Prop) `{!forall x, Decision (P x)} (l : list A) :
  Forall Q l -> Forall Q (filter P l).
Proof. rewrite !Forall_forall. intros Hl x [_ Hx]%list_elem_of_filter. by apply Hl. Qed.

Lemma release_list txn e :
  wait_list (release txn e).1 = filter (fun r => r <> (txn, current_lock_mode e, granted)) (wait_list e).
Proof. unfold release. by repeat case_match. Qed.

Lemma entry_ok_release txn e : entry_ok e -> entry_ok (release txn e).1.
Proof.
  intros [Ht Hmo (g & w & Hl & Hg & Hw & Hs)]. split; rewrite release_list.
  - by apply NoDup_filter_fmap.
  - by apply Forall_filter_keep.
  - eexists _, _. rewrite Hl, filter_app. split_and!; [done|by apply Forall_filter_keep..|].
    destruct Hs as [Hs|[t ->]]; [left; by apply Forall_filter_keep|].
    rewrite filter_cons. case_decide; [right; by exists t|left; done].
Qed.

(** The shared scan grants at the end of the granted prefix, if that is all shared. *)
Lemma shared_scan_true l txn mode a b l' :
  shared_scan l txn mode a b = Some (true, l') ->
  exists pre r post, l = pre ++ r :: post /\ l' = pre ++ (txn, mode, granted) :: post /\ req_txn r = txn /\
    a = true /\ b = true /\ Forall (fun r => req_mode r = shared /\ req_status r = granted) pre.
Proof.
  revert a b l'. induction l as [|r l IH]; intros a b l' Hs; cbn in Hs; [done|].
  destruct (Z.eqb_spec (req_txn r) txn) as [Heq|].
  - destruct a, b; cbn in Hs; simplify_eq. by exists [], r, l.
  - destruct (shared_scan l txn mode _ _) as [[ok l1]|] eqn:E; cbn in Hs; simplify_eq.
    apply IH in E as (pre & r' & post & -> & -> & Hr & Ha & Hb & Hpre).
    apply andb_true_iff in Ha as [-> Hm%bool_decide_eq_true], Hb as [-> Hst%bool_decide_eq_true].
    exists (r :: pre), r', post. split_and!; try done. by apply Forall_cons.
Qed.

(** A list of distinct transactions determines its element from the transaction. *)
Lemma request_unique (l : list request) r1 r2 :
  NoDup (req_txn <$> l) -> r1 ∈ l -> r2 ∈ l -> req_txn r1 = req_txn r2 -> r1 = r2.
Proof.
  induction l as [|r l IH]; intros Hnd H1 H2 Heq; [by apply not_elem_of_nil in H1|].
  cbn in Hnd. apply NoDup_cons in Hnd as [Hr Hnd].
  apply elem_of_cons in H1 as [->|H1], H2 as [->|H2]; [done| | |by apply IH]; exfalso; apply Hr.
  - rewrite Heq. by apply list_elem_of_fmap_2.
  - rewrite <-Heq. by apply list_elem_of_fmap_2.
Qed.

(** Behind a waiting request all wait. *)
Lemma waiting_suffix (g w pre post : list request) r :
  g ++ w = pre ++ r :: post -> Forall (fun r => req_status r = granted) g -> Forall (fun r => req_status r = waiting) w ->
  req_status r = waiting -> Forall (fun r => req_status r = waiting) post.
Proof.
  revert pre. induction g as [|x g IH]; intros pre Heq Hg Hw Hr; cbn in Heq.
  - subst w. apply Forall_app in Hw as [_ Hw]. by apply Forall_cons in Hw as [_ ?].
  - apply Forall_cons in Hg as [Hx Hg]. destruct pre as [|y pre]; simplify_eq/=; [congruence|by eapply IH].
Qed.

Lemma entry_ok_wake txn mode e ok e' :
  entry_ok e -> (txn, mode, waiting) ∈ wait_list e -> wait_predicate txn mode e = inl (ok, e') -> entry_ok e'.
Proof.
  intros [Ht Hmo (g & w & Hl & Hg & Hw & Hs)] Hin Hp.
  assert (mode <> none) as Hmode by (rewrite Forall_forall in Hmo; apply (Hmo _ Hin)).
  destruct mode; [done| |]; cbn in Hp.
  - destruct (shared_scan (wait_list e) txn shared true true) as [[[] l']|] eqn:Hsc; simplify_eq; [|split; eauto 6].
    apply shared_scan_true in Hsc as (pre & r & post & Hpre & -> & Hr & _ & _ & Hall).
    assert (r = (txn, shared, waiting)) as -> by (apply (request_unique (wait_list e)); [done|rewrite Hpre; set_solver|done|done]).
    pose proof (waiting_suffix g w pre post _ (eq_trans (eq_sym Hl) Hpre) Hg Hw eq_refl) as Hpost.
    rewrite Hpre in Ht, Hmo. split; cbn.
    + by rewrite fmap_app in *.
    + apply Forall_app in Hmo as [? [? ?]%Forall_cons]. apply Forall_app. split; [done|]. by apply Forall_cons.
    + exists (pre ++ [(txn, shared, granted)]), post. rewrite <-app_assoc. cbn. split_and!; [done| |done|left];
        apply Forall_app; (split; [eapply Forall_impl; [exact Hall|naive_solver]|by apply Forall_singleton]).
  - destruct (wait_list e) as [|r l] eqn:Hwl; [done|]. destruct (Z.eqb_spec (req_txn r) txn); simplify_eq; [|split; rewrite Hwl; eauto 6].
    assert (r = (req_txn r, exclusive, waiting)) as Hr by (apply (request_unique (r :: l)); [done|by left|done|done]).
    assert (Forall (fun r => req_status r = waiting) l) as Hpost.
    { apply (waiting_suffix g w [] l r); [done|done|done|by rewrite Hr]. }
    split; cbn.
    + done.
    + apply Forall_cons in Hmo as [? ?]. by apply Forall_cons.
    + exists [(req_txn r, exclusive, granted)], l. split_and!; [done|by apply Forall_singleton|done|right; by eexists].
Qed.

Lemma step_ok e e' : step e e' -> entry_ok e -> entry_ok e'.
Proof.
  intros Hs OK. destruct Hs; [by apply entry_ok_enqueue|by eapply entry_ok_wake|by apply entry_ok_release].
Qed.

Lemma steps_ok e e' : steps e e' -> entry_ok e -> entry_ok e'.
Proof. intros Hs. induction Hs; [done|]. intros OK. apply IHHs. by eapply step_ok. Qed.

(** * Shared locks stay *)

(** A shared request that is granted while current_lock_mode is not shared. *)
Definition shared_held (e : lock_entry) : Prop :=
  current_lock_mode e <> shared /\ exists t, (t, shared, granted) ∈ wait_list e.

(** Nothing ever sets current_lock_mode to shared. *)
Lemma step_mode e e' : step e e' -> current_lock_mode e <> shared -> current_lock_mode e' <> shared.
Proof.
  intros Hs Hm. destruct Hs as [txn mode e| txn mode e ok e' Hin Hp|txn e]; cbn; [done| |].
  - destruct mode; cbn in Hp; [| |by repeat case_match; simplify_eq].
    + by destruct (shared_scan (wait_list e) txn none true true) as [[[] l']|]; simplify_eq.
    + by destruct (shared_scan (wait_list e) txn shared true true) as [[[] l']|]; simplify_eq.
  - unfold release. destruct (current_lock_mode e); done.
Qed.

Lemma step_shared_stays e e' t :
  entry_ok e -> step e e' -> current_lock_mode e <> shared -> (t, shared, granted) ∈ wait_list e -> (t, shared, granted) ∈ wait_list e'.
Proof.
  intros OK Hs Hm Ht. destruct Hs as [txn mode e| txn mode e ok e' Hin Hp|txn e].
  - cbn. set_solver.
  - destruct OK as [Htx Hmo _]. destruct mode; cbn in Hp.
    + rewrite Forall_forall in Hmo. by destruct (Hmo _ Hin).
    + destruct (shared_scan (wait_list e) txn shared true true) as [[[] l']|] eqn:Hsc; simplify_eq; [|done].
      apply shared_scan_true in Hsc as (pre & r & post & Hpre & -> & Hr & _). cbn.
      rewrite Hpre in Ht. assert ((t, shared, granted) <> r); [|set_solver]. intros <-.
      assert ((t, shared, granted) = (txn, shared, waiting)); [|done].
      apply (request_unique (wait_list e)); [done|rewrite Hpre; set_solver|done|done].
    + destruct (wait_list e) as [|r l] eqn:Hwl; [done|]. destruct (Z.eqb_spec (req_txn r) txn); simplify_eq; [|by rewrite Hwl].
      cbn. apply elem_of_cons in Ht as [Heq|Ht]; [|by right].
      assert (r = (req_txn r, exclusive, waiting)) as Hr by (apply (request_unique (r :: l)); [done|by left|done|done]).
      congruence.
  - rewrite release_list. apply list_elem_of_filter. split; [|done]. intros [= -> Hmode]. done.
Qed.

(** * The table of entries *)

(** A pointer variable: never written, null, or the address of an entry. *)
Inductive tptr := uninit | null | addr (l : positive).

Record table_entry := mk_table_entry {
  te_entry : lock_entry; te_item : option Z; te_next : tptr; te_prev : tptr }.

Record lock_table := mk_lock_table {
  table_size_ : Z;
  table_ : list tptr;
  lt_heap : gmap positive table_entry;
  lt_next : positive;
}.

Definition set_table t (s : lock_table) := mk_lock_table (table_size_ s) t (lt_heap s) (lt_next s).
Definition set_lheap h (s : lock_table) := mk_lock_table (table_size_ s) (table_ s) h (lt_next s).

(** lock_table::lock_table; the array is not initialised. *)
Definition lock_table_new (size : Z) : lock_table :=
  mk_lock_table size (replicate (Z.to_nat size) uninit) ∅ 1.

Abbreviation T := (M lock_table).

Definition deref (p : tptr) : T positive :=
  match p with
  | uninit => undef uninitialised_read
  | null => undef null_deref
  | addr l => mret l
  end.
Definition load_entry (p : tptr) : T table_entry :=
  l ← deref p; h ← gets lt_heap; of_option dangling_deref (h !! l).
Definition update_entry (p : tptr) (f : table_entry -> table_entry) : T unit :=
  l ← deref p; h ← gets lt_heap;
  e ← of_option dangling_deref (h !! l);
  modify (set_lheap (<[l := f e]> h)).
Definition free_entry (p : tptr) : T unit :=
  l ← deref p; h ← gets lt_heap;
  _ ← of_option dangling_deref (h !! l);
  modify (set_lheap (delete l h)).
Definition te_set_next (p : tptr) (e : table_entry) := mk_table_entry (te_entry e) (te_item e) p (te_prev e).
Definition te_set_prev (p : tptr) (e : table_entry) := mk_table_entry (te_entry e) (te_item e) (te_next e) p.

(** lock_table::hash: the address as an int, remainder with the sign of the dividend *)
Definition table_hash (item : Z) : T Z :=
  n ← gets table_size_; mret (Z.rem (to_signed 32 item) n).
Definition table_at (pos : Z) : T tptr :=
  t ← gets table_;
  if pos <? 0 then undef out_of_bounds else of_option out_of_bounds (t !! Z.to_nat pos).
Definition table_set (pos : Z) (p : tptr) : T unit :=
  t ← gets table_; modify (set_table (<[Z.to_nat pos := p]> t)).

(** A pointer test "pointer != nullptr" *)
Definition is_null (p : tptr) : T bool :=
  match p with uninit => undef uninitialised_read | null => mret true | addr _ => mret false end.

(** The while loop of lock_table::search; a chain has at most as many entries as are allocated. *)
Fixpoint search_loop (fuel : nat) (item : Z) (pointer : tptr) : T tptr :=
  match fuel with
  | O => blocked
  | S fuel =>
      z ← is_null pointer;
      if (z : bool) then mret null else
      e ← load_entry pointer;
      i ← of_option uninitialised_read (te_item e);
      if item =? i then mret pointer else search_loop fuel item (te_next e)
  end.

(** lock_table::search *)
Definition search (item : Z) : T tptr :=
  pos ← table_hash item;
  p ← table_at pos;
  h ← gets lt_heap;
  search_loop (S (size h)) item p.

(** lock_table::add; the new entry's item is never set, and the old head is written
    through without a test. *)
Definition table_add (item : Z) : T tptr :=
  pointer ← search item;
  z ← is_null pointer;
  if negb (z : bool) then mret pointer else
  pos ← table_hash item;
  head ← table_at pos;
  l ← gets lt_next;
  h ← gets lt_heap;
  _ ← modify (fun s => mk_lock_table (table_size_ s) (table_ s)
         (<[l := mk_table_entry (lock_entry_new none 0) None uninit uninit]> h) (Pos.succ l));
  _ ← table_set pos (addr l);
  _ ← update_entry (addr l) (te_set_next head);
  _ ← update_entry (addr l) (te_set_prev null);
  _ ← update_entry head (te_set_prev (addr l));
  mret (addr l).

Definition tptr_eqb (p q : tptr) : bool :=
  match p, q with
  | addr l, addr l' => bool_decide (l = l')
  | null, null | uninit, uninit => true
  | _, _ => false
  end.

(** lock_table::remove *)
Definition table_remove (item : Z) : T bool :=
  pointer ← search item;
  z ← is_null pointer;
  if (z : bool) then mret false else
  pos ← table_hash item;
  first ← table_at pos;
  e ← load_entry pointer;
  if tptr_eqb pointer first then
    _ ← table_set pos (te_next e); _ ← free_entry pointer; mret true
  else
    zn ← is_null (te_next e);
    if (zn : bool) then
      _ ← update_entry (te_prev e) (te_set_next null); _ ← free_entry pointer; mret true
    else
      _ ← update_entry (te_next e) (te_set_prev (te_prev e));
      _ ← update_entry (te_prev e) (te_set_next (te_next e));
      _ ← free_entry pointer; mret true.

(** The inner loop of lock_table::~lock_table; every round releases an entry. *)
Fixpoint free_entries (fuel : nat) (pointer : tptr) : T unit :=
  match fuel with
  | O => blocked
  | S fuel =>
      z ← is_null pointer;
      if (z : bool) then mret tt else
      e ← load_entry pointer;
      _ ← free_entry pointer;
      free_entries fuel (te_next e)
  end.
Fixpoint free_buckets (n : nat) (i : Z) : T unit :=
  match n with
  | O => mret tt
  | S n =>
      p ← table_at i;
      h ← gets lt_heap;
      _ ← free_entries (S (size h)) p;
      free_buckets n (i + 1)
  end.

(** lock_table::~lock_table; i is a size_t, so a negative table_size_ is a huge bound *)
Definition lock_table_destroy : T unit :=
  n ← gets table_size_;
  _ ← free_buckets (Z.to_nat (to_unsigned 64 n)) 0;
  modify (set_table []).

(** lock_manager::lock_manager and lock_manager::~lock_manager *)
Definition lock_manager_new : lock_table := lock_table_new 1024.
Definition lock_manager_destroy : T unit := lock_table_destroy.

(** ** Destroying a table *)

(** Following next from [p] one passes exactly the entries [ls]. *)
Fixpoint chain (h : gmap positive table_entry) (p : tptr) (ls : list positive) : Prop :=
  match ls with
  | [] => p = null
  | l :: ls => p = addr l /\ exists e, h !! l = Some e /\ chain h (te_next e) ls
  end.

Lemma chain_frame h h' p ls : (forall l, l ∈ ls -> h' !! l = h !! l) -> chain h p ls -> chain h' p ls.
Proof.
  revert p. induction ls as [|l ls IH]; intros p Hf; cbn; [done|]. intros (-> & e & He & Hc). split; [done|].
  exists e. rewrite Hf by left. split; [done|]. apply IH; [|done]. intros l' Hl'. apply Hf. by right.
Qed.

Lemma chain_size h ls p : chain h p ls -> NoDup ls -> (length ls <= size h)%nat.
Proof.
  intros Hc Hnd. rewrite <-size_dom, <-(size_list_to_set (C := gset positive) ls Hnd). apply subseteq_size.
  intros l Hl%elem_of_list_to_set. apply elem_of_dom. revert p Hc. clear Hnd.
  induction ls as [|l' ls IH]; intros p Hc; [by apply elem_of_nil in Hl|]. destruct Hc as (-> & e & He & Hc).
  apply elem_of_cons in Hl as [->|Hl]; [by exists e|by eapply IH].
Qed.

Definition drop_entries (ls : list positive) (s : lock_table) : lock_table :=
  set_lheap (filter (fun x => x.1 ∉ ls) (lt_heap s)) s.

Lemma load_entry_ret l e s : lt_heap s !! l = Some e -> load_entry (addr l) s = Ret e s.
Proof. intros He. unfold load_entry, deref, mbind, M_bind, mret, M_ret, gets. by rewrite He. Qed.

Lemma free_entry_ret l e s : lt_heap s !! l = Some e -> free_entry (addr l) s = Ret tt (set_lheap (delete l (lt_heap s)) s).
Proof. intros He. unfold free_entry, deref, mbind, M_bind, mret, M_ret, gets. by rewrite He. Qed.

Lemma free_entries_ret fuel p ls s :
  chain (lt_heap s) p ls -> NoDup ls -> (length ls < fuel)%nat -> free_entries fuel p s = Ret tt (drop_entries ls s).
Proof.
  revert fuel p s. induction ls as [|l ls IH]; intros [|fuel] p s Hc Hnd Hf; cbn in Hf; try lia; cbn [free_entries chain] in *.
  - subst p. unfold drop_entries. rewrite map_filter_id by (intros; apply not_elem_of_nil). by destruct s.
  - destruct Hc as (-> & e & He & Hc). apply NoDup_cons in Hnd as [Hl Hnd].
    rewrite (bind_ret _ _ _ false s) by done. rewrite (bind_ret _ _ _ _ _ (load_entry_ret l e s He)), (bind_ret _ _ _ _ _ (free_entry_ret l e s He)).
    rewrite IH; [|eapply chain_frame; [|exact Hc]; intros l' Hl'; cbn; rewrite lookup_delete_ne; [done|]; by intros ->|done|lia].
    unfold drop_entries, set_lheap. cbn. do 2 f_equal. apply map_eq. intros k. apply option_eq. intros x.
    rewrite !map_lookup_filter_Some, lookup_delete_Some, not_elem_of_cons. naive_solver.
Qed.

Lemma drop_entries_app ls ks s : drop_entries ks (drop_entries ls s) = drop_entries (ls ++ ks) s.
Proof.
  unfold drop_entries, set_lheap. cbn. f_equal. apply map_eq. intros k. apply option_eq. intros x.
  rewrite !map_lookup_filter_Some, not_elem_of_app. naive_solver.
Qed.

Lemma free_buckets_ret chs i s :
  (forall k ch, chs !! k = Some ch -> exists p, table_ s !! (i + k)%nat = Some p /\ chain (lt_heap s) p ch) -> NoDup (concat chs) ->
  free_buckets (length chs) (Z.of_nat i) s = Ret tt (drop_entries (concat chs) s).
Proof.
  revert i s. induction chs as [|ch chs IH]; intros i s Hc Hnd; cbn [free_buckets length concat] in *.
  { unfold drop_entries. rewrite map_filter_id by (intros; apply not_elem_of_nil). by destruct s. }
  apply NoDup_app in Hnd as (Hn1 & Hn2 & Hn3). destruct (Hc 0%nat ch eq_refl) as (p & Hp & Hch). rewrite Nat.add_0_r in Hp.
  rewrite (bind_ret _ _ _ p s).
  2:{ unfold table_at. rewrite (bind_ret _ _ _ (table_ s) s) by done. rewrite (proj2 (Z.ltb_ge _ _)), Nat2Z.id, Hp by lia. done. }
  rewrite (bind_ret _ _ _ (lt_heap s) s) by done. pose proof (chain_size _ _ _ Hch Hn1).
  rewrite (bind_ret _ _ _ tt (drop_entries ch s)) by (apply free_entries_ret; [done|done|lia]).
  replace (Z.of_nat i + 1) with (Z.of_nat (S i)) by lia. rewrite IH, drop_entries_app; [done| |done].
  intros k c Hk. destruct (Hc (S k) c Hk) as (q & Hq & Hcq). exists q. split; [rewrite <-Hq; cbn; f_equal; lia|].
  eapply chain_frame; [|exact Hcq]. intros l Hl. cbn. assert (l ∉ ch) as Hn.
  { intros Hin. apply (Hn2 l Hin). apply list_elem_of_In, in_concat. exists c. split; apply list_elem_of_In; [by eapply list_elem_of_lookup_2|done]. }
  destruct (lt_heap s !! l) as [e|] eqn:E; [by apply map_lookup_filter_Some|]. apply map_lookup_filter_None. by left.
Qed.

(** * Properties *)

(** C10. Mutual exclusion and order on one lock entry, from its construction to its
    deletion, for requests in shared or exclusive mode, at most one per transaction in the
    list.  However the threads interleave (their critical
    sections, the test for an empty list that unlock makes without the mutex, and the
    removal), two granted requests of the entry are both shared, and a request is granted
    only when all requests that arrived before it and are still there are granted.  This is
    about the requests of one entry object: removal_race shows that an entry can be deleted
    with a granted request in it. *)
Theorem lock_mutual_exclusion (mode : lock_mode) (cnt : Z) (l : entry_life) :
  life_steps (life_new mode cnt) l ->
  let e := el_entry l in
  (forall i j r1 r2, i <> j -> wait_list e !! i = Some r1 -> wait_list e !! j = Some r2 ->
     req_status r1 = granted -> req_status r2 = granted -> req_mode r1 = shared /\ req_mode r2 = shared) /\
  (forall i j r1 r2, (i < j)%nat -> wait_list e !! i = Some r1 -> wait_list e !! j = Some r2 ->
     req_status r2 = granted -> req_status r1 = granted).
Proof.
  intros Hs%life_steps_entry e. destruct (steps_ok _ _ Hs (entry_ok_new mode cnt)) as [_ _ (g & w & Hl & Hg & Hw & Hm)].
  unfold e. rewrite Hl. assert (forall i r, (g ++ w) !! i = Some r -> req_status r = granted -> g !! i = Some r) as Hin.
  { intros i r [?|[_ Hi]]%lookup_app_Some Hr; [done|]. rewrite Forall_lookup in Hw. apply Hw in Hi. congruence. }
  split.
  - intros i j r1 r2 Hij H1 H2 Hr1 Hr2. apply (Hin _ _) in H1; [|done]. apply (Hin _ _) in H2; [|done].
    destruct Hm as [Hm|[t ->]]; [rewrite Forall_lookup in Hm; eauto|].
    apply list_lookup_singleton_Some in H1 as [-> _], H2 as [-> _]. done.
  - intros i j r1 r2 Hij H1 H2 Hr2. pose proof (Hin _ _ H2 Hr2) as Hj. apply lookup_lt_Some in Hj.
    rewrite lookup_app_l in H1 by lia. rewrite Forall_lookup in Hg. eauto.
Qed.

Definition demo_lock : lock_entry := mk_lock_entry [(1, shared, granted); (2, exclusive, waiting)] none 1.

Lemma demo_lock_steps : steps (lock_entry_new none 0) demo_lock.
Proof.
  eapply rtc_l; [apply (step_enqueue 1 shared); [done|apply not_elem_of_nil]|].
  eapply rtc_l; [eapply (step_wake 1 shared); [by left|reflexivity]|].
  eapply rtc_l; [apply (step_enqueue 2 exclusive); [done|cbn; set_solver]|].
  apply rtc_refl.
Defined.

(** Transaction 1 locks, then 2 asks and has to wait *)
Definition demo_life : entry_life := mk_entry_life demo_lock [] [] 0 0 true.

Lemma demo_life_steps : life_steps (life_new none 0) demo_life.
Proof.
  eapply rtc_l; [apply (life_add 1 shared)|].
  eapply rtc_l; [apply (life_enqueue 1 shared _ [] []); [done|apply not_elem_of_nil]|].
  eapply rtc_l; [eapply (life_wake 1 shared); [by left|reflexivity]|].
  eapply rtc_l; [apply (life_add 2 exclusive)|].
  eapply rtc_l; [apply (life_enqueue 2 exclusive _ [] []); [done|cbn; set_solver]|].
  apply rtc_refl.
Defined.

Lemma lock_mutual_exclusion_witness :
  (forall i j r1 r2, i <> j -> wait_list demo_lock !! i = Some r1 -> wait_list demo_lock !! j = Some r2 ->
     req_status r1 = granted -> req_status r2 = granted -> req_mode r1 = shared /\ req_mode r2 = shared) /\
  (forall i j r1 r2, (i < j)%nat -> wait_list demo_lock !! i = Some r1 -> wait_list demo_lock !! j = Some r2 ->
     req_status r2 = granted -> req_status r1 = granted).
Proof. apply (lock_mutual_exclusion none 0 demo_life). apply demo_life_steps. Defined.

(** unlock tests for an empty list and removes the entry without holding its mutex.  A
    transaction that locks in between has its exclusive lock granted on an entry that is
    then deleted, so that the next request for the item, on a new entry, is granted too;
    and one that holds the pointer when the entry is deleted goes on to use it. *)
Theorem removal_race (cnt : Z) :
  (exists l, life_steps (life_new none cnt) l /\ el_alive l = false /\ (2, exclusive, granted) ∈ wait_list (el_entry l)) /\
  (exists l, life_steps (life_new none cnt) l /\ el_alive l = false /\ (2, exclusive) ∈ el_locking l).
Proof.
  split; eexists; (split; [|split]).
  - eapply rtc_l; [apply (life_add 1 exclusive)|]. eapply rtc_l; [apply (life_enqueue 1 exclusive _ [] []); [done|apply not_elem_of_nil]|].
    eapply rtc_l; [eapply (life_wake 1 exclusive); [by left|reflexivity]|]. eapply rtc_l; [apply (life_search 1)|].
    eapply rtc_l; [apply (life_release 1 _ _ [] [])|]. eapply rtc_l; [apply life_test|].
    eapply rtc_l; [apply (life_add 2 exclusive)|]. eapply rtc_l; [apply (life_enqueue 2 exclusive _ [] []); [done|apply not_elem_of_nil]|].
    eapply rtc_l; [eapply (life_wake 2 exclusive); [by left|reflexivity]|]. apply rtc_once, life_remove.
  - done.
  - by left.
  - eapply rtc_l; [apply (life_add 1 exclusive)|]. eapply rtc_l; [apply (life_enqueue 1 exclusive _ [] []); [done|apply not_elem_of_nil]|].
    eapply rtc_l; [eapply (life_wake 1 exclusive); [by left|reflexivity]|]. eapply rtc_l; [apply (life_search 1)|].
    eapply rtc_l; [apply (life_release 1 _ _ [] [])|]. eapply rtc_l; [apply (life_add 2 exclusive)|].
    eapply rtc_l; [apply life_test|]. apply rtc_once, life_remove.
  - done.
  - by left.
Qed.

(** C12. An exclusive lock is handed over: when its holder unlocks, its request leaves the
    list, the waiters are notified, and the next request in line, shared or exclusive, finds
    its predicate true. *)
Theorem exclusive_handover (e : lock_entry) (t t2 : txn_id_t) (m2 : lock_mode) (l : list request) :
  entry_ok e -> wait_list e = (t, exclusive, granted) :: (t2, m2, waiting) :: l -> current_lock_mode e = exclusive ->
  let e1 := (release t e).1 in
  wait_list e1 = (t2, m2, waiting) :: l /\ (release t e).2 = true /\
  exists e2, wait_predicate t2 m2 e1 = inl (true, e2) /\ wait_list e2 = (t2, m2, granted) :: l.
Proof.
  intros OK Hl Hm e1. pose proof (entry_ok_release t e OK) as OK1. destruct OK as [Ht Hmo _].
  assert (wait_list e1 = (t2, m2, waiting) :: l) as Hl1.
  { unfold e1. rewrite release_list, Hl, Hm, filter_cons_False by naive_solver.
    apply filter_all. intros r Hr ->. rewrite Hl in Ht. cbn in Ht. apply NoDup_cons in Ht as [Hn _]. apply Hn.
    by apply (list_elem_of_fmap_2 req_txn) in Hr. }
  split_and!; [done|unfold release; by rewrite Hm|].
  rewrite Hl in Hmo. apply Forall_cons in Hmo as [_ [Hm2 _]%Forall_cons]. cbn in Hm2.
  unfold wait_predicate. rewrite Hl1. cbn. rewrite Z.eqb_refl. destruct m2; [done|by eexists..].
Qed.

Lemma exclusive_handover_witness :
  let e := mk_lock_entry [(1, exclusive, granted); (2, shared, waiting)] exclusive 0 in
  wait_list (release 1 e).1 = [(2, shared, waiting)] /\ (release 1 e).2 = true /\
  exists e2, wait_predicate 2 shared (release 1 e).1 = inl (true, e2) /\ wait_list e2 = [(2, shared, granted)].
Proof.
  apply (exclusive_handover (mk_lock_entry [(1, exclusive, granted); (2, shared, waiting)] exclusive 0) 1 2 shared []);
    [|reflexivity..].
  split; cbn.
  - apply NoDup_cons. split; [set_solver|apply NoDup_singleton].
  - repeat constructor; discriminate.
  - exists [(1, exclusive, granted)], [(2, shared, waiting)]. split_and!; [reflexivity|by apply Forall_singleton..|].
    right. by exists 1.
Defined.

(** A shared lock is never released.  lock never sets current_lock_mode to shared, so
    unlock looks for a record of another mode: from an entry whose mode is not shared, a
    granted shared request stays in the list through every later step, unlocks included,
    and no exclusive request is ever granted again. *)
Theorem shared_lock_never_released (mode : lock_mode) (cnt : Z) (e e' : lock_entry) (t : txn_id_t) :
  mode <> shared -> steps (lock_entry_new mode cnt) e -> (t, shared, granted) ∈ wait_list e -> steps e e' ->
  (t, shared, granted) ∈ wait_list e' /\ forall t', (t', exclusive, granted) ∉ wait_list e'.
Proof.
  intros Hm Hs Ht Hs'. pose proof (steps_ok _ _ Hs (entry_ok_new mode cnt)) as OK.
  assert (current_lock_mode e <> shared) as Hme.
  { clear Ht Hs' OK. revert Hm. change mode with (current_lock_mode (lock_entry_new mode cnt)) at 1.
    induction Hs; [done|]. intros Hm. by eapply IHHs, step_mode. }
  clear Hs. assert ((t, shared, granted) ∈ wait_list e' /\ entry_ok e') as [Ht' OK'].
  { induction Hs' as [|e1 e2 e3 H12 H23 IH]; [done|].
    apply IH; [by eapply step_shared_stays|by eapply step_ok|by eapply step_mode]. }
  split; [done|]. intros t' Hx. destruct OK' as [_ _ (g & w & Hl & Hg & Hw & Hs)]. rewrite Hl in Ht', Hx.
  rewrite Forall_forall in Hw. apply elem_of_app in Ht' as [Ht'|?%Hw], Hx as [Hx|?%Hw]; try done.
  destruct Hs as [Hs|[t0 ->]]; [rewrite Forall_forall in Hs; by apply Hs in Hx|].
  by apply list_elem_of_singleton in Ht'.
Qed.

Lemma shared_lock_never_released_witness :
  (1, shared, granted) ∈ wait_list (release 1 demo_lock).1 /\
  forall t', (t', exclusive, granted) ∉ wait_list (release 1 demo_lock).1.
Proof.
  apply (shared_lock_never_released none 0 demo_lock); [done|apply demo_lock_steps|by left|].
  apply rtc_once, step_unlock.
Defined.

(** The lock table cannot be used.  The first lock request on a new table reads an
    uninitialised bucket, for every item; and were the array zeroed, adding the first entry
    of a bucket would write through its null head. *)
Theorem lock_table_unusable (size item : Z) :
  0 < size -> 0 <= to_signed 32 item ->
  table_add item (lock_table_new size) = Undef uninitialised_read /\
  table_add item (set_table (replicate (Z.to_nat size) null) (lock_table_new size)) = Undef null_deref.
Proof.
  intros Hs Hi. assert (0 <= Z.rem (to_signed 32 item) size < size) as Hr by (apply Z.rem_bound_pos; lia).
  assert (forall p : tptr, replicate (Z.to_nat size) p !! Z.to_nat (Z.rem (to_signed 32 item) size) = Some p) as Hl.
  { intros p. apply lookup_replicate. split; [done|lia]. }
  unfold table_add, search, table_hash, table_at, gets, mbind, M_bind, mret, M_ret. cbn -[Z.rem to_signed Z.ltb].
  destruct (Z.ltb_spec (Z.rem (to_signed 32 item) size) 0); [lia|]. cbn -[Z.rem to_signed Z.ltb replicate].
  split; rewrite Hl; cbn -[Z.rem to_signed Z.ltb replicate]; [done|].
  unfold gets, mbind, M_bind, mret, M_ret. cbn -[Z.rem to_signed Z.ltb replicate].
  destruct (Z.ltb_spec (Z.rem (to_signed 32 item) size) 0); [lia|]. rewrite Hl. cbn -[Z.rem to_signed Z.ltb replicate].
  done.
Qed.

Lemma lock_table_unusable_witness :
  table_add 5 (lock_table_new 1024) = Undef uninitialised_read /\
  table_add 5 (set_table (replicate (Z.to_nat 1024) null) (lock_table_new 1024)) = Undef null_deref.
Proof. apply (lock_table_unusable 1024 5); [lia|vm_compute; discriminate]. Defined.

(** C20. The destructor of a lock table: on a table as the constructor leaves it, it reads an
    uninitialised bucket; on a table whose buckets are the chains [chs] of its entries
    it releases every entry exactly once. *)
Theorem lock_table_destroyed (size : Z) (s : lock_table) (chs : list (list positive)) :
  (0 < size < 2 ^ 64 -> lock_table_destroy (lock_table_new size) = Undef uninitialised_read) /\
  (0 <= table_size_ s < 2 ^ 64 -> length chs = Z.to_nat (table_size_ s) -> Forall2 (chain (lt_heap s)) (table_ s) chs -> NoDup (concat chs) ->
   (forall l, is_Some (lt_heap s !! l) -> l ∈ concat chs) ->
   exists s', lock_table_destroy s = Ret tt s' /\ lt_heap s' = ∅ /\ table_ s' = []).
Proof.
  split.
  - intros Hs. unfold lock_table_destroy. rewrite (bind_ret _ _ _ size (lock_table_new size)) by done.
    unfold to_unsigned. rewrite Z.mod_small by lia. destruct (Z.to_nat size) as [|n] eqn:En; [lia|]. unfold mbind, M_bind. cbn [free_buckets].
    rewrite (bind_ret _ _ _ uninit (lock_table_new size)); [done|]. unfold table_at. rewrite (bind_ret _ _ _ (replicate (Z.to_nat size) uninit) (lock_table_new size)) by done.
    by rewrite En.
  - intros Hs Hlen Hf Hnd Hdom. exists (set_table [] (drop_entries (concat chs) s)). split; [|split; [|done]].
    + unfold lock_table_destroy. rewrite (bind_ret _ _ _ (table_size_ s) s) by done. unfold to_unsigned. rewrite Z.mod_small, <-Hlen by lia.
      change 0 with (Z.of_nat 0). rewrite (bind_ret _ _ _ tt (drop_entries (concat chs) s)); [done|]. apply free_buckets_ret; [|done].
      intros k ch Hk. cbn. destruct (Forall2_lookup_r _ _ _ _ _ Hf Hk) as (p & Hp & Hch). by exists p.
    + cbn. apply map_empty. intros l. apply map_lookup_filter_None. destruct (lt_heap s !! l) as [e|] eqn:E; [right|by left].
      intros x Hx. cbn. intros Hn. apply Hn, Hdom. by exists e.
Qed.

Lemma lock_table_destroyed_witness :
  let s := mk_lock_table 2 [addr 1; null] {[ 1%positive := mk_table_entry (lock_entry_new none 0) None null null ]} 2 in
  lock_table_destroy (lock_table_new 1024) = Undef uninitialised_read /\
  exists s', lock_table_destroy s = Ret tt s' /\ lt_heap s' = ∅ /\ table_ s' = [].
Proof.
  intros s. destruct (lock_table_destroyed 1024 s [[1%positive]; []]) as [H1 H2]. split; [apply H1; lia|].
  apply H2; [cbn; lia|done| |apply NoDup_singleton|].
  - constructor; [cbn; split; [done|]; eexists; by split|]. by constructor; [|constructor].
  - intros l [e He]. cbn in He. apply lookup_singleton_Some in He as [<- _]. left.
Defined.
