(* ===== verification/RaftCodec.v ===== *)
(** The wire format of the consensus messages: src/consensus/raft/rpc_args.cc and
    log.cc over the codec of src/network/rpc/codec.{h,cc}, and rpc::hash of
    src/network/rpc/rpc.cc.  Messages go through the ring buffer; the stack
    arrays they are built in start with whatever was there. *)
From S2P Require Import Prelude Varint RingBuffer Raft.

(** * Building a message *)

(** [bytes += varint::encode_uint(buf, v)] for each field: every call starts at
    the beginning of [buf] again. *)
Definition encode_fields (scratch : list byte) (vs : list Z) : list byte * Z :=
  foldl (fun '(s, n) v => (splice s 0 (encode_uint (u64 v)), n + Z.of_nat (length (encode_uint (u64 v))))) (scratch, 0) vs.

(** [b->put(buf, bytes)] from a stack array. *)
Definition put_scratch (scratch : list byte) (bytes : Z) : M buffer unit :=
  if Z.of_nat (length scratch) <? bytes then undef out_of_bounds else put_block (take (Z.to_nat bytes) scratch).

(** [b->put(uint16_t(n))] selects put(char). *)
Definition put_u16 (n : Z) : M buffer unit := put (byte_of_Z (n mod 2 ^ 16)).

Definition put_fields (scratch : list byte) (vs : list Z) : M buffer unit :=
  let '(scratch, bytes) := encode_fields scratch vs in
  _ ← put_u16 bytes;
  put_scratch scratch bytes.

Definition bit (b : bool) : Z := if b then 1 else 0.

(** operator<< of the four messages and of a log entry; [buf] is the local
    array of 40, 20, 50 or 20 characters. *)
Definition put_request_vote_args (buf : list byte) (args : request_vote_args) : M buffer unit :=
  put_fields buf [rv_term args; rv_candidate_id args; rv_last_log_index args; rv_last_log_index args].

Definition put_request_vote_reply (buf : list byte) (args : request_vote_reply) : M buffer unit :=
  put_fields buf [rvr_term args; bit (rvr_vote_granted args)].

Definition put_append_entries_reply (buf : list byte) (args : append_entries_reply) : M buffer unit :=
  put_fields buf [aer_term args; bit (aer_success args)].

Definition entry_fields (e : log) : list Z := [index e; term e].

(** The number of entries is kept in a uint16_t. *)
Definition put_append_entries_args (buf bbuf : list byte) (args : append_entries_args) : M buffer unit :=
  let '(buf, bytes) := encode_fields buf
    [ae_term args; ae_leader_id args; ae_prev_log_index args; ae_prev_log_term args; ae_leader_commit args] in
  let size := Z.of_nat (length (ae_log_entries args)) mod 2 ^ 16 in
  let '(bbuf, bytes2) := encode_fields bbuf (take (Z.to_nat size) (ae_log_entries args) ≫= entry_fields) in
  _ ← put_u16 (bytes + bytes2);
  _ ← put_u16 size;
  _ ← put_scratch buf bytes;
  put_scratch bbuf bytes2.

Definition put_log (buf : list byte) (e : log) : M buffer unit :=
  let '(buf, bytes) := encode_fields buf (entry_fields e) in
  _ ← put (byte_of_Z bytes);
  _ ← put (byte_of_Z (Z.shiftr bytes 8));
  put_scratch buf bytes.

(** codec: operator<<(rpc_id_t) *)
Definition put_rpc_id (buf : list byte) (rid : Z) : M buffer unit :=
  put_scratch (splice buf 0 (encode_uint (u64 rid))) (Z.of_nat (length (encode_uint (u64 rid)))).

(** * Reading a message *)

(** buffer::get_begin: the array from the tail on. *)
Definition get_begin : M buffer (list byte) :=
  l ← array; t ← gets tail_; mret (drop (Z.to_nat t) l).

(** [varint::decode_uvarint(b->get_begin(), bytes)]; the tail does not move. *)
Definition peek_uvarint : M buffer (Z * Z) :=
  data ← get_begin;
  match decode_uvarint data with inl r => mret r | inr u => undef u end.

Definition peek_varint : M buffer (Z * Z) :=
  data ← get_begin;
  match decode_varint data with inl r => mret r | inr u => undef u end.

(** The end of every operator>>: reallen is 0. *)
Definition unget_unless (bytes reallen : Z) : M buffer unit :=
  when (negb (bytes =? reallen)) (unget (bytes + 2)).

Definition get_request_vote_args : M buffer request_vote_args :=
  _ ← get_block 2;
  '(t, _) ← peek_uvarint; '(c, _) ← peek_uvarint; '(i, _) ← peek_uvarint; '(lt, bytes) ← peek_uvarint;
  _ ← unget_unless bytes 0;
  mret (mk_request_vote_args t (c mod 2 ^ 32) i lt).

Definition get_request_vote_reply : M buffer request_vote_reply :=
  _ ← get_block 2;
  '(t, _) ← peek_uvarint; '(v, bytes) ← peek_uvarint;
  _ ← unget_unless bytes 0;
  mret (mk_request_vote_reply t (negb (v mod 2 ^ 8 =? 0))).

(** The entries are not decoded: [entries] is what the argument held before. *)
Definition get_append_entries_args (entries : list log) : M buffer append_entries_args :=
  _ ← get_block 2;
  '(t, _) ← peek_uvarint; '(l, _) ← peek_uvarint; '(i, _) ← peek_uvarint; '(pt, _) ← peek_uvarint;
  '(c, bytes) ← peek_uvarint;
  _ ← get_block 2;
  _ ← unget_unless bytes 0;
  mret (mk_append_entries_args t (l mod 2 ^ 8) i pt c entries).

Definition get_append_entries_reply : M buffer append_entries_reply :=
  _ ← get_block 2;
  '(t, _) ← peek_uvarint; '(s, bytes) ← peek_uvarint;
  _ ← unget_unless bytes 0;
  mret (mk_append_entries_reply t (negb (s mod 2 ^ 8 =? 0))).

(** The length byte is read as a signed char. *)
Definition get_log : M buffer log :=
  len ← get;
  '(i, _) ← peek_uvarint; '(t, bytes) ← peek_uvarint;
  _ ← unget_unless bytes (to_signed 8 (byte_to_Z len));
  mret (mk_log i t).

(** codec: operator>>(rpc_id_t) *)
Definition get_rpc_id : M buffer Z := '(r, _) ← peek_uvarint; mret r.

(** codec::is_ready; len is an int, and the sum is compared with a size_t. *)
Definition is_ready : M buffer bool :=
  '(v, bytes) ← peek_varint;
  n ← int_of (to_signed 32 v + bytes);
  b ← gets id;
  mret (negb (to_unsigned 64 n <? buffer_size b)).

(** rpc::hash on a C string.  Only the exclusive or is in the loop: p is advanced once,
    behind it.  Two rounds bring hashcode back to what it was, so a loop that has not ended
    by then never does, and two rounds of fuel decide it. *)
Fixpoint hash_loop (fuel : nat) (str : list byte) (hashcode : Z) : M unit Z :=
  match str with
  | [] => undef out_of_bounds
  | c :: _ =>
      if byte_to_Z c =? 0 then mret hashcode
      else match fuel with O => blocked | S fuel => hash_loop fuel str (Z.lxor hashcode (to_signed 8 (byte_to_Z c))) end
  end.
Definition rpc_hash (str : list byte) : M unit Z := hash_loop 2 str 0.

(** * Lemmas *)

Lemma encode_small v : 0 <= v < 128 -> encode_uint (u64 v) = [byte_of_Z v].
Proof.
  intros Hv. unfold u64, to_unsigned. rewrite Z.mod_small by lia. unfold encode_uint. cbn [encode_uint_loop].
  rewrite land_7f, Z.shiftr_div_pow2 by lia. change (2 ^ 7) with 128. rewrite Z.div_small, Z.mod_small by lia. done.
Qed.

Lemma decode_small c rest : byte_to_Z c < 128 -> decode_uvarint (c :: rest) = inl (byte_to_Z c, 1).
Proof.
  intros Hc. pose proof (byte_to_Z_range c). unfold decode_uvarint. cbn [decode_uvarint_loop].
  rewrite land_80, land_7f by lia. rewrite (proj2 (Z.ltb_lt _ _)) by lia.
  rewrite (Z.mod_small (byte_to_Z c) 128) by lia. cbn [Z.leb Z.compare]. rewrite Z.shiftl_0_r.
  unfold Varint.u64. by rewrite Z.mod_small by lia.
Qed.

(** What peek reads is the oldest byte in the buffer, and what follows in the array. *)
Lemma get_begin_front b l c q :
  rb_ok b l -> rb_contents b l = c :: q -> exists rest, get_begin b = Ret (c :: rest) b.
Proof.
  intros OK Hc. pose proof (length_contents b l OK) as Hlen. rewrite Hc in Hlen. cbn in Hlen.
  pose proof (contents_lookup b l 0 OK ltac:(lia)) as H0. rewrite Hc in H0. cbn in H0. injection H0 as ->.
  pose proof (rb_at_lookup b l 0 OK) as Hl. destruct OK as [Hbuf ? ? ? ? ?].
  rewrite Z.add_0_r, Z.mod_small in Hl by lia.
  exists (drop (S (Z.to_nat (tail_ b))) l). unfold get_begin, array, mbind, M_bind, gets. rewrite Hbuf. cbn [of_option mret M_ret].
  by rewrite (drop_S l _ _ Hl).
Qed.

Lemma peek_small b l c q :
  rb_ok b l -> rb_contents b l = c :: q -> byte_to_Z c < 128 -> peek_uvarint b = Ret (byte_to_Z c, 1) b.
Proof.
  intros OK Hc Hs. destruct (get_begin_front b l c q OK Hc) as [rest E].
  unfold peek_uvarint, mbind, M_bind. rewrite E. by rewrite decode_small.
Qed.

Lemma wp_unget_unless b l bytes n (Q : unit -> buffer -> Prop) E :
  rb_ok b l -> (forall b', Q tt b') -> wp (unget_unless bytes n) Q E b.
Proof.
  intros [? ? ? ? ? ?] HQ. unfold unget_unless. apply wp_when; [intros _|by intros _].
  unfold unget. wp_steps. cbn [id]. destruct (buffer_full b || (buffer_size b <? bytes + 2)); wp_steps; [done|].
  unfold mod_size. wp_steps. destruct (Z.eqb_spec (max_size_ b) 0); [lia|]. by wp_steps.
Qed.

(** The bytes request_vote puts on the wire when all fields are below 128: a
    one-byte length, the last field, and three bytes of the sender's stack. *)
Lemma encode_four_small g0 g1 g2 g3 rest a b c :
  0 <= a < 128 -> 0 <= b < 128 -> 0 <= c < 128 ->
  encode_fields (g0 :: g1 :: g2 :: g3 :: rest) [a; b; c; c] = (byte_of_Z c :: g1 :: g2 :: g3 :: rest, 4).
Proof. intros. unfold encode_fields. cbn [foldl]. rewrite !encode_small by done. done. Qed.

(** The buffer after the message was put behind what is there. *)
Lemma wp_put_vote_small b l g0 g1 g2 g3 rest args (Q : unit -> buffer -> Prop) E :
  rb_ok b l -> full_ b = false -> tail_ b <= head_ b -> head_ b + 6 <= max_size_ b ->
  0 <= rv_term args < 128 -> 0 <= rv_candidate_id args < 128 -> 0 <= rv_last_log_index args < 128 ->
  (forall b' l', rb_ok b' l' -> tail_ b' = tail_ b -> max_size_ b' = max_size_ b ->
     rb_contents b' l' = rb_contents b l ++ [byte_of_Z 4; byte_of_Z (rv_last_log_index args); g1; g2; g3] -> Q tt b') ->
  wp (put_request_vote_args (g0 :: g1 :: g2 :: g3 :: rest) args) Q E b.
Proof.
  intros OK Hfl Hht Hroom H1 H2 H3 HQ. unfold put_request_vote_args, put_fields.
  rewrite encode_four_small by done. unfold put_u16. wp_steps.
  assert (rb_size b = head_ b - tail_ b) as Hz. { unfold rb_size. rewrite Hfl. by destruct (Z.leb_spec (tail_ b) (head_ b)); [|lia]. }
  change (4 mod 2 ^ 16) with 4. apply (wp_put b l _ OK). wp_steps.
  pose proof (put_state_ok b l (byte_of_Z 4) OK) as OK1. pose proof (put_state_contents b l (byte_of_Z 4) OK) as C1.
  pose proof (put_state_size b l (byte_of_Z 4) OK) as S1. rewrite Hfl in *. destruct (OK) as [_ Hlen Hm Hh Ht _].
  set (b1 := put_state b l (byte_of_Z 4)) in *.
  assert (head_ b1 = head_ b + 1) as Hh1. { unfold b1, put_state. cbn. by rewrite Z.mod_small by lia. }
  assert (full_ b1 = false) as Hf1. { unfold b1, put_state. cbn. rewrite Hfl, Z.mod_small by lia. apply Z.eqb_neq. lia. }
  unfold put_scratch. cbn [length]. destruct (Z.ltb_spec (Z.of_nat (S (S (S (S (length rest)))))) 4); [lia|].
  change (take (Z.to_nat 4) (byte_of_Z (rv_last_log_index args) :: g1 :: g2 :: g3 :: rest)) with [byte_of_Z (rv_last_log_index args); g1; g2; g3].
  set (s := [byte_of_Z (rv_last_log_index args); g1; g2; g3]).
  assert (max_size_ b1 = max_size_ b) as Hm1 by done.
  destruct (block_state_spec b1 _ s OK1 Hf1) as [OK2 C2]; [change (length s) with 4%nat; lia..|].
  apply (wp_put_block b1 _ s _ _ OK1); [change (length s) with 4%nat; lia|].
  apply (HQ _ _ OK2); [unfold block_state, b1, put_state; cbn; by rewrite Hfl|done|]. rewrite C2, C1, <-app_assoc. done.
Qed.

(** What the receiver makes of a message: all fields are the third byte. *)
Lemma wp_get_vote_small b l x y k q (Q : request_vote_args -> buffer -> Prop) E :
  rb_ok b l -> tail_ b + 2 <= max_size_ b -> rb_contents b l = x :: y :: k :: q -> byte_to_Z k < 128 ->
  (forall b', Q (mk_request_vote_args (byte_to_Z k) (byte_to_Z k) (byte_to_Z k) (byte_to_Z k)) b') ->
  wp get_request_vote_args Q E b.
Proof.
  intros OK Hroom C Hk HQ. pose proof (length_contents b l OK) as L. rewrite C in L. cbn in L.
  unfold get_request_vote_args. wp_step. apply (wp_get_block b l 2); [done|lia| |lia|left; lia].
  intros _ _ b3 OK3 C3. rewrite C in C3. cbn in C3.
  assert (forall (Q : Z * Z -> buffer -> Prop) E, Q (byte_to_Z k, 1) b3 -> wp peek_uvarint Q E b3) as Hpeek.
  { intros Q' E' HQ'. unfold wp. by rewrite (peek_small b3 l k q). }
  do 4 (wp_step; apply Hpeek). wp_step. apply (wp_unget_unless b3 l); [done|]. intros b4. wp_steps.
  pose proof (byte_to_Z_range k). by rewrite Z.mod_small by lia.
Qed.

(** A request_vote message does not arrive: sent through an empty buffer with
    room, with all fields below 128, it is received as four copies of one byte of
    the sender's uninitialised stack array, whatever was sent. *)
Theorem request_vote_wire_garbage b l g0 g1 g2 g3 rest args :
  rb_ok b l -> full_ b = false -> head_ b = tail_ b -> head_ b + 6 <= max_size_ b ->
  0 <= rv_term args < 128 -> 0 <= rv_candidate_id args < 128 -> 0 <= rv_last_log_index args < 128 ->
  byte_to_Z g1 < 128 ->
  exists b', (_ ← put_request_vote_args (g0 :: g1 :: g2 :: g3 :: rest) args; get_request_vote_args) b =
    Ret (mk_request_vote_args (byte_to_Z g1) (byte_to_Z g1) (byte_to_Z g1) (byte_to_Z g1)) b'.
Proof.
  intros OK Hfl Hht Hroom H1 H2 H3 Hg.
  assert (wp (_ ← put_request_vote_args (g0 :: g1 :: g2 :: g3 :: rest) args; get_request_vote_args)
    (fun r _ => r = mk_request_vote_args (byte_to_Z g1) (byte_to_Z g1) (byte_to_Z g1) (byte_to_Z g1)) (fun _ _ => False) b) as Hwp.
  { assert (rb_contents b l = []) as Hnil. { unfold rb_contents, rb_size. by rewrite Hfl, Hht, Z.leb_refl, Z.sub_diag. }
    wp_step. apply (wp_put_vote_small b l); try done; [lia|]. intros b2 l2 OK2 Ht2 Hm2 C2. rewrite Hnil in C2.
    eapply (wp_get_vote_small b2 l2); [done|rewrite Ht2, Hm2; lia|exact C2|done|done]. }
  apply wp_no_exn in Hwp as (r & b' & E & ->). by exists b'.
Qed.

Lemma request_vote_wire_garbage_witness :
  exists b', (_ ← put_request_vote_args (replicate 40 Byte.x2a) (mk_request_vote_args 3 1 7 2); get_request_vote_args) (small_ring 16) =
    Ret (mk_request_vote_args 42 42 42 42) b'.
Proof.
  apply (request_vote_wire_garbage (small_ring 16) (replicate 16 Byte.x00) Byte.x2a Byte.x2a Byte.x2a Byte.x2a
    (replicate 36 Byte.x2a) (mk_request_vote_args 3 1 7 2)); cbn; try reflexivity; try lia.
  split; cbn; (done || lia).
Defined.

(** Every field of a received message is read at the same place. *)
Theorem decoded_fields_equal b :
  post get_request_vote_args (fun a _ => rv_term a = rv_last_log_index a /\ rv_term a = rv_last_log_term a /\
    rv_candidate_id a = rv_term a mod 2 ^ 32) b /\
  post get_log (fun e _ => index e = term e) b.
Proof.
  assert (forall (Q : Z * Z -> buffer -> Prop) b0, (forall r, peek_uvarint b0 = Ret r b0 -> Q r b0) -> post peek_uvarint Q b0) as Hpeek.
  { intros Q b0 HQ. unfold post. destruct (peek_uvarint b0) as [r b1| | |] eqn:E; try done.
    assert (b1 = b0) as ->; [|by apply HQ].
    revert E. unfold peek_uvarint, get_begin, array, mbind, M_bind, gets. destruct (buf_ b0); [|done]. cbn [of_option mret M_ret].
    destruct (decode_uvarint _); [|done]. intros E. unfold mret, M_ret in E. congruence. }
  assert (forall A (m : M buffer A) Q b0, (forall a b1, Q a b1) -> post m Q b0) as Htriv by (intros; unfold post; by case_match).
  split; unfold get_request_vote_args, get_log; apply post_bind, Htriv; intros ? b1.
  - do 4 (apply post_bind, Hpeek; intros [? ?] ?). apply post_bind, Htriv. intros ? ?. unfold post; cbn. intuition congruence.
  - do 2 (apply post_bind, Hpeek; intros [? ?] ?). apply post_bind, Htriv. intros ? ?. unfold post; cbn. intuition congruence.
Qed.

(** rpc::hash never returns on a non-empty name: p++ is outside the loop. *)
Theorem rpc_hash_hangs c str :
  byte_to_Z c <> 0 -> (forall fuel h, hash_loop fuel (c :: str) h tt = Blocked) /\ rpc_hash (c :: str) tt = Blocked.
Proof.
  intros Hc. assert (forall fuel h, hash_loop fuel (c :: str) h tt = Blocked) as Hl; [|split; [done|apply Hl]].
  induction fuel as [|fuel IH]; intros h; cbn [hash_loop]; rewrite (proj2 (Z.eqb_neq _ _)) by done; [done|apply IH].
Qed.
