(* ===== verification/Comparator.v ===== *)
(** Column types and value comparison: src/table/schema.h,
    src/index/b+tree/comparator.{h,cc} and the scan criteria of
    src/io/iterator.{h,cc}.  Values are read through raw pointers, so the model
    reads them from the bytes a pointer points to. *)
From Stdlib Require Import Floats.SpecFloat.
From S2P Require Import Prelude.

(** * Data *)

Inductive data_type := UNKNOWN | INT | LONG | FLOAT | DOUBLE | CHAR | VARCHAR.

Record column_type := mk_column_type { ct_type : data_type; ct_length : Z }.
Record column_definition := mk_column_definition { cd_name : list byte; cd_type : column_type; cd_nullable : bool }.

Inductive criterion_type := NOT_EQUAL | EQUAL | LESS_THAN | LESS_EQUAL | GREATER_THAN | GREATER_EQUAL.

#[global] Instance data_type_eq_dec : EqDecision data_type.
Proof. solve_decision. Defined.
#[global] Instance criterion_type_eq_dec : EqDecision criterion_type.
Proof. solve_decision. Defined.

(** A pointer into an object: its address and the bytes of the object from there on. *)
Record cptr := mk_cptr { address : Z; pointee : list byte }.

(** [std::pair<void*, size_t>] *)
Definition tuple_t : Type := cptr * Z.

Record criterion := mk_criterion { cr_type : criterion_type; cr_val : cptr; cr_coldef : column_definition }.

(** * IEEE 754 values in memory *)

(** The value of a binary interchange format with [mw] fraction bits and [ew]
    exponent bits. *)
Definition float_of_bits (mw ew bits : Z) : spec_float :=
  let m := bits mod 2 ^ mw in
  let e := (bits / 2 ^ mw) mod 2 ^ ew in
  let s := negb ((bits / 2 ^ (mw + ew)) mod 2 =? 0) in
  let bias := 2 ^ (ew - 1) - 1 in
  if e =? 2 ^ ew - 1 then (if m =? 0 then S754_infinity s else S754_nan)
  else if e =? 0 then (if m =? 0 then S754_zero s else S754_finite s (Z.to_pos m) (1 - bias - mw))
  else S754_finite s (Z.to_pos (m + 2 ^ mw)) (e - bias - mw).

Section operations.
Context {S : Type}.

Definition load (n : nat) (p : cptr) : M S Z :=
  if decide (n <= length (pointee p))%nat then mret (le_decode (take n (pointee p)))
  else undef out_of_bounds.

(** [*reinterpret_cast<T *>(p)] *)
Definition as_int (p : cptr) : M S Z := v ← load 4 p; mret (to_signed 32 v).
Definition as_long (p : cptr) : M S Z := v ← load 8 p; mret (to_signed 64 v).
Definition as_float (p : cptr) : M S spec_float := v ← load 4 p; mret (float_of_bits 23 8 v).
Definition as_double (p : cptr) : M S spec_float := v ← load 8 p; mret (float_of_bits 52 11 v).

(** [reinterpret_cast<char>(p)]: the pointer itself, cut to a char (which standard
    C++ rejects and permissive compilers accept). *)
Definition ptr_char (p : cptr) : Z := to_signed 8 (address p).

(** [strncmp]: the difference of the first bytes that differ, up to a NUL or
    [n] bytes; reading behind an object is undefined. *)
Fixpoint strncmp (a b : list byte) (n : Z) {struct a} : M S Z :=
  if n <=? 0 then mret 0
  else
    match a, b with
    | x :: a, y :: b =>
        if negb (byte_to_Z x =? byte_to_Z y) then mret (byte_to_Z x - byte_to_Z y)
        else if byte_to_Z x =? 0 then mret 0 else strncmp a b (n - 1)
    | _, _ => undef out_of_bounds
    end.

(** The int64_t length of a column, as the size_t that strncmp takes *)
Definition size_arg (length : Z) : Z := to_unsigned 64 length.

(** comparator::compare *)
Definition compare (data_type_ : data_type) (t1 t2 : tuple_t) : M S Z :=
  match data_type_ with
  | INT =>
      a ← as_int t1.1; b ← as_int t2.1;
      mret (if a <? b then -1 else if a =? b then 0 else if b <? a then 1 else 0)
  | LONG =>
      a ← as_long t1.1; b ← as_long t2.1;
      mret (if a <? b then -1 else if a =? b then 0 else if b <? a then 1 else 0)
  | FLOAT =>
      a ← as_float t1.1; b ← as_float t2.1;
      mret (if SFltb a b then -1 else if SFeqb a b then 0 else if SFltb b a then 1 else 0)
  | DOUBLE =>
      a ← as_double t1.1; b ← as_double t2.1;
      mret (if SFltb a b then -1 else if SFeqb a b then 0 else if SFltb b a then 1 else 0)
  | CHAR =>
      let a := ptr_char t1.1 in let b := ptr_char t2.1 in
      mret (if a <? b then -1 else if a =? b then 0 else if b <? a then 1 else 0)
  | VARCHAR => strncmp (pointee t1.1) (pointee t2.1) (Z.min t1.2 t2.2)
  | UNKNOWN => mret 0
  end.

(** The LESS_THAN, GREATER_THAN and EQUAL blocks of criterion::internal_eval;
    a block without a case for the type falls through to the end. *)
Definition eval_less (c : criterion) (buf : cptr) : M S bool :=
  let val := cr_val c in
  match ct_type (cd_type (cr_coldef c)) with
  | INT => a ← as_int buf; b ← as_int val; mret (a <? b)
  | LONG => a ← as_long buf; b ← as_long val; mret (a <? b)
  | FLOAT => a ← as_float buf; b ← as_float val; mret (SFltb a b)
  | DOUBLE => a ← as_double buf; b ← as_double val; mret (SFltb a b)
  | CHAR => mret (ptr_char buf <? ptr_char val)
  | VARCHAR => r ← strncmp (pointee buf) (pointee val) (size_arg (ct_length (cd_type (cr_coldef c)))); mret (r <? 0)
  | UNKNOWN => undef missing_return
  end.

Definition eval_greater (c : criterion) (buf : cptr) : M S bool :=
  let val := cr_val c in
  match ct_type (cd_type (cr_coldef c)) with
  | INT => a ← as_int buf; b ← as_int val; mret (b <? a)
  | LONG => a ← as_long buf; b ← as_long val; mret (b <? a)
  | FLOAT => a ← as_float buf; b ← as_float val; mret (SFltb b a)
  | DOUBLE => a ← as_double buf; b ← as_double val; mret (SFltb b a)
  | CHAR => mret (ptr_char val <? ptr_char buf)
  | VARCHAR => r ← strncmp (pointee buf) (pointee val) (size_arg (ct_length (cd_type (cr_coldef c)))); mret (0 <? r)
  | UNKNOWN => undef missing_return
  end.

Definition eval_equal (c : criterion) (buf : cptr) : M S bool :=
  let val := cr_val c in
  match ct_type (cd_type (cr_coldef c)) with
  | INT => a ← as_int buf; b ← as_int val; mret (a =? b)
  | LONG => a ← as_long buf; b ← as_long val; mret (a =? b)
  | FLOAT => a ← as_float buf; b ← as_float val; mret (SFeqb a b)
  | DOUBLE => a ← as_double buf; b ← as_double val; mret (SFeqb a b)
  | CHAR => mret (ptr_char buf =? ptr_char val)
  | VARCHAR => r ← strncmp (pointee buf) (pointee val) (size_arg (ct_length (cd_type (cr_coldef c)))); mret (r =? 0)
  | UNKNOWN => undef missing_return
  end.

(** criterion::internal_eval; the recursive calls of the last two blocks enter
    only the first three. *)
Definition internal_eval (c : criterion) (buf : cptr) (critype : criterion_type) : M S bool :=
  match critype with
  | LESS_THAN => eval_less c buf
  | GREATER_THAN => eval_greater c buf
  | EQUAL => eval_equal c buf
  | GREATER_EQUAL => b ← eval_greater c buf; if (b : bool) then mret true else eval_equal c buf
  | LESS_EQUAL => b ← eval_less c buf; if (b : bool) then mret true else eval_equal c buf
  | NOT_EQUAL => undef missing_return
  end.

(** criterion::eval *)
Definition criterion_eval (c : criterion) (buf : cptr) : M S bool := internal_eval c buf (cr_type c).
End operations.

(** * Comparison as an order on keys *)

(** The sign-magnitude integer of a bit pattern. *)
Definition sign_magnitude (w bits : Z) : Z :=
  let m := bits mod 2 ^ (w - 1) in
  if (bits / 2 ^ (w - 1)) mod 2 =? 0 then m else - m.

Definition is_nan (f : spec_float) : bool := match f with S754_nan => true | _ => false end.

Definition value_of (n : nat) (p : cptr) : Z := le_decode (take n (pointee p)).

(** Pointers to comparable values: enough bytes, not a NaN, and for strings a
    NUL inside the compared length or the full length. *)
Definition comparable (ty : data_type) (t : tuple_t) : Prop :=
  match ty with
  | INT => (4 <= length (pointee t.1))%nat
  | LONG => (8 <= length (pointee t.1))%nat
  | FLOAT => (4 <= length (pointee t.1))%nat /\ is_nan (float_of_bits 23 8 (value_of 4 t.1)) = false
  | DOUBLE => (8 <= length (pointee t.1))%nat /\ is_nan (float_of_bits 52 11 (value_of 8 t.1)) = false
  | CHAR => True
  | VARCHAR => t.2 <= Z.of_nat (length (pointee t.1)) \/ Byte.x00 ∈ pointee t.1
  | UNKNOWN => False
  end.

(** What the fixed-width types are ordered by. *)
Definition sort_key (ty : data_type) (p : cptr) : Z :=
  match ty with
  | INT => to_signed 32 (value_of 4 p)
  | LONG => to_signed 64 (value_of 8 p)
  | FLOAT => sign_magnitude 32 (value_of 4 p)
  | DOUBLE => sign_magnitude 64 (value_of 8 p)
  | CHAR => ptr_char p
  | _ => 0
  end.

Definition three_way (x y : Z) : Z := if x <? y then -1 else if x =? y then 0 else if y <? x then 1 else 0.

(** The fields of a bit pattern and the value they stand for. *)
Definition float_fields (Q P bias mw : Z) (s : bool) (e m : Z) : spec_float :=
  if e =? Q - 1 then (if m =? 0 then S754_infinity s else S754_nan)
  else if e =? 0 then (if m =? 0 then S754_zero s else S754_finite s (Z.to_pos m) (1 - bias - mw))
  else S754_finite s (Z.to_pos (m + P)) (e - bias - mw).

Definition fields_key (P : Z) (s : bool) (e m : Z) : Z := if s then - (P * e + m) else P * e + m.

Lemma compare_lex P e1 m1 e2 m2 :
  0 <= m1 < P -> 0 <= m2 < P ->
  (P * e1 + m1 ?= P * e2 + m2) = match e1 ?= e2 with Eq => m1 ?= m2 | c => c end.
Proof.
  intros. destruct (Z.compare_spec e1 e2) as [->|?|?].
  - destruct (Z.compare_spec m1 m2); [apply Z.compare_eq_iff|apply Z.compare_lt_iff|apply Z.compare_gt_iff]; lia.
  - apply Z.compare_lt_iff. nia.
  - apply Z.compare_gt_iff. nia.
Qed.

Lemma compare_opp_opp x y : (- x ?= - y) = CompOpp (x ?= y).
Proof. by rewrite Z.compare_opp, Z.compare_antisym. Qed.

Lemma to_pos_compare a b : 0 < a -> 0 < b -> Pos.compare_cont Eq (Z.to_pos a) (Z.to_pos b) = (a ?= b).
Proof. by destruct a, b. Qed.

(** Canonical encodings of non-NaN values compare like sign-magnitude integers. *)
Lemma float_fields_compare Q P bias mw s1 e1 m1 s2 e2 m2 :
  2 <= Q -> 0 <= e1 < Q -> 0 <= e2 < Q -> 0 <= m1 < P -> 0 <= m2 < P ->
  is_nan (float_fields Q P bias mw s1 e1 m1) = false -> is_nan (float_fields Q P bias mw s2 e2 m2) = false ->
  SFcompare (float_fields Q P bias mw s1 e1 m1) (float_fields Q P bias mw s2 e2 m2)
  = Some (fields_key P s1 e1 m1 ?= fields_key P s2 e2 m2).
Proof.
  intros HQ He1 He2 Hm1 Hm2. unfold float_fields, fields_key.
  destruct (Z.eqb_spec e1 (Q - 1)), (Z.eqb_spec m1 0), (Z.eqb_spec e1 0), (Z.eqb_spec e2 (Q - 1)),
    (Z.eqb_spec m2 0), (Z.eqb_spec e2 0); cbn [is_nan]; intros ??; try done; try lia;
  destruct s1, s2; cbn [SFcompare]; f_equal; symmetry; rewrite ?compare_opp_opp, ?compare_lex by lia;
  rewrite ?to_pos_compare by lia;
  try (first [apply Z.compare_eq_iff|apply Z.compare_lt_iff|apply Z.compare_gt_iff]; nia).
  all: repeat match goal with |- context [?x ?= ?y] => destruct (Z.compare_spec x y) end; first [done|lia].
Qed.

Lemma float_of_bits_fields mw ew bits :
  float_of_bits mw ew bits =
  float_fields (2 ^ ew) (2 ^ mw) (2 ^ (ew - 1) - 1) mw
    (negb ((bits / 2 ^ (mw + ew)) mod 2 =? 0)) ((bits / 2 ^ mw) mod 2 ^ ew) (bits mod 2 ^ mw).
Proof. done. Qed.

Lemma sign_magnitude_fields mw ew bits : 0 <= mw -> 0 <= ew ->
  sign_magnitude (mw + ew + 1) bits =
  fields_key (2 ^ mw) (negb ((bits / 2 ^ (mw + ew)) mod 2 =? 0)) ((bits / 2 ^ mw) mod 2 ^ ew) (bits mod 2 ^ mw).
Proof.
  intros. unfold sign_magnitude, fields_key. replace (mw + ew + 1 - 1) with (mw + ew) by lia.
  rewrite Z.pow_add_r, Z.rem_mul_r by lia. rewrite Z.add_comm.
  by destruct (_ =? 0).
Qed.

Lemma float_compare mw ew a b : 0 <= mw -> 1 <= ew ->
  is_nan (float_of_bits mw ew a) = false -> is_nan (float_of_bits mw ew b) = false ->
  SFcompare (float_of_bits mw ew a) (float_of_bits mw ew b)
  = Some (sign_magnitude (mw + ew + 1) a ?= sign_magnitude (mw + ew + 1) b).
Proof.
  intros Hm He Ha Hb. rewrite !sign_magnitude_fields by lia. rewrite !float_of_bits_fields in *.
  assert (2 <= 2 ^ ew) by (change 2 with (2 ^ 1) at 1; apply Z.pow_le_mono_r; lia).
  apply float_fields_compare; try done; apply Z.mod_pos_bound; lia.
Qed.

Lemma float_three_way mw ew a b : 0 <= mw -> 1 <= ew ->
  is_nan (float_of_bits mw ew a) = false -> is_nan (float_of_bits mw ew b) = false ->
  let x := float_of_bits mw ew a in let y := float_of_bits mw ew b in
  let kx := sign_magnitude (mw + ew + 1) a in let ky := sign_magnitude (mw + ew + 1) b in
  SFltb x y = (kx <? ky) /\ SFeqb x y = (kx =? ky) /\ SFltb y x = (ky <? kx).
Proof.
  intros Hm He Ha Hb; cbv zeta. unfold SFltb, SFeqb. rewrite !float_compare by done.
  split_and!; [by unfold Z.ltb; case_match| |by unfold Z.ltb; case_match].
  rewrite Z.eqb_compare. by case_match.
Qed.

(** Every fixed-width comparison is the three-way comparison of the sort keys. *)
Lemma compare_fixed {S} ty t1 t2 (s : S) :
  ty <> VARCHAR -> comparable ty t1 -> comparable ty t2 ->
  compare ty t1 t2 s = Ret (three_way (sort_key ty t1.1) (sort_key ty t2.1)) s.
Proof.
  intros Hty H1 H2.
  destruct ty; try done; cbn [comparable] in *; simp;
    unfold compare, as_int, as_long, as_float, as_double, load, mbind, M_bind, mret, M_ret;
    repeat (rewrite decide_True by done); unfold three_way; cbn [sort_key]; try done; f_equal.
  - destruct (float_three_way 23 8 (value_of 4 t1.1) (value_of 4 t2.1)) as (E1 & E2 & E3); try done.
    unfold value_of in *. by rewrite E1, E2, E3.
  - destruct (float_three_way 52 11 (value_of 8 t1.1) (value_of 8 t2.1)) as (E1 & E2 & E3); try done.
    unfold value_of in *. by rewrite E1, E2, E3.
Qed.

(** * Strings *)

Definition string_safe (n : Z) (a : list byte) : Prop := n <= Z.of_nat (length a) \/ Byte.x00 ∈ a.

(** The value [strncmp] returns on safe arguments. *)
Fixpoint strn (a b : list byte) (n : Z) {struct a} : Z :=
  if n <=? 0 then 0
  else
    match a, b with
    | x :: a, y :: b =>
        if negb (byte_to_Z x =? byte_to_Z y) then byte_to_Z x - byte_to_Z y
        else if byte_to_Z x =? 0 then 0 else strn a b (n - 1)
    | _, _ => 0
    end.

Lemma string_safe_tail n x a : byte_to_Z x <> 0 -> string_safe n (x :: a) -> string_safe (n - 1) a.
Proof.
  intros Hx [Hl|Hin]; [left; cbn in Hl; lia|].
  apply elem_of_cons in Hin as [E|]; [|by right].
  exfalso. apply Hx. by rewrite <-E.
Qed.

Lemma string_safe_nil n : 0 < n -> ~ string_safe n [].
Proof. intros Hn [Hl|Hin]; [cbn in Hl; lia|by apply not_elem_of_nil in Hin]. Qed.

Lemma strncmp_strn {S} n a b (s : S) :
  string_safe n a -> string_safe n b -> strncmp a b n s = Ret (strn a b n) s.
Proof.
  revert b n. induction a as [|x a IH]; intros b n Ha Hb; cbn [strncmp strn]; destruct (Z.leb_spec n 0); try done.
  { by apply string_safe_nil in Ha. }
  destruct b as [|y b]; [by apply string_safe_nil in Hb|].
  destruct (Z.eqb_spec (byte_to_Z x) (byte_to_Z y)) as [E|]; [|done]. cbn [negb].
  destruct (Z.eqb_spec (byte_to_Z x) 0); [done|].
  apply IH; [by eapply string_safe_tail|]. eapply string_safe_tail, Hb. congruence.
Qed.

Lemma strn_refl n a : strn a a n = 0.
Proof.
  revert n. induction a as [|x a IH]; intros n; cbn [strn]; destruct (n <=? 0); try done. rewrite Z.eqb_refl. cbn. by case_match.
Qed.

Lemma strn_antisym n a b : strn b a n = - strn a b n.
Proof.
  revert b n. induction a as [|x a IH]; intros [|y b] n; cbn [strn]; destruct (n <=? 0); try done. rewrite (Z.eqb_sym (byte_to_Z y)).
  destruct (Z.eqb_spec (byte_to_Z x) (byte_to_Z y)) as [E|]; cbn [negb]; [|lia]. rewrite E. by case_match.
Qed.

Lemma strn_trans n a b c :
  string_safe n a -> string_safe n b -> string_safe n c ->
  strn a b n <= 0 -> strn b c n <= 0 -> strn a c n <= 0 /\ (strn a c n = 0 -> strn a b n = 0 /\ strn b c n = 0).
Proof.
  revert b c n. induction a as [|x a IH]; intros b c n Ha Hb Hc.
  { cbn [strn]. destruct (Z.leb_spec n 0); [|by apply string_safe_nil in Ha]. destruct b; cbn [strn]; rewrite (proj2 (Z.leb_le n 0)) by done; done. }
  destruct (Z.leb_spec n 0) as [Hn|Hn].
  { destruct b; cbn [strn]; rewrite (proj2 (Z.leb_le n 0)) by done; done. }
  destruct b as [|y b]; [by apply string_safe_nil in Hb|].
  destruct c as [|z c]; [by apply string_safe_nil in Hc|]. cbn [strn]. rewrite (proj2 (Z.leb_gt n 0)) by done.
  destruct (Z.eqb_spec (byte_to_Z x) (byte_to_Z y)) as [E1|], (Z.eqb_spec (byte_to_Z y) (byte_to_Z z)) as [E2|],
    (Z.eqb_spec (byte_to_Z x) (byte_to_Z z)) as [E3|]; cbn [negb]; try lia.
  rewrite <-E1. destruct (Z.eqb_spec (byte_to_Z x) 0); [done|].
  apply IH; [apply (string_safe_tail _ x)|apply (string_safe_tail _ y)|apply (string_safe_tail _ z)]; done || congruence.
Qed.

Lemma comparable_string (t : tuple_t) : comparable VARCHAR t -> string_safe t.2 (pointee t.1).
Proof. done. Qed.

(** The value of a comparison of comparable values of one length. *)
Definition compare_value (ty : data_type) (t1 t2 : tuple_t) : Z :=
  match ty with
  | VARCHAR => strn (pointee t1.1) (pointee t2.1) t1.2
  | _ => three_way (sort_key ty t1.1) (sort_key ty t2.1)
  end.

Lemma compare_returns {S} ty t1 t2 (s : S) :
  comparable ty t1 -> comparable ty t2 -> t1.2 = t2.2 -> compare ty t1 t2 s = Ret (compare_value ty t1 t2) s.
Proof.
  intros H1 H2 E. destruct (decide (ty = VARCHAR)) as [->|Hty].
  - cbn [compare compare_value]. rewrite <-E, Z.min_id.
    apply strncmp_strn; [by apply comparable_string|rewrite E; by apply comparable_string].
  - rewrite compare_fixed by done. unfold compare_value. by destruct ty.
Qed.

Lemma three_way_refl x : three_way x x = 0.
Proof. unfold three_way. by rewrite Z.ltb_irrefl, Z.eqb_refl. Qed.
Lemma three_way_antisym x y : three_way y x = - three_way x y.
Proof.
  unfold three_way. destruct (Z.ltb_spec x y), (Z.eqb_spec x y), (Z.ltb_spec y x), (Z.eqb_spec y x); lia.
Qed.
Lemma three_way_trans x y z :
  three_way x y <= 0 -> three_way y z <= 0 ->
  three_way x z <= 0 /\ (three_way x z = 0 -> three_way x y = 0 /\ three_way y z = 0).
Proof.
  unfold three_way.
  destruct (Z.ltb_spec x y), (Z.eqb_spec x y), (Z.ltb_spec y x), (Z.ltb_spec y z), (Z.eqb_spec y z), (Z.ltb_spec z y),
    (Z.ltb_spec x z), (Z.eqb_spec x z), (Z.ltb_spec z x); lia.
Qed.

Lemma compare_value_refl ty t : compare_value ty t t = 0.
Proof. unfold compare_value. destruct ty; try apply three_way_refl. apply strn_refl. Qed.

Lemma compare_value_antisym ty t1 t2 : t1.2 = t2.2 -> compare_value ty t2 t1 = - compare_value ty t1 t2.
Proof. intros E. unfold compare_value. destruct ty; try apply three_way_antisym. rewrite E. apply strn_antisym. Qed.

Lemma compare_value_trans ty t1 t2 t3 :
  comparable ty t1 -> comparable ty t2 -> comparable ty t3 -> t1.2 = t2.2 -> t2.2 = t3.2 ->
  compare_value ty t1 t2 <= 0 -> compare_value ty t2 t3 <= 0 ->
  compare_value ty t1 t3 <= 0 /\ (compare_value ty t1 t3 = 0 -> compare_value ty t1 t2 = 0 /\ compare_value ty t2 t3 = 0).
Proof.
  intros H1 H2 H3 E1 E2. unfold compare_value. destruct ty; try apply three_way_trans.
  apply comparable_string in H1, H2, H3. rewrite <-E1 in *. rewrite <-E2 in H3. by apply strn_trans.
Qed.

(** * Properties *)

(** C31. On comparable values of one type and one length, compare returns,
    and its sign is a total preorder: equal to itself, antisymmetric, transitive
    with strictness kept; for every fixed-width type the result is the
    three-way comparison of the sort keys (the numbers themselves for INT and
    LONG, the sign-magnitude integers of the encodings for FLOAT and DOUBLE). *)
Theorem compare_total_order {S} ty n p1 p2 p3 (s : S) :
  comparable ty (p1, n) -> comparable ty (p2, n) -> comparable ty (p3, n) ->
  exists r12 r21 r23 r13,
    compare ty (p1, n) (p2, n) s = Ret r12 s /\ compare ty (p2, n) (p1, n) s = Ret r21 s /\
    compare ty (p2, n) (p3, n) s = Ret r23 s /\ compare ty (p1, n) (p3, n) s = Ret r13 s /\
    compare ty (p1, n) (p1, n) s = Ret 0 s /\ r21 = - r12 /\
    (r12 <= 0 -> r23 <= 0 -> r13 <= 0 /\ (r13 = 0 -> r12 = 0 /\ r23 = 0)) /\
    (ty <> VARCHAR -> r12 = three_way (sort_key ty p1) (sort_key ty p2)).
Proof.
  intros H1 H2 H3.
  exists (compare_value ty (p1, n) (p2, n)), (compare_value ty (p2, n) (p1, n)),
    (compare_value ty (p2, n) (p3, n)), (compare_value ty (p1, n) (p3, n)).
  rewrite !compare_returns by done. split_and!; try done.
  - by rewrite compare_value_refl.
  - by apply compare_value_antisym.
  - by apply compare_value_trans.
  - intros. unfold compare_value. by destruct ty.
Qed.

(** -0.0f, 1.0f and +infinity in memory. *)
Definition minus_zero : cptr := mk_cptr 4096 [Byte.x00; Byte.x00; Byte.x00; Byte.x80].
Definition one_float : cptr := mk_cptr 4100 [Byte.x00; Byte.x00; Byte.x80; Byte.x3f].
Definition inf_float : cptr := mk_cptr 4104 [Byte.x00; Byte.x00; Byte.x80; Byte.x7f].

Lemma compare_total_order_witness :
  exists r12 r21 r23 r13,
    compare FLOAT (minus_zero, 4) (one_float, 4) tt = Ret r12 tt /\ compare FLOAT (one_float, 4) (minus_zero, 4) tt = Ret r21 tt /\
    compare FLOAT (one_float, 4) (inf_float, 4) tt = Ret r23 tt /\ compare FLOAT (minus_zero, 4) (inf_float, 4) tt = Ret r13 tt /\
    compare FLOAT (minus_zero, 4) (minus_zero, 4) tt = Ret 0 tt /\ r21 = - r12 /\
    (r12 <= 0 -> r23 <= 0 -> r13 <= 0 /\ (r13 = 0 -> r12 = 0 /\ r23 = 0)) /\
    (FLOAT <> VARCHAR -> r12 = three_way (sort_key FLOAT minus_zero) (sort_key FLOAT one_float)).
Proof.
  apply (compare_total_order FLOAT 4 minus_zero one_float inf_float tt);
    (split; [cbn; lia|vm_compute; reflexivity]).
Defined.

(** Comparison of strings of different lengths looks at the shorter length only
    and is not transitive: the empty string equals both a and b. *)
Lemma prefix_compare_not_transitive :
  let a : tuple_t := (mk_cptr 0 [Byte.x61], 1) in let e : tuple_t := (mk_cptr 8 [], 0) in
  let b : tuple_t := (mk_cptr 16 [Byte.x62], 1) in
  compare VARCHAR a e tt = Ret 0 tt /\ compare VARCHAR e b tt = Ret 0 tt /\ compare VARCHAR a b tt = Ret (-1) tt.
Proof. by vm_compute. Qed.

Lemma three_way_signs x y :
  (three_way x y <? 0) = (x <? y) /\ (0 <? three_way x y) = (y <? x) /\ (three_way x y =? 0) = (x =? y).
Proof. unfold three_way. destruct (Z.ltb_spec x y), (Z.eqb_spec x y), (Z.ltb_spec y x); split_and!; (done || lia). Qed.

(** The three basic blocks decide the sign of the comparison. *)
Lemma eval_blocks {S} c buf (s : S) :
  let ty := ct_type (cd_type (cr_coldef c)) in let len := size_arg (ct_length (cd_type (cr_coldef c))) in
  let r := compare_value ty (buf, len) (cr_val c, len) in
  comparable ty (buf, len) -> comparable ty (cr_val c, len) ->
  eval_less c buf s = Ret (r <? 0) s /\ eval_greater c buf s = Ret (0 <? r) s /\ eval_equal c buf s = Ret (r =? 0) s.
Proof.
  intros ty len r H1 H2. subst r. destruct (decide (ty = VARCHAR)) as [Et|Hty].
  - rewrite Et in *. unfold eval_less, eval_greater, eval_equal. fold ty len. rewrite Et.
    unfold mbind, M_bind. cbn [compare_value fst snd].
    rewrite strncmp_strn; [done|apply (comparable_string (buf, len)); done|apply (comparable_string (cr_val c, len)); done].
  - unfold eval_less, eval_greater, eval_equal. fold ty len. clearbody ty.
    destruct ty; try done; cbn [comparable] in *; simp;
    unfold as_int, as_long, as_float, as_double, load, mbind, M_bind, mret, M_ret;
    repeat (rewrite decide_True by done); cbn [compare_value]; pose proof three_way_signs as Hs;
    cbn [fst snd] in *;
    match goal with |- context [three_way ?x ?y] => destruct (Hs x y) as (-> & -> & ->) end; try done; cbn [sort_key].
    + destruct (float_three_way 23 8 (value_of 4 buf) (value_of 4 (cr_val c))) as (E1 & E2 & E3); try done.
      unfold value_of in *. by rewrite E1, E2, E3.
    + destruct (float_three_way 52 11 (value_of 8 buf) (value_of 8 (cr_val c))) as (E1 & E2 & E3); try done.
      unfold value_of in *. by rewrite E1, E2, E3.
Qed.

(** Two floating-point operands of which one is a NaN *)
Definition unordered (ty : data_type) (p q : cptr) : Prop :=
  match ty with
  | FLOAT => (4 <= length (pointee p))%nat /\ (4 <= length (pointee q))%nat /\
      (is_nan (float_of_bits 23 8 (value_of 4 p)) || is_nan (float_of_bits 23 8 (value_of 4 q))) = true
  | DOUBLE => (8 <= length (pointee p))%nat /\ (8 <= length (pointee q))%nat /\
      (is_nan (float_of_bits 52 11 (value_of 8 p)) || is_nan (float_of_bits 52 11 (value_of 8 q))) = true
  | _ => False
  end.

Lemma nan_unordered f g : is_nan f || is_nan g = true -> SFltb f g = false /\ SFltb g f = false /\ SFeqb f g = false.
Proof. destruct f, g; try done; cbn; unfold SFltb, SFeqb; by repeat case_match. Qed.

(** The three basic blocks are all false. *)
Lemma eval_blocks_nan {S} c buf (s : S) :
  unordered (ct_type (cd_type (cr_coldef c))) buf (cr_val c) ->
  eval_less c buf s = Ret false s /\ eval_greater c buf s = Ret false s /\ eval_equal c buf s = Ret false s.
Proof.
  unfold eval_less, eval_greater, eval_equal. destruct (ct_type (cd_type (cr_coldef c))); try done; cbn [unordered];
    intros (H1 & H2 & Hn); apply nan_unordered in Hn as (E1 & E2 & E3); unfold value_of in *;
    unfold as_float, as_double, load, mbind, M_bind, mret, M_ret; rewrite !decide_True by done; by rewrite E1, E2, E3.
Qed.

(** C32. A criterion evaluates to the relation its type names, as the comparator decides
    it, for LESS_THAN, LESS_EQUAL, EQUAL, GREATER_EQUAL and GREATER_THAN, when both operands
    have the bytes of the type, are no NaN and, as strings, reach over the length of the
    column converted to size_t or contain a NUL; when the operands are floating-point numbers
    and one is a NaN, it is false.  NOT_EQUAL leaves the function without a return value,
    which is undefined. *)
Theorem criterion_eval_spec {S} c buf (s : S) :
  let ty := ct_type (cd_type (cr_coldef c)) in let len := size_arg (ct_length (cd_type (cr_coldef c))) in
  (comparable ty (buf, len) -> comparable ty (cr_val c, len) ->
   exists r, compare ty (buf, len) (cr_val c, len) s = Ret r s /\
     criterion_eval c buf s =
     match cr_type c with
     | LESS_THAN => Ret (r <? 0) s
     | LESS_EQUAL => Ret (r <=? 0) s
     | EQUAL => Ret (r =? 0) s
     | GREATER_EQUAL => Ret (0 <=? r) s
     | GREATER_THAN => Ret (0 <? r) s
     | NOT_EQUAL => Undef missing_return
     end) /\
  (unordered ty buf (cr_val c) -> criterion_eval c buf s = if decide (cr_type c = NOT_EQUAL) then Undef missing_return else Ret false s).
Proof.
  intros ty len. split.
  - intros H1 H2. exists (compare_value ty (buf, len) (cr_val c, len)). split; [by apply compare_returns|].
    assert (eval_less c buf s = Ret (compare_value ty (buf, len) (cr_val c, len) <? 0) s /\
            eval_greater c buf s = Ret (0 <? compare_value ty (buf, len) (cr_val c, len)) s /\
            eval_equal c buf s = Ret (compare_value ty (buf, len) (cr_val c, len) =? 0) s) as (El & Eg & Ee)
      by by apply eval_blocks.
    generalize dependent (compare_value ty (buf, len) (cr_val c, len)). intros r El Eg Ee.
    unfold criterion_eval, internal_eval, mbind, M_bind.
    destruct (cr_type c); rewrite ?El, ?Eg, ?Ee; try done; case_match; reflect_bool; rewrite ?Ee; unfold mret, M_ret; f_equal; symmetry; try lia.
  - intros (El & Eg & Ee)%(eval_blocks_nan c buf s). unfold criterion_eval, internal_eval, mbind, M_bind.
    by destruct (cr_type c); rewrite ?El, ?Eg, ?Ee.
Qed.

(** WHERE x >= 7 on an INT column, at the value -3. *)
Definition geq_seven : criterion :=
  mk_criterion GREATER_EQUAL (mk_cptr 64 (int_bytes 7)) (mk_column_definition [] (mk_column_type INT 4) false).

Lemma criterion_eval_spec_witness :
  exists r, compare INT (mk_cptr 80 (int_bytes (-3)), 4) (mk_cptr 64 (int_bytes 7), 4) tt = Ret r tt /\
    criterion_eval geq_seven (mk_cptr 80 (int_bytes (-3))) tt = Ret (0 <=? r) tt.
Proof. apply (proj1 (criterion_eval_spec geq_seven (mk_cptr 80 (int_bytes (-3))) tt)); cbn; lia. Defined.
