(* ===== verification/Conn.v ===== *)
(** Connections: src/network/conn.{h,cc}, over the ring buffer.  The results of
    read(2) and write(2) on the socket are inputs of the model, one per call. *)
From S2P Require Import Prelude RingBuffer.

Inductive errno := EINTR | EAGAIN | EOTHER.
Inductive write_result := Wrote (w : Z) | Write_failed (e : errno).
Inductive read_result := Got (bs : list byte) | Read_failed (e : errno).

(** A buffer that is written to a socket: results still to come and bytes sent. *)
Record output := mk_output { o_buf : buffer; o_results : list write_result; o_sent : list byte }.
(** A buffer that is filled from a socket, and the lengths asked for. *)
Record input := mk_input { i_buf : buffer; i_results : list read_result; i_asked : list Z }.

Definition in_out {A} : M buffer A -> M output A := zoom o_buf (fun b o => mk_output b (o_results o) (o_sent o)).
Definition in_in {A} : M buffer A -> M input A := zoom i_buf (fun b i => mk_input b (i_results i) (i_asked i)).

(** write(sock_, buf.get_begin(), buf.size()) with the result [r]: the kernel
    reads size() bytes from the tail on. *)
Definition write_call (r : write_result) : M output unit :=
  b ← gets o_buf;
  bs ← in_out (array_read (tail_ b) (buffer_size b));
  match r with
  | Wrote w => modify (fun o => mk_output (o_buf o) (tail (o_results o)) (o_sent o ++ take (Z.to_nat w) bs))
  | Write_failed _ => modify (fun o => mk_output (o_buf o) (tail (o_results o)) (o_sent o))
  end.

(** The loop of conn::send(buffer&) and of conn::handle_write. *)
Fixpoint send_loop (rs : list write_result) : M output unit :=
  match rs with
  | [] => blocked
  | r :: rs =>
      _ ← write_call r;
      match r with
      | Wrote w => if 0 <? w then _ ← in_out (advance_get w); send_loop rs else mret tt
      | Write_failed EINTR => send_loop rs
      | Write_failed _ => mret tt
      end
  end.

(** conn::send(buffer&) *)
Definition send_buffer : M output unit := rs ← gets o_results; send_loop rs.

(** conn::send(const char*, size_t), with send_output *)
Definition send_bytes (s : list byte) : M output unit := _ ← in_out (put_block s); send_buffer.

(** read(sock_, read_buf_.put_begin(), read_buf_.size()): the length asked for is
    the number of bytes already stored; what arrives goes to the head. *)
Definition read_call (r : read_result) : M input unit :=
  b ← gets i_buf;
  _ ← modify (fun i => mk_input (i_buf i) (tail (i_results i)) (i_asked i ++ [buffer_size b]));
  match r with
  | Got bs => in_in (array_write (head_ b) bs)
  | Read_failed _ => mret tt
  end.

(** The loop of conn::handle_read; other errors fall through with r = -1. *)
Fixpoint receive_loop (rs : list read_result) : M input unit :=
  match rs with
  | [] => blocked
  | r :: rs =>
      _ ← read_call r;
      match r with
      | Got [] => mret tt
      | Got bs => _ ← in_in (advance_put (Z.of_nat (length bs))); receive_loop rs
      | Read_failed EINTR => receive_loop rs
      | Read_failed EAGAIN => mret tt
      | Read_failed EOTHER => _ ← in_in (advance_put (to_unsigned 64 (-1))); receive_loop rs
      end
  end.

Record conn := mk_conn {
  cn_input : input;
  cn_output : output;
  cn_read_cb : option Z;
  cn_write_cb : option Z;
  cn_called : list Z;
}.

Definition in_input {A} : M input A -> M conn A :=
  zoom cn_input (fun i c => mk_conn i (cn_output c) (cn_read_cb c) (cn_write_cb c) (cn_called c)).
Definition in_output {A} : M output A -> M conn A :=
  zoom cn_output (fun o c => mk_conn (cn_input c) o (cn_read_cb c) (cn_write_cb c) (cn_called c)).

(** if (cb) cb(); *)
Definition call_if (cb : option Z) : M conn unit :=
  match cb with
  | Some n => modify (fun c => mk_conn (cn_input c) (cn_output c) (cn_read_cb c) (cn_write_cb c) (cn_called c ++ [n]))
  | None => mret tt
  end.

(** conn::on_read, on_write *)
Definition conn_on_read (cb : Z) : M conn unit :=
  modify (fun c => mk_conn (cn_input c) (cn_output c) (Some cb) (cn_write_cb c) (cn_called c)).
Definition conn_on_write (cb : Z) : M conn unit :=
  modify (fun c => mk_conn (cn_input c) (cn_output c) (cn_read_cb c) (Some cb) (cn_called c)).

(** conn::handle_read, handle_write *)
Definition conn_handle_read : M conn unit :=
  _ ← in_input (rs ← gets i_results; receive_loop rs);
  c ← gets cn_read_cb; call_if c.
Definition conn_handle_write : M conn unit :=
  _ ← in_output send_buffer;
  c ← gets cn_write_cb; call_if c.

(** conn::send(const char*, size_t) on the connection's own buffer *)
Definition conn_send (s : list byte) : M conn unit := in_output (send_bytes s).

(** * Sending *)

(** Results that write(2) can give for [n] bytes on offer: never more than was
    asked for, and a call that ends the loop comes. *)
Fixpoint write_results_ok (n : Z) (rs : list write_result) : Prop :=
  match rs with
  | [] => False
  | Wrote w :: rs => 0 <= w <= n /\ (0 < w -> write_results_ok (n - w) rs)
  | Write_failed EINTR :: rs => write_results_ok n rs
  | Write_failed _ :: _ => True
  end.

(** A buffer whose contents do not wrap around the end of the array. *)
Definition straight (b : buffer) (l : list byte) : Prop := rb_ok b l /\ full_ b = false /\ tail_ b <= head_ b.

Lemma straight_size b l : straight b l -> rb_size b = head_ b - tail_ b.
Proof. intros (OK & Hf & Hle). unfold rb_size. rewrite Hf. by rewrite (proj2 (Z.leb_le _ _)). Qed.

Lemma straight_read b l : straight b l -> array_read (tail_ b) (buffer_size b) b = Ret (rb_contents b l) b.
Proof.
  intros Hs. pose proof (straight_size b l Hs) as Hz. destruct Hs as (OK & Hf & Hle).
  rewrite (buffer_size_rb b l OK). pose proof (length_contents b l OK) as Hlen. destruct (OK) as [Hbuf Hl Hm Hh Ht _].
  unfold array_read, array, mbind, M_bind, gets. rewrite Hbuf. cbn [of_option mret M_ret].
  rewrite (proj2 (Z.leb_le _ _)) by lia. unfold mret, M_ret. f_equal.
  rewrite (take_contents b l (rb_size b)) by (done || lia).
  by rewrite firstn_all2 by lia.
Qed.

Lemma straight_advance b l w : straight b l -> 0 < w <= rb_size b ->
  exists b', advance_get w b = Ret tt b' /\ straight b' l /\ rb_contents b' l = drop (Z.to_nat w) (rb_contents b l) /\
    rb_size b' = rb_size b - w.
Proof.
  intros Hs Hw. pose proof (straight_size b l Hs) as Hz. destruct (Hs) as (OK & Hf & Hle).
  destruct (advanced_spec b l w OK) as [OK' Hc']; [by left|]. destruct (OK) as [Hbuf Hl Hm Hh Ht _].
  assert ((tail_ b + w) mod max_size_ b = tail_ b + w) as Hmod by (apply Z.mod_small; lia).
  assert (straight (advanced w b) l) as Hs'.
  { split; [done|]. unfold advanced. cbn. rewrite Hmod. split; [done|lia]. }
  exists (advanced w b). split_and!; [|done|done|].
  - unfold advance_get, mod_size, mbind, M_bind, gets, modify. cbn [id]. destruct (Z.eqb_spec (max_size_ b) 0); [lia|].
    unfold mret, M_ret, size_t, SIZE_T. rewrite (Z.mod_small (tail_ b + w)) by lia.
    unfold advanced, set_tail. by rewrite Hf.
  - rewrite (straight_size _ _ Hs'), (straight_size _ _ Hs). unfold advanced. cbn. lia.
Qed.

Lemma write_call_spec r b l rs sent :
  straight b l ->
  write_call r (mk_output b rs sent) =
  Ret tt (mk_output b (tail rs) (sent ++ match r with Wrote w => take (Z.to_nat w) (rb_contents b l) | _ => [] end)).
Proof.
  intros Hs. unfold write_call, mbind, M_bind, gets, in_out, zoom, modify. cbn [o_buf].
  rewrite (straight_read b l Hs). by destruct r; cbn; rewrite ?app_nil_r.
Qed.

Lemma send_loop_spec rs b l rs0 sent :
  straight b l -> write_results_ok (rb_size b) rs ->
  exists b' rs' out, send_loop rs (mk_output b rs0 sent) = Ret tt (mk_output b' rs' (sent ++ out)) /\
    straight b' l /\ out ++ rb_contents b' l = rb_contents b l.
Proof.
  revert b rs0 sent. induction rs as [|r rs IH]; intros b rs0 sent Hs Hok; [done|]. cbn [send_loop].
  unfold mbind at 1, M_bind at 1. rewrite (write_call_spec r b l rs0 sent Hs).
  destruct r as [w|[]]; cbn in Hok.
  - destruct Hok as [Hw Hrest]. destruct (Z.ltb_spec 0 w) as [Hpos|Hzero].
    + destruct (straight_advance b l w Hs) as (b1 & E & Hs1 & Hc1 & Hz1); [lia|].
      unfold mbind, M_bind. unfold in_out at 1, zoom at 1. cbn [o_buf]. rewrite E. cbn [o_results o_sent].
      destruct (IH b1 (tail rs0) (sent ++ take (Z.to_nat w) (rb_contents b l)) Hs1) as (b2 & rs2 & out & E2 & Hs2 & Hc2).
      { rewrite Hz1. by apply Hrest. }
      rewrite <-app_assoc in E2. eexists b2, rs2, _. split; [exact E2|]. split; [done|].
      rewrite <-app_assoc, Hc2, Hc1. apply take_drop.
    + assert (w = 0) as -> by lia. cbn [Z.to_nat]. rewrite take_0.
      eexists b, _, []. done.
  - rewrite app_nil_r. by apply IH.
  - eexists b, _, []. done.
  - eexists b, _, []. done.
Qed.

(** C35. Sending loses and reorders nothing, for a buffer with a valid array that is not
    full and whose contents do not wrap around the end of the array: whatever write(2)
    accepts call by call (never more than it was given), with interruptions and a full
    socket, the bytes sent followed by the bytes left in the buffer are the bytes that were
    in it. *)
Theorem send_buffer_no_loss b l rs sent :
  rb_ok b l -> full_ b = false -> tail_ b <= head_ b -> write_results_ok (rb_size b) rs ->
  exists b' rs' out, send_buffer (mk_output b rs sent) = Ret tt (mk_output b' rs' (sent ++ out)) /\
    rb_ok b' l /\ out ++ rb_contents b' l = rb_contents b l.
Proof.
  intros OK Hf Hle Hok. destruct (send_loop_spec rs b l rs sent) as (b' & rs' & out & E & (OK' & _ & _) & Hc); [done|done|].
  by exists b', rs', out.
Qed.

(** Three stored bytes; two are accepted after an interruption, then the socket is full. *)
Definition three_bytes : buffer := mk_buffer (Some (replicate 3 Byte.x41 ++ replicate 5 Byte.x00)) false 3 0 8.

Lemma send_buffer_no_loss_witness :
  exists b' rs' out, send_buffer (mk_output three_bytes [Write_failed EINTR; Wrote 2; Write_failed EAGAIN] []) =
      Ret tt (mk_output b' rs' ([] ++ out)) /\
    rb_ok b' (replicate 3 Byte.x41 ++ replicate 5 Byte.x00) /\
    out ++ rb_contents b' (replicate 3 Byte.x41 ++ replicate 5 Byte.x00) = [Byte.x41; Byte.x41; Byte.x41].
Proof.
  apply (send_buffer_no_loss three_bytes (replicate 3 Byte.x41 ++ replicate 5 Byte.x00)
    [Write_failed EINTR; Wrote 2; Write_failed EAGAIN] []).
  - split; cbn; (done || lia).
  - reflexivity.
  - cbn. lia.
  - cbn. lia.
Defined.

(** A connection never receives into an empty buffer: handle_read asks for as many
    bytes as are stored, so read(2) is asked for 0 and returns 0. *)
Theorem empty_buffer_receives_nothing b l rs asked :
  rb_ok b l -> full_ b = false -> head_ b = tail_ b ->
  receive_loop (Got [] :: rs) (mk_input b (Got [] :: rs) asked) = Ret tt (mk_input b rs (asked ++ [0])).
Proof.
  intros OK Hf Hh. assert (buffer_size b = 0) as Hz.
  { rewrite (buffer_size_rb b l OK). unfold rb_size. rewrite Hf, Hh, Z.leb_refl. lia. }
  destruct OK as [Hbuf Hl Hm Hhd Ht _].
  cbn [receive_loop]. unfold read_call, mbind, M_bind, gets, modify, in_in, zoom. cbn [i_buf i_results i_asked]. rewrite Hz.
  unfold array_write, array, mbind, M_bind, gets. rewrite Hbuf. cbn [of_option mret M_ret].
  rewrite (proj2 (Z.leb_le _ _)) by (cbn; lia). unfold modify, mret, M_ret. cbn. do 2 f_equal.
  destruct b as [bf fl hd tl mx]; cbn in *. unfold set_buf. cbn. rewrite Hbuf. do 2 f_equal.
  unfold splice. cbn. rewrite Nat.add_0_r. apply take_drop.
Qed.
