(* ===== verification/Channel.v ===== *)
(** Channels and the epoll poller: src/network/channel.{h,cc} and the Linux half
    of src/network/poller.{h,cc}.  The kernel's epoll instance is a parameter:
    the class [Epoll] gives the calls, [EpollLaws] what epoll_ctl(2) documents. *)
From S2P Require Import Prelude.

(** * The kernel interface *)

Inductive ctl_op := CTL_ADD | CTL_MOD | CTL_DEL.

Class Epoll (K : Type) := {
  (* epoll_ctl(epfd, op, fd, {events, ptr}) *)
  ep_ctl : ctl_op -> Z -> Z -> Z -> K -> Z * K;
  (* epoll_wait: the ready entries (events, ptr) *)
  ep_wait : Z -> K -> list (Z * Z) * K;
  (* what is registered for a descriptor *)
  ep_registered : K -> Z -> option (Z * Z);
}.

Class EpollLaws (K : Type) `{Epoll K} : Prop := {
  mod_unregistered fd ev ptr k r k' :                (* ENOENT *)
    ep_registered k fd = None -> ep_ctl CTL_MOD fd ev ptr k = (r, k') ->
    forall fd', ep_registered k' fd' = ep_registered k fd';
  mod_other fd ev ptr k r k' fd' :
    ep_ctl CTL_MOD fd ev ptr k = (r, k') -> fd' <> fd -> ep_registered k' fd' = ep_registered k fd';
  del_removes fd ev ptr k r k' fd' :
    ep_ctl CTL_DEL fd ev ptr k = (r, k') ->
    ep_registered k' fd' = None \/ ep_registered k' fd' = ep_registered k fd';
  wait_registered timeout k evs k' :                 (* only registered entries are reported *)
    ep_wait timeout k = (evs, k') ->
    (forall fd, ep_registered k' fd = ep_registered k fd) /\
    (forall ev ptr, (ev, ptr) ∈ evs -> exists fd e, ep_registered k fd = Some (e, ptr));
}.

(** * State *)

Definition READ_EVENT : Z := 1.     (* EPOLLIN *)
Definition WRITE_EVENT : Z := 4.    (* EPOLLOUT *)
Definition POLLIN : Z := 1.
Definition POLLOUT : Z := 4.
Definition POLLERR : Z := 8.

Record channel := mk_channel {
  ch_fd : Z;
  ch_events : Z;                  (* short *)
  ch_read_cb : option Z;          (* the callback, None: empty *)
  ch_write_cb : option Z;
}.

(** The channels by address, the poller's set, the kernel, the descriptors closed
    and the callbacks run so far. *)
Record net {K : Type} := mk_net {
  chans : gmap Z channel;
  channels_ : gset Z;
  kern : K;
  closed_fds : list Z;
  ran : list Z;
}.
Arguments net : clear implicits.
Arguments mk_net {K}.

Section operations.
Context {K : Type} `{Epoll K}.
Implicit Types p : Z.

Definition short (z : Z) : Z := to_signed 16 z.

Definition chan p : M (net K) channel :=
  m ← gets chans; of_option dangling_deref (m !! p).
Definition set_chan p (c : channel) : M (net K) unit :=
  modify (fun s => mk_net (<[p := c]> (chans s)) (channels_ s) (kern s) (closed_fds s) (ran s)).
Definition epoll_ctl (op : ctl_op) (fd ev p : Z) : M (net K) Z :=
  fun s => let '(r, k) := ep_ctl op fd ev p (kern s) in
           Ret r (mk_net (chans s) (channels_ s) k (closed_fds s) (ran s)).

(** epoll_poller::add_channel *)
Definition add_channel p : M (net K) unit :=
  c ← chan p;
  _ ← epoll_ctl CTL_ADD (ch_fd c) (ch_events c) p;
  modify (fun s => mk_net (chans s) ({[p]} ∪ channels_ s) (kern s) (closed_fds s) (ran s)).

(** epoll_poller::update_channel; the undeclared name event is read as ev. *)
Definition update_channel p : M (net K) unit :=
  c ← chan p; _ ← epoll_ctl CTL_MOD (ch_fd c) (ch_events c) p; mret tt.

(** epoll_poller::remove_channel; event is read as ev and channel_ as channels_. *)
Definition remove_channel p : M (net K) unit :=
  c ← chan p;
  _ ← epoll_ctl CTL_DEL (ch_fd c) (ch_events c) p;
  modify (fun s => mk_net (chans s) (channels_ s ∖ {[p]}) (kern s) (closed_fds s) (ran s)).

(** channel::channel at a new address; events_ is not initialised. *)
Definition channel_new p (fd garbage : Z) : M (net K) unit :=
  set_chan p (mk_channel fd (short garbage) None None).

(** channel::read_enabled, write_enabled *)
Definition read_enabled (c : channel) : bool := negb (Z.land (ch_events c) READ_EVENT =? 0).
Definition write_enabled (c : channel) : bool := negb (Z.land (ch_events c) WRITE_EVENT =? 0).

Definition with_event (enable : bool) (ev : Z) (c : channel) : channel :=
  mk_channel (ch_fd c)
    (short (if enable then Z.lor (ch_events c) ev else Z.land (ch_events c) (Z.lnot ev)))
    (ch_read_cb c) (ch_write_cb c).

(** channel::enable_read, enable_write *)
Definition enable_read p (enable : bool) : M (net K) unit :=
  c ← chan p; _ ← set_chan p (with_event enable READ_EVENT c); update_channel p.
Definition enable_write p (enable : bool) : M (net K) unit :=
  c ← chan p; _ ← set_chan p (with_event enable WRITE_EVENT c); update_channel p.

(** channel::on_read, on_write *)
Definition on_read p (cb : Z) : M (net K) unit :=
  _ ← enable_read p true;
  c ← chan p; set_chan p (mk_channel (ch_fd c) (ch_events c) (Some cb) (ch_write_cb c)).
Definition on_write p (cb : Z) : M (net K) unit :=
  _ ← enable_write p true;
  c ← chan p; set_chan p (mk_channel (ch_fd c) (ch_events c) (ch_read_cb c) (Some cb)).

(** A call of a std::function *)
Definition call (cb : option Z) : M (net K) unit :=
  match cb with
  | Some n => modify (fun s => mk_net (chans s) (channels_ s) (kern s) (closed_fds s) (ran s ++ [n]))
  | None => throw std_exception
  end.

(** channel::handle_read, handle_write *)
Definition handle_read p : M (net K) unit := c ← chan p; call (ch_read_cb c).
Definition handle_write p : M (net K) unit := c ← chan p; call (ch_write_cb c).

(** channel::close *)
Definition channel_close p : M (net K) unit :=
  c ← chan p;
  when (0 <=? ch_fd c)
    (_ ← remove_channel p;
     _ ← modify (fun s => mk_net (chans s) (channels_ s) (kern s) (closed_fds s ++ [ch_fd c]) (ran s));
     c ← chan p;
     set_chan p (mk_channel (-1) (ch_events c) (ch_read_cb c) (ch_write_cb c))).

(** epoll_poller::loop_once: the entries from the last to the first. *)
Fixpoint dispatch (evs : list (Z * Z)) : M (net K) unit :=
  match evs with
  | [] => mret tt
  | (events, p) :: evs =>
      _ ← (if p =? 0 then mret tt
           else if negb (Z.land events (Z.lor POLLIN POLLERR) =? 0) then handle_read p
           else if negb (Z.land events POLLOUT =? 0) then handle_write p
           else mret tt);
      dispatch evs
  end.
Definition poll_once (timeout : Z) : M (net K) unit :=
  fun s => let '(evs, k) := ep_wait timeout (kern s) in
           dispatch (rev evs) (mk_net (chans s) (channels_ s) k (closed_fds s) (ran s)).
End operations.

(** * Event bits *)

Lemma testbit_short z i : 0 <= i < 15 -> Z.testbit (short z) i = Z.testbit z i.
Proof.
  intros Hi. unfold short, to_signed. destruct (Z.ltb_spec (z mod 2 ^ 16) (2 ^ (16 - 1))).
  - by rewrite Z.mod_pow2_bits_low by lia.
  - replace (z mod 2 ^ 16 - 2 ^ 16) with (z mod 2 ^ 16 + (-1) * 2 ^ 16) by lia.
    rewrite <-(Z.mod_pow2_bits_low _ 16 i) by lia. rewrite Z.mod_add by lia.
    rewrite Z.mod_mod by lia. by rewrite Z.mod_pow2_bits_low by lia.
Qed.

Lemma land_bit z i : 0 <= i -> negb (Z.land z (2 ^ i) =? 0) = Z.testbit z i.
Proof.
  intros Hi. destruct (Z.testbit z i) eqn:E.
  - apply negb_true_iff, Z.eqb_neq. intros H0.
    assert (Z.testbit (Z.land z (2 ^ i)) i = true) as Ht by (by rewrite Z.land_spec, E, Z.pow2_bits_true).
    rewrite H0, Z.bits_0 in Ht. done.
  - apply negb_false_iff, Z.eqb_eq. apply Z.bits_inj'. intros j Hj. rewrite Z.land_spec, Z.bits_0, Z.pow2_bits_eqb by done.
    destruct (Z.eqb_spec i j) as [->|]; [by rewrite E|by rewrite andb_false_r].
Qed.

Lemma testbit_with_event enable i c j : 0 <= i < 15 -> 0 <= j < 15 ->
  Z.testbit (ch_events (with_event enable (2 ^ i) c)) j = if j =? i then enable else Z.testbit (ch_events c) j.
Proof.
  intros Hi Hj. cbn. rewrite testbit_short by done.
  destruct enable; rewrite ?Z.lor_spec, ?Z.land_spec, ?Z.lnot_spec, Z.pow2_bits_eqb by lia;
    destruct (Z.eqb_spec i j), (Z.eqb_spec j i); subst; try lia; by destruct (Z.testbit (ch_events c) j).
Qed.

Section properties.
Context {K : Type} `{EpollLaws K}.
Implicit Types s : net K.

Lemma enable_run p enable ev c s :
  chans s !! p = Some c ->
  exists s', (c ← chan p; _ ← set_chan p (with_event enable ev c); update_channel p) s = Ret tt s' /\
    chans s' = <[p := with_event enable ev c]> (chans s).
Proof.
  intros Hc. unfold update_channel, chan, set_chan, epoll_ctl, mbind, M_bind, gets, modify.
  rewrite Hc. cbn. rewrite lookup_insert_eq. cbn.
  destruct (ep_ctl CTL_MOD _ _ p (kern s)) as [r k]. eexists. split; [reflexivity|done].
Qed.
End properties.

(** Enabling or disabling an event of a channel changes exactly that event:
    afterwards it is enabled as asked, and the other one is as before, whatever
    the (uninitialised) event word was. *)
Theorem channel_events_independent {K} `{EpollLaws K} (s : net K) p c enable :
  chans s !! p = Some c ->
  (exists s' c', enable_read p enable s = Ret tt s' /\ chans s' !! p = Some c' /\
     read_enabled c' = enable /\ write_enabled c' = write_enabled c /\ ch_fd c' = ch_fd c) /\
  (exists s' c', enable_write p enable s = Ret tt s' /\ chans s' !! p = Some c' /\
     write_enabled c' = enable /\ read_enabled c' = read_enabled c /\ ch_fd c' = ch_fd c).
Proof.
  intros Hc.
  assert (forall c, read_enabled c = Z.testbit (ch_events c) 0) as Hr by (intros; apply (land_bit _ 0); lia).
  assert (forall c, write_enabled c = Z.testbit (ch_events c) 2) as Hw by (intros; apply (land_bit _ 2); lia).
  split.
  - destruct (enable_run p enable READ_EVENT c s Hc) as (s' & E & Hs). exists s', (with_event enable READ_EVENT c).
    split; [done|]. rewrite Hs, lookup_insert_eq, !Hr, !Hw. change READ_EVENT with (2 ^ 0).
    rewrite !testbit_with_event by lia. done.
  - destruct (enable_run p enable WRITE_EVENT c s Hc) as (s' & E & Hs). exists s', (with_event enable WRITE_EVENT c).
    split; [done|]. rewrite Hs, lookup_insert_eq, !Hr, !Hw. change WRITE_EVENT with (2 ^ 2).
    rewrite !testbit_with_event by lia. done.
Qed.

(** * Histories *)

(** What the network layer does with channels, and rounds of the poller. *)
Inductive chan_op :=
| ONew (p fd garbage : Z) | OOnRead (p cb : Z) | OOnWrite (p cb : Z)
| OEnableRead (p : Z) (e : bool) | OEnableWrite (p : Z) (e : bool) | OClose (p : Z) | OPoll (timeout : Z).

Section histories.
Context {K : Type} `{EpollLaws K}.
Implicit Types s : net K.

Definition run_chan_op (o : chan_op) : M (net K) unit :=
  match o with
  | ONew p fd g => channel_new p fd g
  | OOnRead p cb => on_read p cb
  | OOnWrite p cb => on_write p cb
  | OEnableRead p e => enable_read p e
  | OEnableWrite p e => enable_write p e
  | OClose p => channel_close p
  | OPoll t => poll_once t
  end.
Fixpoint run_chan_ops (os : list chan_op) : M (net K) unit :=
  match os with [] => mret tt | o :: os => _ ← run_chan_op o; run_chan_ops os end.

(** The kernel watches nothing and no callback has run. *)
Definition silent s : Prop := (forall fd, ep_registered (kern s) fd = None) /\ ran s = [].

(** Methods that keep a state silent when they return. *)
Definition quiet {A} (m : M (net K) A) : Prop := forall s, silent s -> post m (fun _ => silent) s.

Lemma quiet_bind {A B} (m : M (net K) A) (k : A -> M (net K) B) : quiet m -> (forall a, quiet (k a)) -> quiet (m ≫= k).
Proof. intros Hm Hk s Hs. apply post_bind. eapply post_mono; [by apply Hm|]. intros a s1 H1. by apply Hk. Qed.
Lemma quiet_ret {A} (a : A) : quiet (mret a).
Proof. by intros s Hs. Qed.
Lemma quiet_when b m : quiet m -> quiet (when b m).
Proof. by destruct b; [|intros _ s Hs]. Qed.
Lemma quiet_chan p : quiet (chan p).
Proof. intros s Hs. unfold chan, post, mbind, M_bind, gets. by destruct (chans s !! p). Qed.
Lemma quiet_modify f : (forall s, kern (f s) = kern s) -> (forall s, ran (f s) = ran s) -> quiet (modify f).
Proof. intros Hk Hr s [H1 H2]. unfold post, modify, silent. by rewrite Hk, Hr. Qed.
Lemma quiet_ctl op fd ev p : op <> CTL_ADD -> quiet (epoll_ctl op fd ev p).
Proof.
  intros Hop s [Hk Hr]. unfold post, epoll_ctl. destruct (ep_ctl op fd ev p (kern s)) as [r k] eqn:E.
  split; [|done]. cbn. intros fd'. destruct op; [done| |].
  - by rewrite (mod_unregistered _ _ _ _ _ _ (Hk fd) E).
  - by destruct (del_removes _ _ _ _ _ _ fd' E) as [->| ->].
Qed.

Ltac quiet_step :=
  match goal with
  | |- quiet (_ ≫= _) => apply quiet_bind
  | |- quiet (chan _) => apply quiet_chan
  | |- quiet (mret _) => apply quiet_ret
  | |- quiet (when _ _) => apply quiet_when
  | |- quiet (modify _) => by apply quiet_modify
  | |- quiet (set_chan _ _) => by apply quiet_modify
  | |- quiet (epoll_ctl _ _ _ _) => by apply quiet_ctl
  | |- forall _, _ => intros
  end.

Lemma quiet_op o : quiet (run_chan_op o).
Proof.
  destruct o; cbn [run_chan_op];
    unfold channel_new, on_read, on_write, enable_read, enable_write, channel_close, remove_channel, update_channel;
    repeat quiet_step.
  intros s [Hk Hr]. unfold post, poll_once. destruct (ep_wait timeout (kern s)) as [evs k] eqn:E.
  destruct (wait_registered _ _ _ _ E) as [Hreg Hev]. destruct evs as [|[ev ptr] evs].
  - cbn. split; cbn; [intros fd; by rewrite Hreg|done].
  - destruct (Hev ev ptr) as (fd & e & Hfd); [by left|]. by rewrite Hk in Hfd.
Qed.
End histories.

(** No callback of a channel is ever run: channels are only updated and removed
    at the poller, add_channel has no caller, and modifying an unregistered
    descriptor does nothing, so from a kernel that watches nothing every history
    of the network layer and every poll leaves it watching nothing. *)
Theorem channel_callbacks_never_run {K} `{EpollLaws K} (s : net K) (os : list chan_op) :
  (forall fd, ep_registered (kern s) fd = None) -> ran s = [] ->
  match run_chan_ops os s with
  | Ret _ s' => ran s' = [] /\ (forall fd, ep_registered (kern s') fd = None)
  | _ => True
  end.
Proof.
  intros Hk Hr. assert (quiet (run_chan_ops os)) as Hq.
  { induction os as [|o os IH]; cbn [run_chan_ops]; [apply quiet_ret|]. apply quiet_bind; [apply quiet_op|by intros]. }
  specialize (Hq s (conj Hk Hr)). unfold post in Hq. destruct (run_chan_ops os s); [|done..]. by destruct Hq.
Qed.

(** ** An epoll instance in memory *)

Module MemEpoll.
Abbreviation t := (gmap Z (Z * Z)).

Definition ctl (op : ctl_op) (fd ev ptr : Z) (k : t) : Z * t :=
  match op, k !! fd with
  | CTL_ADD, None => (0, <[fd := (ev, ptr)]> k)
  | CTL_ADD, Some _ => (-1, k)
  | CTL_MOD, Some _ => (0, <[fd := (ev, ptr)]> k)
  | CTL_MOD, None => (-1, k)
  | CTL_DEL, Some _ => (0, delete fd k)
  | CTL_DEL, None => (-1, k)
  end.

(** Every registered descriptor is always ready. *)
Definition wait (timeout : Z) (k : t) : list (Z * Z) * t := ((map_to_list k).*2, k).

#[global] Instance epoll : Epoll t := {| ep_ctl := ctl; ep_wait := wait; ep_registered := fun k fd => k !! fd |}.

#[global] Instance laws : EpollLaws t.
Proof.
  split; cbn [ep_ctl ep_wait ep_registered epoll]; unfold ctl, wait.
  - intros fd ev ptr k r k' Hk E fd'. rewrite Hk in E. by simplify_eq.
  - intros fd ev ptr k r k' fd' E Hne. destruct (k !! fd); simplify_eq; [|done]. by rewrite lookup_insert_ne.
  - intros fd ev ptr k r k' fd' E. destruct (k !! fd); simplify_eq; [|by right].
    destruct (decide (fd' = fd)) as [->|]; [left; apply lookup_delete_eq|right; by rewrite lookup_delete_ne].
  - intros timeout k evs k' E. simplify_eq. split; [done|]. intros ev ptr Hin.
    apply list_elem_of_fmap in Hin as ([fd p] & Hep & Hp). cbn in Hep. subst p. apply elem_of_map_to_list in Hp. by exists fd, ev.
Qed.
End MemEpoll.

Definition empty_net : net MemEpoll.t := mk_net ∅ ∅ (∅ : MemEpoll.t) [] [].
Definition one_chan : net MemEpoll.t := mk_net {[ 1 := mk_channel 7 12 None None ]} ∅ (∅ : MemEpoll.t) [] [].

Lemma channel_events_independent_witness :
  (exists s' c', enable_read 1 true one_chan = Ret tt s' /\ chans s' !! 1 = Some c' /\
     read_enabled c' = true /\ write_enabled c' = true /\ ch_fd c' = 7) /\
  (exists s' c', enable_write 1 true one_chan = Ret tt s' /\ chans s' !! 1 = Some c' /\
     write_enabled c' = true /\ read_enabled c' = false /\ ch_fd c' = 7).
Proof. apply (channel_events_independent one_chan 1 (mk_channel 7 12 None None) true). reflexivity. Defined.

(** A channel with a read callback, polled twice. *)
Lemma channel_callbacks_never_run_witness :
  exists s', run_chan_ops [ONew 1 7 0; OOnRead 1 42; OPoll 10; OPoll 10] empty_net = Ret tt s' /\ ran s' = [].
Proof.
  pose proof (channel_callbacks_never_run empty_net [ONew 1 7 0; OOnRead 1 42; OPoll 10; OPoll 10] (fun _ => eq_refl) eq_refl) as H.
  destruct (run_chan_ops [ONew 1 7 0; OOnRead 1 42; OPoll 10; OPoll 10] empty_net) as [[] s'| | |] eqn:E.
  - exists s'. split; [reflexivity|]. exact (proj1 H).
  - vm_compute in E. discriminate E.
  - vm_compute in E. discriminate E.
  - vm_compute in E. discriminate E.
Defined.
