(* ===== verification/Dispatcher.v ===== *)
(** The event dispatcher's timers and the thread pool that runs their tasks:
    src/network/dispatcher.{h,cc} and src/network/thread_pool.{h,cc}.  Clock
    readings and the callbacks of the poller are inputs of the model. *)
From Stdlib Require Import Sorting.Sorted.
From S2P Require Import Prelude.

(** * std::map with timer ids as keys: strictly sorted association lists *)

Abbreviation timer_id_t := (Z * Z)%type.

(** operator< of std::pair *)
Definition tid_ltb (a b : timer_id_t) : bool := (a.1 <? b.1) || ((a.1 =? b.1) && (a.2 <? b.2)).
Definition tid_lt (a b : timer_id_t) : Prop := a.1 < b.1 \/ (a.1 = b.1 /\ a.2 < b.2).

Section ordered_map.
Context {V : Type}.
Implicit Types l : list (timer_id_t * V).

(** map[k] = v *)
Fixpoint map_set (k : timer_id_t) (v : V) l : list (timer_id_t * V) :=
  match l with
  | [] => [(k, v)]
  | (k', v') :: l' =>
      if tid_ltb k k' then (k, v) :: l
      else if tid_ltb k' k then (k', v') :: map_set k v l' else (k, v) :: l'
  end.

(** map.find(k) *)
Fixpoint map_find (k : timer_id_t) l : option V :=
  match l with
  | [] => None
  | (k', v') :: l' => if decide (k = k') then Some v' else map_find k l'
  end.

(** map.insert({k, v}): does nothing when the key is there *)
Definition map_emplace (k : timer_id_t) (v : V) l : list (timer_id_t * V) :=
  match map_find k l with Some _ => l | None => map_set k v l end.

(** map.erase(iterator to k) *)
Definition map_erase (k : timer_id_t) l : list (timer_id_t * V) := filter (fun p => p.1 <> k) l.
End ordered_map.

(** * State *)

(** What a std::function<void()> of this file can hold: a client's task, the
    closure [this, rtaskptr] over a node of repeatable_timers_ (nodes of a
    std::map do not move, so the key stands for the address), or nothing,
    after it was moved from. *)
Inductive task := user_task (id : Z) | repeat_closure (node : timer_id_t) | moved_from.

#[global] Instance task_eq_dec : EqDecision task.
Proof. solve_decision. Defined.

Record repeatable_task := mk_repeatable_task { at_ : Z; interval : Z; timer_id : timer_id_t; callback : task }.

Definition MAX_TIMEOUTS : Z := Z.shiftl 1 30.
Definition DEFAULT_TIMEOUTS : Z := 10000.

(** The members of thread_pool that enqueue and the workers use. *)
Record thread_pool := mk_thread_pool { tp_working : bool; tp_tasks : list task }.

Record dispatcher := mk_dispatcher {
  working_ : bool;
  time_seq_ : Z;
  next_timeout_ : Z;
  timers_ : list (timer_id_t * task);
  repeatable_timers_ : list (timer_id_t * repeatable_task);
  thread_pool_ : thread_pool;
  readings : nat -> Z;             (* what system_clock::now gives, call by call *)
  ticks : nat;                     (* calls so far *)
  polled : list Z;                 (* timeouts given to the poller *)
  called : list Z;                 (* client tasks that were run *)
}.

Definition set_working b d := mk_dispatcher b (time_seq_ d) (next_timeout_ d) (timers_ d) (repeatable_timers_ d) (thread_pool_ d) (readings d) (ticks d) (polled d) (called d).
Definition set_seq n d := mk_dispatcher (working_ d) n (next_timeout_ d) (timers_ d) (repeatable_timers_ d) (thread_pool_ d) (readings d) (ticks d) (polled d) (called d).
Definition set_next n d := mk_dispatcher (working_ d) (time_seq_ d) n (timers_ d) (repeatable_timers_ d) (thread_pool_ d) (readings d) (ticks d) (polled d) (called d).
Definition set_timers l d := mk_dispatcher (working_ d) (time_seq_ d) (next_timeout_ d) l (repeatable_timers_ d) (thread_pool_ d) (readings d) (ticks d) (polled d) (called d).
Definition set_repeatable l d := mk_dispatcher (working_ d) (time_seq_ d) (next_timeout_ d) (timers_ d) l (thread_pool_ d) (readings d) (ticks d) (polled d) (called d).
Definition set_pool p d := mk_dispatcher (working_ d) (time_seq_ d) (next_timeout_ d) (timers_ d) (repeatable_timers_ d) p (readings d) (ticks d) (polled d) (called d).
Definition set_ticks n d := mk_dispatcher (working_ d) (time_seq_ d) (next_timeout_ d) (timers_ d) (repeatable_timers_ d) (thread_pool_ d) (readings d) n (polled d) (called d).
Definition set_polled l d := mk_dispatcher (working_ d) (time_seq_ d) (next_timeout_ d) (timers_ d) (repeatable_timers_ d) (thread_pool_ d) (readings d) (ticks d) l (called d).
Definition set_called l d := mk_dispatcher (working_ d) (time_seq_ d) (next_timeout_ d) (timers_ d) (repeatable_timers_ d) (thread_pool_ d) (readings d) (ticks d) (polled d) l.

(** dispatcher::dispatcher, with the pool it creates *)
Definition dispatcher_new (clock : nat -> Z) : dispatcher :=
  mk_dispatcher true 0 MAX_TIMEOUTS [] [] (mk_thread_pool true []) clock 0 [] [].

(** * Operations *)

(** get_current_time(timeunit::milli) *)
Definition get_current_time : M dispatcher Z :=
  n ← gets ticks; f ← gets readings;
  _ ← modify (set_ticks (S n));
  mret (f n).

(** Result of an int64_t operation: overflow is undefined. *)
Definition int64_of (z : Z) : M dispatcher Z :=
  if (- 2 ^ 63 <=? z) && (z <? 2 ^ 63) then mret z else undef int_overflow.

(** ++time_seq_ on an atomic, which wraps *)
Definition next_seq : M dispatcher Z :=
  n ← gets time_seq_;
  let n' := to_signed 64 (n + 1) in
  _ ← modify (set_seq n');
  mret n'.

(** dispatcher::update_next_timeout *)
Definition update_next_timeout : M dispatcher unit :=
  l ← gets timers_;
  match l with
  | [] => modify (set_next MAX_TIMEOUTS)
  | (tid, _) :: _ =>
      now ← get_current_time;
      d ← int64_of (tid.1 - now);
      let next_timeout := to_signed 32 d in
      modify (set_next (if next_timeout <=? 0 then 0 else next_timeout))
  end.

(** The body of run_at, shared by its overloads *)
Definition run_at (tp : Z) (t : task) (interval : Z) : M dispatcher timer_id_t :=
  w ← gets working_;
  if negb w then mret (0, 0)
  else if negb (interval =? 0) then
    neg ← int64_of (- tp);
    n ← next_seq;
    let tid := (neg, n) in
    n' ← next_seq;
    _ ← modify (fun d => set_repeatable (map_set tid (mk_repeatable_task tp interval (tp, n') t) (repeatable_timers_ d)) d);
    _ ← modify (fun d => set_timers (map_set (tp, n') (repeat_closure tid) (timers_ d)) d);
    _ ← update_next_timeout;
    mret tid
  else
    n ← next_seq;
    let tid := (tp, n) in
    _ ← modify (fun d => set_timers (map_emplace tid t (timers_ d)) d);
    _ ← update_next_timeout;
    mret tid.

(** dispatcher::run_after *)
Definition dispatcher_run_after (ms : Z) (t : task) : M dispatcher timer_id_t :=
  now ← get_current_time; tp ← int64_of (now + ms); run_at tp t 0.

(** dispatcher::run_every *)
Definition dispatcher_run_every (ms interval : Z) (t : task) : M dispatcher timer_id_t :=
  now ← get_current_time; tp ← int64_of (now + ms); run_at tp t interval.

(** dispatcher::cancel *)
Definition cancel (tid : timer_id_t) : M dispatcher bool :=
  if tid.1 <? 0 then
    r ← gets repeatable_timers_;
    rt ← of_option bad_iterator (map_find tid r);      (* p->second with p == end() *)
    l ← gets timers_;
    _ ← when (bool_decide (is_Some (map_find (timer_id rt) l))) (modify (set_timers (map_erase (timer_id rt) l)));
    _ ← modify (set_repeatable (map_erase tid r));
    mret true
  else
    l ← gets timers_;
    match map_find tid l with
    | Some _ => _ ← modify (set_timers (map_erase tid l)); mret true
    | None => mret false
    end.

(** thread_pool::enqueue, of the task in the front timer: the task is moved
    into the bound object before the pool tests whether it still works. *)
Definition enqueue_front : M dispatcher unit :=
  l ← gets timers_;
  match l with
  | [] => undef bad_iterator
  | (k, t) :: l' =>
      _ ← modify (set_timers ((k, moved_from) :: l'));
      p ← gets thread_pool_;
      if tp_working p then modify (set_pool (mk_thread_pool true (tp_tasks p ++ [t]))) else throw runtime_error
  end.

(** The loop of dispatcher::handle_timeout; every round erases a timer. *)
Fixpoint fire_loop (fuel : nat) (now : Z) : M dispatcher unit :=
  l ← gets timers_;
  match l with
  | [] => mret tt
  | (k, _) :: _ =>
      if tid_ltb k (now, MAX_TIMEOUTS) then
        match fuel with
        | O => blocked
        | S fuel =>
            _ ← enqueue_front;
            _ ← modify (fun d => set_timers (tail (timers_ d)) d);
            fire_loop fuel now
        end
      else mret tt
  end.

(** dispatcher::handle_timeout *)
Definition handle_timeout : M dispatcher unit :=
  now ← get_current_time;
  l ← gets timers_;
  _ ← fire_loop (length l) now;
  update_next_timeout.

(** dispatcher::loop_once; [events] is what the callbacks of the channels that
    the poller finds ready do. *)
Definition loop_once (events : M dispatcher unit) (ms : Z) : M dispatcher unit :=
  n ← gets next_timeout_;
  _ ← modify (fun d => set_polled (polled d ++ [Z.min ms n]) d);
  _ ← events;
  handle_timeout.

(** dispatcher::loop, for the polls of one run. *)
Fixpoint loop (polls : list (M dispatcher unit)) : M dispatcher unit :=
  w ← gets working_;
  if (w : bool) then
    match polls with
    | [] => blocked
    | events :: polls => _ ← loop_once events DEFAULT_TIMEOUTS; loop polls
    end
  else
    _ ← modify (set_timers []);
    _ ← modify (set_repeatable []);
    loop_once (default (mret tt) (head polls)) 0.

(** dispatcher::exit; the byte written to the pipe wakes the poller. *)
Definition exit : M dispatcher unit := modify (set_working false).

(** Running a std::function *)
Definition call_user (t : task) : M dispatcher unit :=
  match t with
  | user_task n => modify (fun d => set_called (called d ++ [n]) d)
  | _ => throw std_exception                      (* std::bad_function_call *)
  end.

(** dispatcher::repeat up to the call of the callback: the next repetition is scheduled.
    The result is the callback. *)
Definition schedule_repeat (node : timer_id_t) : M dispatcher task :=
  r ← gets repeatable_timers_;
  rt ← of_option dangling_deref (map_find node r);
  at' ← int64_of (at_ rt + interval rt);
  n ← next_seq;
  _ ← modify (fun d => set_repeatable (map_set node (mk_repeatable_task at' (interval rt) (at', n) (callback rt)) (repeatable_timers_ d)) d);
  _ ← modify (fun d => set_timers (map_set (at', n) (repeat_closure node) (timers_ d)) d);
  _ ← update_next_timeout;
  mret (callback rt).

(** dispatcher::repeat *)
Definition repeat (node : timer_id_t) : M dispatcher unit := cb ← schedule_repeat node; call_user cb.

(** A worker takes the front task of the pool, with the mutex of the pool. *)
Definition worker_pop : M dispatcher (option task) :=
  p ← gets thread_pool_;
  match tp_tasks p with
  | [] => mret None
  | t :: ts => _ ← modify (set_pool (mk_thread_pool (tp_working p) ts)); mret (Some t)
  end.

(** It then runs the task with no mutex held; what the task throws ends up in the future. *)
Definition run_task (t : task) : M dispatcher unit :=
  match t with
  | repeat_closure node => try_catch (repeat node) (mret tt)
  | _ => try_catch (call_user t) (mret tt)
  end.

(** * Ordered maps *)

Lemma tid_ltb_lt a b : tid_ltb a b = true <-> tid_lt a b.
Proof.
  unfold tid_ltb, tid_lt. rewrite orb_true_iff, andb_true_iff, !Z.ltb_lt, Z.eqb_eq. done.
Qed.

Lemma tid_ltb_nlt a b : tid_ltb a b = false <-> ~ tid_lt a b.
Proof. rewrite <-tid_ltb_lt. by destruct (tid_ltb a b). Qed.

Lemma tid_lt_irrefl a : ~ tid_lt a a.
Proof. unfold tid_lt. lia. Qed.
Lemma tid_lt_trans a b c : tid_lt a b -> tid_lt b c -> tid_lt a c.
Proof. unfold tid_lt. lia. Qed.
Lemma tid_lt_total a b : ~ tid_lt a b -> ~ tid_lt b a -> a = b.
Proof. destruct a, b. unfold tid_lt. cbn. intros. f_equal; lia. Qed.

Ltac tid_cases :=
  repeat match goal with
  | H : tid_ltb _ _ = true |- _ => apply tid_ltb_lt in H
  | H : tid_ltb _ _ = false |- _ => apply tid_ltb_nlt in H
  end.

Section ordered_map_lemmas.
Context {V : Type}.
Implicit Types l : list (timer_id_t * V).

Definition map_sorted l : Prop := StronglySorted tid_lt l.*1.

Lemma map_sorted_cons p l : map_sorted (p :: l) <-> map_sorted l /\ Forall (fun q => tid_lt p.1 q.1) l.
Proof.
  unfold map_sorted. cbn. split.
  - intros H. apply StronglySorted_inv in H as [? H]. by rewrite Forall_fmap in H.
  - intros [? H]. constructor; [done|]. by rewrite Forall_fmap.
Qed.

Lemma elem_of_map_set k v l p :
  map_sorted l -> p ∈ map_set k v l <-> p = (k, v) \/ (p ∈ l /\ p.1 <> k).
Proof.
  induction l as [|[k' v'] l IH]; intros Hs; cbn [map_set].
  - rewrite list_elem_of_singleton. split; [by left|]. intros [?|[H _]]; [done|by apply not_elem_of_nil in H].
  - apply map_sorted_cons in Hs as [Hs Hf]. rewrite Forall_forall in Hf.
    destruct (tid_ltb k k') eqn:E1; [|destruct (tid_ltb k' k) eqn:E2]; tid_cases.
    + rewrite elem_of_cons. split; [intros [?|H]; [by left|right]|intros [?|[H _]]; [by left|by right]].
      split; [done|]. intros Hk. apply (tid_lt_irrefl k).
      apply elem_of_cons in H as [->|H]; [cbn in Hk; by subst|].
      eapply tid_lt_trans; [exact E1|]. rewrite <-Hk. exact (Hf _ H).
    + rewrite elem_of_cons, (IH Hs), elem_of_cons. split.
      * intros [->|[->|[? ?]]]; [|by left|by right; split; [right|]].
        right. split; [by left|]. cbn. intros ->. by apply tid_lt_irrefl in E2.
      * intros [->|[[->|?] ?]]; [right; by left|by left|right; right; done].
    + assert (k = k') as -> by by apply tid_lt_total. rewrite !elem_of_cons. split.
      * intros [->|H]; [by left|right]. split; [by right|]. intros Hk.
        apply (tid_lt_irrefl k'). rewrite <-Hk at 2. exact (Hf _ H).
      * intros [->|[[->|?] ?]]; [by left|done|by right].
Qed.

Lemma map_set_sorted k v l : map_sorted l -> map_sorted (map_set k v l).
Proof.
  induction l as [|[k' v'] l IH]; intros Hs; cbn [map_set].
  - apply map_sorted_cons. split; [constructor|constructor].
  - pose proof Hs as Hs'. apply map_sorted_cons in Hs' as [Hs' Hf].
    destruct (tid_ltb k k') eqn:E1; [|destruct (tid_ltb k' k) eqn:E2]; tid_cases.
    + apply map_sorted_cons. split; [done|]. constructor; [done|].
      eapply Forall_impl; [exact Hf|]. intros. by eapply tid_lt_trans.
    + apply map_sorted_cons. split; [by apply IH|]. apply Forall_forall. intros p Hp.
      apply elem_of_map_set in Hp as [->|[Hp _]]; [done| |done]. rewrite Forall_forall in Hf. by apply (Hf p).
    + assert (k = k') as -> by by apply tid_lt_total. by apply map_sorted_cons.
Qed.

Lemma map_find_None k l : map_find k l = None <-> (forall v, (k, v) ∉ l).
Proof.
  induction l as [|[k' v'] l IH]; cbn [map_find]; [split; [intros _ v H; by apply not_elem_of_nil in H|done]|].
  case_decide as Hk; [subst; split; [done|intros H; destruct (H v'); by left]|].
  rewrite IH. split; intros H v.
  - intros [?|Hv]%elem_of_cons; [by simplify_eq|by apply (H v)].
  - intros Hv. apply (H v). by right.
Qed.

Lemma map_find_Some k v l : map_sorted l -> map_find k l = Some v <-> (k, v) ∈ l.
Proof.
  induction l as [|[k' v'] l IH]; intros Hs; cbn [map_find]; [split; [done|intros H; by apply not_elem_of_nil in H]|].
  apply map_sorted_cons in Hs as [Hs Hf]. rewrite Forall_forall in Hf. rewrite elem_of_cons.
  case_decide as Hk.
  - subst. split; [intros; simplify_eq; by left|]. intros [?|H]; [by simplify_eq|].
    apply Hf in H. by apply tid_lt_irrefl in H.
  - rewrite (IH Hs). split; [by right|]. intros [?|H]; [by simplify_eq|done].
Qed.

Lemma map_erase_sorted k l : map_sorted l -> map_sorted (map_erase k l).
Proof.
  induction l as [|p l IH]; intros Hs; [done|]. apply map_sorted_cons in Hs as [Hs Hf].
  unfold map_erase. rewrite filter_cons. case_decide; [|by apply IH].
  apply map_sorted_cons. split; [by apply IH|]. apply Forall_forall. intros q [_ Hq]%list_elem_of_filter.
  rewrite Forall_forall in Hf. by apply Hf.
Qed.

Lemma elem_of_map_erase k l p : p ∈ map_erase k l <-> p.1 <> k /\ p ∈ l.
Proof. unfold map_erase. by rewrite list_elem_of_filter. Qed.

Lemma map_erase_absent k l : (forall p, p ∈ l -> p.1 <> k) -> map_erase k l = l.
Proof. intros. unfold map_erase. by apply filter_all. Qed.

(** Erasing a key right after adding it. *)
Lemma map_erase_set k v l : (forall p, p ∈ l -> p.1 <> k) -> map_erase k (map_set k v l) = l.
Proof.
  induction l as [|[k' v'] l IH]; intros Hk; cbn [map_set]; unfold map_erase.
  - rewrite filter_cons_False; [done|]. cbn. tauto.
  - assert (k' <> k) by exact (Hk (k', v') ltac:(by left)).
    assert (forall p, p ∈ l -> p.1 <> k) as Hl by (intros p Hp; apply Hk; by right).
    destruct (tid_ltb k k') eqn:E1; [|destruct (tid_ltb k' k) eqn:E2]; tid_cases.
    + rewrite filter_cons_False by (cbn; tauto). by apply filter_all.
    + rewrite filter_cons_True by done. f_equal. by apply IH.
    + by assert (k' = k) by by apply tid_lt_total.
Qed.
End ordered_map_lemmas.

(** * Firing *)

Definition due (now : Z) (p : timer_id_t * task) : Prop := tid_ltb p.1 (now, MAX_TIMEOUTS) = true.
#[global] Instance due_dec now p : Decision (due now p).
Proof. unfold due. apply _. Defined.

Lemma due_sorted_none now p l : map_sorted (p :: l) -> ~ due now p -> filter (due now) (p :: l) = [].
Proof.
  intros [_ Hf]%map_sorted_cons Hp. rewrite Forall_forall in Hf. unfold due in *.
  apply not_true_iff_false, tid_ltb_nlt in Hp.
  assert (forall q, q ∈ p :: l -> ~ due now q) as Hn.
  { intros q Hq Hd. apply tid_ltb_lt in Hd. apply elem_of_cons in Hq as [->|Hq]; [done|].
    apply Hp. eapply tid_lt_trans; [exact (Hf q Hq)|done]. }
  clear Hf Hp. induction (p :: l) as [|q k IH]; [done|].
  rewrite filter_cons_False by (apply Hn; by left). apply IH. intros; apply Hn; by right.
Qed.

Lemma filter_none_compl {A} (P : A -> Prop) `{!forall x, Decision (P x)} (l : list A) :
  filter P l = [] -> filter (fun x => ~ P x) l = l.
Proof.
  induction l as [|x l IH]; [done|]. rewrite !filter_cons. case_decide; [done|].
  intros Hl. rewrite decide_True by done. f_equal. by apply IH.
Qed.

Lemma fire_loop_spec now fuel d :
  map_sorted (timers_ d) -> tp_working (thread_pool_ d) = true -> (length (timers_ d) <= fuel)%nat ->
  fire_loop fuel now d =
  Ret tt (set_pool (mk_thread_pool true (tp_tasks (thread_pool_ d) ++ (filter (due now) (timers_ d)).*2))
    (set_timers (filter (fun p => ~ due now p) (timers_ d)) d)).
Proof.
  revert d. induction fuel as [|fuel IH]; intros d Hs Hw Hl;
    destruct d as [w seq nx l r [pw ts] rd tk po ca]; cbn in *; subst pw;
    destruct l as [|[k t] l]; cbn in Hl; try lia.
  1, 2: by cbn; rewrite app_nil_r.
  unfold mbind, M_bind, gets; cbn -[filter]. destruct (tid_ltb k (now, MAX_TIMEOUTS)) eqn:E.
  - unfold enqueue_front, modify, mbind, M_bind, gets; cbn -[filter].
    rewrite IH by (cbn; try lia; by apply map_sorted_cons in Hs as [? _]). cbn -[filter].
    rewrite (filter_cons_True (due now)) by done. rewrite (filter_cons_False (fun p => ~ due now p)) by (cbn; tauto).
    cbn -[filter]. by rewrite <-app_assoc.
  - rewrite due_sorted_none by (done || by unfold due; cbn; rewrite E).
    rewrite filter_none_compl by (apply due_sorted_none; [done|]; by unfold due; cbn; rewrite E).
    cbn. by rewrite app_nil_r.
Qed.

(** What update_next_timeout stores, for the timers [l] and the clock reading [now]. *)
Definition next_after (l : list (timer_id_t * task)) (now : Z) : Z :=
  match l with [] => MAX_TIMEOUTS | (k, _) :: _ => Z.max 0 (to_signed 32 (k.1 - now)) end.

(** The difference to the first timer fits an int64_t. *)
Definition no_overflow (d : dispatcher) : Prop :=
  forall k t, head (timers_ d) = Some (k, t) -> - 2 ^ 63 <= k.1 - readings d (ticks d) < 2 ^ 63.

Lemma int64_of_ok z d : - 2 ^ 63 <= z < 2 ^ 63 -> int64_of z d = Ret z d.
Proof. intros Hz. unfold int64_of. destruct (Z.leb_spec (- 2 ^ 63) z), (Z.ltb_spec z (2 ^ 63)); try lia. done. Qed.

Lemma update_next_timeout_spec d :
  no_overflow d ->
  update_next_timeout d =
  Ret tt (set_next (next_after (timers_ d) (readings d (ticks d)))
    (match timers_ d with [] => d | _ => set_ticks (S (ticks d)) d end)).
Proof.
  intros Hn. unfold update_next_timeout, get_current_time, mbind, M_bind, gets, modify, mret, M_ret.
  destruct (timers_ d) as [|[k t] l] eqn:E; [done|]. cbn -[int64_of].
  rewrite int64_of_ok by (apply (Hn k t); by rewrite E). cbn. do 2 f_equal.
  destruct (Z.leb_spec (to_signed 32 (k.1 - readings d (ticks d))) 0); lia.
Qed.

(** C33. handle_timeout hands the due timers, and only those, to the thread pool
    in the order of their ids (time, then creation), keeps the others, and sets the
    next poll timeout to the time left until the first of them; a fired timer is
    never early and a kept one never late. *)
Theorem handle_timeout_fires_due d :
  let now := readings d (ticks d) in let rest := filter (fun p => ~ due now p) (timers_ d) in
  map_sorted (timers_ d) -> tp_working (thread_pool_ d) = true ->
  (forall k t, head rest = Some (k, t) -> - 2 ^ 63 <= k.1 - readings d (S (ticks d)) < 2 ^ 63) ->
  exists d', handle_timeout d = Ret tt d' /\
    tp_tasks (thread_pool_ d') = tp_tasks (thread_pool_ d) ++ (filter (due now) (timers_ d)).*2 /\
    timers_ d' = rest /\ repeatable_timers_ d' = repeatable_timers_ d /\
    next_timeout_ d' = next_after rest (readings d (S (ticks d))) /\
    (forall p, p ∈ filter (due now) (timers_ d) -> p.1.1 <= now) /\
    (forall p, p ∈ rest -> now <= p.1.1).
Proof.
  intros now rest Hs Hw Ho. eexists. unfold handle_timeout, get_current_time, mbind, M_bind, gets, modify, mret, M_ret.
  rewrite fire_loop_spec by (cbn; done || lia). cbn [timers_ set_ticks].
  rewrite update_next_timeout_spec by exact Ho. split; [reflexivity|].
  destruct d as [w seq nx l r [pw ts] rd tk po ca]. subst now rest. cbn -[filter next_after] in *.
  split_and!; try (by destruct (filter (fun p => ~ due (rd tk) p) l)).
  - intros p [Hd _]%list_elem_of_filter. apply tid_ltb_lt in Hd. unfold tid_lt in Hd. cbn [fst snd] in Hd. lia.
  - intros p [Hd _]%list_elem_of_filter. apply not_true_iff_false, tid_ltb_nlt in Hd.
    unfold tid_lt in Hd. cbn [fst snd] in Hd. lia.
Qed.

(** Three timers, of which two are due at 100 ms. *)
Definition three_timers : dispatcher :=
  set_seq 3 (set_timers [((90, 3), user_task 1); ((100, 1), user_task 2); ((150, 2), user_task 3)] (dispatcher_new (fun _ => 100))).

Lemma handle_timeout_fires_due_witness :
  exists d', handle_timeout three_timers = Ret tt d' /\
    tp_tasks (thread_pool_ d') = [user_task 1; user_task 2] /\
    timers_ d' = [((150, 2), user_task 3)] /\ next_timeout_ d' = 50.
Proof.
  destruct (handle_timeout_fires_due three_timers) as (d' & E & Hp & Ht & _ & Hn & _).
  - repeat constructor; unfold tid_lt; cbn; lia.
  - reflexivity.
  - intros k t Hk. vm_compute in Hk. injection Hk as <- <-. cbn. lia.
  - exists d'. split; [exact E|]. split; [rewrite Hp; vm_compute; reflexivity|].
    split; [rewrite Ht; vm_compute; reflexivity|rewrite Hn; vm_compute; reflexivity].
Defined.

(** * Adding and cancelling *)

(** Keys are sorted and carry sequence numbers already given out. *)
Record timers_ok (d : dispatcher) : Prop := {
  ok_seq : 0 <= time_seq_ d;
  ok_sorted : map_sorted (timers_ d);
  ok_rsorted : map_sorted (repeatable_timers_ d);
  ok_keys : forall p, p ∈ timers_ d -> 0 < p.1.2 <= time_seq_ d;
  ok_rkeys : forall p, p ∈ repeatable_timers_ d -> 0 < p.1.2 <= time_seq_ d;
}.

Lemma next_seq_spec d : 0 <= time_seq_ d < 2 ^ 63 - 1 -> next_seq d = Ret (time_seq_ d + 1) (set_seq (time_seq_ d + 1) d).
Proof.
  intros. unfold next_seq, mbind, M_bind, gets, modify, mret, M_ret.
  by rewrite to_signed_id by lia.
Qed.

Definition with_repeatable (tid : timer_id_t) (rt : repeatable_task) (d : dispatcher) : dispatcher :=
  set_repeatable (map_set tid rt (repeatable_timers_ d)) d.
Definition with_timer (tid : timer_id_t) (t : task) (d : dispatcher) : dispatcher :=
  set_timers (map_set tid t (timers_ d)) d.

Lemma fresh_key {V} (l : list (timer_id_t * V)) n k :
  (forall p, p ∈ l -> 0 < p.1.2 <= n) -> n < k.2 -> forall p, p ∈ l -> p.1 <> k.
Proof. intros Hl Hk p Hp <-. apply Hl in Hp. lia. Qed.

Lemma map_emplace_fresh {V} k (v : V) l : (forall p, p ∈ l -> p.1 <> k) -> map_emplace k v l = map_set k v l.
Proof.
  intros Hk. unfold map_emplace. assert (map_find k l = None) as ->; [|done].
  apply map_find_None. intros v' Hv. by apply Hk in Hv.
Qed.

(** run_at up to the update of the poll timeout. *)
Lemma run_at_once_spec tp t d :
  timers_ok d -> working_ d = true -> time_seq_ d < 2 ^ 63 - 1 ->
  run_at tp t 0 d =
  (_ ← update_next_timeout; mret (tp, time_seq_ d + 1)) (with_timer (tp, time_seq_ d + 1) t (set_seq (time_seq_ d + 1) d)).
Proof.
  intros Hok Hw Hs. pose proof (ok_seq d Hok). unfold run_at.
  unfold mbind at 1, M_bind at 1, gets at 1. rewrite Hw. cbn [negb Z.eqb].
  unfold mbind at 1, M_bind at 1. rewrite next_seq_spec by lia. unfold mbind at 1, M_bind at 1, modify.
  cbn [timers_ set_seq]. rewrite map_emplace_fresh; [done|].
  eapply fresh_key; [apply (ok_keys d Hok)|]. cbn. lia.
Qed.

Lemma run_at_repeat_spec tp t iv d :
  timers_ok d -> working_ d = true -> time_seq_ d < 2 ^ 63 - 2 -> - 2 ^ 63 < tp < 2 ^ 63 -> iv <> 0 ->
  let tid := (- tp, time_seq_ d + 1) in let key := (tp, time_seq_ d + 2) in
  run_at tp t iv d =
  (_ ← update_next_timeout; mret tid)
    (with_timer key (repeat_closure tid)
      (with_repeatable tid (mk_repeatable_task tp iv key t) (set_seq (time_seq_ d + 2) d))).
Proof.
  intros Hok Hw Hs Htp Hiv. cbv zeta. pose proof (ok_seq d Hok). unfold run_at.
  unfold mbind at 1, M_bind at 1, gets at 1. rewrite Hw. apply Z.eqb_neq in Hiv. rewrite Hiv. cbn [negb].
  unfold mbind at 1, M_bind at 1. rewrite int64_of_ok by lia.
  unfold mbind at 1, M_bind at 1. rewrite next_seq_spec by lia.
  unfold mbind at 1, M_bind at 1. rewrite next_seq_spec by (cbn; lia).
  cbn [time_seq_ set_seq]. by rewrite <-Z.add_assoc.
Qed.

Lemma update_then_ret {A} (a : A) d :
  no_overflow d -> exists d', (_ ← update_next_timeout; mret a) d = Ret a d' /\
    timers_ d' = timers_ d /\ repeatable_timers_ d' = repeatable_timers_ d /\ time_seq_ d' = time_seq_ d /\
    thread_pool_ d' = thread_pool_ d.
Proof.
  intros Hn. unfold mbind, M_bind. rewrite update_next_timeout_spec by done.
  eexists. split; [reflexivity|]. destruct (timers_ d) eqn:E; cbn; rewrite ?E; done.
Qed.

(** Clock readings and timer times that a difference cannot overflow. *)
Definition calm (d : dispatcher) : Prop :=
  (forall n, 0 <= readings d n < 2 ^ 62) /\ (forall p, p ∈ timers_ d -> - 2 ^ 62 <= p.1.1 < 2 ^ 62).

Lemma calm_no_overflow d : calm d -> no_overflow d.
Proof.
  intros [Hr Ht] k t Hk. destruct (timers_ d) as [|p l]; [done|]. cbn in Hk. simplify_eq.
  pose proof (Ht (k, t) ltac:(by left)) as Hb. cbn in Hb. pose proof (Hr (ticks d)). lia.
Qed.

Lemma calm_with_timer tid t d :
  map_sorted (timers_ d) -> calm d -> - 2 ^ 62 <= tid.1 < 2 ^ 62 -> calm (with_timer tid t d).
Proof.
  intros Hs [Hr Ht] Hb. split; [exact Hr|]. intros p Hp. cbn in Hp.
  apply elem_of_map_set in Hp as [->|[Hp _]]; auto.
Qed.

(** C39. A timer that was just added can be cancelled: cancel returns true and the timers
    and repeatable timers are exactly those before run_at, for one-shot timers at a
    non-negative time and repeating timers at a positive time (cancel tells the two kinds by
    the sign of the time: cancel_hazards).  Required: the keys in both maps are sorted and
    carry sequence numbers given out before, the dispatcher is working, the counter does not
    overflow, and clock readings and times are below 2^62, so that differences do not
    overflow. *)
Theorem run_at_then_cancel d tp t iv :
  timers_ok d -> calm d -> working_ d = true -> time_seq_ d < 2 ^ 63 - 2 ->
  (if iv =? 0 then 0 <= tp else 0 < tp) -> tp < 2 ^ 62 ->
  exists tid d1 d2, run_at tp t iv d = Ret tid d1 /\ cancel tid d1 = Ret true d2 /\
    is_Some (map_find (if iv =? 0 then tid else (tp, tid.2 + 1)) (timers_ d1)) /\
    timers_ d2 = timers_ d /\ repeatable_timers_ d2 = repeatable_timers_ d.
Proof.
  intros Hok Hc Hw Hs Htp Hb. pose proof (ok_seq d Hok) as Hq. set (s := time_seq_ d) in *.
  assert (forall k, s < k.2 -> forall p, p ∈ timers_ d -> p.1 <> k) as Hfr by (intros; eapply fresh_key; [apply Hok|done|done]).
  assert (forall k, s < k.2 -> forall p, p ∈ repeatable_timers_ d -> p.1 <> k) as Hrfr by (intros; eapply fresh_key; [apply Hok|done|done]).
  destruct (Z.eqb_spec iv 0) as [->|Hiv].
  - rewrite run_at_once_spec by (done || lia). fold s.
    destruct (update_then_ret (tp, s + 1) (with_timer (tp, s + 1) t (set_seq (s + 1) d))) as (d1 & -> & Ht & Hr & _).
    { apply calm_no_overflow, calm_with_timer; [apply Hok|done|cbn; lia]. }
    cbn in Ht, Hr. assert (map_find (tp, s + 1) (timers_ d1) = Some t) as Hf.
    { rewrite Ht. apply map_find_Some; [by apply map_set_sorted, Hok|]. apply elem_of_map_set; [apply Hok|by left]. }
    exists (tp, s + 1), d1. eexists. split; [done|].
    unfold cancel. cbn [fst]. destruct (Z.ltb_spec tp 0); [lia|]. unfold mbind, M_bind, gets, modify, mret, M_ret.
    rewrite Hf. split; [done|]. split; [done|]. cbn. split; [|done].
    rewrite Ht. apply map_erase_set, Hfr. cbn. lia.
  - rewrite run_at_repeat_spec by (done || lia). fold s.
    set (tid := (- tp, s + 1)). set (key := (tp, s + 2)). set (rt := mk_repeatable_task tp iv key t).
    destruct (update_then_ret tid (with_timer key (repeat_closure tid) (with_repeatable tid rt (set_seq (s + 2) d)))) as (d1 & -> & Ht & Hr & _).
    { apply calm_no_overflow, calm_with_timer; [apply Hok|done|cbn; lia]. }
    cbn in Ht, Hr. assert (map_find key (timers_ d1) = Some (repeat_closure tid)) as Hf.
    { rewrite Ht. apply map_find_Some; [by apply map_set_sorted, Hok|]. apply elem_of_map_set; [apply Hok|by left]. }
    assert (map_find tid (repeatable_timers_ d1) = Some rt) as Hfr'.
    { rewrite Hr. apply map_find_Some; [by apply map_set_sorted, Hok|]. apply elem_of_map_set; [apply Hok|by left]. }
    exists tid, d1. eexists. split; [done|].
    unfold cancel. destruct (Z.ltb_spec tid.1 0) as [_|?]; [|cbn in *; lia].
    unfold mbind, M_bind, gets, modify, mret, M_ret. rewrite Hfr'. cbn [of_option mret M_ret timer_id rt].
    rewrite Hf. rewrite bool_decide_true by done. cbn [when]. split; [done|].
    replace (tp, tid.2 + 1) with key by (unfold key, tid; cbn; f_equal; lia).
    split; [by rewrite Hf|]. cbn.
    rewrite Ht, Hr. split; [apply map_erase_set, Hfr; cbn; lia|apply map_erase_set, Hrfr; cbn; lia].
Qed.

Lemma three_timers_ok : timers_ok three_timers.
Proof.
  constructor; cbn; try lia.
  - repeat constructor; unfold tid_lt; cbn; lia.
  - constructor.
  - apply Forall_forall. repeat (apply Forall_cons; split; [cbn; lia|]). by apply Forall_nil.
  - intros p Hp. by apply not_elem_of_nil in Hp.
Qed.

Lemma three_timers_calm : calm three_timers.
Proof. split; [intros; cbn; lia|]. apply Forall_forall. repeat (apply Forall_cons; split; [cbn; lia|]). by apply Forall_nil. Qed.

Lemma run_at_then_cancel_witness :
  exists tid d1 d2, run_at 500 (user_task 7) 20 three_timers = Ret tid d1 /\ cancel tid d1 = Ret true d2 /\
    is_Some (map_find (500, tid.2 + 1) (timers_ d1)) /\
    timers_ d2 = timers_ three_timers /\ repeatable_timers_ d2 = repeatable_timers_ three_timers.
Proof.
  apply (run_at_then_cancel three_timers 500 (user_task 7) 20).
  - exact three_timers_ok.
  - exact three_timers_calm.
  - reflexivity.
  - reflexivity.
  - reflexivity.
  - reflexivity.
Defined.

(** * Repeating timers *)

Definition closure_node (t : task) : option timer_id_t := match t with repeat_closure n => Some n | _ => None end.

(** What a worker is doing: a task it took and has not begun, or, in the middle of a
    repetition or for a task of a client, a callback *)
Inductive running := taken (t : task) | calling (t : task).
Definition not_begun (x : running) : option task := match x with taken t => Some t | calling _ => None end.

(** Repetitions that wait: in the timers, in the queue of the pool or taken by a worker. *)
Definition pending (d : dispatcher) (run : list running) : list timer_id_t :=
  omap closure_node ((timers_ d).*2 ++ tp_tasks (thread_pool_ d) ++ omap not_begun run).

Section permutations.
Context {V : Type}.
Implicit Types l : list (timer_id_t * V).

Lemma map_set_perm k v l : (forall p, p ∈ l -> p.1 <> k) -> map_set k v l ≡ₚ (k, v) :: l.
Proof.
  induction l as [|[k' v'] l IH]; intros Hk; cbn [map_set]; [done|].
  destruct (tid_ltb k k') eqn:E1; [done|destruct (tid_ltb k' k) eqn:E2]; tid_cases.
  - rewrite IH by (intros p Hp; apply Hk; by right). by rewrite Permutation_swap.
  - destruct (Hk (k', v')); [by left|]. cbn. by apply tid_lt_total.
Qed.

Lemma map_erase_perm k v l : map_sorted l -> (k, v) ∈ l -> l ≡ₚ (k, v) :: map_erase k l.
Proof.
  induction l as [|[k' v'] l IH]; intros Hs Hin; [by apply not_elem_of_nil in Hin|].
  pose proof Hs as [Hs' Hf]%map_sorted_cons. rewrite Forall_forall in Hf. cbn in Hf.
  unfold map_erase. apply elem_of_cons in Hin as [E|Hin].
  - simplify_eq. rewrite filter_cons_False by (cbn; tauto). f_equiv. rewrite filter_all; [done|].
    intros p Hp Heq. apply Hf in Hp. rewrite Heq in Hp. by apply tid_lt_irrefl in Hp.
  - rewrite filter_cons_True.
    + rewrite Permutation_swap. f_equiv. by apply IH.
    + cbn. intros ->. apply Hf in Hin. by apply tid_lt_irrefl in Hin.
Qed.

Lemma filter_sorted (P : timer_id_t * V -> Prop) `{!forall x, Decision (P x)} l : map_sorted l -> map_sorted (filter P l).
Proof.
  induction l as [|p l IH]; intros Hs; [done|]. apply map_sorted_cons in Hs as [Hs Hf].
  rewrite filter_cons. case_decide; [|by apply IH].
  apply map_sorted_cons. split; [by apply IH|]. apply Forall_forall. intros q [_ Hq]%list_elem_of_filter.
  rewrite Forall_forall in Hf. by apply Hf.
Qed.
End permutations.

(** The repeating timers of a dispatcher: timers [l], repeatable tasks [r], the
    pool's queue and what its workers took [ts], the last sequence number [s] and the ids
    handed out. *)
Definition pending_of (l : list (timer_id_t * task)) (ts : list task) : list timer_id_t := omap closure_node (l.*2 ++ ts).

#[global] Instance pending_of_proper : Proper ((≡ₚ) ==> (≡ₚ) ==> (≡ₚ)) pending_of.
Proof. intros l k Hl ts us Ht. unfold pending_of. by rewrite Hl, Ht. Qed.

Record repeating_ok (l : list (timer_id_t * task)) (r : list (timer_id_t * repeatable_task)) (s : Z)
    (ts : list task) (ids : list timer_id_t) : Prop := {
  rp_seq : 0 <= s;
  rp_sorted : map_sorted l;
  rp_rsorted : map_sorted r;
  rp_keys : forall p, p ∈ l -> 0 < p.1.2 <= s;
  rp_rkeys : forall p, p ∈ r -> 0 < p.1.2 <= s;
  rp_nodup : NoDup (pending_of l ts);
  rp_pending : forall node, node ∈ pending_of l ts -> node.2 <= s;
  rp_live : forall node rt, (node, rt) ∈ r -> node ∈ pending_of l ts;
  rp_target : forall node rt t, (node, rt) ∈ r -> (timer_id rt, t) ∈ l -> t = repeat_closure node;
  rp_tids : forall node rt, (node, rt) ∈ r -> (timer_id rt).2 <= s;
  rp_source : forall k node, (k, repeat_closure node) ∈ l -> exists rt, (node, rt) ∈ r /\ timer_id rt = k;
  rp_ids : forall id, id ∈ ids -> id.2 <= s /\ (forall node, (id, repeat_closure node) ∉ l);
}.

Lemma repeating_perm l r s ts ts' ids : ts ≡ₚ ts' -> repeating_ok l r s ts ids -> repeating_ok l r s ts' ids.
Proof.
  intros Hts H. assert (pending_of l ts' ≡ₚ pending_of l ts) as HP by (by rewrite Hts).
  destruct H. constructor; try done.
  - by rewrite HP.
  - intros n. rewrite HP. auto.
  - intros n rt Hn. rewrite HP. eauto.
Qed.

Lemma pending_cons_perm k t l l' ts :
  l' ≡ₚ (k, t) :: l -> pending_of l' ts ≡ₚ omap closure_node [t] ++ pending_of l ts.
Proof. intros ->. unfold pending_of. cbn. by destruct (closure_node t). Qed.

Lemma fresh_in {V} (l : list (timer_id_t * V)) s k v : (forall p, p ∈ l -> 0 < p.1.2 <= s) -> s < k.2 -> (k, v) ∉ l.
Proof. intros Hl Hk Hin. apply Hl in Hin. cbn in Hin. lia. Qed.

(** A new one-shot timer. *)
Lemma repeating_add_once l r s ts ids tp n :
  repeating_ok l r s ts ids ->
  repeating_ok (map_set (tp, s + 1) (user_task n) l) r (s + 1) ts ((tp, s + 1) :: ids).
Proof.
  intros H. assert (forall p, p ∈ l -> p.1 <> (tp, s + 1)) as Hfr.
  { eapply fresh_key; [apply H|]. cbn. lia. }
  pose proof (rp_sorted _ _ _ _ _ H) as Hs.
  assert (pending_of (map_set (tp, s + 1) (user_task n) l) ts ≡ₚ pending_of l ts) as HP
    by (etrans; [by eapply pending_cons_perm, map_set_perm|done]).
  assert (forall k t, (k, t) ∈ map_set (tp, s + 1) (user_task n) l ->
    k = (tp, s + 1) /\ t = user_task n \/ (k, t) ∈ l) as Hel.
  { intros k t [Heq|[? _]]%elem_of_map_set; [left; by simplify_eq|by right|done]. }
  pose proof (rp_seq _ _ _ _ _ H). constructor.
  - lia.
  - by apply map_set_sorted.
  - apply H.
  - intros [k t] [[-> ->]|Hp]%Hel; [cbn; lia|]. apply (rp_keys _ _ _ _ _ H) in Hp. lia.
  - intros p Hp. apply (rp_rkeys _ _ _ _ _ H) in Hp. lia.
  - rewrite HP. apply H.
  - intros node. rewrite HP. intros Hn. apply (rp_pending _ _ _ _ _ H) in Hn. lia.
  - intros node rt Hn. rewrite HP. by eapply rp_live.
  - intros node rt t Hn [[Heq ->]|Ht]%Hel; [|by eapply rp_target].
    apply (rp_tids _ _ _ _ _ H) in Hn. rewrite Heq in Hn. cbn in Hn. lia.
  - intros node rt Hn. apply (rp_tids _ _ _ _ _ H) in Hn. lia.
  - intros k node [[_ ?]|Hp]%Hel; [done|by eapply rp_source].
  - intros id [->|Hid]%elem_of_cons; split.
    + cbn. lia.
    + intros node [[_ ?]|Hp]%Hel; [done|]. by apply Hfr in Hp.
    + apply (rp_ids _ _ _ _ _ H) in Hid as [? _]. lia.
    + apply (rp_ids _ _ _ _ _ H) in Hid as [Hb Hid]. intros node [[-> ?]|Hp]%Hel; [done|by apply (Hid node)].
Qed.

(** Scheduling a repetition of [node]: a new one, or the next one of a node
    whose closure was just taken out of the queue [ts0]. *)
Lemma repeating_schedule l r s ts0 ts ids node rt k s' :
  repeating_ok l r s ts0 ids -> s < k.2 <= s' -> 0 < node.2 <= s' -> timer_id rt = k ->
  NoDup (node :: pending_of l ts) ->
  (forall n, n ∈ pending_of l ts0 -> n = node \/ n ∈ pending_of l ts) ->
  (forall n, n ∈ pending_of l ts -> n ∈ pending_of l ts0) ->
  repeating_ok (map_set k (repeat_closure node) l) (map_set node rt r) s' ts ids.
Proof.
  intros H Hk Hn Hrt Hnd H0 H1. assert (forall p, p ∈ l -> p.1 <> k) as Hfr.
  { eapply fresh_key; [apply H|]. lia. }
  pose proof (rp_sorted _ _ _ _ _ H) as Hs. pose proof (rp_rsorted _ _ _ _ _ H) as Hrs.
  assert (pending_of (map_set k (repeat_closure node) l) ts ≡ₚ node :: pending_of l ts) as HP
    by (etrans; [by eapply pending_cons_perm, map_set_perm|done]).
  assert (forall k' t, (k', t) ∈ map_set k (repeat_closure node) l ->
    k' = k /\ t = repeat_closure node \/ (k', t) ∈ l) as Hel.
  { intros k' t [Heq|[? _]]%elem_of_map_set; [left; by simplify_eq|by right|done]. }
  assert (forall n rt', (n, rt') ∈ map_set node rt r -> n = node /\ rt' = rt \/ n <> node /\ (n, rt') ∈ r) as Hrel.
  { intros n rt' [Heq|[? ?]]%elem_of_map_set; [left; by simplify_eq|by right|done]. }
  assert (node ∉ pending_of l ts) as Hnp by by apply NoDup_cons in Hnd as [? _].
  pose proof (rp_seq _ _ _ _ _ H). constructor.
  - lia.
  - by apply map_set_sorted.
  - by apply map_set_sorted.
  - intros [k' t] [[-> ->]|Hp]%Hel; [cbn; lia|]. apply (rp_keys _ _ _ _ _ H) in Hp. lia.
  - intros [n rt'] [[-> ->]|[_ Hp]]%Hrel; [cbn; lia|]. apply (rp_rkeys _ _ _ _ _ H) in Hp. lia.
  - by rewrite HP.
  - intros n. rewrite HP. intros [->|Hin]%elem_of_cons; [lia|]. apply H1, (rp_pending _ _ _ _ _ H) in Hin. lia.
  - intros n rt' [[-> ->]|[Hne Hp]]%Hrel; rewrite HP; [by left|].
    apply (rp_live _ _ _ _ _ H) in Hp. apply H0 in Hp as [?|?]; [done|by right].
  - intros n rt' t [[-> ->]|[Hne Hp]]%Hrel [[Heq ->]|Ht]%Hel.
    + done.
    + rewrite Hrt in Ht. by apply Hfr in Ht.
    + apply (rp_tids _ _ _ _ _ H) in Hp. rewrite Heq in Hp. lia.
    + by eapply rp_target.
  - intros n rt' [[-> ->]|[Hne Hp]]%Hrel; [rewrite Hrt; lia|]. apply (rp_tids _ _ _ _ _ H) in Hp. lia.
  - intros k' n [[-> Heq]|Hp]%Hel.
    + simplify_eq. exists rt. split; [|done]. apply elem_of_map_set; [done|by left].
    + destruct (rp_source _ _ _ _ _ H _ _ Hp) as (rt' & Hr' & Hk'). exists rt'. split; [|done].
      apply elem_of_map_set; [done|]. right. split; [done|]. cbn. intros ->. apply Hnp.
      unfold pending_of. rewrite omap_app. apply elem_of_app. left. apply list_elem_of_omap.
      exists (repeat_closure node). split; [|done]. apply (list_elem_of_fmap_2 snd) in Hp. done.
  - intros id Hid. apply (rp_ids _ _ _ _ _ H) in Hid as [Hb Hid]. split; [lia|].
    intros n [[-> _]|Hp]%Hel; [lia|by apply (Hid n)].
Qed.

(** Cancelling by an id that was handed out. *)
Lemma repeating_cancel_once l r s ts ids id t :
  repeating_ok l r s ts ids -> id ∈ ids -> (id, t) ∈ l -> repeating_ok (map_erase id l) r s ts ids.
Proof.
  intros H Hid Ht. pose proof (rp_sorted _ _ _ _ _ H) as Hs.
  assert (pending_of (map_erase id l) ts ≡ₚ pending_of l ts) as HP.
  { pose proof (pending_cons_perm id t (map_erase id l) l ts (map_erase_perm _ _ _ Hs Ht)) as HP.
    destruct t as [|node|]; try done. exfalso. apply (rp_ids _ _ _ _ _ H) in Hid as [_ Hid]. by apply (Hid node). }
  assert (forall k t, (k, t) ∈ map_erase id l -> (k, t) ∈ l) as Hel by (intros ?? [_ ?]%elem_of_map_erase; done).
  constructor; try apply H.
  - by apply map_erase_sorted.
  - intros [k t'] Hp%Hel. by apply (rp_keys _ _ _ _ _ H) in Hp.
  - rewrite HP. apply H.
  - intros n. rewrite HP. apply H.
  - intros n rt Hn. rewrite HP. by eapply rp_live.
  - intros n rt t' Hn Ht'%Hel. by eapply rp_target.
  - intros k n Hp%Hel. by eapply rp_source.
  - intros i Hi. apply (rp_ids _ _ _ _ _ H) in Hi as [? Hi]. split; [done|]. intros n Hn%Hel. by apply (Hi n).
Qed.

Lemma repeating_cancel_repeat l r s ts ids id rt :
  repeating_ok l r s ts ids -> (id, rt) ∈ r ->
  repeating_ok (map_erase (timer_id rt) l) (map_erase id r) s ts ids.
Proof.
  intros H Hrt. pose proof (rp_sorted _ _ _ _ _ H) as Hs.
  assert (forall k t, (k, t) ∈ map_erase (timer_id rt) l -> (k, t) ∈ l) as Hel by (intros ?? [_ ?]%elem_of_map_erase; done).
  assert (exists pre, pending_of l ts ≡ₚ pre ++ pending_of (map_erase (timer_id rt) l) ts /\ (forall n, n ∈ pre -> n = id)) as (pre & HP & Hpre).
  { destruct (map_find (timer_id rt) l) as [t|] eqn:Hf.
    - apply map_find_Some in Hf; [|done]. assert (t = repeat_closure id) as -> by by eapply rp_target.
      exists [id]. split; [by apply (pending_cons_perm (timer_id rt) (repeat_closure id)), map_erase_perm|]. by intros n ->%list_elem_of_singleton.
    - exists []. split; [|by intros n ?%not_elem_of_nil]. rewrite map_erase_absent; [done|].
      intros [k t] Hp Heq. cbn in Heq. subst k. by apply (proj1 (map_find_None _ _) Hf) in Hp. }
  constructor; try apply H.
  - by apply map_erase_sorted.
  - by apply map_erase_sorted, H.
  - intros [k t'] Hp%Hel. by apply (rp_keys _ _ _ _ _ H) in Hp.
  - intros p [_ Hp]%elem_of_map_erase. by apply (rp_rkeys _ _ _ _ _ H) in Hp.
  - pose proof (rp_nodup _ _ _ _ _ H) as Hnd. rewrite HP in Hnd. by apply NoDup_app in Hnd as (_ & _ & ?).
  - intros n Hn. apply (rp_pending _ _ _ _ _ H). rewrite HP. apply elem_of_app. by right.
  - intros n rt' [Hne Hn]%elem_of_map_erase. cbn in Hne. apply (rp_live _ _ _ _ _ H) in Hn.
    rewrite HP in Hn. apply elem_of_app in Hn as [Hn|]; [by apply Hpre in Hn|done].
  - intros n rt' t [_ Hn]%elem_of_map_erase Ht%Hel. by eapply rp_target.
  - intros n rt' [_ Hn]%elem_of_map_erase. by eapply rp_tids.
  - intros k n [Hk Hp]%elem_of_map_erase. cbn in Hk.
    destruct (rp_source _ _ _ _ _ H _ _ Hp) as (rt' & Hr' & Hk'). exists rt'. split; [|done].
    apply elem_of_map_erase. split; [|done]. cbn. intros ->. apply Hk. rewrite <-Hk'. f_equal.
    pose proof (rp_rsorted _ _ _ _ _ H) as Hrs. apply map_find_Some in Hr'; [|done].
    apply map_find_Some in Hrt; [|done]. congruence.
  - intros i Hi. apply (rp_ids _ _ _ _ _ H) in Hi as [? Hi]. split; [done|]. intros n Hn%Hel. by apply (Hi n).
Qed.

Lemma filter_compl_perm {A} (P : A -> Prop) `{!forall x, Decision (P x)} (l : list A) :
  filter P l ++ filter (fun x => ~ P x) l ≡ₚ l.
Proof.
  induction l as [|x l IH]; [done|]. rewrite !filter_cons. repeat case_decide; try tauto; cbn.
  - by rewrite IH.
  - by rewrite <-Permutation_middle, IH.
Qed.

(** Due timers move into the queue of the pool. *)
Lemma repeating_fire l r s ts ids now :
  repeating_ok l r s ts ids ->
  repeating_ok (filter (fun p => ~ due now p) l) r s (ts ++ (filter (due now) l).*2) ids.
Proof.
  intros H. assert (pending_of (filter (fun p => ~ due now p) l) (ts ++ (filter (due now) l).*2) ≡ₚ pending_of l ts) as HP.
  { unfold pending_of. rewrite <-(filter_compl_perm (due now) l) at 3. rewrite fmap_app, !omap_app. solve_Permutation. }
  assert (forall p, p ∈ filter (fun p => ~ due now p) l -> p ∈ l) as Hel by (intros ? [_ ?]%list_elem_of_filter; done).
  constructor; try apply H.
  - by apply filter_sorted, H.
  - intros p Hp%Hel. by apply (rp_keys _ _ _ _ _ H).
  - rewrite HP. apply H.
  - intros n. rewrite HP. apply H.
  - intros n rt Hn. rewrite HP. by eapply rp_live.
  - intros n rt t Hn Ht%Hel. by eapply rp_target.
  - intros k n Hp%Hel. by eapply rp_source.
  - intros i Hi. apply (rp_ids _ _ _ _ _ H) in Hi as [? Hi]. split; [done|]. intros n Hn%Hel. by apply (Hi n).
Qed.

(** A worker begins a task that is no repetition. *)
Lemma repeating_pop l r s t ts ids :
  closure_node t = None -> repeating_ok l r s (t :: ts) ids -> repeating_ok l r s ts ids.
Proof.
  intros Ht H. assert (pending_of l (t :: ts) = pending_of l ts) as HP.
  { unfold pending_of. rewrite !omap_app. cbn. by rewrite Ht. }
  destruct H. rewrite HP in *. by constructor.
Qed.

(** * Histories of a dispatcher *)

(** A dispatcher, the ids its clients were given and what the workers are doing *)
Record dsystem := mk_dsystem { ds_disp : dispatcher; ds_ids : list timer_id_t; ds_run : list running }.

(** Clients add timers and cancel by ids they were given; the loop thread handles
    timeouts; a worker takes a task, begins it (a repetition schedules the next one) and
    makes the call; the sequence number has room.  Each of these is one step: the source
    locks mutex_ only in handle_timeout, so an overlap of two of them is a data race. *)
Inductive dstep : dsystem -> dsystem -> Prop :=
| step_run_at d ids run tp n iv tid d' :
    - 2 ^ 63 < tp < 2 ^ 63 -> time_seq_ d < 2 ^ 63 - 2 ->
    run_at tp (user_task n) iv d = Ret tid d' -> dstep (mk_dsystem d ids run) (mk_dsystem d' (tid :: ids) run)
| step_cancel d ids run tid b d' :
    tid ∈ ids -> cancel tid d = Ret b d' -> dstep (mk_dsystem d ids run) (mk_dsystem d' ids run)
| step_timeout d ids run d' : handle_timeout d = Ret tt d' -> dstep (mk_dsystem d ids run) (mk_dsystem d' ids run)
| step_take d ids run t d' : worker_pop d = Ret (Some t) d' -> dstep (mk_dsystem d ids run) (mk_dsystem d' ids (taken t :: run))
| step_repeat d ids r1 node r2 cb d' :
    time_seq_ d < 2 ^ 63 - 2 -> schedule_repeat node d = Ret cb d' ->
    dstep (mk_dsystem d ids (r1 ++ taken (repeat_closure node) :: r2)) (mk_dsystem d' ids (r1 ++ calling cb :: r2))
| step_begin d ids r1 t r2 :
    closure_node t = None -> dstep (mk_dsystem d ids (r1 ++ taken t :: r2)) (mk_dsystem d ids (r1 ++ calling t :: r2))
| step_call d ids r1 t r2 d' :
    try_catch (call_user t) (mret tt) d = Ret tt d' ->
    dstep (mk_dsystem d ids (r1 ++ calling t :: r2)) (mk_dsystem d' ids (r1 ++ r2))
| step_exit d ids run : dstep (mk_dsystem d ids run) (mk_dsystem (set_working false d) ids run).

Definition view (d : dispatcher) := (timers_ d, repeatable_timers_ d, time_seq_ d, thread_pool_ d).

Definition repeating (run : list running) (d : dispatcher) (ids : list timer_id_t) : Prop :=
  tp_working (thread_pool_ d) = true /\
  repeating_ok (timers_ d) (repeatable_timers_ d) (time_seq_ d) (tp_tasks (thread_pool_ d) ++ omap not_begun run) ids.

Lemma repeating_view run d d' ids : view d' = view d -> repeating run d ids -> repeating run d' ids.
Proof. unfold view, repeating. intros Hv. by simplify_eq; rewrite H, H0, H1, H2. Qed.

Lemma keeps_int64_of z : keeps view (int64_of z).
Proof. unfold int64_of. by case_match. Qed.
#[local] Hint Resolve keeps_int64_of : keeps.
Lemma keeps_get_current_time : keeps view get_current_time.
Proof. unfold get_current_time. keeps. Qed.
#[local] Hint Resolve keeps_get_current_time : keeps.
Lemma keeps_update_next_timeout : keeps view update_next_timeout.
Proof. unfold update_next_timeout. keeps. Qed.
#[local] Hint Resolve keeps_update_next_timeout : keeps.
Lemma keeps_call_user t : keeps view (call_user t).
Proof. unfold call_user. keeps. Qed.
#[local] Hint Resolve keeps_call_user : keeps.

Lemma keeps_returns {A} (m : M dispatcher A) d a d' : keeps view m -> m d = Ret a d' -> view d' = view d.
Proof. intros Hm E. specialize (Hm d). by rewrite E in Hm. Qed.

Lemma repeating_timers_ok run d ids : repeating run d ids -> timers_ok d.
Proof. intros [_ H]. constructor; apply H. Qed.

Lemma repeating_run_at run d ids tp n iv tid d' :
  - 2 ^ 63 < tp < 2 ^ 63 -> time_seq_ d < 2 ^ 63 - 2 -> repeating run d ids ->
  run_at tp (user_task n) iv d = Ret tid d' -> repeating run d' (tid :: ids).
Proof.
  intros Htp Hs H E. pose proof (repeating_timers_ok _ _ _ H) as Hok. destruct H as [Hw H].
  pose proof (rp_seq _ _ _ _ _ H).
  assert (forall d0, keeps view (_ ← update_next_timeout; mret tid) -> (_ ← update_next_timeout; mret tid) d0 = Ret tid d' ->
    repeating run d0 (tid :: ids) -> repeating run d' (tid :: ids)) as Hup
    by (intros; by eapply repeating_view; [eapply keeps_returns|]).
  destruct (working_ d) eqn:Hwk.
  - destruct (decide (iv = 0)) as [->|Hiv].
    + rewrite run_at_once_spec in E by (done || lia).
      assert (tid = (tp, time_seq_ d + 1)) as Ht.
      { unfold mbind, M_bind, mret, M_ret in E. destruct (update_next_timeout _); by simplify_eq. }
      rewrite <-Ht in E. eapply Hup, conj; [keeps|exact E|exact Hw|]. cbn. rewrite Ht. by apply repeating_add_once.
    + rewrite run_at_repeat_spec in E by (done || lia).
      assert (tid = (- tp, time_seq_ d + 1)) as Ht.
      { unfold mbind, M_bind, mret, M_ret in E. destruct (update_next_timeout _); by simplify_eq. }
      rewrite <-Ht in E. eapply Hup, conj; [keeps|exact E|exact Hw|]. cbn.
      assert (tid ∉ pending_of (timers_ d) (tp_tasks (thread_pool_ d) ++ omap not_begun run)) as Hnp.
      { intros Hin. apply (rp_pending _ _ _ _ _ H) in Hin. rewrite Ht in Hin. cbn in Hin. lia. }
      assert (repeating_ok (timers_ d) (repeatable_timers_ d) (time_seq_ d + 1) (tp_tasks (thread_pool_ d) ++ omap not_begun run) (tid :: ids)) as H'.
      { destruct H. constructor; try done; try lia.
        - intros p Hp. apply rp_keys0 in Hp. lia.
        - intros p Hp. apply rp_rkeys0 in Hp. lia.
        - intros p Hp. apply rp_pending0 in Hp. lia.
        - intros p rt Hp. apply rp_tids0 in Hp. lia.
        - intros id [->|Hid]%elem_of_cons; [|apply rp_ids0 in Hid as [? ?]; split; [lia|done]].
          rewrite Ht. split; [cbn; lia|]. intros node Hin. apply rp_keys0 in Hin. cbn in Hin. lia. }
      eapply repeating_schedule; [exact H'| | | | |by right|done]; rewrite ?Ht; cbn; try lia; try done.
      apply NoDup_cons. rewrite <-Ht. split; [done|apply H].
  - unfold run_at, mbind, M_bind, gets in E. rewrite Hwk in E. injection E as <- <-. split; [done|].
    destruct H. constructor; try done. intros id [->|Hid]%elem_of_cons; [|by apply rp_ids0].
    split; [cbn; lia|]. intros node Hin. apply rp_keys0 in Hin. cbn in Hin. lia.
Qed.

Lemma repeating_cancel run d ids tid b d' :
  tid ∈ ids -> repeating run d ids -> cancel tid d = Ret b d' -> repeating run d' ids.
Proof.
  intros Hid [Hw H] E. unfold cancel in E. destruct (tid.1 <? 0).
  - unfold mbind, M_bind, gets, modify, mret, M_ret in E.
    destruct (map_find tid (repeatable_timers_ d)) as [rt|] eqn:Hf; [|done].
    apply map_find_Some in Hf; [|apply H]. cbn [of_option mret M_ret] in E.
    assert (repeating_ok (map_erase (timer_id rt) (timers_ d)) (map_erase tid (repeatable_timers_ d)) (time_seq_ d) (tp_tasks (thread_pool_ d) ++ omap not_begun run) ids)
      as H' by by apply repeating_cancel_repeat.
    case_bool_decide as Hfk; cbn [when] in E; injection E as <- <-; split; try done.
    cbn. rewrite map_erase_absent in H'; [done|]. intros [k t] Hp Heq. cbn in Heq. subst k.
    apply Hfk. apply map_find_Some in Hp; [|apply H]. by rewrite Hp.
  - unfold mbind, M_bind, gets, modify, mret, M_ret in E.
    destruct (map_find tid (timers_ d)) as [t|] eqn:Hf; injection E as <- <-; [|done].
    apply map_find_Some in Hf; [|apply H]. split; [done|]. cbn. by eapply repeating_cancel_once.
Qed.

Lemma repeating_timeout run d ids d' : repeating run d ids -> handle_timeout d = Ret tt d' -> repeating run d' ids.
Proof.
  intros [Hw H] E. unfold handle_timeout, get_current_time, mbind, M_bind, gets, modify, mret, M_ret in E.
  rewrite fire_loop_spec in E by (cbn; done || lia || apply H).
  apply (keeps_returns _ _ _ _ keeps_update_next_timeout) in E. eapply repeating_view; [exact E|].
  split; [done|]. cbn -[filter]. eapply repeating_perm, repeating_fire, H. solve_Permutation.
Qed.

Lemma repeating_take run d ids t d' :
  repeating run d ids -> worker_pop d = Ret (Some t) d' -> repeating (taken t :: run) d' ids.
Proof.
  intros [Hw H] E. unfold worker_pop, mbind, M_bind, gets, modify, mret, M_ret in E.
  destruct (tp_tasks (thread_pool_ d)) as [|t' ts] eqn:Ht; [done|]. injection E as -> <-. split; [done|]. cbn.
  eapply repeating_perm; [|exact H]. solve_Permutation.
Qed.

Lemma repeating_repeat r1 node r2 cb d d' ids :
  time_seq_ d < 2 ^ 63 - 2 -> repeating (r1 ++ taken (repeat_closure node) :: r2) d ids ->
  schedule_repeat node d = Ret cb d' -> repeating (r1 ++ calling cb :: r2) d' ids.
Proof.
  intros Hs [Hw H0]. set (ts := tp_tasks (thread_pool_ d) ++ omap not_begun (r1 ++ r2)).
  assert (repeating_ok (timers_ d) (repeatable_timers_ d) (time_seq_ d) (repeat_closure node :: ts) ids) as H.
  { eapply repeating_perm, H0. unfold ts. rewrite !omap_app. cbn. solve_Permutation. }
  pose proof (rp_seq _ _ _ _ _ H) as Hseq.
  unfold schedule_repeat. unfold mbind at 1, M_bind at 1, gets at 1.
  unfold mbind at 1, M_bind at 1. destruct (map_find node (repeatable_timers_ d)) as [rt|] eqn:Hf; [|done]. cbn [of_option mret M_ret].
  unfold mbind at 1, M_bind at 1. unfold int64_of. destruct (_ && _)%bool; [|done]. unfold mret at 1, M_ret at 1.
  unfold mbind at 1, M_bind at 1. rewrite next_seq_spec by lia. unfold mbind at 1, M_bind at 1, modify at 1.
  unfold mbind at 1, M_bind at 1, modify at 1. intros E.
  set (key := (at_ rt + interval rt, time_seq_ d + 1)) in *.
  set (rt' := mk_repeatable_task (at_ rt + interval rt) (interval rt) key (callback rt)) in *.
  eapply repeating_view; [eapply keeps_returns, E; keeps|]. split; [done|]. cbn.
  replace (omap not_begun (r1 ++ calling cb :: r2)) with (omap not_begun (r1 ++ r2)) by (by rewrite !omap_app). fold ts.
  assert (pending_of (timers_ d) (repeat_closure node :: ts) ≡ₚ node :: pending_of (timers_ d) ts) as HP.
  { unfold pending_of. rewrite !omap_app. cbn. by rewrite Permutation_middle. }
  apply map_find_Some in Hf; [|apply H].
  apply (repeating_schedule _ _ _ _ ts _ node rt' key _ H); cbn; try lia; try done.
  - apply (rp_rkeys _ _ _ _ _ H) in Hf. cbn in Hf. lia.
  - rewrite <-HP. apply H.
  - intros n. rewrite HP. by intros [?|?]%elem_of_cons; [left|right].
  - intros n Hn. rewrite HP. by right.
Qed.

Lemma repeating_begin r1 t r2 d ids :
  closure_node t = None -> repeating (r1 ++ taken t :: r2) d ids -> repeating (r1 ++ calling t :: r2) d ids.
Proof.
  intros Ht [Hw H]. split; [done|]. apply (repeating_pop _ _ _ t); [done|]. eapply repeating_perm, H.
  rewrite !omap_app. cbn. solve_Permutation.
Qed.

Lemma repeating_call r1 t r2 d d' ids :
  repeating (r1 ++ calling t :: r2) d ids -> try_catch (call_user t) (mret tt) d = Ret tt d' -> repeating (r1 ++ r2) d' ids.
Proof.
  intros H E. eapply repeating_view; [eapply keeps_returns, E; keeps|]. destruct H as [Hw H]. split; [done|].
  by rewrite !omap_app in *.
Qed.

Lemma repeating_step p q : dstep p q -> repeating (ds_run p) (ds_disp p) (ds_ids p) -> repeating (ds_run q) (ds_disp q) (ds_ids q).
Proof.
  destruct 1; cbn;
    eauto using repeating_run_at, repeating_cancel, repeating_timeout, repeating_take, repeating_repeat, repeating_begin, repeating_call.
Qed.

Lemma repeating_steps p q : rtc dstep p q -> repeating (ds_run p) (ds_disp p) (ds_ids p) -> repeating (ds_run q) (ds_disp q) (ds_ids q).
Proof. induction 1; eauto using repeating_step. Qed.

Lemma repeating_new clock : repeating [] (dispatcher_new clock) [].
Proof.
  split; [done|]. constructor; cbn; try (intros; by match goal with H : _ ∈ [] |- _ => apply not_elem_of_nil in H end).
  - done.
  - constructor.
  - constructor.
  - constructor.
Qed.

(** C11. A repeating timer is neither lost nor doubled.  In every history of a dispatcher
    in which run_at, cancel, handle_timeout and the part of repeat before its callback do
    not overlap each other (the source locks mutex_ only in handle_timeout, so an overlap is
    a data race) and are defined, each entry of repeatable_timers_ has exactly one
    repetition waiting: in timers_, in the queue of the thread pool, or taken by a worker
    that has not begun it.  A repetition in timers_ belongs to an entry that knows its key. *)
Theorem repeating_timer_pending_once clock d ids run :
  rtc dstep (mk_dsystem (dispatcher_new clock) [] []) (mk_dsystem d ids run) ->
  map_sorted (timers_ d) /\ NoDup (pending d run) /\
  (forall node rt, map_find node (repeatable_timers_ d) = Some rt -> node ∈ pending d run) /\
  (forall k node, (k, repeat_closure node) ∈ timers_ d ->
     exists rt, map_find node (repeatable_timers_ d) = Some rt /\ timer_id rt = k).
Proof.
  intros Hr. destruct (repeating_steps _ _ Hr (repeating_new clock)) as [_ H]. cbn in H.
  pose proof (rp_rsorted _ _ _ _ _ H) as Hrs. split_and!; try apply H.
  - intros node rt Hf. apply map_find_Some in Hf; [|done]. by apply (rp_live _ _ _ _ _ H) in Hf.
  - intros k node Hk. destruct (rp_source _ _ _ _ _ H _ _ Hk) as (rt & Hr' & Ht). exists rt.
    split; [by apply map_find_Some|done].
Qed.

(** A repeating timer at 100 ms that fires at the first timeout; a worker takes it and
    schedules the repetition. *)
Definition one_repeating : dispatcher :=
  match run_at 100 (user_task 5) 10 (dispatcher_new (fun _ => 100)) with Ret _ d => d | _ => dispatcher_new (fun _ => 100) end.
Definition fired_repeating : dispatcher :=
  match handle_timeout one_repeating with Ret _ d => d | _ => one_repeating end.
Definition taken_repeating : dispatcher :=
  match worker_pop fired_repeating with Ret _ d => d | _ => fired_repeating end.
Definition scheduled_repeating : dispatcher :=
  match schedule_repeat (-100, 1) taken_repeating with Ret _ d => d | _ => taken_repeating end.

Lemma repeating_timer_pending_once_witness :
  map_sorted (timers_ scheduled_repeating) /\ pending scheduled_repeating [calling (user_task 5)] = [(-100, 1)] /\
  (forall node rt, map_find node (repeatable_timers_ scheduled_repeating) = Some rt ->
     node ∈ pending scheduled_repeating [calling (user_task 5)]) /\
  (forall k node, (k, repeat_closure node) ∈ timers_ scheduled_repeating ->
     exists rt, map_find node (repeatable_timers_ scheduled_repeating) = Some rt /\ timer_id rt = k).
Proof.
  destruct (repeating_timer_pending_once (fun _ => 100) scheduled_repeating [(-100, 1)] [calling (user_task 5)])
    as (H1 & _ & H3 & H4); [|split_and!; [exact H1|vm_compute; reflexivity|exact H3|exact H4]].
  eapply rtc_l; [apply (step_run_at _ _ _ 100 5 10 (-100, 1) one_repeating); [cbn; lia|cbn; lia|reflexivity]|].
  eapply rtc_l; [apply (step_timeout _ _ _ fired_repeating); reflexivity|].
  eapply rtc_l; [apply (step_take _ _ _ (repeat_closure (-100, 1)) taken_repeating); reflexivity|].
  apply rtc_once, (step_repeat _ _ []); [vm_compute|]; reflexivity.
Defined.

(** Three ways cancel goes wrong: a negative id that is not (or no longer)
    registered, such as a second cancel or a one-shot timer at a negative time,
    makes it read through end(); and cancelling a repeating timer whose repetition
    already waits in the pool frees the task the worker then uses. *)
Theorem cancel_hazards d :
  (forall tid, tid.1 < 0 -> map_find tid (repeatable_timers_ d) = None -> cancel tid d = Undef bad_iterator) /\
  (forall tp t, timers_ok d -> calm d -> working_ d = true -> time_seq_ d < 2 ^ 63 - 2 -> - 2 ^ 62 <= tp < 0 ->
     exists tid d', run_at tp t 0 d = Ret tid d' /\ cancel tid d' = Undef bad_iterator) /\
  (forall node rt ts, timers_ok d -> node.1 < 0 -> map_find node (repeatable_timers_ d) = Some rt ->
     tp_tasks (thread_pool_ d) = repeat_closure node :: ts ->
     exists d1 d2, cancel node d = Ret true d1 /\ worker_pop d1 = Ret (Some (repeat_closure node)) d2 /\
       run_task (repeat_closure node) d2 = Undef dangling_deref).
Proof.
  assert (forall d tid, tid.1 < 0 -> map_find tid (repeatable_timers_ d) = None -> cancel tid d = Undef bad_iterator) as Hend.
  { intros d0 tid Hn Hf. unfold cancel. apply Z.ltb_lt in Hn. rewrite Hn. unfold mbind, M_bind, gets. by rewrite Hf. }
  split_and!; [by apply Hend| |].
  - intros tp t Hok Hc Hw Hs Htp. rewrite run_at_once_spec by (done || lia).
    destruct (update_then_ret (tp, time_seq_ d + 1) (with_timer (tp, time_seq_ d + 1) t (set_seq (time_seq_ d + 1) d))) as (d1 & -> & _ & Hr & _).
    { apply calm_no_overflow, calm_with_timer; [apply Hok|done|cbn; lia]. }
    do 2 eexists. split; [done|]. apply Hend; [cbn; lia|]. rewrite Hr. cbn. apply map_find_None. intros v.
    apply fresh_in with (s := time_seq_ d); [apply Hok|cbn; lia].
  - intros node rt ts Hok Hn Hf Ht. unfold cancel. apply Z.ltb_lt in Hn. rewrite Hn.
    unfold mbind, M_bind, gets, modify, mret, M_ret. rewrite Hf. cbn [of_option mret M_ret].
    assert (map_find node (map_erase node (repeatable_timers_ d)) = None) as He.
    { apply map_find_None. intros v [Hne _]%elem_of_map_erase. done. }
    case_bool_decide; cbn [when modify]; eexists; eexists; (split; [reflexivity|]);
      unfold worker_pop, mbind, M_bind, gets; cbn [thread_pool_ set_timers set_repeatable]; rewrite Ht; (split; [reflexivity|]);
      unfold run_task, modify, try_catch, repeat, schedule_repeat, mbind, M_bind, gets; cbn; by rewrite He.
Qed.

Lemma cancel_hazards_witness :
  cancel (-5, 1) (dispatcher_new (fun _ => 100)) = Undef bad_iterator /\
  exists d1 d2, cancel (-100, 1) fired_repeating = Ret true d1 /\ worker_pop d1 = Ret (Some (repeat_closure (-100, 1))) d2 /\
    run_task (repeat_closure (-100, 1)) d2 = Undef dangling_deref.
Proof.
  split.
  - apply (cancel_hazards (dispatcher_new (fun _ => 100))); [cbn; lia|reflexivity].
  - destruct (cancel_hazards fired_repeating) as (_ & _ & H).
    apply (H (-100, 1) (mk_repeatable_task 100 10 (100, 2) (user_task 5)) []); [|cbn; lia|reflexivity|reflexivity].
    constructor.
    + vm_compute. congruence.
    + constructor.
    + repeat constructor.
    + intros p Hp. by apply not_elem_of_nil in Hp.
    + intros p Hp. apply list_elem_of_singleton in Hp as ->. vm_compute. split; congruence.
Defined.
