(* ===== verification/Memory.v ===== *)
(** A byte buffer at an address, inside any state that holds one: the bounds-checked
    reads, writes and memmove that the page formats do through raw pointers. *)
From S2P Require Import Prelude.

Section memory.
Context {S : Type} (addr : S -> Z) (bytes : S -> list byte) (set_bytes : list byte -> S -> S).

(** [n] bytes at [a] lie inside the buffer; a negative int length becomes a huge size_t. *)
Definition in_mem (s : S) (a n : Z) : bool :=
  (0 <=? n) && (addr s <=? a) && (a + n <=? addr s + Z.of_nat (length (bytes s))).

Definition mem_slice (s : S) (a n : Z) : list byte := take (Z.to_nat n) (drop (Z.to_nat (a - addr s)) (bytes s)).

Definition mem_read (a n : Z) : M S (list byte) :=
  s ← gets (fun s => s);
  if in_mem s a n then mret (mem_slice s a n) else undef out_of_bounds.

(** memcpy from an object outside the buffer *)
Definition mem_write (a : Z) (bs : list byte) : M S unit :=
  s ← gets (fun s => s);
  if in_mem s a (Z.of_nat (length bs)) then modify (set_bytes (splice (bytes s) (Z.to_nat (a - addr s)) bs))
  else undef out_of_bounds.

Definition mem_move (dst src n : Z) : M S unit := bs ← mem_read src n; mem_write dst bs.

Lemma in_mem_true s a n :
  in_mem s a n = true <-> 0 <= n /\ addr s <= a /\ a + n <= addr s + Z.of_nat (length (bytes s)).
Proof. unfold in_mem. rewrite !andb_true_iff, !Z.leb_le. tauto. Qed.

Lemma length_mem_slice s a n : in_mem s a n = true -> Z.of_nat (length (mem_slice s a n)) = n.
Proof. intros H%in_mem_true. unfold mem_slice. rewrite length_take, length_drop. lia. Qed.

Lemma mem_read_ok s a n : in_mem s a n = true -> mem_read a n s = Ret (mem_slice s a n) s.
Proof. intros E. unfold mem_read, mbind, M_bind, gets. by rewrite E. Qed.

Lemma mem_read_inv s a n bs s' :
  mem_read a n s = Ret bs s' -> in_mem s a n = true /\ bs = mem_slice s a n /\ s' = s.
Proof.
  unfold mem_read, mbind, M_bind, gets. destruct (in_mem s a n); [|done]. unfold mret, M_ret. intros. by simplify_eq.
Qed.

Lemma mem_write_ok s a bs : in_mem s a (Z.of_nat (length bs)) = true ->
  mem_write a bs s = Ret tt (set_bytes (splice (bytes s) (Z.to_nat (a - addr s)) bs) s).
Proof. intros E. unfold mem_write, mbind, M_bind, gets. by rewrite E. Qed.

Lemma mem_move_ok s dst src n :
  in_mem s src n = true -> in_mem s dst n = true ->
  mem_move dst src n s = Ret tt (set_bytes (splice (bytes s) (Z.to_nat (dst - addr s)) (mem_slice s src n)) s).
Proof.
  intros Hs Hd. unfold mem_move, mbind, M_bind. rewrite mem_read_ok by done. apply mem_write_ok.
  by rewrite length_mem_slice.
Qed.
End memory.
