(* ===== verification/Rid.v ===== *)
(** Record identifiers: src/table/rid.{h,cc}, as values and as the eight bytes
    they occupy in index pages. *)
From S2P Require Import Prelude.

Definition NULL_PAGE : Z := -1.
Definition NULL_SLOT : Z := -1.

Record rid := mk_rid { rid_page : Z; rid_slot : Z }.

#[global] Instance rid_eq_dec : EqDecision rid.
Proof. solve_decision. Defined.

(** rid::rid() *)
Definition rid_null : rid := mk_rid NULL_PAGE NULL_SLOT.

(** rid::operator== *)
Definition rid_eqb (a b : rid) : bool := (rid_page a =? rid_page b) && (rid_slot a =? rid_slot b).

(** rid::operator!= *)
Definition rid_neb (a b : rid) : bool := negb (rid_eqb a b).

(** rid::operator=, which leaves a rid assigned to itself alone *)
Definition rid_assign (same_object : bool) (this id : rid) : rid :=
  if same_object then this else mk_rid (rid_page id) (rid_slot id).

(** rid::set *)
Definition rid_set (page slot : Z) (this : rid) : rid := mk_rid page slot.

(** sizeof(rid) and its representation *)
Definition sizeof_rid : Z := 8.
Definition rid_bytes (r : rid) : list byte := int_bytes (rid_page r) ++ int_bytes (rid_slot r).
Definition bytes_rid (bs : list byte) : rid := mk_rid (bytes_int bs) (bytes_int (drop 4 bs)).

Definition rid_ok (r : rid) : Prop :=
  INT_MIN <= rid_page r <= INT_MAX /\ INT_MIN <= rid_slot r <= INT_MAX.

Lemma length_rid_bytes r : length (rid_bytes r) = 8%nat.
Proof. done. Qed.
#[export] Hint Rewrite length_rid_bytes : alphadb_len.

Lemma rid_eqb_eq a b : rid_eqb a b = true <-> a = b.
Proof.
  destruct a, b. unfold rid_eqb. rewrite andb_true_iff, !Z.eqb_eq. cbn. split; [intros [-> ->]; done|intros; by simplify_eq].
Qed.

Lemma bytes_rid_bytes r bs : rid_ok r -> bytes_rid (rid_bytes r ++ bs) = r.
Proof.
  intros [Hp Hs]. unfold bytes_rid, rid_bytes. rewrite <-app_assoc.
  rewrite bytes_int_bytes by done. rewrite drop_app_length' by done. rewrite bytes_int_bytes by done. by destruct r.
Qed.
