(* ===== verification/IndexFormat.v ===== *)
(** The layout of index pages: src/index/b+tree/index_format.{h,cc}.  The page
    is a byte buffer at an address; base, rids and keys are addresses, keys[i]
    is an eight-byte pointer, and a key is compared through what it points to. *)
From Stdlib Require Import Sorting.Sorted.
From S2P Require Import Prelude Comparator Rid Memory.

(** * State *)

Definition DUMMY_KEY : Z := -1.
Definition DEFAULT_KEY_SIZE : Z := 4.

Record index_page_hdr := mk_index_page_hdr { hdr_count : Z; hdr_fanout : Z; free_start : Z; free_space : Z }.

Record index_format := mk_index_format {
  base : Z;
  rids : Z;
  keys : Z;
  hdr : index_page_hdr;
  cmptr : data_type;      (* the type the comparator was made with *)
  key_len : Z;
  datatype : data_type;
}.

(** index_format::index_format: the comparator takes the type found in the
    uninitialised member. *)
Definition index_format_new (garbage : index_format) : index_format :=
  mk_index_format (base garbage) (rids garbage) (keys garbage) (hdr garbage) (datatype garbage) (key_len garbage) (datatype garbage).

(** The page and the buffer it lies in. *)
Record index_page := mk_index_page { fmt : index_format; buf_addr : Z; buf : list byte }.

Definition set_fmt (f : index_format) (p : index_page) : index_page := mk_index_page f (buf_addr p) (buf p).
Definition set_buf (b : list byte) (p : index_page) : index_page := mk_index_page (fmt p) (buf_addr p) b.

Definition set_keys (k : Z) (f : index_format) : index_format :=
  mk_index_format (base f) (rids f) k (hdr f) (cmptr f) (key_len f) (datatype f).
Definition set_hdr (h : index_page_hdr) (f : index_format) : index_format :=
  mk_index_format (base f) (rids f) (keys f) h (cmptr f) (key_len f) (datatype f).

Section operations.
(** The bytes behind a key pointer. *)
Context (heap : Z -> list byte).

(** The accesses to the page. *)
Definition read_mem : Z -> Z -> M index_page (list byte) := mem_read buf_addr buf.
Definition write_mem : Z -> list byte -> M index_page unit := mem_write buf_addr buf set_buf.
Definition memmove : Z -> Z -> Z -> M index_page unit := mem_move buf_addr buf set_buf.

(** keys[i] and rids[i] *)
Definition key_at (i : Z) : M index_page Z :=
  f ← gets fmt; bs ← read_mem (keys f + 8 * i) 8; mret (le_decode bs).
Definition rid_at (i : Z) : M index_page rid :=
  f ← gets fmt; bs ← read_mem (rids f + sizeof_rid * i) sizeof_rid; mret (bytes_rid bs).

Definition key_tuple (f : index_format) (k : Z) : tuple_t := (mk_cptr k (heap k), key_len f).

(** index_format::search, the loop; keys are compared as pointers. *)
Fixpoint index_search_loop (fuel : nat) (i : Z) (key : Z) : M index_page (option rid) :=
  f ← gets fmt;
  if i <? hdr_count (hdr f) then
    match fuel with
    | O => blocked
    | S fuel =>
        k ← key_at i;
        if k =? key then r ← rid_at i; mret (Some r)
        else index_search_loop fuel (i + 1) key
    end
  else mret None.

Definition index_search (key : Z) : M index_page (option rid) :=
  f ← gets fmt; index_search_loop (Z.to_nat (hdr_count (hdr f))) 0 key.

(** index_format::find_in_leaf, the loop; the interval shrinks in every round. *)
Fixpoint leaf_loop (fuel : nat) (left right key : Z) : M index_page Z :=
  if left <=? right then
    match fuel with
    | O => blocked
    | S fuel =>
        s ← int_of (left + right);
        let mid := Z.quot s 2 in
        f ← gets fmt;
        k ← key_at mid;
        result ← compare (cmptr f) (key_tuple f k) (key_tuple f key);
        if result <? 0 then leaf_loop fuel (mid + 1) right key
        else if 0 <? result then leaf_loop fuel left (mid - 1) key
        else mret mid
    end
  else mret (-1).

Definition find_in_leaf (key : Z) : M index_page Z :=
  f ← gets fmt;
  right ← int_of (hdr_count (hdr f) - 2);
  if right <? 0 then mret (-1) else leaf_loop (Z.to_nat (right + 1)) 0 right key.

(** index_format::find_in_internal, the loop; the second test compares the
    address of the array with the key. *)
Fixpoint internal_loop (fuel : nat) (i bound key : Z) : M index_page Z :=
  if i <? bound then
    match fuel with
    | O => blocked
    | S fuel =>
        f ← gets fmt;
        k ← key_at i;
        if k <? key then internal_loop fuel (i + 1) bound key
        else if keys f <=? k then mret (to_signed 32 i)
        else internal_loop fuel (i + 1) bound key
    end
  else mret (-1).

(** index_format::find_in_internal; the bound is converted to size_t.  Every
    round reads other bytes of the buffer, so it ends within its length. *)
Definition find_in_internal (key : Z) : M index_page Z :=
  f ← gets fmt;
  last ← int_of (hdr_count (hdr f) - 1);
  n ← gets (fun p => length (buf p));
  ret ← internal_loop (S n) 0 (to_unsigned 64 last) key;
  if ret =? -1 then mret last
  else k ← key_at ret; if key =? k then mret (ret + 1) else mret ret.

Definition grow_hdr (n : Z) (h : index_page_hdr) : index_page_hdr :=
  mk_index_page_hdr (hdr_count h + n) (hdr_fanout h) (free_start h + n * (sizeof_rid + DEFAULT_KEY_SIZE))
    (free_space h - n * (sizeof_rid + DEFAULT_KEY_SIZE)).
Definition update_hdr (n : Z) : M index_page unit := modify (fun p => set_fmt (set_hdr (grow_hdr n (hdr (fmt p))) (fmt p)) p).

(** index_format::insert *)
Definition index_insert (key : Z) (id : rid) : M index_page bool :=
  i ← find_in_leaf key;
  if negb (i =? -1) then mret false
  else
    f ← gets fmt;
    let count := hdr_count (hdr f) in
    let len := DEFAULT_KEY_SIZE * count + sizeof_rid * (count - i) in
    _ ← memmove (base f + (i + 1) * sizeof_rid) (base f + i * sizeof_rid) len;
    _ ← write_mem (base f + i * sizeof_rid) (rid_bytes id);
    let keys' := keys f + sizeof_rid in
    _ ← modify (fun p => set_fmt (set_keys keys' (fmt p)) p);
    let len2 := DEFAULT_KEY_SIZE * (count - i) in
    _ ← memmove (keys' + len2) (keys' + len2 + DEFAULT_KEY_SIZE) len2;
    bs ← of_option out_of_bounds (if decide (4 <= length (heap key))%nat then Some (take 4 (heap key)) else None);
    _ ← write_mem (keys' + len2) bs;
    _ ← update_hdr 1;
    mret true.

(** The two moves and the header update that both index_format::remove share. *)
Definition remove_entry_at (i : Z) : M index_page bool :=
  f ← gets fmt;
  let count := hdr_count (hdr f) in
  let remove_key_end := base f + sizeof_rid * count + DEFAULT_KEY_SIZE * i in
  let remove_key_begin := base f + sizeof_rid * count + DEFAULT_KEY_SIZE * (i + 1) in
  _ ← memmove remove_key_end remove_key_begin (DEFAULT_KEY_SIZE * (count - i - 1));
  let remove_rid_end := base f + sizeof_rid * i in
  let len := DEFAULT_KEY_SIZE * (count - 1) + sizeof_rid * (count - i - 1) in
  _ ← memmove remove_rid_end remove_key_begin len;
  _ ← update_hdr (-1);
  mret true.

(** index_format::remove(int) *)
Definition index_remove_at (index : Z) : M index_page bool :=
  f ← gets fmt;
  if hdr_count (hdr f) <=? index then mret false else remove_entry_at index.

(** index_format::remove(key_t, const rid&) *)
Definition index_remove (key : Z) (id : rid) : M index_page bool :=
  i ← find_in_leaf key;
  if i =? -1 then mret false else remove_entry_at i.

(** index_format::enough *)
Definition enough (f : index_format) : bool := 0 <? hdr_count (hdr f).
End operations.

(** * Lemmas *)

Lemma sorted_lookup {A} (R : A -> A -> Prop) (l : list A) i j x y :
  StronglySorted R l -> (i < j)%nat -> l !! i = Some x -> l !! j = Some y -> R x y.
Proof.
  intros Hs. revert i j. induction Hs as [|a l _ IH Hf]; intros i j Hij Hi Hj; [done|].
  destruct i as [|i], j as [|j]; try lia; cbn in Hi, Hj.
  - simplify_eq. rewrite Forall_forall in Hf. apply Hf. by apply list_elem_of_lookup_2 in Hj.
  - eapply IH; [|done|done]. lia.
Qed.

Section leaf_search.
Context (heap : Z -> list byte) (p : index_page) (ks : list Z) (key : Z).
Let f := fmt p.
Let ty := cmptr f.
Let cv (a b : Z) : Z := compare_value ty (key_tuple heap f a) (key_tuple heap f b).

(** The page holds the keys [ks], all of them comparable with [key]. *)
Context (Hread : forall j k, ks !! j = Some k -> key_at (Z.of_nat j) p = Ret k p).
Context (Hcmp : forall k, k ∈ ks -> comparable ty (key_tuple heap f k)).
Context (Hkey : comparable ty (key_tuple heap f key)).
Context (Hsorted : StronglySorted (fun a b => cv a b < 0) ks).
Context (Hlen : (Z.of_nat (length ks) < 2 ^ 30)).

Lemma below_smaller i j x y :
  (i <= j)%nat -> ks !! i = Some x -> ks !! j = Some y -> cv y key < 0 -> cv x key < 0.
Proof.
  intros Hij Hi Hj Hy. destruct (decide (i = j)) as [->|]; [by simplify_eq|].
  assert (cv x y < 0) by (apply (sorted_lookup _ _ i j x y Hsorted); done || lia).
  pose proof (Hcmp x (list_elem_of_lookup_2 _ _ _ Hi)). pose proof (Hcmp y (list_elem_of_lookup_2 _ _ _ Hj)).
  destruct (compare_value_trans ty (key_tuple heap f x) (key_tuple heap f y) (key_tuple heap f key)); try done;
    unfold cv in *; lia.
Qed.

Lemma above_greater i j x y :
  (i <= j)%nat -> ks !! i = Some x -> ks !! j = Some y -> 0 < cv x key -> 0 < cv y key.
Proof.
  intros Hij Hi Hj Hx. destruct (decide (i = j)) as [->|]; [by simplify_eq|].
  assert (cv x y < 0) by (apply (sorted_lookup _ _ i j x y Hsorted); done || lia).
  pose proof (Hcmp x (list_elem_of_lookup_2 _ _ _ Hi)). pose proof (Hcmp y (list_elem_of_lookup_2 _ _ _ Hj)).
  destruct (Z_lt_le_dec 0 (cv y key)) as [|Hle]; [done|].
  destruct (compare_value_trans ty (key_tuple heap f x) (key_tuple heap f y) (key_tuple heap f key)); try done;
    unfold cv in *; lia.
Qed.

Definition leaf_result (i : Z) : Prop :=
  (exists k, 0 <= i /\ ks !! Z.to_nat i = Some k /\ cv k key = 0) \/ (i = -1 /\ forall k, k ∈ ks -> cv k key <> 0).

(** One probe of the binary search. *)
Lemma leaf_probe fuel left right k :
  left <= right -> 0 <= left -> right < Z.of_nat (length ks) ->
  ks !! Z.to_nat (Z.quot (left + right) 2) = Some k ->
  leaf_loop heap (S fuel) left right key p =
  (if cv k key <? 0 then leaf_loop heap fuel (Z.quot (left + right) 2 + 1) right key
   else if 0 <? cv k key then leaf_loop heap fuel left (Z.quot (left + right) 2 - 1) key
   else mret (Z.quot (left + right) 2)) p.
Proof.
  intros Hlr Hl Hr Hk. cbn [leaf_loop]. rewrite (proj2 (Z.leb_le left right)) by done.
  unfold mbind at 1, M_bind at 1. unfold int_of, int_ok, INT_MIN, INT_MAX.
  rewrite (proj2 (Z.leb_le (- 2 ^ 31) _)) by lia. rewrite (proj2 (Z.leb_le _ (2 ^ 31 - 1))) by lia.
  cbn [andb]. unfold mret at 1, M_ret at 1. unfold mbind at 1, M_bind at 1, gets at 1.
  unfold mbind at 1, M_bind at 1.
  assert (0 <= Z.quot (left + right) 2) by (apply Z.quot_pos; lia).
  rewrite <-(Z2Nat.id (Z.quot (left + right) 2)) at 1 by done. rewrite (Hread _ _ Hk).
  unfold mbind, M_bind. fold f. fold ty.
  pose proof (Hcmp k (list_elem_of_lookup_2 _ _ _ Hk)) as Hck.
  rewrite (compare_returns ty (key_tuple heap f k) (key_tuple heap f key) p Hck Hkey eq_refl). fold (cv k key).
  by destruct (cv k key <? 0), (0 <? cv k key).
Qed.

Lemma leaf_loop_correct fuel left right :
  0 <= left -> right < Z.of_nat (length ks) -> right - left + 1 <= Z.of_nat fuel ->
  (forall j k, ks !! j = Some k -> Z.of_nat j < left -> cv k key < 0) ->
  (forall j k, ks !! j = Some k -> right < Z.of_nat j -> 0 < cv k key) ->
  exists i, leaf_loop heap fuel left right key p = Ret i p /\ leaf_result i.
Proof.
  revert left right. induction fuel as [|fuel IH]; intros left right Hl Hr Hf Hlo Hhi.
  all: destruct (Z_le_gt_dec left right) as [Hle|Hgt].
  2, 4: exists (-1); split; [cbn [leaf_loop]; by rewrite (proj2 (Z.leb_gt left right)) by lia|];
    right; split; [done|]; intros k [j Hj]%list_elem_of_lookup_1;
    destruct (Z_lt_le_dec (Z.of_nat j) left); [pose proof (Hlo j k Hj)|pose proof (Hhi j k Hj)]; lia.
  - lia.
  - set (mid := Z.quot (left + right) 2).
    assert (left <= mid <= right) as Hm.
    { unfold mid. rewrite Z.quot_div_nonneg by lia. split; [apply Z.div_le_lower_bound|apply Z.div_le_upper_bound]; lia. }
    destruct (lookup_lt_is_Some_2 ks (Z.to_nat mid)) as [k Hk]; [lia|].
    rewrite (leaf_probe _ _ _ k) by done. fold mid.
    destruct (Z.ltb_spec (cv k key) 0) as [Hlt|Hge]; [|destruct (Z.ltb_spec 0 (cv k key)) as [Hlt|Hle']].
    + apply IH; try lia; [|done]. intros j x Hj Hjm. apply (below_smaller j (Z.to_nat mid) x k); try done. lia.
    + apply IH; try lia; [done|]. intros j x Hj Hjm. apply (above_greater (Z.to_nat mid) j k x); try done. lia.
    + exists mid. split; [done|]. left. exists k. split; [lia|]. split; [done|]. lia.
Qed.
End leaf_search.

(** The search as a whole. *)
Lemma find_in_leaf_spec heap p ks key :
  let f := fmt p in
  Z.of_nat (length ks) = Z.max 0 (hdr_count (hdr f) - 1) -> 0 <= hdr_count (hdr f) < 2 ^ 30 ->
  (forall j k, ks !! j = Some k -> key_at (Z.of_nat j) p = Ret k p) ->
  (forall k, k ∈ key :: ks -> comparable (cmptr f) (key_tuple heap f k)) ->
  StronglySorted (fun a b => compare_value (cmptr f) (key_tuple heap f a) (key_tuple heap f b) < 0) ks ->
  exists i, find_in_leaf heap key p = Ret i p /\
    ((exists k, 0 <= i /\ ks !! Z.to_nat i = Some k /\
        compare_value (cmptr f) (key_tuple heap f k) (key_tuple heap f key) = 0) \/
     (i = -1 /\ forall k, k ∈ ks -> compare_value (cmptr f) (key_tuple heap f k) (key_tuple heap f key) <> 0)).
Proof.
  intros f Hn Hc Hread Hcmp Hs. unfold find_in_leaf, mbind, M_bind, gets. fold f.
  unfold int_of, int_ok, INT_MIN, INT_MAX.
  rewrite (proj2 (Z.leb_le (- 2 ^ 31) _)) by lia. rewrite (proj2 (Z.leb_le _ (2 ^ 31 - 1))) by lia. cbn [andb].
  unfold mret at 1, M_ret at 1. destruct (Z.ltb_spec (hdr_count (hdr f) - 2) 0).
  - exists (-1). split; [done|]. right. split; [done|].
    destruct ks; [by intros k ?%not_elem_of_nil|cbn in Hn; lia].
  - apply (leaf_loop_correct heap p ks key); try done; try lia.
    + intros k Hk. apply Hcmp. by right.
    + apply Hcmp. by left.
    + intros j k Hj ?. apply lookup_lt_Some in Hj. lia.
Qed.

(** C34. find_in_leaf is a correct, terminating binary search: on a page whose
    count - 1 proper keys are comparable and strictly ascending it returns a
    position holding a key equal to the one looked for, and -1 exactly when
    there is none, reading only the page. *)
Theorem find_in_leaf_correct heap p ks key :
  let f := fmt p in
  Z.of_nat (length ks) = Z.max 0 (hdr_count (hdr f) - 1) -> 0 <= hdr_count (hdr f) < 2 ^ 30 ->
  (forall j k, ks !! j = Some k -> key_at (Z.of_nat j) p = Ret k p) ->
  (forall k, k ∈ key :: ks -> comparable (cmptr f) (key_tuple heap f k)) ->
  StronglySorted (fun a b => compare_value (cmptr f) (key_tuple heap f a) (key_tuple heap f b) < 0) ks ->
  exists i, find_in_leaf heap key p = Ret i p /\
    ((exists k, 0 <= i /\ ks !! Z.to_nat i = Some k /\
        compare_value (cmptr f) (key_tuple heap f k) (key_tuple heap f key) = 0) \/
     (i = -1 /\ forall k, k ∈ ks -> compare_value (cmptr f) (key_tuple heap f k) (key_tuple heap f key) <> 0)).
Proof. apply find_in_leaf_spec. Qed.

Section child_search.
Context (p : index_page) (ks : list Z) (key : Z).
Let f := fmt p.
Context (Hread : forall j k, ks !! j = Some k -> key_at (Z.of_nat j) p = Ret k p).
Context (Hlen : Z.of_nat (length ks) < 2 ^ 31 - 1).

(** The keys at which the loop stops. *)
Let hit (k : Z) : Prop := key <= k /\ keys f <= k.

Lemma key_at_bounds j k : key_at j p = Ret k p ->
  buf_addr p <= keys f + 8 * j /\ keys f + 8 * j + 8 <= buf_addr p + Z.of_nat (length (buf p)).
Proof.
  unfold key_at, mbind, M_bind, gets. fold f. destruct (read_mem (keys f + 8 * j) 8 p) as [bs p'| | |] eqn:E; try done.
  intros _. apply mem_read_inv in E as [E%in_mem_true _]. lia.
Qed.

(** The keys lie side by side in the buffer, so there are at most as many as bytes. *)
Lemma keys_fit : (length ks <= length (buf p))%nat.
Proof.
  destruct (decide (length ks = 0%nat)); [lia|].
  destruct (lookup_lt_is_Some_2 ks 0) as [k0 H0]; [lia|]. apply Hread, key_at_bounds in H0.
  destruct (lookup_lt_is_Some_2 ks (length ks - 1)) as [k1 H1]; [lia|]. apply Hread, key_at_bounds in H1. lia.
Qed.

Lemma internal_loop_spec fuel i :
  (i <= length ks)%nat -> (length ks - i < fuel)%nat ->
  internal_loop fuel (Z.of_nat i) (Z.of_nat (length ks)) key p =
  Ret (match list_find hit (drop i ks) with Some (j, _) => Z.of_nat (i + j) | None => -1 end) p.
Proof.
  revert i. induction fuel as [|fuel IH]; intros i Hi Hf; [lia|]. cbn [internal_loop].
  destruct (Z.ltb_spec (Z.of_nat i) (Z.of_nat (length ks))) as [Hlt|Hge].
  - destruct (lookup_lt_is_Some_2 ks i) as [k Hk]; [lia|].
    unfold mbind at 1, M_bind at 1, gets at 1. unfold mbind, M_bind. rewrite (Hread _ _ Hk). fold f.
    rewrite (drop_S ks k i Hk). cbn [list_find].
    replace (Z.of_nat i + 1) with (Z.of_nat (S i)) by lia.
    destruct (decide (hit k)) as [[H1 H2]|Hn].
    + rewrite (proj2 (Z.ltb_ge k key)), (proj2 (Z.leb_le (keys f) k)) by done. unfold mret, M_ret.
      rewrite to_signed_id by lia. by rewrite Nat.add_0_r.
    + assert (internal_loop fuel (Z.of_nat (S i)) (Z.of_nat (length ks)) key p =
        Ret (match list_find hit (drop (S i) ks) with Some (j, _) => Z.of_nat (i + S j) | None => -1 end) p) as E.
      { rewrite IH by lia. do 2 f_equal. destruct (list_find hit (drop (S i) ks)) as [[j ?]|]; [|done]. lia. }
      destruct (Z.ltb_spec k key), (Z.leb_spec (keys f) k); try (by destruct Hn); rewrite E;
        by destruct (list_find hit (drop (S i) ks)) as [[j ?]|].
  - rewrite drop_ge by lia. done.
Qed.

(** find_in_internal stops at the first hit, and passes it when it is equal. *)
Lemma find_in_internal_spec :
  hdr_count (hdr f) = Z.of_nat (length ks) + 1 ->
  find_in_internal key p =
  Ret (match list_find hit ks with
       | Some (j, k) => if key =? k then Z.of_nat j + 1 else Z.of_nat j
       | None => Z.of_nat (length ks)
       end) p.
Proof.
  intros Hc. unfold find_in_internal. unfold mbind at 1, M_bind at 1, gets at 1. fold f. rewrite Hc.
  replace (Z.of_nat (length ks) + 1 - 1) with (Z.of_nat (length ks)) by lia.
  unfold mbind at 1, M_bind at 1. unfold int_of, int_ok, INT_MIN, INT_MAX.
  rewrite (proj2 (Z.leb_le (- 2 ^ 31) _)), (proj2 (Z.leb_le _ (2 ^ 31 - 1))) by lia. cbn [andb].
  unfold mret at 1, M_ret at 1. unfold mbind at 1, M_bind at 1, gets at 1. unfold mbind at 1, M_bind at 1.
  unfold to_unsigned. rewrite Z.mod_small by lia. pose proof keys_fit as Hk.
  pose proof (internal_loop_spec (S (length (buf p))) 0 ltac:(lia) ltac:(lia)) as El.
  change (Z.of_nat 0) with 0 in El. rewrite El, drop_0.
  destruct (list_find hit ks) as [[j k]|] eqn:E; [|done].
  apply list_find_Some in E as (Hj & _ & _). rewrite Nat.add_0_l.
  destruct (Z.eqb_spec (Z.of_nat j) (-1)); [lia|]. unfold mbind, M_bind. rewrite (Hread _ _ Hj). by destruct (key =? k).
Qed.
End child_search.

(** find_in_internal picks the child to descend into, as long as the key
    values are larger than the address of the key array: with ascending keys it
    returns the number r of keys not above the one looked for, so that
    everything left of child r is <= key and everything from r on is > key. *)
Theorem find_in_internal_child p ks key :
  hdr_count (hdr (fmt p)) = Z.of_nat (length ks) + 1 -> Z.of_nat (length ks) < 2 ^ 31 - 1 ->
  (forall j k, ks !! j = Some k -> key_at (Z.of_nat j) p = Ret k p) ->
  StronglySorted Z.lt ks -> (forall k, k ∈ ks -> keys (fmt p) <= k) ->
  exists r, find_in_internal key p = Ret r p /\ 0 <= r <= Z.of_nat (length ks) /\
    (forall j k, ks !! j = Some k -> Z.of_nat j < r -> k <= key) /\
    (forall j k, ks !! j = Some k -> r <= Z.of_nat j -> key < k).
Proof.
  intros Hc Hl Hread Hs Hlow. rewrite (find_in_internal_spec p ks key) by done.
  destruct (list_find _ ks) as [[j k]|] eqn:E; eexists; (split; [reflexivity|]).
  - apply list_find_Some in E as (Hj & [Hk _] & Hfirst). pose proof (lookup_lt_Some _ _ _ Hj) as Hjl.
    assert (forall i x, ks !! i = Some x -> (i < j)%nat -> x < key) as Hbefore.
    { intros i x Hi Hij. pose proof (Hlow x (list_elem_of_lookup_2 _ _ _ Hi)). pose proof (Hfirst _ _ Hi Hij). lia. }
    assert (forall i x, ks !! i = Some x -> (j < i)%nat -> k < x) as Hafter
      by (intros i x Hi Hij; by apply (sorted_lookup _ _ j i k x Hs)).
    destruct (Z.eqb_spec key k) as [->|Hne]; (split; [lia|]); split; intros i x Hi Hij.
    + destruct (decide (i = j)) as [->|]; [simplify_eq; lia|]. pose proof (Hbefore i x Hi). lia.
    + apply (Hafter i x Hi). lia.
    + pose proof (Hbefore i x Hi). lia.
    + destruct (decide (i = j)) as [->|]; [simplify_eq; lia|]. pose proof (Hafter i x Hi). lia.
  - apply list_find_None in E. rewrite Forall_forall in E. split; [lia|]. split; intros i x Hi Hij.
    + pose proof (E x (list_elem_of_lookup_2 _ _ _ Hi)). pose proof (Hlow x (list_elem_of_lookup_2 _ _ _ Hi)). lia.
    + apply lookup_lt_Some in Hi. lia.
Qed.

(** Keys below the address of the key array are passed over whatever their
    value: the descent always takes the last child. *)
Theorem find_in_internal_low_keys p ks key :
  hdr_count (hdr (fmt p)) = Z.of_nat (length ks) + 1 -> Z.of_nat (length ks) < 2 ^ 31 - 1 ->
  (forall j k, ks !! j = Some k -> key_at (Z.of_nat j) p = Ret k p) ->
  (forall k, k ∈ ks -> k < keys (fmt p)) ->
  find_in_internal key p = Ret (Z.of_nat (length ks)) p.
Proof.
  intros Hc Hl Hread Hlow. rewrite (find_in_internal_spec p ks key) by done.
  destruct (list_find _ ks) as [[j k]|] eqn:E; [|done].
  apply list_find_Some in E as (Hj & [_ Hk] & _). pose proof (Hlow k (list_elem_of_lookup_2 _ _ _ Hj)). lia.
Qed.

(** A page at address 4096 whose key array, at its start, holds pointers to the
    ints 10, 20, 30 and a dummy. *)
Definition demo_heap (a : Z) : list byte :=
  if a =? 100 then int_bytes 10 else if a =? 200 then int_bytes 20 else if a =? 300 then int_bytes 30
  else if a =? 400 then int_bytes 20 else [].
Definition demo_page : index_page :=
  mk_index_page (mk_index_format 4128 4128 4096 (mk_index_page_hdr 4 0 0 0) INT 4 INT) 4096
    (le_encode 8 100 ++ le_encode 8 200 ++ le_encode 8 300 ++ le_encode 8 0).

Lemma demo_page_keys j k : [100; 200; 300] !! j = Some k -> key_at (Z.of_nat j) demo_page = Ret k demo_page.
Proof. destruct j as [|[|[|j]]]; cbn; intros; by simplify_eq. Qed.

Lemma find_in_leaf_correct_witness :
  exists i, find_in_leaf demo_heap 400 demo_page = Ret i demo_page /\
    ((exists k, 0 <= i /\ [100; 200; 300] !! Z.to_nat i = Some k /\
        compare_value INT (key_tuple demo_heap (fmt demo_page) k) (key_tuple demo_heap (fmt demo_page) 400) = 0) \/
     (i = -1 /\ forall k, k ∈ [100; 200; 300] ->
        compare_value INT (key_tuple demo_heap (fmt demo_page) k) (key_tuple demo_heap (fmt demo_page) 400) <> 0)).
Proof.
  apply (find_in_leaf_correct demo_heap demo_page [100; 200; 300] 400).
  - reflexivity.
  - cbn; lia.
  - exact demo_page_keys.
  - apply Forall_forall. repeat (apply Forall_cons; split; [cbn; lia|]). by apply Forall_nil.
  - repeat (constructor; [|repeat (apply Forall_cons; split; [vm_compute; reflexivity|]); by apply Forall_nil]).
    constructor.
Defined.

(** Keys as plain integers above the address of the array. *)
Definition big_keys_page : index_page :=
  mk_index_page (mk_index_format 4128 4128 4096 (mk_index_page_hdr 4 0 0 0) INT 4 INT) 4096
    (le_encode 8 5000 ++ le_encode 8 6000 ++ le_encode 8 7000 ++ le_encode 8 0).

Lemma find_in_internal_child_witness :
  exists r, find_in_internal 6000 big_keys_page = Ret r big_keys_page /\ 0 <= r <= 3 /\
    (forall j k, [5000; 6000; 7000] !! j = Some k -> Z.of_nat j < r -> k <= 6000) /\
    (forall j k, [5000; 6000; 7000] !! j = Some k -> r <= Z.of_nat j -> 6000 < k).
Proof.
  apply (find_in_internal_child big_keys_page [5000; 6000; 7000] 6000).
  - reflexivity.
  - reflexivity.
  - intros [|[|[|j]]] k H; cbn in H; try discriminate H; injection H as <-; reflexivity.
  - repeat (constructor; [|repeat (apply Forall_cons; split; [lia|]); by apply Forall_nil]). constructor.
  - apply Forall_forall. repeat (apply Forall_cons; split; [cbn; lia|]). by apply Forall_nil.
Defined.

(** * Insertion *)

(** The addresses insert touches lie in the buffer, and the keys behind the rids. *)
Definition insert_room (p : index_page) : Prop :=
  let f := fmt p in let count := hdr_count (hdr f) in
  0 <= count /\ base f <= keys f /\ buf_addr p + sizeof_rid <= base f /\
  base f + sizeof_rid * (count + 1) + DEFAULT_KEY_SIZE * count <= buf_addr p + Z.of_nat (length (buf p)) /\
  keys f + sizeof_rid + DEFAULT_KEY_SIZE * (2 * (count + 1) + 1) <= buf_addr p + Z.of_nat (length (buf p)).

(** The buffer after the first two steps of insert, with i == -1. *)
Definition insert_prefix (p : index_page) (id : rid) : list byte :=
  let f := fmt p in let count := hdr_count (hdr f) in let o := Z.to_nat (base f - buf_addr p) in
  splice (splice (buf p) o (take (Z.to_nat (4 * count + 8 * (count + 1))) (drop (o - 8) (buf p)))) (o - 8) (rid_bytes id).

Lemma length_insert_prefix p id : insert_room p -> length (insert_prefix p id) = length (buf p).
Proof.
  unfold insert_room, sizeof_rid, DEFAULT_KEY_SIZE. intros. unfold insert_prefix.
  cbv zeta in *. set (o := Z.to_nat (base (fmt p) - buf_addr p)). assert (8 <= o <= length (buf p))%nat by lia.
  assert (forall n, (Z.of_nat n <= 4 * hdr_count (hdr (fmt p)) + 8 * (hdr_count (hdr (fmt p)) + 1)) ->
    (o + n <= length (buf p))%nat) by lia.
  rewrite length_splice; rewrite length_splice; rewrite ?length_rid_bytes, ?length_take, ?length_drop; lia.
Qed.

(** insert changes nothing more below the place of the new key. *)
Lemma index_insert_run heap p key id :
  find_in_leaf heap key p = Ret (-1) p -> insert_room p -> (4 <= length (heap key))%nat ->
  exists p', index_insert heap key id p = Ret true p' /\
    (forall i n, Z.of_nat (i + n) <= keys (fmt p) + 8 + 4 * (hdr_count (hdr (fmt p)) + 1) - buf_addr p ->
       take n (drop i (buf p')) = take n (drop i (insert_prefix p id))) /\
    keys (fmt p') = keys (fmt p) + 8 /\ hdr_count (hdr (fmt p')) = hdr_count (hdr (fmt p)) + 1.
Proof.
  intros Hf Hroom Hk. pose proof (length_insert_prefix p id Hroom) as L2. unfold insert_room in Hroom. cbv zeta in Hroom.
  unfold sizeof_rid, DEFAULT_KEY_SIZE in Hroom.
  unfold index_insert. unfold mbind at 1, M_bind at 1. rewrite Hf. cbn [negb Z.eqb Pos.eqb].
  unfold mbind at 1, M_bind at 1, gets at 1. set (f := fmt p) in *. set (count := hdr_count (hdr f)) in *.
  unfold mbind at 1, M_bind at 1. unfold sizeof_rid, DEFAULT_KEY_SIZE.
  unfold memmove; rewrite mem_move_ok by (apply in_mem_true; lia). unfold mem_slice at 1. cbv zeta.
  unfold mbind at 1, M_bind at 1. unfold write_mem; rewrite mem_write_ok.
  2: { apply in_mem_true. cbn [buf buf_addr set_buf]. rewrite length_rid_bytes, length_splice; [lia|].
       rewrite length_take, length_drop. lia. }
  cbn [buf buf_addr set_buf].
  replace (Z.to_nat (base f + (-1 + 1) * 8 - buf_addr p)) with (Z.to_nat (base f - buf_addr p)) by lia.
  replace (Z.to_nat (base f + -1 * 8 - buf_addr p)) with (Z.to_nat (base f - buf_addr p) - 8)%nat by lia.
  replace (4 * count + 8 * (count - -1)) with (4 * count + 8 * (count + 1)) by lia.
  change (splice _ (_ - 8)%nat _) with (insert_prefix p id). set (b2 := insert_prefix p id) in *.
  unfold mbind at 1, M_bind at 1, modify at 1. unfold mbind at 1, M_bind at 1.
  unfold memmove; rewrite mem_move_ok by (apply in_mem_true; cbn [buf buf_addr set_buf set_fmt]; lia).
  unfold mem_slice at 1. cbn [buf buf_addr set_buf set_fmt fmt]. set (b3 := splice b2 _ _).
  assert (length b3 = length (buf p)) as L3.
  { rewrite <-L2. apply length_splice. rewrite length_take, length_drop. lia. }
  unfold mbind at 1, M_bind at 1. rewrite decide_True by done. cbn [of_option]. unfold mret at 1, M_ret at 1.
  unfold mbind at 1, M_bind at 1.
  unfold write_mem; rewrite mem_write_ok by (apply in_mem_true; cbn [buf buf_addr set_buf set_fmt]; rewrite length_take; lia).
  eexists. split; [reflexivity|]. cbn [buf buf_addr set_buf set_fmt fmt keys set_keys set_hdr hdr grow_hdr hdr_count].
  split; [|done]. intros i n Hin. rewrite splice_take_before by lia. unfold b3. by rewrite splice_take_before by lia.
Qed.

(** insert of a key that is not on the page always runs with i == -1: the
    record id is written into the eight bytes in front of base, over the page
    header, the first slot of the rid array receives what was in front of it, and
    the key array is moved up by eight bytes, although insert reports success. *)
Theorem index_insert_before_base heap p key id :
  find_in_leaf heap key p = Ret (-1) p -> insert_room p -> (4 <= length (heap key))%nat ->
  let o := Z.to_nat (base (fmt p) - buf_addr p) in
  exists p', index_insert heap key id p = Ret true p' /\
    take 8 (drop (o - 8) (buf p')) = rid_bytes id /\
    take 8 (drop o (buf p')) = take 8 (drop (o - 8) (buf p)) /\
    keys (fmt p') = keys (fmt p) + 8 /\ hdr_count (hdr (fmt p')) = hdr_count (hdr (fmt p)) + 1.
Proof.
  intros Hf Hroom Hk o. destruct (index_insert_run heap p key id Hf Hroom Hk) as (p' & E & Hb & Hkeys & Hc).
  exists p'. split; [done|]. pose proof (length_insert_prefix p id Hroom) as L.
  unfold insert_room, sizeof_rid, DEFAULT_KEY_SIZE in Hroom. cbv zeta in Hroom.
  assert (8 <= o <= length (buf p))%nat as Ho by lia.
  rewrite !Hb by lia. unfold insert_prefix. fold o. split_and!; try done.
  - rewrite splice_take_prefix; [done| |by rewrite length_rid_bytes].
    rewrite length_splice; [lia|]. rewrite length_take, length_drop. lia.
  - rewrite splice_take_after; [|rewrite length_splice; rewrite ?length_take, ?length_drop; lia|rewrite length_rid_bytes; lia].
    rewrite splice_take_prefix by (rewrite ?length_take, ?length_drop; lia). rewrite take_take. f_equal. lia.
Qed.

(** A page with one (dummy) key and a header of non-zero bytes in front of base. *)
Definition small_page : index_page :=
  mk_index_page (mk_index_format 4112 4112 4120 (mk_index_page_hdr 1 0 12 100) INT 4 INT) 4096 (replicate 128 Byte.x2a).

Lemma index_insert_before_base_witness :
  exists p', index_insert demo_heap 100 (mk_rid 3 4) small_page = Ret true p' /\
    take 8 (drop 8 (buf p')) = rid_bytes (mk_rid 3 4) /\ take 8 (drop 16 (buf p')) = replicate 8 Byte.x2a /\
    keys (fmt p') = 4128 /\ hdr_count (hdr (fmt p')) = 2.
Proof.
  apply (index_insert_before_base demo_heap small_page 100 (mk_rid 3 4)).
  - reflexivity.
  - unfold insert_room, sizeof_rid, DEFAULT_KEY_SIZE. cbn. lia.
  - cbn. lia.
Defined.

(** Three entries, laid out as the header describes: rids, then four-byte keys. *)
Definition full_page : index_page :=
  mk_index_page (mk_index_format 4112 4112 4136 (mk_index_page_hdr 3 0 52 44) INT 4 INT) 4096
    (replicate 16 Byte.x00 ++ rid_bytes (mk_rid 1 1) ++ rid_bytes (mk_rid 2 2) ++ rid_bytes (mk_rid 3 3)
     ++ int_bytes 10 ++ int_bytes 20 ++ int_bytes 30 ++ replicate 60 Byte.x00).

(** remove moves the block of the keys, not the rids behind the removed one: the
    first rid of the page becomes the keys 30 and 30, and (2, 2) is lost. *)
Theorem index_remove_moves_keys_over_rids :
  exists p', index_remove_at 0 full_page = Ret true p' /\
    rid_at 0 p' = Ret (mk_rid 30 30) p' /\ rid_at 1 p' = Ret (mk_rid 0 0) p'.
Proof.
  destruct (index_remove_at 0 full_page) as [b p'| | |] eqn:E; [|vm_compute in E; discriminate E..].
  assert (b = true /\ rid_at 0 p' = Ret (mk_rid 30 30) p' /\ rid_at 1 p' = Ret (mk_rid 0 0) p') as (-> & H1 & H2)
    by (vm_compute in E; injection E as <- <-; vm_compute; auto).
  eauto.
Qed.
