(* ===== verification/Row.v ===== *)
(** Row encoding: src/table/row.{h,cc}.  A row is a sequence of columns, each a
    header byte (column id and type) and the value, ended by a zero byte. *)
From S2P Require Import Prelude Comparator.

(** The enumerators of data_type as integers *)
Definition type_code (t : data_type) : Z :=
  match t with UNKNOWN => 0 | INT => 1 | LONG => 2 | FLOAT => 3 | DOUBLE => 4 | CHAR => 5 | VARCHAR => 6 end.

Section operations.
Context {S : Type}.

(** [strlen] *)
Fixpoint strlen (s : list byte) : M S Z :=
  match s with
  | [] => undef out_of_bounds
  | c :: s => if byte_to_Z c =? 0 then mret 0 else n ← strlen s; mret (n + 1)
  end.

(** [memcpy(dst, data, n)]: the bytes copied *)
Definition copy_from (data : cptr) (n : Z) : M S (list byte) :=
  if n <=? Z.of_nat (length (pointee data)) then mret (take (Z.to_nat n) (pointee data)) else undef out_of_bounds.

(** row::encode_column: the bytes of the new buffer; the second len, declared in
    the last case of the switch, is a variable of that case. *)
Definition encode_column (data : cptr) (type id : Z) : M S (list byte) :=
  let b := byte_of_Z (Z.lor (Z.shiftr id 3) type) in
  payload ←
    (if type =? 1 then copy_from data 4
     else if type =? 2 then copy_from data 8
     else if type =? 3 then copy_from data 4
     else if type =? 4 then copy_from data 8
     else if type =? 5 then copy_from data 1
     else if type =? 6 then
       len ← strlen (pointee data);
       bs ← copy_from data len;
       mret (int_bytes len ++ bs)
     else mret []);
  mret (b :: payload).

(** row::encode: [ret] starts uninitialised ([None]) and strcat reads it. *)
Fixpoint encode_from (i : nat) (values : list (option cptr)) (col_defs : list column_definition)
    (ret : option (list byte)) : M S (option (list byte)) :=
  match values with
  | [] => mret ret
  | None :: values => encode_from (Datatypes.S i) values col_defs ret
  | Some v :: values =>
      cd ← of_option out_of_bounds (col_defs !! i);
      cs ← encode_column v (type_code (ct_type (cd_type cd))) (Z.of_nat i);
      r ← of_option uninitialised_read ret;
      encode_from (Datatypes.S i) values col_defs (Some (r ++ cs))
  end.
Definition row_encode (values : list (option cptr)) (col_defs : list column_definition) : M S (option (list byte)) :=
  encode_from 0 values col_defs None.

(** The value a column decodes to: a number cut to a pointer or a new string. *)
Inductive column_value := number (z : Z) | text (s : list byte).

Definition load_at (bs : list byte) (n : nat) : M S Z :=
  if decide (n <= length bs)%nat then mret (le_decode (take n bs)) else undef out_of_bounds.

(** row::decode_column; char is signed, the switch has no case for other types
    and nothing is returned behind it. *)
Definition decode_column (ptr : list byte) : M S (Z * column_value) :=
  b ← of_option out_of_bounds (head ptr);
  let b := to_signed 8 (byte_to_Z b) in
  let ptr := tail ptr in
  let column_id := Z.shiftr b 3 in
  let type := Z.lor b 0x07 in
  if type =? 1 then v ← load_at ptr 4; mret (column_id, number (to_signed 32 v))
  else if type =? 2 then v ← load_at ptr 8; mret (column_id, number v)
  else if type =? 3 then v ← load_at ptr 4; mret (column_id, number v)
  else if type =? 4 then v ← load_at ptr 8; mret (column_id, number v)
  else if type =? 5 then v ← load_at ptr 1; mret (column_id, number (to_signed 8 v))
  else if type =? 6 then
    len ← load_at ptr 4;
    let len := to_signed 32 len in
    if (0 <=? len) && (len <=? Z.of_nat (length (drop 4 ptr)))
    then mret (column_id, text (take (Z.to_nat len) (drop 4 ptr))) else undef out_of_bounds
  else undef missing_return.

(** row::decode: ptr never moves, and vs has room but no elements, so a first
    column already ends outside of it. *)
Definition row_decode (ptr : list byte) : M S (list column_value) :=
  c ← of_option out_of_bounds (head ptr);
  if byte_to_Z c =? 0 then mret []
  else _ ← decode_column ptr; undef out_of_bounds.
End operations.

(** * Properties *)

(** The bytes of a value of each type. *)
Definition column_payload (ty : data_type) (data : cptr) (s : list byte) : Prop :=
  match ty with
  | INT | FLOAT => (4 <= length (pointee data))%nat /\ s = take 4 (pointee data)
  | LONG | DOUBLE => (8 <= length (pointee data))%nat /\ s = take 8 (pointee data)
  | CHAR => (1 <= length (pointee data))%nat /\ s = take 1 (pointee data)
  | VARCHAR => exists str rest, pointee data = str ++ Byte.x00 :: rest /\ (Byte.x00 ∉ str) /\ s = int_bytes (Z.of_nat (length str)) ++ str
  | UNKNOWN => s = []
  end.

Lemma byte_nonzero c : c <> Byte.x00 -> byte_to_Z c <> 0.
Proof. intros Hc H0. apply Hc. apply (inj byte_to_Z). by rewrite H0. Qed.

Lemma strlen_spec {S} str rest (s : S) : Byte.x00 ∉ str -> strlen (str ++ Byte.x00 :: rest) s = Ret (Z.of_nat (length str)) s.
Proof.
  induction str as [|c str IH]; intros Hn; [done|]. apply not_elem_of_cons in Hn as [Hc Hn].
  cbn [strlen app]. rewrite (proj2 (Z.eqb_neq _ _)) by (by apply byte_nonzero).
  unfold mbind, M_bind. rewrite (IH Hn). cbn. unfold mret, M_ret. f_equal. lia.
Qed.

Lemma copy_from_ok {S} data n (s : S) :
  0 <= n <= Z.of_nat (length (pointee data)) -> copy_from data n s = Ret (take (Z.to_nat n) (pointee data)) s.
Proof. intros Hn. unfold copy_from. by rewrite (proj2 (Z.leb_le _ _)) by lia. Qed.

(** encode_column stores the value behind a header byte. *)
Lemma encode_column_payload {S} ty data id payload (s : S) :
  column_payload ty data payload ->
  encode_column data (type_code ty) id s = Ret (byte_of_Z (Z.lor (Z.shiftr id 3) (type_code ty)) :: payload) s.
Proof.
  intros H. destruct ty; cbn [column_payload type_code] in *; unfold encode_column, mbind, M_bind; cbn [Z.eqb Pos.eqb].
  - by subst.
  - destruct H as [? ->]. by rewrite copy_from_ok by lia.
  - destruct H as [? ->]. by rewrite copy_from_ok by lia.
  - destruct H as [? ->]. by rewrite copy_from_ok by lia.
  - destruct H as [? ->]. by rewrite copy_from_ok by lia.
  - destruct H as [? ->]. by rewrite copy_from_ok by lia.
  - destruct H as (str & rest & Hp & Hn & ->). rewrite Hp, strlen_spec by done.
    rewrite copy_from_ok by (rewrite Hp, length_app; cbn; lia).
    rewrite Hp, take_app_length' by lia. done.
Qed.

Lemma lor_7_low b k : 0 <= k <= 6 -> Z.lor b 7 <> k.
Proof.
  intros Hk E. assert (forall i, Z.testbit 7 i = true -> Z.testbit k i = true) as Hb.
  { intros i Hi. by rewrite <-E, Z.lor_spec, Hi, orb_true_r. }
  pose proof (Hb 0 eq_refl) as H0. pose proof (Hb 1 eq_refl) as H1. pose proof (Hb 2 eq_refl) as H2.
  assert (k = 0 \/ k = 1 \/ k = 2 \/ k = 3 \/ k = 4 \/ k = 5 \/ k = 6) as Hcases by lia.
  by destruct Hcases as [-> | [-> | [-> | [-> | [-> | [-> | ->]]]]]].
Qed.

(** The row format cannot be used: encode_column stores the value correctly
    behind its header, but the header of the first eight columns does not depend on
    the column; encoding any row with a value appends to an uninitialised string;
    and decoding any column ends without a return value, because the type is taken
    with | instead of &. *)
Theorem row_format_unusable {S} (s : S) :
  (forall ty data payload id, column_payload ty data payload -> 0 <= id < 8 ->
     encode_column data (type_code ty) id s = Ret (byte_of_Z (type_code ty) :: payload) s) /\
  (forall v values cds cd payload, cds !! 0%nat = Some cd -> column_payload (ct_type (cd_type cd)) v payload ->
     row_encode (Some v :: values) cds s = Undef uninitialised_read) /\
  (forall c ptr, decode_column (c :: ptr) s = Undef missing_return) /\
  (forall c ptr, c <> Byte.x00 -> row_decode (c :: ptr) s = Undef missing_return).
Proof.
  assert (forall c ptr, decode_column (c :: ptr) s = Undef missing_return) as Hdec.
  { intros c ptr. unfold decode_column, mbind, M_bind. cbn [head tail of_option mret M_ret].
    by rewrite !(proj2 (Z.eqb_neq _ _)) by (apply lor_7_low; lia). }
  split_and!; [| |done|].
  - intros ty data payload id Hp Hid. rewrite (encode_column_payload _ _ _ _ _ Hp).
    rewrite Z.shiftr_div_pow2, Z.div_small by lia. done.
  - intros v values cds cd payload Hcd Hp. unfold row_encode. cbn [encode_from]. unfold mbind, M_bind.
    rewrite Hcd. cbn [of_option mret M_ret]. by rewrite (encode_column_payload _ _ _ _ _ Hp).
  - intros c ptr Hc. unfold row_decode, mbind, M_bind. cbn [head of_option mret M_ret].
    rewrite (proj2 (Z.eqb_neq _ _)) by (by apply byte_nonzero). by rewrite Hdec.
Qed.

(** The two first columns of the table in the header comment, an INT and a VARCHAR. *)
Lemma row_format_unusable_witness :
  encode_column (mk_cptr 64 (int_bytes 21721242)) 1 1 tt = Ret (Byte.x01 :: int_bytes 21721242) tt /\
  row_encode [Some (mk_cptr 64 (int_bytes 5))] [mk_column_definition [] (mk_column_type INT 4) false] tt = Undef uninitialised_read /\
  row_decode (Byte.x09 :: int_bytes 21721242 ++ [Byte.x00]) tt = Undef missing_return.
Proof.
  destruct (row_format_unusable tt) as (H1 & H2 & _ & H3). split_and!.
  - apply (H1 INT (mk_cptr 64 (int_bytes 21721242)) (int_bytes 21721242) 1); [split; [cbn; lia|reflexivity]|lia].
  - apply (H2 _ _ _ (mk_column_definition [] (mk_column_type INT 4) false) (int_bytes 5)); [reflexivity|split; [cbn; lia|reflexivity]].
  - apply H3. discriminate.
Defined.
