(* ===== verification/TableFormat.v ===== *)
(** Slotted table pages: src/table/table_format.{h,cc}.  The array of two-byte
    slot pointers grows up from base and the tuples grow down from the end of the
    page; slot pointers are offsets from base, in descending order. *)
From S2P Require Import Prelude Comparator Memory.

(** sizeof(table_page_hdr) is 16. *)
Definition TABLE_PAGE_SIZE : Z := 4096 - 16 - 4.

Record table_page_hdr := mk_table_page_hdr { next_free : Z; tcount : Z; free_lower : Z; free_upper : Z }.

(** The page, the buffer it lies in, and the type of its comparator. *)
Record table_format := mk_table_format {
  thdr : table_page_hdr;
  tbase : Z;
  tend : Z;
  offsets : Z;
  tcmptr : data_type;
  tbuf_addr : Z;
  tbuf : list byte;
}.

Definition set_tbuf (b : list byte) (t : table_format) : table_format :=
  mk_table_format (thdr t) (tbase t) (tend t) (offsets t) (tcmptr t) (tbuf_addr t) b.
Definition set_thdr (h : table_page_hdr) (t : table_format) : table_format :=
  mk_table_format h (tbase t) (tend t) (offsets t) (tcmptr t) (tbuf_addr t) (tbuf t).

(** table_format::table_format: only base and end are set. *)
Definition table_format_new (data : Z) (garbage : table_format) : table_format :=
  mk_table_format (thdr garbage) (data + 16) (data + 16 - 4 - 16 + 4096) (offsets garbage) (tcmptr garbage)
    (tbuf_addr garbage) (tbuf garbage).

(** Accesses to the page *)
Definition tread : Z -> Z -> M table_format (list byte) := mem_read tbuf_addr tbuf.
Definition twrite : Z -> list byte -> M table_format unit := mem_write tbuf_addr tbuf set_tbuf.
Definition tmove : Z -> Z -> Z -> M table_format unit := mem_move tbuf_addr tbuf set_tbuf.

(** offsets[i], a uint16_t *)
Definition offset_at (i : Z) : M table_format Z :=
  t ← gets (fun t => t); bs ← tread (offsets t + 2 * i) 2; mret (le_decode bs).

Definition uint16 (z : Z) : Z := z mod 2 ^ 16.

(** table_format::get: what is copied, None for false *)
Definition table_get (ptr : Z) : M table_format (option (list byte)) :=
  t ← gets (fun t => t);
  if tcount (thdr t) <=? ptr then mret None
  else
    len ← (if ptr =? 0 then o ← offset_at 0; mret (uint16 (TABLE_PAGE_SIZE - o))
           else p ← offset_at (ptr - 1); o ← offset_at ptr; mret (uint16 (p - o)));
    o ← offset_at ptr;
    bs ← tread (tbase t + o) len;
    mret (Some bs).

(** table_format::free_space *)
Definition table_free_space (h : table_page_hdr) : Z := free_upper h - free_lower h.

(** table_format::find: i counts down from 0.  Every round but the first reads
    two other bytes in front of the array, so the loop leaves the buffer within
    its length. *)
Fixpoint find_tuple (fuel : nat) (i : Z) (tuple : tuple_t) : M table_format Z :=
  t ← gets (fun t => t);
  if i <? tcount (thdr t) then
    match fuel with
    | O => blocked
    | S fuel =>
        offset ← offset_at i;
        len ← (if i =? 0 then mret (TABLE_PAGE_SIZE - offset)
               else p ← offset_at (i - 1); o ← offset_at i; mret (p - o));
        let a := tbase t + offset in
        let tt := (mk_cptr a (drop (Z.to_nat (a - tbuf_addr t)) (tbuf t)), to_unsigned 64 len) in
        r ← compare (tcmptr t) tt tuple;
        if r <? 0 then mret i else find_tuple fuel (i - 1) tuple
    end
  else mret (-1).

Definition table_find (tuple : tuple_t) : M table_format Z :=
  n ← gets (fun t => length (tbuf t)); find_tuple (S n) 0 tuple.

(** table_format::put *)
Definition table_put (tuple : tuple_t) : M table_format Z :=
  t ← gets (fun t => t);
  let need := 2 + tuple.2 in
  if table_free_space (thdr t) <? need then mret (-1)
  else
    i ← table_find tuple;
    let count := tcount (thdr t) in
    bs ← of_option out_of_bounds
      (if (0 <=? tuple.2) && (tuple.2 <=? Z.of_nat (length (pointee tuple.1)))
       then Some (take (Z.to_nat tuple.2) (pointee tuple.1)) else None);
    _ ←
      (if i =? count then
         o ← offset_at (count - 1);
         let dest := tbase t + o - tuple.2 in
         _ ← twrite dest bs;
         twrite (tbase t + count * 2) (int_bytes (dest - tbase t))
       else
         o ← offset_at (count - 1);
         let move_start_tuple := tbase t + o in
         let move_end_tuple := move_start_tuple - tuple.2 in
         p ← offset_at (i - 1);
         _ ← tmove move_end_tuple move_start_tuple (o - p);
         oi ← offset_at i;
         _ ← twrite (tbase t + oi) bs;
         let move_start_array := tbase t + i * 2 in
         _ ← tmove (tbase t + (i + 1) * 2) move_start_array ((count - i) * 2);
         twrite move_start_array (le_encode 2 (move_end_tuple - tbase t)));
    _ ← modify (fun t => let h := thdr t in
          set_thdr (mk_table_page_hdr (next_free h) (tcount h + 1) (free_lower h + 2) (free_upper h - tuple.2)) t);
    mret i.

(** table_format::remove *)
Definition table_format_remove (ptr : Z) : M table_format bool :=
  t ← gets (fun t => t);
  let count := tcount (thdr t) in
  if count <=? ptr then mret false
  else if ptr =? count - 1 then
    a ← offset_at (count - 2); b ← offset_at (count - 1);
    _ ← modify (fun t => let h := thdr t in
          set_thdr (mk_table_page_hdr (next_free h) (count - 1) (free_lower h - 2) (free_upper h + (a - b))) t);
    mret true
  else
    o ← offset_at ptr;
    let move_start_tuple := tbase t + o in
    move_end_tuple ← (if 0 <? ptr - 1 then p ← offset_at (ptr - 1); mret (tbase t + p) else mret (tend t));
    _ ← tmove move_end_tuple move_start_tuple (move_end_tuple - move_start_tuple);
    n ← offset_at (ptr + 1);
    let move_start_array := tbase t + n in
    o' ← offset_at ptr;
    let move_end_array := tbase t + o' in
    _ ← tmove move_end_array move_start_array ((count - ptr - 1) * 2);
    a ← offset_at (ptr - 1); b ← offset_at ptr;
    _ ← modify (fun t => let h := thdr t in
          set_thdr (mk_table_page_hdr (next_free h) (count - 1) (free_lower h - 2) (free_upper h + (a - b))) t);
    mret true.

(** * Properties *)

(** Where slot [j] ends: the previous slot pointer, or the end of the page. *)
Definition slot_end (os : list Z) (j : nat) : Z :=
  match j with O => TABLE_PAGE_SIZE | S j => default 0 (os !! j) end.

(** The page of a table: [os] are its slot pointers, descending inside the page. *)
Record slots_ok (t : table_format) (os : list Z) : Prop := {
  so_count : tcount (thdr t) = Z.of_nat (length os);
  so_read : forall j o, os !! j = Some o -> offset_at (Z.of_nat j) t = Ret o t;
  so_desc : forall j o, os !! j = Some o -> 0 <= o <= slot_end os j;
  so_page : tbuf_addr t <= tbase t /\ tbase t + TABLE_PAGE_SIZE <= tbuf_addr t + Z.of_nat (length (tbuf t));
}.

Lemma slot_end_bound t os j o : slots_ok t os -> os !! j = Some o -> slot_end os j <= TABLE_PAGE_SIZE.
Proof.
  intros H. revert o. induction j as [|j IH]; intros o Ho; [done|]. cbn.
  destruct (lookup_lt_is_Some_2 os j) as [p Hp]; [apply lookup_lt_Some in Ho; lia|]. rewrite Hp. cbn.
  pose proof (so_desc _ _ H _ _ Hp). pose proof (IH _ Hp). lia.
Qed.

Lemma table_get_slot t os j o :
  slots_ok t os -> os !! j = Some o ->
  table_get (Z.of_nat j) t = Ret (Some (mem_slice tbuf_addr tbuf t (tbase t + o) (slot_end os j - o))) t.
Proof.
  intros H Ho. pose proof (slot_end_bound _ _ _ _ H Ho) as Hend. pose proof (so_desc _ _ H _ _ Ho) as Hd.
  pose proof (so_page _ _ H) as Hp. pose proof (lookup_lt_Some _ _ _ Ho) as Hj. pose proof (so_count _ _ H) as Hc.
  unfold table_get. unfold mbind at 1, M_bind at 1, gets at 1.
  destruct (Z.leb_spec (tcount (thdr t)) (Z.of_nat j)); [lia|].
  assert ((if Z.of_nat j =? 0 then o ← offset_at 0; mret (uint16 (TABLE_PAGE_SIZE - o))
           else p ← offset_at (Z.of_nat j - 1); o ← offset_at (Z.of_nat j); mret (uint16 (p - o))) t =
          Ret (slot_end os j - o) t) as E.
  { assert (forall z, 0 <= z <= TABLE_PAGE_SIZE -> uint16 z = z) as Hu
      by (intros z Hz; unfold uint16, TABLE_PAGE_SIZE in *; apply Z.mod_small; lia).
    destruct j as [|j].
    - change (Z.of_nat 0 =? 0) with true. cbv iota. unfold mbind, M_bind. pose proof (so_read _ _ H _ _ Ho) as Hr. change (Z.of_nat 0) with 0 in Hr. rewrite Hr.
      unfold mret, M_ret. cbn [slot_end] in *. rewrite Hu by lia. done.
    - destruct (Z.eqb_spec (Z.of_nat (S j)) 0); [lia|].
      destruct (lookup_lt_is_Some_2 os j) as [p Hpj]; [lia|]. pose proof (so_desc _ _ H _ _ Hpj).
      replace (Z.of_nat (S j) - 1) with (Z.of_nat j) by lia. unfold mbind, M_bind.
      rewrite (so_read _ _ H _ _ Hpj), (so_read _ _ H _ _ Ho). unfold mret, M_ret.
      cbn [slot_end] in *. rewrite Hpj in *. cbn in *. rewrite Hu by lia. done. }
  unfold mbind at 1, M_bind at 1. rewrite E. unfold mbind at 1, M_bind at 1. rewrite (so_read _ _ H _ _ Ho).
  unfold mbind, M_bind, tread. rewrite mem_read_ok by (apply in_mem_true; lia). done.
Qed.

(** On a well-formed page, get of a used slot returns exactly the bytes from
    its slot pointer to the previous one (to the end of the page for slot 0), so
    that the tuples tile the used part of the page without gap or overlap; a slot
    number that is not in use yields false. *)
Theorem table_get_slices t os :
  slots_ok t os ->
  (forall j o, os !! j = Some o ->
     exists bs, table_get (Z.of_nat j) t = Ret (Some bs) t /\
       bs = mem_slice tbuf_addr tbuf t (tbase t + o) (slot_end os j - o) /\ Z.of_nat (length bs) = slot_end os j - o) /\
  (forall i, Z.of_nat (length os) <= i -> table_get i t = Ret None t).
Proof.
  intros H. split.
  - intros j o Ho. eexists. split; [by apply table_get_slot|]. split; [done|].
    pose proof (slot_end_bound _ _ _ _ H Ho). pose proof (so_desc _ _ H _ _ Ho). pose proof (so_page _ _ H).
    apply length_mem_slice, in_mem_true. lia.
  - intros i Hi. unfold table_get, mbind, M_bind, gets. pose proof (so_count _ _ H).
    by rewrite (proj2 (Z.leb_le _ _)) by lia.
Qed.

(** A page of two tuples, abc and de, at the end of a 4096-byte buffer. *)
Definition two_tuples : table_format :=
  mk_table_format (mk_table_page_hdr 0 2 4 4071) 16 4092 16 VARCHAR 0
    (replicate 16 Byte.x00 ++ le_encode 2 4073 ++ le_encode 2 4071 ++ replicate 4067 Byte.x00
     ++ [Byte.x64; Byte.x65; Byte.x61; Byte.x62; Byte.x63] ++ replicate 4 Byte.x00).

Lemma two_tuples_ok : slots_ok two_tuples [4073; 4071].
Proof.
  split.
  - done.
  - intros [|[|j]] o Ho; cbn in Ho; simplify_eq; vm_compute; reflexivity.
  - intros [|[|j]] o Ho; cbn in Ho; simplify_eq; vm_compute; split; discriminate.
  - vm_compute. split; discriminate.
Qed.

Lemma table_get_slices_witness :
  table_get 1 two_tuples = Ret (Some [Byte.x64; Byte.x65]) two_tuples /\ table_get 2 two_tuples = Ret None two_tuples.
Proof.
  destruct (table_get_slices two_tuples [4073; 4071] two_tuples_ok) as [H1 H2]. split; [|apply (H2 2); cbn; lia].
  destruct (H1 1%nat 4071 eq_refl) as (bs & E & Hbs & _). change (Z.of_nat 1) with 1 in E. rewrite E, Hbs.
  vm_compute. reflexivity.
Defined.

(** ** The first put *)

Lemma keeps_tread a n : keeps thdr (tread a n).
Proof. unfold tread, mem_read. keeps. Qed.
Lemma keeps_twrite a bs : keeps thdr (twrite a bs).
Proof. unfold twrite, mem_write. keeps. Qed.
#[local] Hint Resolve keeps_tread keeps_twrite : keeps.
Lemma keeps_tmove d s n : keeps thdr (tmove d s n).
Proof. unfold tmove, mem_move. apply keeps_bind; [apply keeps_tread|intros; apply keeps_twrite]. Qed.
Lemma keeps_offset_at i : keeps thdr (offset_at i).
Proof. unfold offset_at. keeps. Qed.
#[local] Hint Resolve keeps_tmove keeps_offset_at : keeps.

(** Put into an empty page with room stores the tuple and counts it, but returns
    -1, the value that means there is no room: find returns -1 on an empty page. *)
Theorem table_put_first_reports_failure t tuple :
  tcount (thdr t) = 0 -> 2 + tuple.2 <= table_free_space (thdr t) ->
  post (table_put tuple) (fun r t' => r = -1 /\ tcount (thdr t') = 1) t.
Proof.
  intros Hc Hroom. unfold table_put. apply post_bind, post_gets. cbv zeta.
  destruct (Z.ltb_spec (table_free_space (thdr t)) (2 + tuple.2)); [lia|].
  assert (table_find tuple t = Ret (-1) t) as Hfind.
  { unfold table_find, mbind, M_bind, gets. cbn [find_tuple]. unfold mbind, M_bind, gets. by rewrite Hc. }
  apply post_bind. unfold post at 1. rewrite Hfind, Hc.
  apply post_bind. eapply post_mono; [apply (post_keeps thdr); keeps|]. intros bs t1 H1. cbn beta.
  apply post_bind. eapply post_mono; [apply (post_keeps thdr); keeps|]. intros u t2 H2. cbn beta.
  apply post_bind, post_modify. unfold post; cbn. split; [done|]. by rewrite H2, H1, Hc.
Qed.

(** On a zeroed page it returns -1 with the tuple in place of the slot array. *)
Lemma table_put_first_example :
  match table_put (mk_cptr 9000 [Byte.x61; Byte.x62; Byte.x63], 3)
    (mk_table_format (mk_table_page_hdr 0 0 0 40) 16 56 16 VARCHAR 0 (replicate 64 Byte.x00)) with
  | Ret r t => r = -1 /\ tcount (thdr t) = 1 /\ take 3 (drop 16 (tbuf t)) = [Byte.x00; Byte.x00; Byte.x63]
  | _ => False
  end.
Proof. vm_compute. auto. Qed.
