(* ===== verification/Storage.v ===== *)
(** Files across create_file, open_file and close_file (src/io/io_manager.cc):
    access to a page through the pointer of its handle, and the lemmas that carry
    the first page of a file from the run that creates it to the run that opens it.
    Used by the table and index managers. *)
From S2P Require Import Prelude HashTable Unix BufferManager FileHandle Memory.

(** * Access through page_handle::data() *)

(** The bytes behind a pointer, with the pointer as address 0. *)
Definition bytes_read : Z -> Z -> M (list byte) (list byte) := mem_read (fun _ => 0) (fun d => d).
Definition bytes_write : Z -> list byte -> M (list byte) unit := mem_write (fun _ => 0) (fun d => d) (fun d _ => d).

Lemma wp_bytes_write a bs d (Q : unit -> list byte -> Prop) E :
  0 <= a -> a + Z.of_nat (length bs) <= Z.of_nat (length d) ->
  Q tt (splice d (Z.to_nat a) bs) -> wp (bytes_write a bs) Q E d.
Proof.
  intros Ha Hl HQ. unfold wp, bytes_write. rewrite mem_write_ok by (apply in_mem_true; lia). by rewrite Z.sub_0_r.
Qed.

Lemma wp_bytes_read a n d (Q : list byte -> list byte -> Prop) E :
  0 <= a -> 0 <= n -> a + n <= Z.of_nat (length d) ->
  Q (take (Z.to_nat n) (drop (Z.to_nat a) d)) d -> wp (bytes_read a n) Q E d.
Proof.
  intros Ha Hn Hl HQ. unfold wp, bytes_read. rewrite mem_read_ok by (apply in_mem_true; lia).
  unfold mem_slice. by rewrite Z.sub_0_r.
Qed.

Section data.
Context {U : Type} `{Unix U}.

(** The bytes of a slot from an offset on. *)
Definition payload (slot : Z) (off : nat) (b : buffer_manager U) : list byte :=
  drop off (default [] (be_data <$> pool_at b slot)).
Definition set_payload (slot : Z) (off : nat) (d : list byte) (b : buffer_manager U) : buffer_manager U :=
  match pool_at b slot with
  | Some e => set_entry slot (set_data (take off (be_data e) ++ d) e) b
  | None => b
  end.

(** The accesses [x] to the bytes behind [ph.data()]. *)
Definition on_data {A} (ph : page_handle) (x : M (list byte) A) : M (file_state U) A :=
  '(slot, off) ← of_option null_deref (data_ ph);
  zoom fs_bm set_bm
    (_ ← pool_get slot;
     zoom (payload slot off) (set_payload slot off) x).

Lemma set_entry_same slot e (b : buffer_manager U) : pool_at b slot = Some e -> set_entry slot (set_data (be_data e) e) b = b.
Proof.
  intros [_ He]%pool_at_nat. unfold set_entry. replace (set_data (be_data e) e) with e by (by destruct e).
  rewrite list_insert_id by done. by destruct b.
Qed.

Lemma wp_on_data {A} h b p slot off e (x : M (list byte) A) Q (E : exn -> file_state U -> Prop) :
  pool_at b slot = Some e ->
  wp x (fun a d => Q a (mk_file_state U h (set_entry slot (set_data (take off (be_data e) ++ d) e) b)))
    (fun y d => E y (mk_file_state U h (set_entry slot (set_data (take off (be_data e) ++ d) e) b)))
    (drop off (be_data e)) ->
  wp (on_data (mk_page_handle p (Some (slot, off))) x) Q E (mk_file_state U h b).
Proof.
  intros He Hx. unfold on_data. cbn [data_]. apply wp_bind. eapply wp_of_option; [done|]. cbv beta iota. wp_steps.
  eapply wp_pool_get; [done|]. wp_steps. unfold payload, set_payload. cbn [fs_bm]. rewrite He. exact Hx.
Qed.

(** Methods of a local file_handle: its final state comes with the result. *)
Definition with_handle {A} (fh : file_handle) (x : M (file_state U) A) : M (buffer_manager U) (A * file_handle) := fun b =>
  match x (mk_file_state U fh b) with
  | Ret a s => Ret (a, fs_handle s) (fs_bm s)
  | Exc e s => Exc e (fs_bm s)
  | Undef r => Undef r
  | Blocked => Blocked
  end.

Lemma wp_with_handle {A} fh (x : M (file_state U) A) (Q : A * file_handle -> buffer_manager U -> Prop) E b :
  wp x (fun a s => Q (a, fs_handle s) (fs_bm s)) (fun e s => E e (fs_bm s)) (mk_file_state U fh b) ->
  wp (with_handle fh x) Q E b.
Proof. unfold wp, with_handle. by destruct (x _). Qed.
End data.

(** * What the page operations leave alone *)

Section frames.
Context {U : Type} `{UnixNameLaws U}.

Definition names (b : buffer_manager U) : gmap Z string := u_names (bm_sys b).
Lemma keeps_names_lseek fd off : keeps names (sys (u_lseek fd off)).
Proof. intros b. unfold sys, names. destruct (u_lseek fd off (bm_sys b)) eqn:E. by apply lseek_names in E. Qed.
Lemma keeps_names_read fd n : keeps names (sys (u_read fd n)).
Proof. intros b. unfold sys, names. destruct (u_read fd n (bm_sys b)) eqn:E. by apply read_names in E. Qed.
Lemma keeps_names_write fd d : keeps names (sys (u_write fd d)).
Proof. intros b. unfold sys, names. destruct (u_write fd d (bm_sys b)) eqn:E. by apply write_names in E. Qed.
Lemma keeps_names_get slot : keeps names (pool_get slot).
Proof. unfold pool_get. keeps. Qed.
Lemma keeps_names_set slot f : keeps names (pool_set slot f).
Proof. unfold pool_set. pose proof keeps_names_get. keeps. Qed.
Lemma keeps_names_remove slot : keeps names (buffer_manager_remove slot).
Proof. unfold buffer_manager_remove. keeps. Qed.
Lemma keeps_names_used slot : keeps names (insert_used slot).
Proof. unfold insert_used. keeps. Qed.
Lemma keeps_names_hash {A} (m : M hash_table A) : keeps names (in_hash m).
Proof. unfold in_hash. keeps. Qed.
#[local] Hint Resolve keeps_names_lseek keeps_names_read keeps_names_write keeps_names_get keeps_names_set
  keeps_names_remove keeps_names_used keeps_names_hash : keeps.

Lemma keeps_names_write_page fd page d : keeps names (write_page fd page d).
Proof. unfold write_page, page_offset. keeps. Qed.
Lemma keeps_names_victim l : keeps names (find_victim l).
Proof. induction l as [|[n s] l IH]; cbn; keeps. Qed.
#[local] Hint Resolve keeps_names_write_page keeps_names_victim : keeps.
Lemma keeps_names_alloc fd page : keeps names (buffer_manager_allocate_page fd page).
Proof. unfold buffer_manager_allocate_page, internal_alloc, init_page_info. keeps. Qed.
Lemma keeps_names_get_page fd page mp : keeps names (get_page fd page mp).
Proof. unfold get_page, internal_alloc, init_page_info, read_page, page_offset. keeps. Qed.
Lemma keeps_names_load slot off : keeps names (load_int slot off).
Proof. unfold load_int. keeps. Qed.
Lemma keeps_names_store slot off bs : keeps names (store_bytes slot off bs).
Proof. unfold store_bytes. keeps. Qed.
Lemma keeps_names_unpin fd page : keeps names (buffer_manager_unpin_page fd page).
Proof. unfold buffer_manager_unpin_page. keeps. Qed.
Lemma keeps_names_mark fd page : keeps names (buffer_manager_mark_dirty fd page).
Proof. unfold buffer_manager_mark_dirty. keeps. Qed.
Lemma keeps_names_flush fd : keeps names (buffer_manager_flush_pages fd).
Proof.
  unfold buffer_manager_flush_pages. keeps. generalize 0. induction (Z.to_nat a) as [|n IH]; intros i; cbn -[Z.add];
    unfold insert_free; keeps.
Qed.
(** The pin counts of the slots. *)
Definition pins (b : buffer_manager U) : list Z := be_pin <$> buffer_pool_ b.

Lemma keeps_pins_sys {A} (f : U -> A * U) : keeps pins (sys f).
Proof. intros b. unfold sys. by destruct (f (bm_sys b)). Qed.
Lemma keeps_pins_set slot f : (forall e, be_pin (f e) = be_pin e) -> keeps pins (pool_set slot f).
Proof.
  intros Hf b. unfold pool_set, pool_get, mbind, M_bind. destruct (slot <? 0); [done|]. unfold gets, of_option.
  destruct (buffer_pool_ b !! Z.to_nat slot) as [e|] eqn:He; [|done]. cbn. unfold pins. cbn.
  rewrite list_fmap_insert, Hf. apply list_insert_id. by rewrite list_lookup_fmap, He.
Qed.
Lemma keeps_pins_get slot : keeps pins (pool_get slot).
Proof. unfold pool_get. keeps. Qed.
Lemma keeps_pins_remove slot : keeps pins (buffer_manager_remove slot).
Proof. unfold buffer_manager_remove. keeps. Qed.
Lemma keeps_pins_hash {A} (m : M hash_table A) : keeps pins (in_hash m).
Proof. unfold in_hash. keeps. Qed.
Lemma keeps_pins_flush fd : keeps pins (buffer_manager_flush_pages fd).
Proof.
  pose proof keeps_pins_get. pose proof keeps_pins_remove. pose proof @keeps_pins_hash. pose proof @keeps_pins_sys.
  unfold buffer_manager_flush_pages. keeps. generalize 0. induction (Z.to_nat a) as [|n IH]; intros i; cbn -[Z.add];
    unfold insert_free, write_page, page_offset; keeps. by apply keeps_pins_set.
Qed.

Lemma pins_pins_le n b b' : pins b' = pins b -> pins_le n b -> pins_le n b'.
Proof.
  intros Hp Hn s e [Hs He]%pool_at_nat. assert (pins b !! Z.to_nat s = Some (be_pin e)) as Hl.
  { rewrite <-Hp. unfold pins. by rewrite list_lookup_fmap, He. }
  apply list_lookup_fmap_Some in Hl as (e0 & -> & He0). apply (Hn s). unfold pool_at.
  destruct (Z.ltb_spec s 0); [lia|done].
Qed.
End frames.

(** * Creating, opening and closing *)

Section files.
Context {U : Type} `{UnixNameLaws U, !UnixLaws U}.
Implicit Types (b : buffer_manager U) (m : gmap (Z * Z) Z).

(** The manager between operations on files: coherent, with pages of 4096 bytes,
    and with cached pages of open files only. *)
Record io_ok b m : Prop := {
  io_co : coherent b m;
  io_size : buffer_size_ b = DEFAULT_PAGE_SIZE;
  io_pool : 0 <= pool_size_ b;
  io_keys : forall k s, m !! k = Some s -> is_Some (names b !! k.1);
}.

(** No slot holds a descriptor that is not open. *)
Definition fds_open b : Prop := forall fd, fd ∈ fds b -> is_Some (names b !! fd).

Lemma pool_at_fds b slot e : pool_at b slot = Some e -> be_fd e ∈ fds b.
Proof. intros [_ He]%pool_at_nat. apply list_elem_of_fmap_2. by apply list_elem_of_lookup_2 in He. Qed.

Lemma tracked_fds b m k slot : coherent b m -> m !! k = Some slot -> k.1 ∈ fds b.
Proof.
  intros CO Hk. destruct (coherent_tracked _ _ _ _ (co_ok _ _ _ _ CO) Hk) as (e & He & <- & _).
  by apply pool_at_fds in He.
Qed.

(** The operating system after a call that touched none of the open files. *)
Definition sys_step b (u : U) : Prop :=
  u_separate u /\ forall fd, is_Some (names b !! fd) -> u_bytes u fd = u_bytes (bm_sys b) fd.

Lemma io_ok_sys b m u :
  io_ok b m -> sys_step b u -> (forall fd, is_Some (names b !! fd) -> is_Some (u_names u !! fd)) -> io_ok (set_sys u b) m.
Proof.
  intros I [Hsep Hb] Hn. destruct (io_co _ _ I) as [OK _ Ht Hc]. split; try apply I.
  - split; [by apply bm_ok_set_sys|done|done|]. intros k s e Hk He Hd Hx. cbn. unfold disk_page.
    rewrite Hb; [by apply (Hc k s e)|]. by apply (io_keys _ _ I k s).
  - intros k s Hk. apply Hn. by apply (io_keys _ _ I k s).
Qed.

(** The content of a file right after create_file *)
Definition created_bytes : list byte :=
  header_bytes (mk_file_header (-1) 0) ++ replicate (Z.to_nat BUFFER_SIZE - 8) Byte.x00.

Lemma length_created : length created_bytes = Z.to_nat BUFFER_SIZE.
Proof. reflexivity. Qed.

Lemma wp_create_file b m name (Q : unit -> buffer_manager U -> Prop) E :
  io_ok b m ->
  (forall u, sys_step b u -> u_names u = names b -> u_file u name = Some created_bytes -> Q tt (set_sys u b)) ->
  (forall x b', E x b') ->
  wp (create_file name) Q E b.
Proof.
  intros I HQ HE. unfold create_file. wp_steps. apply wp_sys. intros fd u1 C1.
  destruct (Z.ltb_spec fd 0); [wp_steps; apply HE|].
  destruct (create_names _ _ _ _ C1) as (_ & Hnew & Hn1 & Hs1 & Hb1 & Ho1 & Hf1); [done|apply I|]. wp_steps.
  apply wp_sys. intros r u2 C2. cbn [bm_sys set_sys] in C2. destruct (write_ok _ _ _ _ _ C2) as (Hfr & _ & Hw).
  destruct (Hfr Hs1) as [Hs2 Hf2]. fold created_bytes in Hw.
  destruct (Z.eqb_spec r BUFFER_SIZE) as [->|]; cbn [negb].
  2:{ wp_steps. apply wp_sys. intros r3 u3 C3. wp_steps. apply wp_sys. intros r4 u4 C4. wp_steps.
      destruct (r <? 0); wp_steps; apply HE. }
  destruct (Hw ltac:(done)) as [_ Hb2]. rewrite Hb1, Ho1, take_ge in Hb2 by (rewrite length_created; done).
  wp_steps. apply wp_sys. intros r u3 C3. cbn in C3. destruct (Z.ltb_spec r 0); [wp_steps; apply HE|].
  pose proof (write_names _ _ _ _ _ C2) as Hn2. wp_steps.
  destruct (close_names fd name _ _ _ C3) as (Hn3 & Hs3 & Hfile & Hf3); [done|done|by rewrite Hn2, Hn1, lookup_insert_eq|].
  apply (HQ u3).
  - split; [done|]. intros fd' Hfd'. assert (fd' <> fd) by (intros ->; unfold names in Hfd'; rewrite Hnew in Hfd'; by destruct Hfd').
    by rewrite Hf3, Hf2, Hf1.
  - rewrite Hn3, Hn2, Hn1. by rewrite delete_insert_id.
  - rewrite Hfile, Hb2. unfold file_write. cbn [length take app Nat.add]. by rewrite drop_nil, app_nil_r.
Qed.

(** What the first eight bytes of a file say. *)
Definition decode_header (bs : list byte) : file_header := mk_file_header (bytes_int bs) (bytes_int (drop 4 bs)).

Lemma bytes_int_take n bs : (4 <= n)%nat -> bytes_int (take n bs) = bytes_int bs.
Proof. intros Hn. unfold bytes_int. rewrite take_take. by rewrite Nat.min_l. Qed.

Lemma decode_header_take bs : decode_header (take 8 bs) = decode_header bs.
Proof. unfold decode_header. rewrite bytes_int_take, skipn_firstn_comm, bytes_int_take by lia. done. Qed.

Lemma wp_open_file b m garbage name bs (Q : file_handle -> buffer_manager U -> Prop) E :
  io_ok b m -> (forall fd, names b !! fd <> Some name) -> u_file (bm_sys b) name = Some bs ->
  (forall fd u, 0 <= fd < OPEN_MAX -> names b !! fd = None -> sys_step b u -> u_names u = <[fd := name]> (names b) ->
     u_bytes u fd = bs -> Q (mk_file_handle fd (decode_header bs) true true false) (set_sys u b)) ->
  (forall x b', x = unix_error \/ x = incomplete_header_read_error -> E x b') ->
  wp (open_file garbage name) Q E b.
Proof.
  intros I Hname Hfile HQ HE. unfold open_file. wp_steps. apply wp_sys. intros fd u1 C1.
  destruct (Z.ltb_spec fd 0); [wp_steps; apply HE; by left|].
  destruct (open_names _ _ _ _ C1) as (Hmax & Hnew & Hn1 & Hs1 & Hb1 & Hf1); [done|apply I|done|].
  pose proof (open_ok _ _ _ _ C1 ltac:(done)) as Ho1. rewrite Hfile in Hb1. injection Hb1 as ->.
  wp_steps. apply wp_sys. intros [r bs8] u2 C2. cbn in C2.
  destruct (read_ok _ _ _ _ _ _ C2) as (Hb2 & Hs2 & Hl & Hr).
  destruct (Z.eqb_spec r 8) as [->|]; cbn [negb]; wp_steps; [|apply HE; by right].
  destruct (Hr ltac:(done)) as [Hlen Hbs]. rewrite Ho1, drop_0 in Hbs. replace (length bs8) with 8%nat in Hbs by lia.
  fold (decode_header bs8). rewrite Hbs, decode_header_take. apply (HQ fd u2); [done|done| | |by rewrite Hb2].
  - split; [by apply Hs2|]. intros fd' Hfd'. rewrite Hb2. apply Hf1. intros ->. unfold names in Hfd'. rewrite Hnew in Hfd'.
    by destruct Hfd'.
  - by rewrite (read_names _ _ _ _ _ C2), Hn1.
Qed.

(** ** The first page of a new file *)

Lemma keeps_zoom_bm {A X} (f : buffer_manager U -> X) (x : M (buffer_manager U) A) :
  keeps f x -> keeps (fun s => f (fs_bm s)) (zoom fs_bm set_bm x).
Proof. intros Hx s. specialize (Hx (fs_bm s)). unfold zoom. destruct (x (fs_bm s)); cbn; done. Qed.
Lemma keeps_in_bm {A X} (f : buffer_manager U -> X) (x : M (buffer_manager U) A) :
  keeps f x -> keeps (fun s => f (fs_bm s)) (in_bm x).
Proof.
  intros Hx. unfold in_bm, handle. apply keeps_bind; [apply keeps_gets|]. intros h.
  destruct (buffer_manager_ h); [by apply keeps_zoom_bm|apply keeps_undef].
Qed.
Lemma keeps_check_open {X} (f : file_state U -> X) : keeps f check_open.
Proof. unfold check_open, handle. keeps. Qed.
Lemma keeps_check_page {X} (f : file_state U -> X) p : keeps f (check_page p).
Proof. unfold check_page, handle. keeps. Qed.
#[local] Hint Resolve keeps_check_open keeps_check_page : keeps.

Definition fs_names (s : file_state U) : gmap Z string := names (fs_bm s).
Definition fs_sizes (s : file_state U) : Z * Z := sizes (fs_bm s).
Definition fs_pins (s : file_state U) : list Z := pins (fs_bm s).
Definition fs_fds (s : file_state U) : list Z := fds (fs_bm s).
Definition fs_slots (s : file_state U) : list Z * list Z := slots (fs_bm s).

Lemma keeps_mark_slots p : keeps fs_slots (file_mark_dirty p).
Proof. unfold file_mark_dirty, handle. keeps. apply (keeps_in_bm slots), keeps_slots_mark. Qed.
Lemma keeps_unpin_slots p : keeps fs_slots (file_unpin_page p).
Proof. unfold file_unpin_page, handle. keeps. apply (keeps_in_bm slots), keeps_slots_unpin. Qed.
Lemma keeps_mark_names p : keeps fs_names (file_mark_dirty p).
Proof. unfold file_mark_dirty, handle. keeps. apply (keeps_in_bm names), keeps_names_mark. Qed.
Lemma keeps_unpin_names p : keeps fs_names (file_unpin_page p).
Proof. unfold file_unpin_page, handle. keeps. apply (keeps_in_bm names), keeps_names_unpin. Qed.
Lemma keeps_alloc_names : keeps fs_names file_allocate_page.
Proof.
  pose proof keeps_mark_names. unfold file_allocate_page, handle, update_handle. keeps; apply (keeps_in_bm names);
    auto using keeps_names_get_page, keeps_names_load, keeps_names_store, keeps_names_alloc.
Qed.
Lemma keeps_alloc_sizes : keeps fs_sizes file_allocate_page.
Proof.
  unfold file_allocate_page, file_mark_dirty, handle, update_handle. keeps; apply (keeps_in_bm sizes);
    unfold load_int, store_bytes; keeps.
Qed.
Lemma keeps_flush_names : keeps fs_names file_flush_pages.
Proof.
  unfold file_flush_pages, write_header, handle, update_handle. keeps; [..|apply (keeps_in_bm names), keeps_names_flush];
    apply (keeps_zoom_bm names); [apply keeps_names_lseek|apply keeps_names_write].
Qed.
Lemma keeps_flush_fds : keeps fs_fds file_flush_pages.
Proof.
  unfold file_flush_pages, write_header, handle, update_handle. keeps; [..|apply (keeps_in_bm fds), keeps_fds_flush];
    apply (keeps_zoom_bm fds), keeps_fds_sys.
Qed.

Lemma keeps_flush_pins : keeps fs_pins file_flush_pages.
Proof.
  unfold file_flush_pages, write_header, handle, update_handle. keeps; [..|apply (keeps_in_bm pins), keeps_pins_flush];
    apply (keeps_zoom_bm pins), keeps_pins_sys.
Qed.
Lemma keeps_flush_sizes : keeps fs_sizes file_flush_pages.
Proof.
  unfold file_flush_pages, write_header, handle, update_handle. keeps; [..|apply (keeps_in_bm sizes), keeps_flush_pages];
    apply (keeps_zoom_bm sizes), keeps_sys.
Qed.

(** The new file, open under [name], with its one page in [slot].  [N] are the
    other open files. *)
Record first_ok (N : gmap Z string) (name : string) (fd : Z) h b m (slot : Z) (e : buffer_entry) : Prop := {
  ff_file : file_ok h b m [];
  ff_fd : fd_ h = fd;
  ff_header : header_ h = mk_file_header (-1) 1;
  ff_changed : header_changed_ h = true;
  ff_pool : 0 <= pool_size_ b;
  ff_pins : pins_le (INT_MAX - 1) b;
  ff_slot : m !! (fd, 0) = Some slot;
  ff_entry : pool_at b slot = Some e;
  ff_data : be_data e = fresh_page;
  ff_pinned : 0 < be_pin e;
  ff_names : names b = <[fd := name]> N;
  ff_fds : forall f, f ∈ fds b -> f = fd \/ is_Some (N !! f);
  ff_free : free_without fd 0 b;
}.


(** The handle open_file returns for a file that was just created. *)
Definition new_handle (fd : Z) : file_handle := mk_file_handle fd (mk_file_header (-1) 0) true true false.

Lemma new_file_ok b m fd :
  io_ok b m -> 0 <= fd < OPEN_MAX -> (forall k s, m !! k = Some s -> k.1 <> fd) -> file_ok (new_handle fd) b m [].
Proof.
  intros I Hfd Hk. split; try apply I; try done; cbn; try (unfold OPEN_MAX, INT_MAX in *; lia).
  - intros p s Hs. by apply Hk in Hs.
  - split; [apply NoDup_nil_2|by intros p ?%not_elem_of_nil].
Qed.

Lemma wp_alloc_first N name fd b m (Q : page_handle -> file_state U -> Prop) E :
  io_ok b m -> pins_le (INT_MAX - 2) b -> 0 <= fd < OPEN_MAX -> names b = <[fd := name]> N -> N !! fd = None ->
  (forall f, f ∈ fds b -> is_Some (N !! f)) ->
  (forall h b' m' slot e, first_ok N name fd h b' m' slot e ->
     Q (mk_page_handle 0 (Some (slot, page_header_size))) (mk_file_state U h b')) ->
  (forall x s', E x s') ->
  wp file_allocate_page Q E (mk_file_state U (new_handle fd) b).
Proof.
  intros I Hpins Hfd HN Hnew Hfds HQ HE. pose proof (io_co _ _ I) as CO.
  assert (forall f, f ∈ fds b -> f <> fd) as Hne by (intros f Hf ->; apply Hfds in Hf; rewrite Hnew in Hf; by destruct Hf).
  assert (file_ok (new_handle fd) b m []) as F.
  { apply new_file_ok; [done..|]. intros k s Hk. apply Hne. by eapply tracked_fds. }
  assert (pins_le (INT_MAX - 1) b) as Hpin by (intros s e He; apply Hpins in He; lia).
  eapply wp_mono; [apply (wp_keeps fs_names); [apply keeps_alloc_names|];
    apply (wp_keeps fs_sizes); [apply keeps_alloc_sizes|apply (wp_file_allocate_page _ b m [] F Hpin)]|cbn|].
  - cbn. unfold OPEN_MAX, INT_MAX in *. lia.
  - intros ph s' [[(p & fl' & n' & b' & m' & slot & e & -> & Ht & -> & F' & Hm' & He & Hpe & Hd & _ & Hpn & Hone) Hsz] Hnm].
    destruct Ht as [[? _]|(_ & -> & -> & ->)]; [done|]. cbn in *. apply (HQ _ b' m' slot e).
    assert (forall s es, pool_at b' s = Some es -> s = slot \/ be_fd es ∈ fds b) as Hone'.
    { intros s es Hes. destruct (Hone eq_refl s es Hes) as [->|(e0 & He0 & <-)]; [by left|right]. by eapply pool_at_fds. }
    assert (be_fd e = fd) as Hefd.
    { destruct (coherent_tracked _ _ _ _ (co_ok _ _ _ _ (fo_co _ _ _ _ F')) Hm') as (e' & He' & Hk' & _).
      rewrite He in He'. injection He' as <-. by injection Hk'. }
    split; try done.
    + unfold fs_sizes, sizes in Hsz. injection Hsz as Hps _. rewrite Hps. apply I.
    + intros s es Hes. assert (pins_le (INT_MAX - 2 + 1) b') as Hp by (apply Hpn; [unfold INT_MAX; lia|done]).
      apply Hp in Hes. lia.
    + by rewrite <-HN.
    + intros f (es & -> & Hes)%list_elem_of_fmap. apply list_elem_of_lookup_1 in Hes as [i Hi].
      assert (pool_at b' (Z.of_nat i) = Some es) as Hes by (unfold pool_at; destruct (Z.ltb_spec (Z.of_nat i) 0); [lia|by rewrite Nat2Z.id]).
      destruct (Hone' _ _ Hes) as [Heq|Hin]; [|right; by apply Hfds]. left. rewrite Heq, He in Hes. by injection Hes as <-.
    + intros s es Hs _ Hes. destruct (Hone' _ _ Hes) as [->|Hin]; [|by apply Hne].
      exfalso. pose proof (co_ok _ _ _ _ (fo_co _ _ _ _ F')) as OK'.
      destruct (ok_tracked _ _ OK' _ _ Hm') as [Hin _]. by apply (bm_free_not_used _ _ _ OK' Hs).
  - intros. apply HE.
Qed.

Lemma disk_page_block size (u : U) fd p :
  disk_page size u (fd, p) = file_block (u_bytes u fd) (page_pos size p) (Z.to_nat size).
Proof. done. Qed.

(** The page as its writer left it. *)
Definition page_image (d : list byte) : list byte := int_bytes PAGE_USED ++ d.

Lemma length_page_image d : length d = payload_size -> length (page_image d) = Z.to_nat DEFAULT_PAGE_SIZE.
Proof. intros Hd. unfold page_image. rewrite length_app, length_int_bytes, Hd. done. Qed.

(** What is left of a closed file: its bytes, under its name. *)
Definition closed_file (name : string) (d : list byte) (u : U) : Prop :=
  exists bs, u_file u name = Some bs /\ decode_header bs = mk_file_header (-1) 1 /\ file_block bs (page_pos DEFAULT_PAGE_SIZE 0) (Z.to_nat DEFAULT_PAGE_SIZE) = Some (page_image d).

(** Marking, unpinning: the file with its first page changed. *)
Lemma wp_first_written N name fd h b m slot e d (Q : unit -> file_state U -> Prop) E :
  first_ok N name fd h b m slot e -> length d = payload_size ->
  (forall b', file_ok h b' m [] -> view b' m (fd, 0) = Some (page_image d) -> names b' = names b -> slots b' = slots b ->
     sizes b' = sizes b -> pins_le (INT_MAX - 1) b' -> Q tt (mk_file_state U h b')) ->
  wp (_ ← file_mark_dirty 0; file_unpin_page 0) Q E (mk_file_state U h (set_entry slot (set_data (page_image d) e) b)).
Proof.
  intros FO Hd HQ. pose proof (ff_file _ _ _ _ _ _ _ _ FO) as F. pose proof (ff_fd _ _ _ _ _ _ _ _ FO) as Hfd. subst fd.
  pose proof (ff_slot _ _ _ _ _ _ _ _ FO) as Hm. pose proof (ff_entry _ _ _ _ _ _ _ _ FO) as He.
  assert (0 <= 0 < page_num (header_ h)) as Hp by (rewrite (ff_header _ _ _ _ _ _ _ _ FO); cbn; lia).
  destruct (client_write_coherent None b m _ _ _ (page_image d) (fo_co _ _ _ _ F) ltac:(by left) Hm He) as [CO1 Hv1].
  { rewrite length_page_image by done. by rewrite (fo_size _ _ _ _ F). }
  set (b1 := set_entry slot (set_data (page_image d) e) b) in *.
  assert (pool_at b1 slot = Some (set_data (page_image d) e)) as He1 by (unfold b1; by rewrite pool_at_set_entry, decide_True).
  wp_steps. eapply wp_mono; [apply (wp_keeps fs_names), (wp_keeps fs_sizes); [apply keeps_mark_names| |
    eapply (wp_file_mark h b1 m 0 slot (fun _ s' => exists b', s' = mk_file_state U h b' /\ coherent b' m /\
      (forall k, view b' m k = view b1 m k) /\ (forall n, pins_le n b1 -> pins_le n b') /\
      pool_at b' slot = Some (set_dirty true (set_data (page_image d) e)) /\ slots b' = slots b1) (fun _ _ => False)); [exact CO1|apply F|apply F|done|done|]]|cbn|].
  - unfold file_mark_dirty, handle. keeps. apply (keeps_in_bm sizes). keeps.
  - intros b' CO' Hv' _ Hpn' Hd' Hsl'. exists b'. split_and!; try done. by apply Hd'.
  - intros [] s2 [[(b2 & -> & CO2 & Hv2 & Hpn2 & He2 & Hsl2) Hsz2] Hn2].
    assert (pins_le (INT_MAX - 1) b2) as Hpin1.
    { apply Hpn2, pins_set_entry; [apply FO|done|]. by apply (ff_pins _ _ _ _ _ _ _ _ FO) in He. }
    assert (pins_le INT_MAX b2) as Hpin by (intros s es Hes; apply Hpin1 in Hes; lia).
    eapply wp_mono; [apply (wp_keeps fs_names), (wp_keeps fs_slots), (wp_keeps fs_sizes); [apply keeps_unpin_names|apply keeps_unpin_slots| |
      eapply (wp_file_unpin h b2 m 0 slot _ (fun _ s' => exists b', s' = mk_file_state U h b' /\ coherent b' m /\
        (forall k, view b' m k = view b2 m k) /\ (forall n, pins_le n b2 -> pins_le n b')) (fun _ _ => False)); [done|apply F|apply F|done|done|done|done|apply (ff_pinned _ _ _ _ _ _ _ _ FO)|]]|cbn|].
    + unfold file_unpin_page, handle. keeps. apply (keeps_in_bm sizes). keeps.
    + intros b' CO' Hv' _ Hpn'. by exists b'.
    + intros [] s3 [[[(b3 & -> & CO3 & Hv3 & Hpn3) Hsz3] Hsl3] Hn3]. unfold fs_names, fs_sizes, fs_slots in *. cbn in *.
      assert (view b3 m (fd_ h, 0) = Some (page_image d)) as Hvp by (by rewrite Hv3, Hv2, Hv1, decide_True).
      apply HQ; [|done|by rewrite Hn3, Hn2|rewrite Hsl3, Hsl2; by apply (slots_set_entry b slot (set_data (page_image d) e) e)|by rewrite Hsz3, Hsz2|by apply Hpn3].
      destruct F. split; try assumption.
      * injection Hsz3 as _ Hsz3. injection Hsz2 as _ Hsz2. congruence.
      * intros p Hpp. assert (p = 0) as -> by (rewrite (ff_header _ _ _ _ _ _ _ _ FO) in Hpp; cbn [page_num] in Hpp; lia).
        exists (page_image d). split; [done|]. apply (bytes_int_bytes PAGE_USED). unfold PAGE_USED, INT_MIN, INT_MAX. lia.
    + by intros x s' [[[[] _] _] _].
  - by intros x s' [[[] _] _].
Qed.

(** What is left of a closed paged file: the header and every page, under its name. *)
Definition closed_pages (name : string) (hd : file_header) (v : Z -> option (list byte)) (u : U) : Prop :=
  exists bs, u_file u name = Some bs /\ file_block bs 0 8 = Some (header_bytes hd) /\
    forall p d, 0 <= p -> v p = Some d -> file_block bs (page_pos DEFAULT_PAGE_SIZE p) (Z.to_nat DEFAULT_PAGE_SIZE) = Some d.

(** close_file of any file: the others stay open, and everything is on disk. *)
Lemma wp_close_file N name h b m fl (Q : unit -> file_state U -> Prop) E :
  file_ok h b m fl -> header_saved h b -> 0 <= pool_size_ b -> free_without (fd_ h) 0 b ->
  names b = <[fd_ h := name]> N -> N !! fd_ h = None -> (forall f, f ∈ fds b -> f = fd_ h \/ is_Some (N !! f)) ->
  (forall h' b' m', io_ok b' m' -> names b' = N -> pins b' = pins b ->
     closed_pages name (header_ h) (fun p => view b m (fd_ h, p)) (bm_sys b') -> Q tt (mk_file_state U h' b')) ->
  (forall x s', flush_error h b x -> E x s') ->
  wp close_file Q E (mk_file_state U h b).
Proof.
  intros F Hsv Hps Hfw HN Hnew Hfds HQ HE.
  unfold close_file, handle. wp_steps. cbn [fs_handle]. rewrite (fo_open _ _ _ _ F). cbn [negb]. wp_steps.
  eapply wp_mono; [apply (wp_keeps fs_names), (wp_keeps fs_fds), (wp_keeps fs_sizes), (wp_keeps fs_pins);
    [apply keeps_flush_names|apply keeps_flush_fds|apply keeps_flush_sizes|apply keeps_flush_pins|];
    by apply (wp_file_flush h b m fl F)|cbn beta|by intros x s' [[[[[Hx _] _] _] _] _]; apply HE].
  intros [] s2 [[[[(Hbs & Hpg & Hh & m2 & CO2 & Hm2) Hpi] Hsz2] Hfds2] Hn2].
  destruct s2 as [h2 b2]. unfold fs_names, fs_fds, fs_sizes, fs_pins in *. cbn [fs_bm fs_handle] in *. subst h2.
  wp_steps. cbn [fs_handle]. apply wp_sys. intros r u Hr. cbn in Hr.
  destruct (Z.ltb_spec r 0); [wp_steps; apply HE; left; by left|].
  unfold update_handle. wp_steps. cbn [fs_handle fs_bm set_handle set_bm].
  assert (names b2 = <[fd_ h := name]> N) as Hnames by (by rewrite Hn2, HN).
  destruct (close_names (fd_ h) name _ _ _ Hr) as (Hn3 & Hs3 & Hfile & Hf3); [done|apply CO2|by fold (names b2); rewrite Hnames, lookup_insert_eq|].
  fold (names b2) in Hn3. rewrite Hnames, delete_insert_id in Hn3 by done.
  apply (HQ _ (set_sys u b2) m2); [|done|done|].
  - injection Hsz2 as Hps2 Hbs2. destruct CO2 as [OK2 Hsep2 Ht2 Hc2]. split.
    + split; [by apply bm_ok_set_sys|done|done|]. intros k s es Hk Hes Hde Hx. cbn. unfold disk_page.
      rewrite Hf3 by (by apply (Hm2 k s)). by apply (Hc2 k s es).
    + cbn. rewrite Hbs2. apply F.
    + cbn. by rewrite Hps2.
    + intros k s Hk. unfold names. cbn. rewrite Hn3. pose proof (Hm2 k s Hk) as Hne.
      assert (k.1 ∈ fds b2) as Hin by (by eapply (tracked_fds b2 m2)).
      rewrite Hfds2 in Hin. by destruct (Hfds _ Hin).
  - exists (u_bytes (bm_sys b2) (fd_ h)). split_and!; [done|done|]. intros p d Hp Hd. rewrite <-disk_page_block. by apply Hpg.
Qed.

Lemma decode_header_block bs hd :
  file_block bs 0 8 = Some (header_bytes hd) -> decode_header bs = decode_header (header_bytes hd).
Proof.
  intros Hb. rewrite <-(decode_header_take bs). f_equal. unfold file_block in Hb. case_decide; [|done]. by injection Hb.
Qed.

Lemma wp_close_first N name fd h b m slot e d (Q : unit -> file_state U -> Prop) E :
  first_ok N name fd h b m slot e -> N !! fd = None -> length d = payload_size ->
  (forall h' b' m', io_ok b' m' -> names b' = N -> pins_le (INT_MAX - 1) b' -> closed_file name d (bm_sys b') ->
     Q tt (mk_file_state U h' b')) ->
  (forall x s', E x s') ->
  wp (_ ← file_mark_dirty 0; _ ← file_unpin_page 0; close_file) Q E
    (mk_file_state U h (set_entry slot (set_data (page_image d) e) b)).
Proof.
  intros FO Hnew Hd HQ HE. pose proof (ff_fd _ _ _ _ _ _ _ _ FO) as Hfd. subst fd.
  assert (forall s, wp (_ ← (_ ← file_mark_dirty 0; file_unpin_page 0); close_file) Q E s ->
    wp (_ ← file_mark_dirty 0; _ ← file_unpin_page 0; close_file) Q E s) as Hassoc.
  { intros s. unfold wp, mbind, M_bind. by destruct (file_mark_dirty 0 s). }
  apply Hassoc, wp_bind. eapply wp_first_written; [done..|]. intros b1 F1 Hv1 Hn1 Hsl1 Hsz1 Hp1.
  assert (pool_size_ b1 = pool_size_ b) as Hps by (by injection Hsz1). assert (free_list_ b1 = free_list_ b) as Hfl by (by injection Hsl1).
  apply (wp_close_file N name h b1 m []); [done| | | | |done| | |by intros; apply HE].
  - intros Hc. by rewrite (ff_changed _ _ _ _ _ _ _ _ FO) in Hc.
  - rewrite Hps. by apply (ff_pool _ _ _ _ _ _ _ _ FO).
  - intros s es Hs Hs0 Hes. destruct (slots_pool_at b b1 s es Hsl1 Hes) as (e0 & He0 & <-). rewrite Hfl in Hs.
    by apply (ff_free _ _ _ _ _ _ _ _ FO s).
  - by rewrite Hn1, (ff_names _ _ _ _ _ _ _ _ FO).
  - intros f Hf. injection Hsl1 as _ Hf1. rewrite Hf1 in Hf. by apply (ff_fds _ _ _ _ _ _ _ _ FO).
  - intros h' b' m' I' Hn' Hpi' (bs & Hfile & Hhd & Hpg). apply (HQ h' b' m'); [done|done|by apply (pins_pins_le _ b1)|].
    exists bs. split_and!; [done| |by apply Hpg].
    rewrite (decode_header_block _ _ Hhd), (ff_header _ _ _ _ _ _ _ _ FO). vm_compute. reflexivity.
Qed.

(** create_file followed by open_file of the new file *)
Lemma wp_create_open {A} b m garbage name (k : file_handle -> M (buffer_manager U) A) Q E :
  io_ok b m -> (forall fd, names b !! fd <> Some name) ->
  (forall fd u, 0 <= fd < OPEN_MAX -> names b !! fd = None -> u_names u = <[fd := name]> (names b) ->
     io_ok (set_sys u b) m -> wp (k (new_handle fd)) Q E (set_sys u b)) ->
  (forall x b', E x b') ->
  wp (_ ← create_file name; fh ← open_file garbage name; k fh) Q E b.
Proof.
  intros I Hname HQ HE. wp_steps. eapply wp_create_file; [done| |done]. intros u1 Hs1 Hn1 Hfile. wp_steps.
  assert (io_ok (set_sys u1 b) m) as I1 by (apply io_ok_sys; [done..|]; intros fd; by rewrite Hn1).
  eapply wp_open_file; [exact I1|unfold names; cbn; by rewrite Hn1|exact Hfile| |by intros; apply HE].
  intros fd u2 Hfd Hnew Hs2 Hn2 _. unfold names in Hnew, Hn2. cbn in Hnew, Hn2. rewrite Hn1 in Hnew, Hn2.
  replace (decode_header created_bytes) with (mk_file_header (-1) 0) by (vm_compute; reflexivity).
  apply (HQ fd u2); [done..|]. apply (io_ok_sys (set_sys u1 b) m u2 I1 Hs2). unfold names. cbn. rewrite Hn1, Hn2.
  intros f Hf. rewrite lookup_insert. case_decide; [done|exact Hf].
Qed.

(** open_file of a closed file, and its first page *)
Lemma wp_open_first {A} b m garbage name d (k : file_handle -> M (buffer_manager U) A) Q E :
  io_ok b m -> pins_le (INT_MAX - 1) b -> (forall fd, names b !! fd <> Some name) -> closed_file name d (bm_sys b) ->
  (forall h b', file_ok h b' m [] -> pins_le (INT_MAX - 1) b' -> view b' m (fd_ h, 0) = Some (page_image d) ->
     wp (k h) Q E b') ->
  (forall x b', E x b') ->
  wp (fh ← open_file garbage name; k fh) Q E b.
Proof.
  intros I Hpins Hname (bs & Hfile & Hdec & Hblk) HQ HE. wp_steps.
  eapply wp_open_file; [done..| |by intros; apply HE]. intros fd u Hfd Hnew Hs Hn Hb. rewrite Hdec.
  assert (io_ok (set_sys u b) m) as I1.
  { apply io_ok_sys; [done..|]. intros f Hf. rewrite Hn, lookup_insert. by case_decide. }
  assert (m !! (fd, 0) = None) as Hm.
  { destruct (m !! (fd, 0)) eqn:Hm; [|done]. apply (io_keys _ _ I) in Hm. cbn in Hm. rewrite Hnew in Hm. by destruct Hm. }
  assert (view (set_sys u b) m (fd, 0) = Some (page_image d)) as Hv.
  { unfold view. rewrite Hm. cbn. unfold disk_page. cbn. by rewrite Hb, (io_size _ _ I). }
  apply HQ; [|done|done]. split; try apply I1; try done; cbn; try (unfold OPEN_MAX, INT_MAX in *; lia).
  - intros p s Hk. apply (io_keys _ _ I) in Hk. cbn in Hk. rewrite Hnew in Hk. by destruct Hk.
  - split; [apply NoDup_nil_2|by intros p ?%not_elem_of_nil].
  - intros p Hp. assert (p = 0) as -> by lia. exists (page_image d). split; [exact Hv|].
    apply (bytes_int_bytes PAGE_USED). unfold PAGE_USED, INT_MIN, INT_MAX. lia.
Qed.

(** Reading the first page through its handle *)
Lemma wp_first_page {A} h b m d (k : page_handle -> M (file_state U) A) Q E :
  file_ok h b m [] -> pins_le (INT_MAX - 1) b -> view b m (fd_ h, 0) = Some (page_image d) ->
  (forall slot b' m' e, file_ok h b' m' [] -> pins_le INT_MAX b' -> m' !! (fd_ h, 0) = Some slot -> pool_at b' slot = Some e ->
     be_data e = page_image d -> 0 < be_pin e ->
     wp (k (mk_page_handle 0 (Some (slot, page_header_size)))) Q E (mk_file_state U h b')) ->
  (forall x s', E x s') ->
  wp (ph ← get_this_page 0; k ph) Q E (mk_file_state U h b).
Proof.
  intros F Hpins Hv HQ HE. wp_steps. unfold get_this_page, handle. apply wp_check_open; [apply F|].
  apply wp_check_page; [intros Hp|intros; apply HE]. wp_step. wp_step. cbn beta.
  apply (wp_fetch_page h b m []); [done..| |intros; apply HE].
  intros b' m' slot e F' Hm' He Hpe Hd Hle Hpn. cbn [link]. change (PAGE_USED =? -2) with true. cbv iota. wp_steps.
  apply (HQ slot b' m' e); try done; [|congruence].
  intros s es Hes. replace INT_MAX with (INT_MAX - 1 + 1) by lia. apply (Hpn (INT_MAX - 1)) with (slot := s); [unfold INT_MAX; lia|done|done].
Qed.
End files.

(** * An instance *)

(** A process with its terminal open, and a new I/O manager. *)
Definition tty_fs : MemFs := mk_MemFs {[ "tty" := [] ]} {[ 0 := ("tty", 0%nat) ]}.
Definition tty_bm : buffer_manager MemFs := io_manager_new demo_entry tty_fs.

Lemma tty_separate : u_separate tty_fs.
Proof.
  split; cbn.
  - intros fd1 fd2 n o1 o2 [<- _]%lookup_singleton_Some [<- _]%lookup_singleton_Some. done.
  - intros fd n o [_ [= <- _]]%lookup_singleton_Some. by rewrite lookup_singleton_eq.
Qed.

Lemma tty_io_ok : io_ok tty_bm ∅ /\ fds_open tty_bm /\ pins_le (INT_MAX - 2) tty_bm.
Proof.
  destruct (buffer_manager_new_coherent POOL_SIZE BUFFER_SIZE demo_entry (INT_MAX - 2) tty_fs) as [CO Hp];
    [done|intros i; unfold fits, INT_MAX; cbn; lia|apply tty_separate|].
  split_and!; [split; try done|..]; [|done].
  intros fd (e & -> & He)%list_elem_of_fmap. apply list_elem_of_fmap in He as (i & -> & _). by exists "tty".
Qed.

Lemma tty_names name : name <> "tty"%string -> forall fd, names tty_bm !! fd <> Some name.
Proof.
  intros Hn fd. unfold names, tty_bm. cbn. rewrite lookup_fmap. destruct (decide (fd = 0)) as [->|].
  - rewrite lookup_singleton_eq. cbn. congruence.
  - by rewrite lookup_singleton_ne.
Qed.
