(* ===== verification/IndexHandle.v ===== *)
(** The handle of an open index: src/index/b+tree/index_handle.{h,cc}, the page
    operations and the header.  What the handle delegates to its tree is in
    BPlusTree.v. *)
From S2P Require Import Prelude HashTable Unix BufferManager FileHandle Storage.

(** * State *)

Record index_header := mk_index_header {
  ih_num_pages : Z;
  root_page : Z;
  pair_size : Z;
  ih_fanout : Z;
  ih_height : Z;
  attr_type : Z;
  attr_length : Z;
}.

(** The representation of an index_header, seven ints *)
Definition index_header_bytes (h : index_header) : list byte :=
  int_bytes (ih_num_pages h) ++ int_bytes (root_page h) ++ int_bytes (pair_size h) ++ int_bytes (ih_fanout h) ++
  int_bytes (ih_height h) ++ int_bytes (attr_type h) ++ int_bytes (attr_length h).

Definition index_header_of (bs : list byte) : index_header :=
  let int_at i := bytes_int (drop (4 * i) bs) in
  mk_index_header (int_at 0%nat) (int_at 1%nat) (int_at 2%nat) (int_at 3%nat) (int_at 4%nat) (int_at 5%nat) (int_at 6%nat).

(** file_handle_ is a reference: [None] when the object it names is gone. *)
Record index_handle := mk_index_handle {
  file_handle_ : option file_handle;
  ih_file_is_open_ : bool;
  ih_header_changed_ : bool;
  index_header_ : index_header;
}.

(** The handle and the buffer manager behind its file. *)
Record index_state {U : Type} := mk_index_state { is_handle : index_handle; is_bm : buffer_manager U }.
Arguments index_state : clear implicits.

Definition set_file (f : file_handle) (h : index_handle) : index_handle :=
  mk_index_handle (Some f) (ih_file_is_open_ h) (ih_header_changed_ h) (index_header_ h).
Definition set_index_header (c : bool) (hd : index_header) (h : index_handle) : index_handle :=
  mk_index_handle (file_handle_ h) (ih_file_is_open_ h) c hd.

(** index_handle::index_handle *)
Definition index_handle_new (fh : file_handle) (header : index_header) : index_handle :=
  mk_index_handle (Some fh) true false header.

Section operations.
Context {U : Type} `{Unix U}.

(** A call through file_handle_ *)
Definition in_file {A} (x : M (file_state U) A) : M (index_state U) A := fun s =>
  match file_handle_ (is_handle s) with
  | None => Undef dangling_deref
  | Some f =>
      let back (t : file_state U) := mk_index_state U (set_file (fs_handle t) (is_handle s)) (fs_bm t) in
      match x (mk_file_state U f (is_bm s)) with
      | Ret a t => Ret a (back t)
      | Exc e t => Exc e (back t)
      | Undef r => Undef r
      | Blocked => Blocked
      end
  end.

(** index_handle::allocate_page *)
Definition index_allocate_page : M (index_state U) Z :=
  ph ← in_file file_allocate_page; mret (page_ ph).

(** index_handle::dispose_page *)
Definition index_dispose_page (page : Z) : M (index_state U) unit :=
  _ ← in_file (file_dispose_page page);
  s ← gets (fun s => s);
  let h := index_header_ (is_handle s) in
  n ← int_of (ih_num_pages h - 1);
  let h' := mk_index_header n (root_page h) (pair_size h) (ih_fanout h) (ih_height h) (attr_type h) (attr_length h) in
  _ ← modify (fun s => mk_index_state U (set_index_header (ih_header_changed_ (is_handle s)) h' (is_handle s)) (is_bm s));
  if 0 <? n then modify (fun s => mk_index_state U (set_index_header true h' (is_handle s)) (is_bm s))
  else undef assertion_failure.

(** index_handle::pin_page *)
Definition index_pin_page (page : Z) : M (index_state U) unit :=
  _ ← in_file (get_this_page page); mret tt.

(** index_handle::unpin_page, which ignores its argument *)
Definition index_unpin_page (page : Z) : M (index_state U) unit := in_file (file_unpin_page 0).

(** index_handle::force_pages *)
Definition index_force_pages : M (index_state U) unit := in_file (file_force_page ALL_PAGES).

(** index_handle::mark_dirty *)
Definition index_mark_dirty (page : Z) : M (index_state U) unit := in_file (file_mark_dirty page).

Lemma wp_in_file {A} h f b (x : M (file_state U) A) Q E :
  file_handle_ h = Some f ->
  wp x (fun a t => Q a (mk_index_state U (set_file (fs_handle t) h) (fs_bm t)))
    (fun e t => E e (mk_index_state U (set_file (fs_handle t) h) (fs_bm t))) (mk_file_state U f b) ->
  wp (in_file x) Q E (mk_index_state U h b).
Proof. intros Hf. unfold wp, in_file. cbn. rewrite Hf. by destruct (x _). Qed.
End operations.

(** * The header in memory *)

Definition header_in_range (h : index_header) : Prop :=
  Forall (fun z => INT_MIN <= z <= INT_MAX)
    [ih_num_pages h; root_page h; pair_size h; ih_fanout h; ih_height h; attr_type h; attr_length h].

Lemma length_index_header h : length (index_header_bytes h) = 28%nat.
Proof. reflexivity. Qed.

(** What memcpy stores, memcpy reads back. *)
Lemma index_header_decode h bs : header_in_range h -> index_header_of (index_header_bytes h ++ bs) = h.
Proof.
  unfold header_in_range. rewrite !Forall_cons. intros (H0 & H1 & H2 & H3 & H4 & H5 & H6 & _).
  unfold index_header_of, index_header_bytes. rewrite <-!app_assoc.
  assert (forall z r i, drop (4 * S i) (int_bytes z ++ r) = drop (4 * i) r) as Hd.
  { intros z r i. replace (4 * S i)%nat with (4 + 4 * i)%nat by lia. by rewrite <-drop_drop, drop_app_length'. }
  rewrite !Hd. change (4 * 0)%nat with 0%nat. rewrite !drop_0, !bytes_int_bytes by done. by destruct h.
Qed.
