(* ===== verification/IndexManager.v ===== *)
(** Creating, opening and closing indices: src/index/b+tree/index_manager.{h,cc},
    over the I/O manager and the paged files. *)
From stdpp Require Import pretty.
From S2P Require Import Prelude HashTable Unix BufferManager FileHandle Rid Storage IndexHandle.

(** * Operations *)

(** oss << filename << '.' << index_no *)
Definition index_name (filename : string) (index_no : Z) : string := (filename ++ "." ++ pretty index_no)%string.

(** DEFAULT_PAGE_SIZE - sizeof(page_header) *)
Definition PAGE_ROOM : Z := 4092.

(** sizeof(rid) + attr_len, a size_t *)
Definition entry_size (attr_len : Z) : Z := to_unsigned 64 (sizeof_rid + attr_len).

(** The while loop of create_index; the product is a size_t. *)
Fixpoint fanout_loop {S} (fuel : nat) (fanout entry : Z) : M S Z :=
  if PAGE_ROOM <? to_unsigned 64 (fanout * entry) then
    match fuel with
    | O => blocked
    | S fuel => f ← int_of (fanout - 1); fanout_loop fuel f entry
    end
  else mret fanout.

(** The fanout create_index computes. *)
Definition index_fanout {S} (attr_len : Z) : M S Z :=
  let entry := entry_size attr_len in
  if entry =? 0 then undef division_by_zero
  else
    let fanout := to_signed 32 (PAGE_ROOM / entry) in
    fanout_loop (Z.to_nat fanout) fanout entry.

Section operations.
Context {U : Type} `{Unix U}.

(** index_manager::create_index.  num_pages of the header is not set: [num_pages]
    is what the stack holds, [garbage] the uninitialised handle of open_file. *)
Definition create_index (num_pages : Z) (garbage : file_handle) (filename : string) (index_no attr_type attr_len : Z) :
    M (buffer_manager U) unit :=
  let name := index_name filename index_no in
  _ ← create_file name;
  fh ← open_file garbage name;
  r ← with_handle fh
    (ph ← file_allocate_page;
     fanout ← index_fanout attr_len;
     let header := mk_index_header num_pages (-1) (to_signed 32 (attr_len + sizeof_rid)) fanout 0 attr_type attr_len in
     _ ← on_data ph (bytes_write 0 (index_header_bytes header));
     if page_ ph =? 0 then
       _ ← file_mark_dirty 0;
       _ ← file_unpin_page 0;
       close_file
     else undef assertion_failure);
  mret tt.

(** index_manager::destroy_index *)
Definition destroy_index (filename : string) (index_no : Z) : M (buffer_manager U) unit :=
  destroy_file (index_name filename index_no).

(** index_manager::open_index up to its return: the handle, and the file_handle it refers to. *)
Definition open_index_body (garbage : file_handle) (filename : string) (index_no : Z) :
    M (buffer_manager U) (index_handle * file_handle) :=
  fh ← open_file garbage (index_name filename index_no);
  with_handle fh
    (ph ← get_this_page 0;
     bs ← on_data ph (bytes_read 0 28);
     _ ← file_unpin_page 0;
     mret (index_handle_new fh (index_header_of bs))).

(** index_manager::open_index: the local file_handle is destroyed on return, so
    the reference in the handle dangles. *)
Definition open_index (garbage : file_handle) (filename : string) (index_no : Z) : M (buffer_manager U) index_handle :=
  '(ih, _) ← open_index_body garbage filename index_no;
  mret (mk_index_handle None (ih_file_is_open_ ih) (ih_header_changed_ ih) (index_header_ ih)).

(** index_manager::close_index; the branch for a changed header is empty. *)
Definition close_index : M (index_state U) unit := in_file close_file.
End operations.

(** * The fanout *)

Lemma fanout_loop_stop {S} fuel fanout entry (s : S) :
  0 <= fanout * entry <= PAGE_ROOM -> fanout_loop fuel fanout entry s = Ret fanout s.
Proof.
  intros Hf. unfold PAGE_ROOM in Hf. destruct fuel; cbn [fanout_loop]; unfold to_unsigned; rewrite Z.mod_small by lia;
    unfold PAGE_ROOM; by rewrite (proj2 (Z.ltb_ge _ _)) by lia.
Qed.

(** The quotient is the answer; the loop body is never entered. *)
Lemma index_fanout_value {S} attr_len (s : S) :
  entry_size attr_len <> 0 -> index_fanout attr_len s = Ret (PAGE_ROOM / entry_size attr_len) s.
Proof.
  intros Hne. assert (0 < entry_size attr_len) as Hpos.
  { assert (0 <= entry_size attr_len < 2 ^ 64) by (apply to_unsigned_range; lia). lia. }
  unfold index_fanout. rewrite (proj2 (Z.eqb_neq _ _)) by done.
  assert (0 <= PAGE_ROOM / entry_size attr_len <= PAGE_ROOM) as Hq.
  { split; [apply Z.div_pos; [unfold PAGE_ROOM|]; lia|]. apply Z.div_le_upper_bound; unfold PAGE_ROOM; lia. }
  rewrite to_signed_id by (unfold PAGE_ROOM in *; lia). apply fanout_loop_stop.
  pose proof (Z.mul_div_le PAGE_ROOM (entry_size attr_len) Hpos). nia.
Qed.

Lemma entry_size_zero attr_len : INT_MIN <= attr_len <= INT_MAX -> entry_size attr_len = 0 <-> attr_len = -8.
Proof.
  intros Hr. unfold entry_size, to_unsigned, sizeof_rid, INT_MIN, INT_MAX in *. split; [|by intros ->].
  intros H%Z.mod_divide; [|lia]. destruct H as [q Hq]. nia.
Qed.

(** * The header page *)

Section header_page.
Context {U : Type} `{UnixNameLaws U, !UnixLaws U}.
Implicit Types (b : buffer_manager U) (m : gmap (Z * Z) Z).

(** The page create_index writes: the header over a zeroed page. *)
Definition header_payload (hd : index_header) : list byte :=
  index_header_bytes hd ++ replicate (payload_size - 28) Byte.x00.

Lemma length_header_payload hd : length (header_payload hd) = payload_size.
Proof.
  unfold header_payload. rewrite length_app, length_index_header, length_replicate. unfold payload_size, DEFAULT_PAGE_SIZE, page_header_size. lia.
Qed.

Lemma header_payload_splice hd : splice zero_payload 0 (index_header_bytes hd) = header_payload hd.
Proof.
  unfold splice, header_payload, zero_payload. rewrite take_0, app_nil_l, length_index_header. by rewrite drop_replicate.
Qed.

(** The header create_index stores. *)
Definition created_header (num_pages attr_type attr_len : Z) : index_header :=
  mk_index_header num_pages (-1) (attr_len + sizeof_rid) (PAGE_ROOM / (sizeof_rid + attr_len)) 0 attr_type attr_len.

Lemma created_header_range num_pages ty len :
  INT_MIN <= num_pages <= INT_MAX -> INT_MIN <= ty <= INT_MAX -> 0 <= len <= INT_MAX - 8 ->
  header_in_range (created_header num_pages ty len).
Proof.
  intros Hn Ht Hl. unfold header_in_range, created_header. cbn [ih_num_pages root_page pair_size ih_fanout ih_height attr_type attr_length].
  assert (0 <= PAGE_ROOM / (sizeof_rid + len) <= PAGE_ROOM).
  { unfold sizeof_rid. split; [apply Z.div_pos; [unfold PAGE_ROOM|]; lia|]. apply Z.div_le_upper_bound; unfold PAGE_ROOM; lia. }
  repeat (apply Forall_cons; split); [..|done]; unfold sizeof_rid, PAGE_ROOM, INT_MIN, INT_MAX in *; lia.
Qed.

Lemma wp_create_index b m np g filename no ty len (Q : unit -> buffer_manager U -> Prop) E :
  io_ok b m -> fds_open b -> pins_le (INT_MAX - 2) b -> (forall fd, names b !! fd <> Some (index_name filename no)) ->
  0 <= len <= INT_MAX - 8 ->
  (forall b' m', io_ok b' m' -> names b' = names b -> pins_le (INT_MAX - 1) b' ->
     closed_file (index_name filename no) (header_payload (created_header np ty len)) (bm_sys b') -> Q tt b') ->
  (forall x b', E x b') ->
  wp (create_index np g filename no ty len) Q E b.
Proof.
  intros I Hfo Hp Hname Hlen HQ HE. unfold create_index. apply (wp_create_open b m); [done..| |done].
  intros fd u Hfd Hnew Hn I1. wp_steps. apply wp_with_handle. apply wp_bind.
  eapply (wp_alloc_first (names b) (index_name filename no) fd _ m); [done|done|done|exact Hn|done|exact Hfo| |intros; apply HE].
  intros h b1 m1 slot e FO. apply wp_bind.
  assert (entry_size len = sizeof_rid + len) as Hes.
  { unfold entry_size, to_unsigned. apply Z.mod_small. unfold sizeof_rid, INT_MAX in *. lia. }
  unfold wp at 1. rewrite index_fanout_value by (rewrite Hes; unfold sizeof_rid; lia). rewrite Hes.
  rewrite to_signed_id by (unfold sizeof_rid, INT_MAX in *; lia). fold (created_header np ty len). apply wp_bind.
  eapply wp_on_data; [apply FO|]. rewrite (ff_data _ _ _ _ _ _ _ _ FO). unfold fresh_page.
  rewrite drop_app_length', take_app_length' by (by rewrite length_int_bytes).
  change (replicate (Z.to_nat DEFAULT_PAGE_SIZE - page_header_size) Byte.x00) with zero_payload.
  apply wp_bytes_write; [done|rewrite length_index_header; unfold zero_payload; rewrite length_replicate; unfold payload_size, DEFAULT_PAGE_SIZE, page_header_size; lia|].
  change (Z.to_nat 0) with 0%nat. rewrite header_payload_splice. cbn [page_]. rewrite Z.eqb_refl. fold (page_image (header_payload (created_header np ty len))).
  eapply wp_close_first; [exact FO|done|apply length_header_payload| |intros; apply HE].
  intros h' b' m' I' Hn' Hp' Hc. wp_steps. by apply (HQ b' m').
Qed.

Lemma wp_open_index b m g filename no hd (Q : index_handle -> buffer_manager U -> Prop) E :
  io_ok b m -> pins_le (INT_MAX - 1) b -> (forall fd, names b !! fd <> Some (index_name filename no)) ->
  closed_file (index_name filename no) (header_payload hd) (bm_sys b) -> header_in_range hd ->
  (forall b', Q (mk_index_handle None true false hd) b') -> (forall x b', E x b') ->
  wp (open_index g filename no) Q E b.
Proof.
  intros I Hp Hname Hc Hr HQ HE. unfold open_index, open_index_body. apply wp_bind.
  apply (wp_open_first b m g _ (header_payload hd)); [done..| |done]. intros h b1 F1 Hp1 Hv1.
  apply wp_with_handle. eapply wp_first_page; [done..| |intros; apply HE].
  intros slot b2 m2 e F2 Hp2 Hm2 He Hd Hpe. apply wp_bind. eapply wp_on_data; [done|]. rewrite Hd. unfold page_image.
  rewrite drop_app_length', take_app_length' by (by rewrite length_int_bytes).
  apply wp_bytes_read; [done|done|rewrite length_header_payload; unfold payload_size, DEFAULT_PAGE_SIZE, page_header_size; lia|].
  assert (set_entry slot (set_data (int_bytes PAGE_USED ++ header_payload hd) e) b2 = b2) as Hsame.
  { fold (page_image (header_payload hd)). rewrite <-Hd. by apply set_entry_same. }
  rewrite Hsame. change (Z.to_nat 0) with 0%nat. rewrite drop_0. apply wp_bind.
  assert (0 <= 0 < page_num (header_ h)) as Hpg by (pose proof (fo_cached _ _ _ _ F2 _ _ Hm2); lia).
  eapply (wp_file_unpin h b2 m2); [apply F2|apply F2|apply F2|done..|]. intros b3 _ _ _ _. wp_steps.
  unfold header_payload. rewrite take_app_length' by (by rewrite length_index_header).
  rewrite <-(app_nil_r (index_header_bytes hd)), index_header_decode by done. apply HQ.
Qed.
End header_page.

(** * Properties *)

(** C36. The fanout loop of create_index, for every int attribute length but -8, ends
    at once with the largest number of (rid, key) pairs that fits behind the page header;
    that number is between 0 and the room of the page, and is 0 when not even one pair
    fits, as for every length below -8, since the sizes are computed in size_t.  For the
    length -8 the quotient divides by zero. *)
Theorem index_fanout_bounds {S} (attr_len : Z) (s : S) :
  INT_MIN <= attr_len <= INT_MAX ->
  (attr_len = -8 -> index_fanout attr_len s = Undef division_by_zero) /\
  (attr_len <> -8 -> exists n, index_fanout attr_len s = Ret n s /\ 0 <= n <= PAGE_ROOM /\
     n * entry_size attr_len <= PAGE_ROOM < (n + 1) * entry_size attr_len) /\
  (-8 <= attr_len -> entry_size attr_len = sizeof_rid + attr_len).
Proof.
  intros Hr. pose proof (entry_size_zero attr_len Hr) as Hz. split_and!.
  - intros ->. done.
  - intros Hne. assert (entry_size attr_len <> 0) as Hnz by tauto.
    assert (0 <= entry_size attr_len < 2 ^ 64) as Hb by (apply to_unsigned_range; lia).
    eexists. split; [by apply index_fanout_value|].
    pose proof (Z.div_mod PAGE_ROOM (entry_size attr_len) Hnz) as Hdm.
    pose proof (Z.mod_pos_bound PAGE_ROOM (entry_size attr_len) ltac:(lia)) as Hm.
    assert (0 <= PAGE_ROOM / entry_size attr_len) by (apply Z.div_pos; [unfold PAGE_ROOM|]; lia). unfold PAGE_ROOM in *. nia.
  - intros Hge. unfold entry_size, to_unsigned. apply Z.mod_small. unfold sizeof_rid, INT_MAX in *. lia.
Qed.

Lemma index_fanout_bounds_witness :
  exists n, index_fanout 4 tt = Ret n tt /\ 0 <= n <= PAGE_ROOM /\ n * entry_size 4 <= PAGE_ROOM < (n + 1) * entry_size 4.
Proof. apply (index_fanout_bounds 4 tt); unfold INT_MIN, INT_MAX; lia. Defined.

(** An index created on files that are not open is found again: create_index
    followed by open_index is never undefined and never diverges, and when neither
    throws, the header that comes back is the one described by the arguments, with
    an empty tree, after the page went through the cache, the flush at closing and
    the file.  num_pages comes back as the uninitialised value that was stored. *)
Theorem index_header_roundtrip {U} `{UnixNameLaws U, !UnixLaws U} (b : buffer_manager U) (m : gmap (Z * Z) Z)
    (num_pages : Z) (g1 g2 : file_handle) (filename : string) (no ty len : Z) :
  io_ok b m -> fds_open b -> pins_le (INT_MAX - 2) b -> (forall fd, names b !! fd <> Some (index_name filename no)) ->
  INT_MIN <= num_pages <= INT_MAX -> INT_MIN <= ty <= INT_MAX -> 0 <= len <= INT_MAX - 8 ->
  wp (_ ← create_index num_pages g1 filename no ty len; open_index g2 filename no)
    (fun ih _ => index_header_ ih = mk_index_header num_pages (-1) (len + 8) (4092 / (8 + len)) 0 ty len)
    (fun _ _ => True) b.
Proof.
  intros I Hfo Hp Hname Hn Ht Hl. apply wp_bind. eapply wp_create_index; [done..| |done].
  intros b' m' I' Hn' Hp' Hc.
  eapply (wp_open_index b' m'); [done|done|by rewrite Hn'|exact Hc|by apply created_header_range|done|done].
Qed.

Lemma index_header_roundtrip_witness :
  (exists b', create_index 77 (empty_handle 0) "t" 1 2 4 tty_bm = Ret tt b' /\ is_Some (returns (open_index (empty_handle 0) "t" 1 b'))) /\
  wp (_ ← create_index 77 (empty_handle 0) "t" 1 2 4; open_index (empty_handle 0) "t" 1)
    (fun ih _ => index_header_ ih = mk_index_header 77 (-1) (4 + 8) (4092 / (8 + 4)) 0 2 4) (fun _ _ => True) tty_bm.
Proof.
  split; [eexists; split; [vm_compute; reflexivity|vm_compute; by eexists]|].
  apply (index_header_roundtrip tty_bm ∅ 77 (empty_handle 0) (empty_handle 0) "t" 1 2 4); try apply tty_io_ok;
    try (unfold INT_MIN, INT_MAX; lia).
  by apply tty_names.
Defined.

(** Every method of the handle open_index returns that needs the file is undefined:
    the reference names a local variable of open_index. *)
Theorem opened_index_dangles {U} `{Unix U} (g : file_handle) (filename : string) (no page : Z) (b b' : buffer_manager U) (ih : index_handle) :
  open_index g filename no b = Ret ih b' ->
  let s := mk_index_state U ih b' in
  index_allocate_page s = Undef dangling_deref /\ index_pin_page page s = Undef dangling_deref /\
  index_unpin_page page s = Undef dangling_deref /\ index_mark_dirty page s = Undef dangling_deref /\
  index_dispose_page page s = Undef dangling_deref /\ index_force_pages s = Undef dangling_deref /\
  close_index s = Undef dangling_deref.
Proof.
  unfold open_index, mbind at 1, M_bind at 1. destruct (open_index_body g filename no b) as [[i f] b1| | |]; try done.
  cbn. intros [= <- <-]. done.
Qed.
