(* ===== verification/TableManager.v ===== *)
(** Schemas and the table manager: src/table/schema.{h,cc} and
    src/table/table_manager.{h,cc}.  The first page of a table file holds a
    table_header and, behind it, the columns of its schema. *)
From S2P Require Import Prelude HashTable Unix BufferManager FileHandle Comparator Row Memory Storage.

(** * Schemas *)

(** A column name is the memory its char* points to. *)
Record schema := mk_schema { col_defs_ : list column_definition; col_name_to_id_ : gmap (list byte) Z }.

Definition schema_new : schema := mk_schema [] ∅.

(** std::string(name): the characters before the terminating NUL *)
Definition string_of {S} (name : list byte) : M S (list byte) :=
  n ← strlen name; mret (take (Z.to_nat n) name).

(** schema::add_column *)
Definition add_column (name : list byte) (type : column_type) (nullable : bool) : M schema unit :=
  s ← gets (fun s => s);
  let id := to_signed 32 (Z.of_nat (length (col_defs_ s))) in
  let defs := col_defs_ s ++ [mk_column_definition name type nullable] in
  key ← string_of name;
  modify (fun s => mk_schema defs (<[key := id]> (col_name_to_id_ s))).

(** * The header page of a table *)

Record table_header := mk_table_header { th_first_free : Z; th_first_page : Z; th_num_pages : Z }.

Definition table_header_bytes (h : table_header) : list byte :=
  int_bytes (th_first_free h) ++ int_bytes (th_first_page h) ++ int_bytes (th_num_pages h).
Definition table_header_of (bs : list byte) : table_header :=
  mk_table_header (bytes_int bs) (bytes_int (drop 4 bs)) (bytes_int (drop 8 bs)).

(** sizeof(table_header) *)
Definition sizeof_table_header : Z := 12.

(** One round of the loop of write_schema; the result is the new offset. *)
Definition write_column (dst offset : Z) (def : column_definition) : M (list byte) Z :=
  namelen ← strlen (cd_name def);
  let namelen := to_signed 32 namelen in
  _ ← bytes_write (dst + offset) (int_bytes namelen);
  offset ← int_of (offset + 4);
  _ ← bytes_write (dst + offset) (take (Z.to_nat namelen) (cd_name def));
  offset ← int_of (offset + namelen);
  _ ← bytes_write (dst + offset) (int_bytes (type_code (ct_type (cd_type def))));
  offset ← int_of (offset + 4);
  _ ← bytes_write (dst + offset) (le_encode 8 (ct_length (cd_type def)));
  offset ← int_of (offset + 8);
  _ ← bytes_write (dst + offset) [if cd_nullable def then Byte.x01 else Byte.x00];
  offset ← int_of (offset + 1);
  mret offset.

Fixpoint write_columns (dst offset : Z) (defs : list column_definition) : M (list byte) unit :=
  match defs with
  | [] => mret tt
  | def :: defs => offset ← write_column dst offset def; write_columns dst offset defs
  end.

(** table_manager::write_schema: the offset does not move over the size. *)
Definition write_schema (dst : Z) (s : schema) : M (list byte) unit :=
  _ ← bytes_write dst (int_bytes (Z.of_nat (length (col_defs_ s))));
  write_columns dst 0 (col_defs_ s).

(** An enum class object copied from memory. *)
Definition type_of_code (z : Z) : option data_type :=
  match z with
  | 0 => Some UNKNOWN | 1 => Some INT | 2 => Some LONG | 3 => Some FLOAT | 4 => Some DOUBLE | 5 => Some CHAR | 6 => Some VARCHAR
  | _ => None
  end.

(** One round of the loop of read_schema.  new char[len] throws for a negative
    length; the name gets no terminating NUL, so converting it to a std::string
    reads behind the array unless it holds one.  An enumerator outside data_type
    is kept as UNKNOWN, which no comparison treats as another type. *)
Definition read_column (src offset : Z) : M (list byte) (column_definition * Z * list byte) :=
  len ← bytes_read (src + offset) 4;
  let len := bytes_int len in
  offset ← int_of (offset + 4);
  if len <? 0 then throw std_exception else
  name ← bytes_read (src + offset) len;
  offset ← int_of (offset + len);
  ty ← bytes_read (src + offset) 4;
  offset ← int_of (offset + 4);
  length ← bytes_read (src + offset) 8;
  offset ← int_of (offset + 8);
  nullable ← bytes_read (src + offset) 1;
  offset ← int_of (offset + 1);
  key ← string_of name;
  let type := mk_column_type (default UNKNOWN (type_of_code (bytes_int ty))) (to_signed 64 (le_decode length)) in
  mret (mk_column_definition name type (negb (le_decode nullable =? 0)), offset, key).

(** The loop of read_schema for i .. size-1; a failed allocation or access ends it. *)
Fixpoint read_columns (n : nat) (i src offset : Z) (s : schema) : M (list byte) schema :=
  match n with
  | O => mret s
  | S n =>
      '(def, offset, key) ← read_column src offset;
      read_columns n (i + 1) src offset (mk_schema (col_defs_ s ++ [def]) (<[key := i]> (col_name_to_id_ s)))
  end.

(** table_manager::read_schema *)
Definition read_schema (src : Z) (s : schema) : M (list byte) schema :=
  size ← bytes_read src 4;
  read_columns (Z.to_nat (bytes_int size)) 0 src 4 s.

(** * The manager *)

(** header_changed_ and file_is_open_ are never initialised. *)
Record table_handle := mk_table_handle {
  tb_header_changed_ : bool;
  tb_file_is_open_ : bool;
  schema_ : schema;
  table_header_ : table_header;
  tb_file_handle_ : option file_handle;     (* a reference; None when the object is gone *)
}.

(** table_handle::table_handle(fh, header) *)
Definition table_handle_new (changed is_open : bool) (fh : file_handle) (header : table_header) : table_handle :=
  mk_table_handle changed is_open schema_new header (Some fh).

(** The handle and the buffer manager behind its file. *)
Record table_state {U : Type} := mk_table_state { ts_handle : table_handle; ts_bm : buffer_manager U }.
Arguments table_state : clear implicits.

Section operations.
Context {U : Type} `{Unix U}.

(** table_manager::create_table; [first_page] is the uninitialised member of the header. *)
Definition create_table (first_page : Z) (garbage : file_handle) (filename : string) (s : schema) : M (buffer_manager U) unit :=
  _ ← create_file filename;
  fh ← open_file garbage filename;
  _ ← with_handle fh
    (header_page ← file_allocate_page;
     let page := page_ header_page in
     _ ← on_data header_page
       (_ ← bytes_write 0 (table_header_bytes (mk_table_header (-1) first_page 1));
        write_schema sizeof_table_header s);
     _ ← file_mark_dirty page;
     _ ← file_unpin_page page;
     close_file);
  mret tt.

(** table_manager::open_table; the reference of the handle dangles on return. *)
Definition open_table (changed is_open : bool) (garbage : file_handle) (filename : string) : M (buffer_manager U) table_handle :=
  fh ← open_file garbage filename;
  '(th, _) ← with_handle fh
    (ph ← get_this_page 0;
     '(header, s) ← on_data ph
       (bs ← bytes_read 0 sizeof_table_header;
        s ← read_schema sizeof_table_header schema_new;
        mret (table_header_of bs, s));
     _ ← file_unpin_page 0;
     mret (mk_table_handle changed is_open s header None));
  mret th.

(** A call through a copy of the file handle, as close_table makes. *)
Definition on_file_copy {A} (x : M (file_state U) A) : M (table_state U) A := fun s =>
  match tb_file_handle_ (ts_handle s) with
  | None => Undef dangling_deref
  | Some f =>
      match x (mk_file_state U f (ts_bm s)) with
      | Ret a t => Ret a (mk_table_state U (ts_handle s) (fs_bm t))
      | Exc e t => Exc e (mk_table_state U (ts_handle s) (fs_bm t))
      | Undef r => Undef r
      | Blocked => Blocked
      end
  end.

(** table_manager::close_table: the file stays open. *)
Definition close_table : M (table_state U) unit :=
  th ← gets ts_handle;
  on_file_copy
    (ph ← get_this_page 0;
     _ ← on_data ph (bytes_write 0 (table_header_bytes (table_header_ th)));
     _ ← file_mark_dirty 0;
     _ ← file_unpin_page 0;
     file_force_page ALL_PAGES).

(** table_manager::destroy_table *)
Definition destroy_table (filename : string) : M (buffer_manager U) unit := destroy_file filename.
End operations.

(** * The layout of a written schema *)

(** Neighbouring writes are one write. *)
Lemma splice_app {A} (l : list A) off a b :
  (off + length a + length b <= length l)%nat -> splice (splice l off a) (off + length a) b = splice l off (a ++ b).
Proof.
  intros Hl. assert (length (take off l) = off) as Ht by (rewrite length_take; lia). unfold splice.
  assert (take (off + length a) (take off l ++ a ++ drop (off + length a) l) = take off l ++ a) as ->.
  { rewrite app_assoc. rewrite take_app_length'; [done|]. by rewrite length_app, Ht. }
  assert (drop (off + length a + length b) (take off l ++ a ++ drop (off + length a) l) = drop (off + length (a ++ b)) l) as ->.
  { rewrite app_assoc, drop_app_ge by (rewrite length_app, Ht; lia). rewrite drop_drop, !length_app, Ht. f_equal. lia. }
  by rewrite <-!app_assoc.
Qed.

(** A later write over an earlier one. *)
Lemma splice_over {A} (l : list A) off a b :
  (length a <= length b)%nat -> (off + length b <= length l)%nat -> splice (splice l off a) off b = splice l off b.
Proof.
  intros Hab Hl. unfold splice. assert (length (take off l) = off) as Ht by (rewrite length_take; lia).
  rewrite take_app_length' by done. do 2 f_equal.
  rewrite app_assoc, drop_app_ge by (rewrite length_app, Ht; lia). rewrite drop_drop, length_app, Ht. f_equal. lia.
Qed.

Definition col_named (def : column_definition) (name : list byte) : Prop :=
  exists rest, cd_name def = name ++ Byte.x00 :: rest /\ (Byte.x00 ∉ name).

(** The bytes of a column. *)
Definition column_bytes (def : column_definition) (name : list byte) : list byte :=
  int_bytes (Z.of_nat (length name)) ++ name ++ int_bytes (type_code (ct_type (cd_type def))) ++
  le_encode 8 (ct_length (cd_type def)) ++ [if cd_nullable def then Byte.x01 else Byte.x00].

Lemma length_column_bytes def name : length (column_bytes def name) = (17 + length name)%nat.
Proof. unfold column_bytes. rewrite !length_app, !length_int_bytes, length_le_encode. cbn [length]. lia. Qed.

(** Storing the next piece of a column and moving the offset over it. *)
Lemma wp_write_piece {A} d0 base (done : list byte) dst offset n bs (k : Z -> M (list byte) A) Q E :
  0 <= base -> dst + offset = base + Z.of_nat (length done) -> n = Z.of_nat (length bs) -> 0 <= offset -> 0 <= dst ->
  base + Z.of_nat (length (done ++ bs)) <= Z.of_nat (length d0) <= INT_MAX ->
  wp (k (offset + n)) Q E (splice d0 (Z.to_nat base) (done ++ bs)) ->
  wp (_ ← bytes_write (dst + offset) bs; o ← int_of (offset + n); k o) Q E (splice d0 (Z.to_nat base) done).
Proof.
  intros Hb Hpos -> Ho Hdst Hfit Hk. rewrite length_app in Hfit. apply wp_bind. apply wp_bytes_write; [lia|rewrite length_splice by lia; lia|].
  apply wp_bind, wp_int_of; [unfold INT_MIN in *; lia|].
  replace (Z.to_nat (dst + offset)) with (Z.to_nat base + length done)%nat by lia. by rewrite splice_app by lia.
Qed.

Ltac piece_len := rewrite ?length_app, ?length_int_bytes, ?length_le_encode; cbn [length]; lia.

Lemma wp_write_column dst offset def name d (Q : Z -> list byte -> Prop) E :
  col_named def name -> 0 <= dst -> 0 <= offset ->
  dst + offset + 17 + Z.of_nat (length name) <= Z.of_nat (length d) <= INT_MAX ->
  Q (offset + 17 + Z.of_nat (length name)) (splice d (Z.to_nat (dst + offset)) (column_bytes def name)) ->
  wp (write_column dst offset def) Q E d.
Proof.
  intros (rest & Hname & Hnul) Hdst Hoff Hfit HQ. unfold write_column. apply wp_bind. unfold wp at 1. rewrite Hname, strlen_spec by done.
  rewrite to_signed_id by (unfold INT_MAX in *; lia).
  assert (take (Z.to_nat (Z.of_nat (length name))) (name ++ Byte.x00 :: rest) = name) as ->.
  { rewrite Nat2Z.id. apply take_app_length. }
  assert (d = splice d (Z.to_nat (dst + offset)) []) as Hd.
  { unfold splice. cbn. by rewrite Nat.add_0_r, take_drop. }
  assert (exists base, base = dst + offset) as [base Hbase] by eauto. rewrite <-Hbase in Hd, Hfit, HQ. rewrite Hd. clear Hd. unfold column_bytes in HQ.
  do 5 (eapply (wp_write_piece d base); [lia|piece_len|piece_len|lia|lia|piece_len|]; rewrite <-?app_assoc).
  wp_steps. replace (offset + 17 + Z.of_nat (length name)) with (offset + 4 + Z.of_nat (length name) + 4 + 8 + 1) in HQ by lia.
  exact HQ.
Qed.

Lemma wp_write_columns dst offset defs names d (Q : unit -> list byte -> Prop) E :
  Forall2 col_named defs names -> 0 <= dst -> 0 <= offset ->
  let bs := concat (zip_with column_bytes defs names) in
  dst + offset + Z.of_nat (length bs) <= Z.of_nat (length d) <= INT_MAX ->
  Q tt (splice d (Z.to_nat (dst + offset)) bs) ->
  wp (write_columns dst offset defs) Q E d.
Proof.
  intros Hn Hdst. revert offset d. induction Hn as [|def name defs names Hdef Hn IH]; intros offset d Hoff bs Hfit HQ; subst bs; cbn [zip_with concat write_columns] in *.
  - wp_steps. unfold splice in HQ. cbn [length app] in HQ. by rewrite Nat.add_0_r, take_drop in HQ.
  - rewrite length_app, length_column_bytes in Hfit. apply wp_bind. eapply wp_write_column; [done|lia|lia|lia|].
    apply IH; [lia|rewrite length_splice by (rewrite length_column_bytes; lia); lia|].
    replace (Z.to_nat (dst + (offset + 17 + Z.of_nat (length name))))
      with (Z.to_nat (dst + offset) + length (column_bytes def name))%nat by (rewrite length_column_bytes; lia).
    by rewrite splice_app by (rewrite length_column_bytes; lia).
Qed.

(** What write_schema leaves: the columns side by side; the size is overwritten. *)
Definition schema_bytes (defs : list column_definition) (names : list (list byte)) : list byte :=
  match defs with [] => int_bytes 0 | _ => concat (zip_with column_bytes defs names) end.

Lemma wp_write_schema dst s names d (Q : unit -> list byte -> Prop) E :
  Forall2 col_named (col_defs_ s) names -> 0 <= dst ->
  let bs := schema_bytes (col_defs_ s) names in
  dst + Z.of_nat (length bs) <= Z.of_nat (length d) <= INT_MAX ->
  Q tt (splice d (Z.to_nat dst) bs) ->
  wp (write_schema dst s) Q E d.
Proof.
  intros Hn Hdst bs Hfit HQ. unfold write_schema. apply wp_bind.
  assert (4 <= length bs)%nat as H4.
  { subst bs. unfold schema_bytes. destruct Hn; [done|]. cbn [zip_with concat]. rewrite length_app, length_column_bytes. lia. }
  apply wp_bytes_write; [lia|rewrite length_int_bytes; lia|].
  destruct (col_defs_ s) as [|def defs] eqn:E'; [by wp_steps|].
  apply (wp_write_columns dst 0 (def :: defs) names); [done|lia|lia|rewrite length_splice by (rewrite length_int_bytes; lia); rewrite Z.add_0_r; done|].
  rewrite Z.add_0_r, splice_over; [done|by rewrite length_int_bytes|]. change (concat _) with bs. lia.
Qed.

(** ** Reading it back *)

Lemma bytes_int_ascii4 a b c d rest :
  1 <= byte_to_Z d < 128 -> 2 ^ 24 <= bytes_int (a :: b :: c :: d :: rest) < 2 ^ 31.
Proof.
  intros Hd. pose proof (byte_to_Z_range a). pose proof (byte_to_Z_range b). pose proof (byte_to_Z_range c).
  unfold bytes_int. cbn [take le_decode]. change (2 ^ 24) with 16777216. change (2 ^ 31) with 2147483648.
  rewrite take_0. cbn [le_decode]. rewrite to_signed_id; [lia|lia|]. change (2 ^ (32 - 1)) with 2147483648. lia.
Qed.

(** A length that reaches behind the page. *)
Lemma read_column_overrun src offset d z :
  0 <= src -> 0 <= offset < 2 ^ 30 -> src + offset + 4 <= Z.of_nat (length d) ->
  bytes_int (take 4 (drop (Z.to_nat (src + offset)) d)) = z -> Z.of_nat (length d) < z ->
  read_column src offset d = Undef out_of_bounds.
Proof.
  intros Hs Ho Hl Hz Hlong. unfold read_column, mbind, M_bind, bytes_read.
  rewrite mem_read_ok by (apply in_mem_true; lia). unfold mem_slice. rewrite Z.sub_0_r. change (Z.to_nat 4) with 4%nat. rewrite Hz.
  unfold int_of, int_ok, INT_MIN, INT_MAX. rewrite (proj2 (Z.leb_le _ _)), (proj2 (Z.leb_le _ _)) by lia. cbn [andb].
  unfold mret at 1, M_ret at 1. rewrite (proj2 (Z.ltb_ge z 0)) by lia. unfold mem_read at 1, mbind, M_bind, gets.
  unfold in_mem at 1. rewrite (proj2 (Z.leb_gt (src + (offset + 4) + z) _)) by lia. by rewrite andb_false_r.
Qed.

(** A new table page behind the header: what create_table writes for a schema. *)
Definition table_payload (h : table_header) (bs : list byte) : list byte :=
  splice (splice zero_payload 0 (table_header_bytes h)) (Z.to_nat sizeof_table_header) bs.

Lemma length_zero_payload : length zero_payload = payload_size.
Proof. apply length_replicate. Qed.

Lemma length_table_payload h bs : (12 + length bs <= payload_size)%nat -> length (table_payload h bs) = payload_size.
Proof.
  intros Hl. unfold table_payload, sizeof_table_header. change (Z.to_nat 12) with 12%nat.
  assert (length (splice zero_payload 0 (table_header_bytes h)) = payload_size) as Hs.
  { rewrite length_splice; [apply length_zero_payload|]. rewrite length_zero_payload. change (length (table_header_bytes h)) with 12%nat. lia. }
  rewrite length_splice; [done|]. by rewrite Hs.
Qed.

Lemma table_payload_header h bs : (12 + length bs <= payload_size)%nat -> take 12 (table_payload h bs) = table_header_bytes h.
Proof.
  intros Hl. unfold table_payload, sizeof_table_header. change (Z.to_nat 12) with 12%nat.
  assert (length (splice zero_payload 0 (table_header_bytes h)) = payload_size) as Hs.
  { rewrite length_splice; [apply length_zero_payload|]. rewrite length_zero_payload. change (length (table_header_bytes h)) with 12%nat. lia. }
  rewrite <-(drop_0 (splice _ 12 bs)). rewrite splice_take_before by (rewrite Hs; lia).
  change 12%nat with (length (table_header_bytes h)). apply splice_same. lia.
Qed.

Definition table_header_in_range (h : table_header) : Prop :=
  Forall (fun z => INT_MIN <= z <= INT_MAX) [th_first_free h; th_first_page h; th_num_pages h].

Lemma table_header_decode h : table_header_in_range h -> table_header_of (table_header_bytes h) = h.
Proof.
  unfold table_header_in_range. rewrite !Forall_cons. intros (H0 & H1 & H2 & _). unfold table_header_of, table_header_bytes.
  rewrite bytes_int_bytes by done. rewrite drop_app_length' by done. rewrite bytes_int_bytes by done.
  rewrite app_assoc, drop_app_length' by done. rewrite <-(app_nil_r (int_bytes (th_num_pages h))), bytes_int_bytes by done. by destruct h.
Qed.

Section table_file.
Context {U : Type} `{UnixNameLaws U, !UnixLaws U}.
Implicit Types (b : buffer_manager U) (m : gmap (Z * Z) Z).

Lemma wp_create_table b m fp g filename s names_ (Q : unit -> buffer_manager U -> Prop) E :
  io_ok b m -> fds_open b -> pins_le (INT_MAX - 2) b -> (forall fd, names b !! fd <> Some filename) ->
  Forall2 col_named (col_defs_ s) names_ -> (12 + length (schema_bytes (col_defs_ s) names_) <= payload_size)%nat ->
  (forall b' m', io_ok b' m' -> names b' = names b -> pins_le (INT_MAX - 1) b' ->
     closed_file filename (table_payload (mk_table_header (-1) fp 1) (schema_bytes (col_defs_ s) names_)) (bm_sys b') -> Q tt b') ->
  (forall x b', E x b') ->
  wp (create_table fp g filename s) Q E b.
Proof.
  intros I Hfo Hp Hname Hcols Hfit HQ HE. unfold create_table. apply (wp_create_open b m); [done..| |done].
  intros fd u Hfd Hnew Hn I1. apply wp_bind, wp_with_handle, wp_bind.
  eapply (wp_alloc_first (names b) filename fd _ m); [done|done|done|exact Hn|done|exact Hfo| |intros; apply HE].
  intros h b1 m1 slot e FO. cbn [page_]. apply wp_bind.
  eapply wp_on_data; [apply FO|]. rewrite (ff_data _ _ _ _ _ _ _ _ FO). unfold fresh_page.
  rewrite drop_app_length', take_app_length' by (by rewrite length_int_bytes).
  change (replicate (Z.to_nat DEFAULT_PAGE_SIZE - page_header_size) Byte.x00) with zero_payload.
  set (hb := table_header_bytes _). assert (length hb = 12%nat) as Hhb by done.
  apply wp_bind, wp_bytes_write; [done|rewrite Hhb, length_zero_payload; unfold payload_size, DEFAULT_PAGE_SIZE, page_header_size; lia|].
  change (Z.to_nat 0) with 0%nat.
  assert (length (splice zero_payload 0 hb) = payload_size) as Hs.
  { rewrite length_splice; [apply length_zero_payload|]. rewrite Hhb, length_zero_payload. lia. }
  eapply wp_write_schema; [exact Hcols|done|rewrite Hs; unfold sizeof_table_header, payload_size, INT_MAX, DEFAULT_PAGE_SIZE, page_header_size in *; lia|].
  change (int_bytes PAGE_USED ++ splice (splice zero_payload 0 hb) (Z.to_nat sizeof_table_header) (schema_bytes (col_defs_ s) names_))
    with (page_image (table_payload (mk_table_header (-1) fp 1) (schema_bytes (col_defs_ s) names_))).
  eapply wp_close_first; [exact FO|done|by apply length_table_payload| |intros; apply HE].
  intros h' b' m' I' Hn' Hp' Hc. wp_steps. by apply (HQ b' m').
Qed.

(** A table without columns is read back. *)
Lemma wp_open_empty_table b m c o g filename h (Q : table_handle -> buffer_manager U -> Prop) E :
  io_ok b m -> pins_le (INT_MAX - 1) b -> (forall fd, names b !! fd <> Some filename) ->
  closed_file filename (table_payload h (int_bytes 0)) (bm_sys b) -> table_header_in_range h ->
  (forall b', Q (mk_table_handle c o schema_new h None) b') -> (forall x b', E x b') ->
  wp (open_table c o g filename) Q E b.
Proof.
  intros I Hp Hname Hc Hr HQ HE. unfold open_table.
  assert (12 + length (int_bytes 0) <= payload_size)%nat as Hfit by (rewrite length_int_bytes; unfold payload_size, DEFAULT_PAGE_SIZE, page_header_size; lia).
  apply (wp_open_first b m g _ (table_payload h (int_bytes 0))); [done..| |done]. intros fh b1 F1 Hp1 Hv1.
  apply wp_bind, wp_with_handle. eapply wp_first_page; [done..| |intros; apply HE].
  intros slot b2 m2 e F2 Hp2 Hm2 He Hd Hpe. apply wp_bind. eapply wp_on_data; [done|]. rewrite Hd. unfold page_image.
  rewrite drop_app_length', take_app_length' by (by rewrite length_int_bytes).
  set (d := table_payload h (int_bytes 0)) in *. pose proof (length_table_payload h (int_bytes 0) Hfit) as Hld. fold d in Hld.
  assert (16 <= Z.of_nat (length d)) as H16 by (rewrite Hld; unfold payload_size, DEFAULT_PAGE_SIZE, page_header_size; lia).
  apply wp_bind, wp_bytes_read; [done|done|unfold sizeof_table_header; lia|].
  apply wp_bind. unfold read_schema. apply wp_bind, wp_bytes_read; [done|done|unfold sizeof_table_header; lia|].
  assert (take (Z.to_nat 4) (drop (Z.to_nat sizeof_table_header) d) = int_bytes 0) as ->.
  { unfold d, table_payload, sizeof_table_header. change (Z.to_nat 4) with (length (int_bytes 0)).
    apply splice_same. rewrite length_splice; [|change (length (table_header_bytes h)) with 12%nat]; rewrite length_zero_payload; lia. }
  change (Z.to_nat (bytes_int (int_bytes 0))) with 0%nat. cbn [read_columns]. wp_steps.
  change (Z.to_nat 0) with 0%nat. change (Z.to_nat sizeof_table_header) with 12%nat.
  rewrite drop_0. unfold d at 1. rewrite table_payload_header, table_header_decode by done.
  assert (set_entry slot (set_data (int_bytes PAGE_USED ++ d) e) b2 = b2) as Hsame.
  { fold (page_image d). rewrite <-Hd. by apply set_entry_same. }
  rewrite Hsame.
  assert (0 <= 0 < page_num (header_ fh)) as Hpg by (pose proof (fo_cached _ _ _ _ F2 _ _ Hm2); lia).
  eapply (wp_file_unpin fh b2 m2); [apply F2|apply F2|apply F2|done..|]. intros b3 _ _ _ _. wp_steps. apply HQ.
Qed.
End table_file.

(** * Properties *)

(** write_schema stores the columns side by side from its pointer on (length of
    the name, name, type, length, nullable flag) and touches no other byte, whenever
    they fit; the number of columns survives only for the empty schema, because the
    first column is written over it. *)
Theorem write_schema_layout (dst : Z) (s : schema) (names : list (list byte)) (d : list byte) :
  Forall2 col_named (col_defs_ s) names -> 0 <= dst ->
  dst + Z.of_nat (length (schema_bytes (col_defs_ s) names)) <= Z.of_nat (length d) <= INT_MAX ->
  write_schema dst s d = Ret tt (splice d (Z.to_nat dst) (schema_bytes (col_defs_ s) names)).
Proof.
  intros Hn Hdst Hfit. pose proof (wp_write_schema dst s names d (fun _ d' => d' = splice d (Z.to_nat dst) (schema_bytes (col_defs_ s) names))
    (fun _ _ => False) Hn Hdst Hfit eq_refl) as Hw. by apply wp_no_exn in Hw as ([] & d' & Hr & ->).
Qed.

(** A column called name. *)
Definition name_column : column_definition :=
  mk_column_definition [Byte.x6e; Byte.x61; Byte.x6d; Byte.x65; Byte.x00] (mk_column_type VARCHAR 20) true.
Definition name_bytes : list byte := [Byte.x6e; Byte.x61; Byte.x6d; Byte.x65].

Lemma name_column_named : Forall2 col_named [name_column] [name_bytes].
Proof. repeat constructor. exists []. split; [done|]. unfold name_bytes. rewrite !not_elem_of_cons. split_and!; try done. apply not_elem_of_nil. Qed.

Lemma write_schema_layout_witness :
  write_schema 12 (mk_schema [name_column] ∅) (replicate 100 Byte.x00) =
  Ret tt (splice (replicate 100 Byte.x00) 12 (schema_bytes [name_column] [name_bytes])).
Proof.
  apply (write_schema_layout 12 (mk_schema [name_column] ∅) [name_bytes] (replicate 100 Byte.x00));
    [apply name_column_named|lia|vm_compute; split; discriminate].
Defined.

(** A table without columns survives: create_table followed by open_table is
    never undefined, and when neither throws it yields a handle with the stored
    header (first_page as left uninitialised) and the empty schema. *)
Theorem empty_table_roundtrip {U} `{UnixNameLaws U, !UnixLaws U} (b : buffer_manager U) (m : gmap (Z * Z) Z)
    (fp : Z) (g1 g2 : file_handle) (c o : bool) (filename : string) (ids : gmap (list byte) Z) :
  io_ok b m -> fds_open b -> pins_le (INT_MAX - 2) b -> (forall fd, names b !! fd <> Some filename) ->
  INT_MIN <= fp <= INT_MAX ->
  wp (_ ← create_table fp g1 filename (mk_schema [] ids); open_table c o g2 filename)
    (fun th _ => table_header_ th = mk_table_header (-1) fp 1 /\ schema_ th = schema_new) (fun _ _ => True) b.
Proof.
  intros I Hfo Hp Hname Hfp. apply wp_bind.
  eapply (wp_create_table b m fp g1 filename (mk_schema [] ids) []); [done..| | |done]; cbn [col_defs_ schema_bytes].
  { rewrite length_int_bytes. unfold payload_size, DEFAULT_PAGE_SIZE, page_header_size. lia. }
  intros b' m' I' Hn' Hp' Hc. eapply (wp_open_empty_table b' m'); [done|done|by rewrite Hn'|exact Hc| |done|done].
  repeat (apply Forall_cons; split); cbn; try done; unfold INT_MIN, INT_MAX; lia.
Qed.

Lemma empty_table_roundtrip_witness :
  (exists b', create_table 5 (empty_handle 0) "t" schema_new tty_bm = Ret tt b' /\
     is_Some (returns (open_table false false (empty_handle 0) "t" b'))) /\
  wp (_ ← create_table 5 (empty_handle 0) "t" schema_new; open_table false false (empty_handle 0) "t")
    (fun th _ => table_header_ th = mk_table_header (-1) 5 1 /\ schema_ th = schema_new) (fun _ _ => True) tty_bm.
Proof.
  split; [eexists; split; [vm_compute; reflexivity|vm_compute; by eexists]|].
  apply (empty_table_roundtrip tty_bm ∅ 5 (empty_handle 0) (empty_handle 0) false false "t" ∅); try apply tty_io_ok;
    try (unfold INT_MIN, INT_MAX; lia). apply (tty_names "t"). done.
Defined.

(** A schema with columns cannot be read back: when write_schema has stored a
    schema whose first column has a name of at least four ASCII characters,
    read_schema takes the length of that name for the number of columns and its
    first characters for the length of a name, and reads behind the page. *)
Theorem written_schema_unreadable (dst : Z) (s s0 : schema) (names : list (list byte)) (d d' : list byte)
    (a b c e : byte) (rest : list byte) (def : column_definition) (defs : list column_definition) :
  Forall2 col_named (col_defs_ s) names -> col_defs_ s = def :: defs -> head names = Some (a :: b :: c :: e :: rest) ->
  1 <= byte_to_Z e < 128 -> 0 <= dst ->
  dst + Z.of_nat (length (schema_bytes (col_defs_ s) names)) <= Z.of_nat (length d) <= DEFAULT_PAGE_SIZE ->
  write_schema dst s d = Ret tt d' -> read_schema dst s0 d' = Undef out_of_bounds.
Proof.
  intros Hn Hs Hhead He Hdst Hfit Hw.
  assert (Z.of_nat (length d) <= INT_MAX) as Hmax by (unfold DEFAULT_PAGE_SIZE, INT_MAX in *; lia).
  pose proof (wp_write_schema dst s names d (fun _ x => x = splice d (Z.to_nat dst) (schema_bytes (col_defs_ s) names))
    (fun _ _ => False) Hn Hdst ltac:(lia) eq_refl) as Hw'. rewrite (wp_returns _ _ _ _ _ _ Hw' Hw). clear Hw Hw'.
  rewrite Hs in *. destruct names as [|nm names]; [done|]. cbn in Hhead. injection Hhead as ->.
  set (name := a :: b :: c :: e :: rest) in *. cbn [schema_bytes zip_with concat] in *.
  set (tail := concat _) in *. unfold column_bytes in *. rewrite <-!app_assoc in *.
  set (after := int_bytes (type_code _) ++ _) in *. set (bs := int_bytes _ ++ name ++ after) in *.
  assert (length bs = 4 + length name + length after)%nat as Hlb by (unfold bs; rewrite !length_app, length_int_bytes; lia).
  assert (1 <= length after)%nat as Hla by (unfold after; rewrite !length_app, length_int_bytes; lia).
  assert (length (splice d (Z.to_nat dst) bs) = length d) as Hls by (apply length_splice; lia).
  assert (length name = 4 + length rest)%nat as Hlname by done.
  unfold read_schema, mbind at 1, M_bind at 1, bytes_read at 1. rewrite mem_read_ok by (apply in_mem_true; lia).
  unfold mem_slice. rewrite Z.sub_0_r. change (Z.to_nat 4) with 4%nat.
  rewrite splice_take_prefix by lia. assert (take 4 bs = int_bytes (Z.of_nat (length name))) as ->.
  { unfold bs. by rewrite take_app_length' by (by rewrite length_int_bytes). }
  rewrite <-(app_nil_r (int_bytes _)), bytes_int_bytes by (unfold INT_MIN, INT_MAX, DEFAULT_PAGE_SIZE in *; lia).
  rewrite Nat2Z.id, Hlname. cbn [Nat.add read_columns]. unfold mbind at 1, M_bind at 1.
  erewrite (read_column_overrun dst 4); [done|lia|lia|lia|reflexivity|].
  rewrite Hls. replace (Z.to_nat (dst + 4)) with (Z.to_nat dst + 4)%nat by lia.
  assert (take 4 (drop (Z.to_nat dst + 4) (splice d (Z.to_nat dst) bs)) = [a; b; c; e]) as ->.
  { rewrite <-drop_drop. unfold splice. rewrite drop_app_length' by (rewrite length_take; lia).
    unfold bs. rewrite <-!app_assoc, drop_app_length' by (by rewrite length_int_bytes). done. }
  pose proof (bytes_int_ascii4 a b c e [] He). unfold DEFAULT_PAGE_SIZE in *. lia.
Qed.

Lemma written_schema_unreadable_witness :
  exists d', write_schema 12 (mk_schema [name_column] ∅) (replicate 100 Byte.x00) = Ret tt d' /\
    read_schema 12 schema_new d' = Undef out_of_bounds.
Proof.
  eexists. split; [vm_compute; reflexivity|].
  eapply (written_schema_unreadable 12 (mk_schema [name_column] ∅) schema_new [name_bytes] (replicate 100 Byte.x00));
    [apply name_column_named|reflexivity|reflexivity|vm_compute; split; [discriminate|reflexivity]|lia|vm_compute; split; discriminate|vm_compute; reflexivity].
Defined.
