(* ===== verification/TableHandle.v ===== *)
(** Records, open tables and table scans: src/table/record.{h,cc},
    src/table/table_handle.{h,cc} and src/table/table_iterator.{h,cc}. *)
From S2P Require Import Prelude HashTable Unix BufferManager FileHandle Comparator Row Rid Memory TableFormat Storage TableManager.

(** * Records *)

(** data_ points to an array of its own, or is nullptr. *)
Record record := mk_record { rec_rid : rid; rec_size : Z; rec_data : option (list byte) }.

(** record::record *)
Definition record_new : record := mk_record rid_null (-1) None.

(** record::set: an array is allocated once and kept; the size is not checked
    against it.  new char[size] throws for a negative size. *)
Definition record_set (data : cptr) (size : Z) (id : rid) : M record unit :=
  _ ← modify (fun r => mk_record id size (rec_data r));
  r ← gets (fun r => r);
  arr ← match rec_data r with
        | Some a => mret a
        | None => if size <? 0 then throw std_exception else mret (replicate (Z.to_nat size) Byte.x00)
        end;
  if (0 <=? size) && (size <=? Z.of_nat (length arr)) && (size <=? Z.of_nat (length (pointee data))) then
    modify (fun r => mk_record (rec_rid r) (rec_size r)
                       (Some (take (Z.to_nat size) (pointee data) ++ drop (Z.to_nat size) arr)))
  else undef out_of_bounds.

(** * The handle *)

(** table_handle::table_handle(const table_handle&): the copy has an empty schema. *)
Definition table_handle_copy (h : table_handle) : table_handle :=
  mk_table_handle (tb_header_changed_ h) (tb_file_is_open_ h) schema_new (table_header_ h) (tb_file_handle_ h).

(** table_handle::operator=: assigning to the reference assigns the file handle it
    names; the schema stays. *)
Definition table_handle_assign (same_object : bool) (this h : table_handle) : table_handle :=
  if same_object then this
  else mk_table_handle (tb_header_changed_ h) (tb_file_is_open_ h) (schema_ this) (table_header_ h) (tb_file_handle_ h).

Section operations.
Context {U : Type} `{Unix U}.
(** Where the pool keeps the bytes of a slot. *)
Context (addr : Z -> Z).

(** A call through file_handle_ *)
Definition in_table_file {A} (x : M (file_state U) A) : M (table_state U) A := fun s =>
  match tb_file_handle_ (ts_handle s) with
  | None => Undef dangling_deref
  | Some f =>
      let back (t : file_state U) :=
        let h := ts_handle s in
        mk_table_state U (mk_table_handle (tb_header_changed_ h) (tb_file_is_open_ h) (schema_ h) (table_header_ h) (Some (fs_handle t))) (fs_bm t) in
      match x (mk_file_state U f (ts_bm s)) with
      | Ret a t => Ret a (back t)
      | Exc e t => Exc e (back t)
      | Undef r => Undef r
      | Blocked => Blocked
      end
  end.

(** A table_format made for a page, and [x] run on it.  Its constructor leaves hdr,
    offsets and cmptr as they are in memory ([garbage]); the object dies with its
    header, only the bytes of the page stay. *)
Definition page_format (slot : Z) (off : nat) (data : list byte) (garbage : table_format) : table_format :=
  table_format_new (addr slot + Z.of_nat off)
    (mk_table_format (thdr garbage) (tbase garbage) (tend garbage) (offsets garbage) (tcmptr garbage) (addr slot) data).

Definition with_format {A} (ph : page_handle) (garbage : table_format) (x : M table_format A) : M (file_state U) A :=
  '(slot, off) ← of_option null_deref (data_ ph);
  zoom fs_bm set_bm
    (_ ← pool_get slot;
     zoom (fun b => page_format slot off (payload slot 0 b) garbage) (fun t => set_payload slot 0 (tbuf t)) x).

(** table_format::get into a tuple whose pointer was never set: [t] is the tuple before. *)
Definition get_into (ptr : Z) (t : tuple_t) : M table_format tuple_t :=
  r ← table_get ptr;
  match r with
  | None => mret t
  | Some bs =>
      if decide (length bs <= length (pointee t.1))%nat
      then mret (mk_cptr (address t.1) (bs ++ drop (length bs) (pointee t.1)), Z.of_nat (length bs))
      else undef out_of_bounds
  end.

(** slot_ptr_t(slot) *)
Definition slot_ptr (slot : Z) : Z := uint16 slot.

(** Running record::set on a local record. *)
Definition make_record (t : tuple_t) (id : rid) : M (file_state U) record := fun s =>
  match record_set t.1 t.2 id record_new with
  | Ret _ r => Ret r s
  | Exc e _ => Exc e s
  | Undef r => Undef r
  | Blocked => Blocked
  end.

(** table_handle::get_record; [g] and [t] are the uninitialised format and tuple. *)
Definition get_record (g : table_format) (t : tuple_t) (id : rid) : M (table_state U) record :=
  in_table_file
    (ph ← get_this_page (rid_page id);
     t ← with_format ph g (get_into (slot_ptr (rid_slot id)) t);
     r ← make_record t id;
     _ ← file_unpin_page (page_ ph);
     mret r).

(** The while loop of get_next_free with [n] seeks left; [hdrs n] is the
    uninitialised header of the format made in that round. *)
Fixpoint next_free_loop (n : nat) (hdrs : nat -> table_page_hdr) (e need : Z) : M (file_state U) (option Z) :=
  if 0 <? e then
    match n with
    | O => mret None
    | S n =>
        _ ← get_this_page e;
        space ← int_of (free_upper (hdrs n) - free_lower (hdrs n));
        if need <? space then mret (Some e) else next_free_loop n hdrs (next_free (hdrs n)) need
    end
  else mret None.

(** table_handle::get_next_free: after three pages a new one is allocated. *)
Definition get_next_free (hdrs : nat -> table_page_hdr) (need : Z) : M (table_state U) Z :=
  first ← gets (fun s => th_first_free (table_header_ (ts_handle s)));
  in_table_file
    (r ← next_free_loop 3 hdrs first need;
     match r with
     | Some e => mret e
     | None => ph ← file_allocate_page; mret (page_ ph)
     end).

(** table_handle::insert_record *)
Definition insert_record (hdrs : nat -> table_page_hdr) (g : table_format) (data : cptr) (len : Z) : M (table_state U) rid :=
  nextfree ← get_next_free hdrs len;
  in_table_file
    (ph ← get_this_page nextfree;
     slot ← with_format ph g (table_put (data, len));
     _ ← file_unpin_page (page_ ph);
     mret (mk_rid (page_ ph) slot)).

(** table_handle::delete_record *)
Definition delete_record (g : table_format) (id : rid) : M (table_state U) bool :=
  in_table_file
    (ph ← get_this_page (rid_page id);
     ret ← with_format ph g (table_format_remove (slot_ptr (rid_slot id)));
     _ ← file_unpin_page (page_ ph);
     mret ret).

(** table_handle::update_record: nothing is returned behind the insertion. *)
Definition update_record (hdrs : nat -> table_page_hdr) (g1 g2 : table_format) (r : record) : M (table_state U) bool :=
  ok ← delete_record g1 (rec_rid r);
  if negb ok then mret false
  else
    _ ← insert_record hdrs g2 (mk_cptr 0 (default [] (rec_data r))) (rec_size r);
    undef missing_return.
End operations.

(** * Scans *)

(** tbl_handle_ is a copy of the handle the scan is made for. *)
Record table_iterator {U : Type} := mk_table_iterator { ti_now : rid; ti_table : table_state U; ti_criterions : list criterion }.
Arguments table_iterator : clear implicits.

Section iterator.
Context {U : Type} `{Unix U}.
Context (addr : Z -> Z).
(** operator== on column definitions is declared and not defined; a decoded text
    lies at an address of its own. *)
Context (coldef_eq : column_definition -> column_definition -> bool) (text_addr : list byte -> Z).

Definition set_now (id : rid) (i : table_iterator U) : table_iterator U := mk_table_iterator U id (ti_table i) (ti_criterions i).

(** table_iterator::table_iterator *)
Definition table_iterator_new (s : table_state U) (cs : list criterion) : table_iterator U :=
  mk_table_iterator U (mk_rid (th_first_page (table_header_ (ts_handle s))) 0)
    (mk_table_state U (table_handle_copy (ts_handle s)) (ts_bm s)) cs.

(** table_iterator::begin, end and reset *)
Definition iterator_begin : M (table_iterator U) rid := _ ← modify (set_now (mk_rid (-1) (-1))); mret (mk_rid (-1) (-1)).
Definition iterator_end : rid := mk_rid (-1) (-1).
Definition iterator_reset : M (table_iterator U) unit := modify (set_now (mk_rid (-1) (-1))).

(** A decoded value used as a pointer *)
Definition value_ptr (v : column_value) : cptr :=
  match v with number z => mk_cptr z [] | text s => mk_cptr (text_addr s) s end.

(** The position of a column; [pos] stays uninitialised when it is not found. *)
Definition column_pos {S} (defs : list column_definition) (cd : column_definition) : M S nat :=
  of_option uninitialised_read (fst <$> list_find (fun d => coldef_eq d cd = true) defs).

(** The loop over the criteria *)
Fixpoint fit_loop {S} (defs : list column_definition) (vct : list column_value) (cs : list criterion) (fit : bool) : M S bool :=
  match cs with
  | [] => mret fit
  | cri :: cs =>
      pos ← column_pos defs (cr_coldef cri);
      v ← of_option out_of_bounds (vct !! pos);
      ok ← criterion_eval cri (value_ptr v);
      fit_loop defs vct cs (fit && ok)
  end.

(** table_iterator::fit *)
Definition table_fit {S} (s : schema) (t : tuple_t) (cs : list criterion) : M S bool :=
  vct ← row_decode (pointee t.1);
  fit_loop (col_defs_ s) vct cs true.

(** The while loop of next: now_ moves, the tuple stays. *)
Fixpoint scan_loop (fuel : nat) (hdr : table_page_hdr) (t : tuple_t) : M (table_iterator U) rid :=
  i ← gets (fun i => i);
  ok ← table_fit (schema_ (ts_handle (ti_table i))) t (ti_criterions i);
  if (ok : bool) then mret (ti_now i)
  else
    match fuel with
    | O => blocked
    | S fuel =>
        last ← int_of (tcount hdr - 1);
        let now := ti_now i in
        _ ← modify (set_now (if rid_slot now <? last then mk_rid (rid_page now) (rid_slot now + 1) else mk_rid (next_free hdr) 0));
        scan_loop fuel hdr t
    end.

(** table_iterator::next; [fuel] bounds the rounds of the loop. *)
Definition iterator_next (fuel : nat) (g : table_format) (t : tuple_t) : M (table_iterator U) rid :=
  now ← gets ti_now;
  t ← zoom ti_table (fun s i => mk_table_iterator U (ti_now i) s (ti_criterions i))
    (in_table_file
      (ph ← get_this_page (rid_page now);
       with_format addr ph g (get_into (uint16 (rid_slot now)) t)));
  scan_loop fuel (thdr g) t.
End iterator.

(** * Lemmas *)

Section next_free.
Context {U : Type} `{UnixLaws U}.
Implicit Types (h : file_handle) (b : buffer_manager U) (m : gmap (Z * Z) Z) (fl : list Z).

Lemma wp_in_table_file {A} th h b (x : M (file_state U) A) Q E :
  tb_file_handle_ th = Some h ->
  wp x (fun a t => Q a (mk_table_state U (mk_table_handle (tb_header_changed_ th) (tb_file_is_open_ th) (schema_ th) (table_header_ th) (Some (fs_handle t))) (fs_bm t)))
    (fun e t => E e (mk_table_state U (mk_table_handle (tb_header_changed_ th) (tb_file_is_open_ th) (schema_ th) (table_header_ th) (Some (fs_handle t))) (fs_bm t)))
    (mk_file_state U h b) ->
  wp (in_table_file x) Q E (mk_table_state U th b).
Proof. intros Hf. unfold wp, in_table_file. cbn. rewrite Hf. by destruct (x _). Qed.

(** A page that is in use. *)
Definition page_in_use h fl (p : Z) : Prop := 0 <= p < page_num (header_ h) /\ (p ∉ fl).

Definition hdr_in_range (hd : table_page_hdr) : Prop := INT_MIN <= free_upper hd - free_lower hd <= INT_MAX.

(** How looking for a page fails. *)
Definition no_page (x : exn) : Prop :=
  x = invalid_page_exception \/ x = page_pinned_exception \/ x = no_buf_error \/ io_error x.

Lemma file_fail_no_page h b x (s' : file_state U) : file_fail h b x s' -> no_page x.
Proof. unfold no_page. intros [[[->| ->] _]|[Hx _]]; auto. Qed.

Lemma wp_next_free_loop n hdrs e need h b m fl :
  file_ok h b m fl -> pins_le (INT_MAX - 1 - Z.of_nat n) b -> (n <= 3)%nat -> (forall i, hdr_in_range (hdrs i)) ->
  wp (next_free_loop n hdrs e need)
    (fun r s' => exists b' m', s' = mk_file_state U h b' /\ file_ok h b' m' fl /\ pins_le (INT_MAX - 1) b' /\
       match r with Some p => page_in_use h fl p | None => True end)
    (fun x _ => no_page x) (mk_file_state U h b).
Proof.
  revert e b m. induction n as [|n IH]; intros e b m F Hp Hn Hh; cbn [next_free_loop]; destruct (0 <? e);
    try (wp_steps; exists b, m; split_and!; try done; intros s es Hs; apply Hp in Hs; lia).
  assert (pins_le (INT_MAX - 1) b) as Hp1 by (intros s es Hs; apply Hp in Hs; lia).
  apply wp_bind. eapply wp_mono; [apply (wp_get_this_page h b m fl e F Hp1)|cbn beta|].
  2:{ intros x s' [(-> & _)|Hf]; [by left|by eapply file_fail_no_page]. }
  intros ph s' (slot & d & -> & He & Hfl & _ & (b' & m' & -> & F' & _ & Hpn) & _).
  apply wp_bind, wp_int_of; [apply Hh|].
  assert (pins_le (INT_MAX - 1 - Z.of_nat n) b') as Hp'.
  { intros s es Hs. assert (pins_le (INT_MAX - 1 - Z.of_nat (S n) + 1) b') as Hq by (apply Hpn; [unfold INT_MAX; lia|done]).
    apply Hq in Hs. lia. }
  destruct (need <? free_upper (hdrs n) - free_lower (hdrs n)).
  - wp_steps. exists b', m'. split_and!; try done. intros s es Hs. apply Hp' in Hs. lia.
  - apply (IH _ b' m'); [done|done|lia|done].
Qed.
End next_free.

(** row::decode returns nothing, or is undefined. *)
Lemma row_decode_empty {S} bs (s : S) : post (row_decode bs) (fun vs s' => vs = [] /\ s' = s) s.
Proof.
  unfold row_decode, post, mbind, M_bind, of_option. destruct (head bs) as [c|]; [|done]. unfold mret, M_ret.
  destruct (byte_to_Z c =? 0); [done|]. by destruct (decode_column bs s).
Qed.

Lemma table_fit_post {S} eq ta sch t cs (s : S) :
  post (table_fit eq ta sch t cs) (fun ok s' => ok = true /\ cs = [] /\ s' = s) s.
Proof.
  unfold table_fit. apply post_bind. eapply post_mono; [apply row_decode_empty|]. intros vs s' [-> ->].
  destruct cs as [|c cs]; [done|]. cbn [fit_loop]. apply post_bind. unfold column_pos, of_option, post.
  destruct (fst <$> _); [|done]. unfold mret, M_ret, mbind, M_bind. by rewrite lookup_nil.
Qed.

(** * Properties *)

(** get_next_free ends after at most three pages: on an open table it returns a
    page of the file that is in use (one of the pages it looked at, or one just
    allocated), with the file still well-formed, or throws because a page was not
    there, pinned, or could not be read; it is never undefined, whatever the
    uninitialised page headers say. *)
Theorem get_next_free_returns_page {U} `{UnixLaws U} (th : table_handle) (h : file_handle) (b : buffer_manager U)
    (m : gmap (Z * Z) Z) (fl : list Z) (hdrs : nat -> table_page_hdr) (need : Z) :
  tb_file_handle_ th = Some h -> file_ok h b m fl -> pins_le (INT_MAX - 4) b -> (forall i, hdr_in_range (hdrs i)) ->
  page_num (header_ h) * 4096 + 4096 <= INT_MAX -> fd_ h + page_num (header_ h) < INT_MAX ->
  wp (get_next_free hdrs need)
    (fun p s' => exists h' m' fl', tb_file_handle_ (ts_handle s') = Some h' /\ file_ok h' (ts_bm s') m' fl' /\ page_in_use h' fl' p)
    (fun x _ => no_page x) (mk_table_state U th b).
Proof.
  intros Hth F Hp Hh Hr1 Hr2. unfold get_next_free. wp_steps. eapply wp_in_table_file; [done|]. apply wp_bind.
  eapply wp_mono; [apply (wp_next_free_loop 3 hdrs _ need h b m fl F); [exact Hp|lia|done]|cbn beta|done].
  intros [p|] s' (b' & m' & -> & F' & Hp' & Hr); [wp_steps; by exists h, m', fl|].
  apply wp_bind. eapply wp_mono; [apply (wp_file_allocate_page h b' m' fl F' Hp'); lia|cbn beta|by intros x s' ?%file_fail_no_page].
  intros ph s' (p & fl' & n' & b2 & m2 & slot & e & -> & Ht & -> & F2 & _). wp_steps. cbn.
  exists (header_set h (mk_file_header (hd PAGE_LIST_END fl') n')), m2, fl'. split_and!; [done..|]. unfold page_in_use. cbn.
  pose proof (fo_num _ _ _ _ F'). destruct (fo_fl _ _ _ _ F') as [Hnd Hrange]. destruct Ht as [[-> ->]|(-> & -> & -> & ->)].
  - apply NoDup_cons in Hnd as [Hni _]. split; [apply Hrange; by left|done].
  - split; [lia|apply not_elem_of_nil].
Qed.

Lemma get_next_free_returns_page_witness :
  wp (get_next_free (fun _ => mk_table_page_hdr 0 0 0 0) 10)
    (fun p s' => exists h' m' fl', tb_file_handle_ (ts_handle s') = Some h' /\ file_ok h' (ts_bm s') m' fl' /\ page_in_use h' fl' p)
    (fun x _ => no_page x) (mk_table_state MemFs (table_handle_new false true (empty_handle 3) (mk_table_header (-1) 0 1)) empty_bm).
Proof.
  apply (get_next_free_returns_page _ (empty_handle 3) empty_bm ∅ []); [done|apply empty_file_abs| |intros i; vm_compute; split; discriminate|..];
    try (unfold INT_MAX; cbn; lia).
  intros s e He. destruct empty_file_abs as [_ Hp]. apply Hp in He. unfold INT_MAX. lia.
Defined.

(** A scan never moves: whatever page and tuple it finds, next either does not
    return or returns the position it had before, and it returns only for a scan
    without criteria.  After begin or reset the position is no page at all, so next
    throws. *)
Theorem table_scan_never_advances {U} `{Unix U} (addr : Z -> Z) (eq : column_definition -> column_definition -> bool)
    (ta : list byte -> Z) (fuel : nat) (g : table_format) (t : tuple_t) (i : table_iterator U) :
  post (iterator_next addr eq ta fuel g t) (fun r i' => r = ti_now i /\ ti_now i' = ti_now i /\ ti_criterions i = []) i /\
  forall h, tb_file_handle_ (ts_handle (ti_table i)) = Some h -> file_is_open_ h = true ->
    exists i', (_ ← iterator_begin; iterator_next addr eq ta fuel g t) i = Exc invalid_page_exception i' /\
      (_ ← iterator_reset; iterator_next addr eq ta fuel g t) i = Exc invalid_page_exception i'.
Proof.
  split.
  - unfold iterator_next. apply post_bind, post_gets, post_bind. unfold zoom, post at 1.
    destruct (in_table_file _ (ti_table i)) as [t' s'| | |]; try done. destruct fuel; cbn [scan_loop];
      apply post_bind, post_gets, post_bind; (eapply post_mono; [apply table_fit_post|]); intros ok i' (-> & Hc & ->); done.
  - intros h Hh Hopen. destruct i as [now s cs], s as [th b]. cbn in Hh.
    eexists. split; unfold iterator_begin, iterator_reset, iterator_next, mbind, M_bind, modify, gets, zoom, in_table_file; cbn; rewrite Hh;
      unfold get_this_page, check_open, handle, mbind, M_bind, gets; cbn; rewrite Hopen; cbn; reflexivity.
Qed.

Lemma table_scan_never_advances_witness :
  exists i', (_ ← iterator_begin; iterator_next (fun _ => 0) (fun _ _ => true) (fun _ => 0) 5 two_tuples (mk_cptr 0 [], 0))
    (table_iterator_new (mk_table_state MemFs (table_handle_new false true (empty_handle 3) (mk_table_header (-1) 0 1)) empty_bm) []) =
    Exc invalid_page_exception i'.
Proof.
  destruct (proj2 (table_scan_never_advances (fun _ => 0) (fun _ _ => true) (fun _ => 0) 5 two_tuples (mk_cptr 0 [], 0)
    (table_iterator_new (mk_table_state MemFs (table_handle_new false true (empty_handle 3) (mk_table_header (-1) 0 1)) empty_bm) []))
    (empty_handle 3) eq_refl eq_refl) as (i' & Hb & _). by exists i'.
Defined.

(** record::set keeps the first array of the record: on a new record it stores
    exactly the given bytes; on a record that has an array it is undefined for
    every size larger than that array, and otherwise leaves the old tail behind the
    new bytes. *)
Theorem record_set_keeps_array (bs : list byte) (a size : Z) (id id0 : rid) (size0 : Z) (arr : option (list byte)) :
  0 <= size <= Z.of_nat (length bs) ->
  record_set (mk_cptr a bs) size id (mk_record id0 size0 arr) =
  match arr with
  | None => Ret tt (mk_record id size (Some (take (Z.to_nat size) bs)))
  | Some old => if size <=? Z.of_nat (length old) then Ret tt (mk_record id size (Some (take (Z.to_nat size) bs ++ drop (Z.to_nat size) old)))
                else Undef out_of_bounds
  end.
Proof.
  intros Hs. unfold record_set, mbind, M_bind, modify, gets. cbn [rec_data pointee].
  destruct arr as [old|].
  - unfold mret, M_ret. rewrite (proj2 (Z.leb_le 0 size)), (proj2 (Z.leb_le size (Z.of_nat (length bs)))) by lia.
    destruct (size <=? Z.of_nat (length old)); done.
  - rewrite (proj2 (Z.ltb_ge size 0)) by lia. unfold mret, M_ret. rewrite length_replicate, Z2Nat.id by lia.
    rewrite (proj2 (Z.leb_le 0 size)), (proj2 (Z.leb_le size size)), (proj2 (Z.leb_le size _)) by lia. cbn [andb].
    rewrite drop_ge by (rewrite length_replicate; lia). by rewrite app_nil_r.
Qed.

Lemma record_set_keeps_array_witness :
  record_set (mk_cptr 0 [Byte.x01; Byte.x02; Byte.x03]) 3 rid_null (mk_record rid_null 1 (Some [Byte.x09])) = Undef out_of_bounds.
Proof. apply (record_set_keeps_array [Byte.x01; Byte.x02; Byte.x03] 0 3 rid_null rid_null 1 (Some [Byte.x09])). cbn. lia. Defined.

(** update_record never reports success. *)
Theorem update_record_never_true {U} `{Unix U} (addr : Z -> Z) hdrs g1 g2 (r : record) (s : table_state U) :
  post (update_record addr hdrs g1 g2 r) (fun ok _ => ok = false) s.
Proof.
  unfold update_record. apply post_bind. unfold post at 1. destruct (delete_record addr g1 (rec_rid r) s) as [[] s'| | |]; try done.
  cbn [negb]. apply post_bind. unfold post. by destruct (insert_record _ _ _ _ _ s').
Qed.
