(* ===== verification/TreeNodes.v ===== *)
(** The nodes of the B+ tree: src/index/b+tree/node.{h,cc}, leaf_node.{h,cc} and
    internal_node.{h,cc}.  A node is an object on the heap that holds an
    index_format; the format's pointers and header are never set, so they are what
    the memory of the new object held ([uninit]).  The nodes work on the pages of
    the index through what index_handle offers them ([IndexPages]). *)
From S2P Require Import Prelude HashTable Unix BufferManager FileHandle Comparator Rid Memory IndexFormat IndexHandle.

(** * What the tree uses of an index_handle *)

(** get_this_page is declared in index_handle.h and defined nowhere. *)
Class IndexPages (P : Type) := {
  ip_header : P -> index_header;
  ip_allocate_page : M P Z;
  ip_get_this_page : Z -> M P page_handle;
  ip_unpin_page : Z -> M P unit;
  ip_mark_dirty : Z -> M P unit;
  ip_dispose_page : Z -> M P unit;
}.

(** The operations of IndexHandle.v, for any get_this_page. *)
Definition index_handle_pages {U} `{Unix U} (get_this_page_ : Z -> M (index_state U) page_handle) : IndexPages (index_state U) := {|
  ip_header s := index_header_ (is_handle s);
  ip_allocate_page := index_allocate_page;
  ip_get_this_page := get_this_page_;
  ip_unpin_page := index_unpin_page;
  ip_mark_dirty := index_mark_dirty;
  ip_dispose_page := index_dispose_page;
|}.

(** * State *)

(** The class an object was made with; [PlainNode] is [new node], which tree code
    casts to either of the others. *)
Inductive node_class := LeafNode | InternalNode | PlainNode.

(** A pointer to a node *)
Abbreviation node_ptr := (option Z).

Record node := mk_node {
  nd_class : node_class;
  page_id_ : rid;
  parent_ : node_ptr;
  page_handle_ : page_handle;
  nd_page : index_page;       (* index_format_ and the memory its pointers lead to *)
  next_ : node_ptr;
}.

Record b_plus_tree {P : Type} := mk_tree {
  index_pages : P;            (* index_handle_ *)
  nodes : gmap Z node;
  new_loc : Z;                (* where the next object goes *)
  height_ : Z;
  fanout_ : Z;
  root_ : node_ptr;
}.
Arguments b_plus_tree : clear implicits.

Definition set_page (p : index_page) (n : node) : node := mk_node (nd_class n) (page_id_ n) (parent_ n) (page_handle_ n) p (next_ n).
Definition set_parent_ptr (p : node_ptr) (n : node) : node := mk_node (nd_class n) (page_id_ n) p (page_handle_ n) (nd_page n) (next_ n).
Definition set_next_ptr (p : node_ptr) (n : node) : node := mk_node (nd_class n) (page_id_ n) (parent_ n) (page_handle_ n) (nd_page n) p.
Definition set_base (b : Z) (f : index_format) : index_format :=
  mk_index_format b (rids f) (keys f) (hdr f) (cmptr f) (key_len f) (datatype f).

Section setters.
Context {P : Type}.
Implicit Types t : b_plus_tree P.
Definition set_pages (p : P) t : b_plus_tree P := mk_tree P p (nodes t) (new_loc t) (height_ t) (fanout_ t) (root_ t).
Definition set_nodes (ns : gmap Z node) t : b_plus_tree P := mk_tree P (index_pages t) ns (new_loc t) (height_ t) (fanout_ t) (root_ t).
Definition set_new_loc (l : Z) t : b_plus_tree P := mk_tree P (index_pages t) (nodes t) l (height_ t) (fanout_ t) (root_ t).
Definition set_height (h : Z) t : b_plus_tree P := mk_tree P (index_pages t) (nodes t) (new_loc t) h (fanout_ t) (root_ t).
Definition set_root (r : node_ptr) t : b_plus_tree P := mk_tree P (index_pages t) (nodes t) (new_loc t) (height_ t) (fanout_ t) r.
End setters.

Section operations.
Context {P : Type} `{IndexPages P}.
(** The bytes behind keys, the memory of objects before construction (their format
    and their next_ pointer), and where the pool keeps the bytes of a slot. *)
Context (heap : Z -> list byte) (uninit : Z -> index_page) (uninit_next : Z -> node_ptr) (addr : Z -> Z).

Definition in_pages {A} (x : M P A) : M (b_plus_tree P) A := zoom index_pages set_pages x.

(** [*p], for a pointer of the tree *)
Definition node_at (p : node_ptr) : M (b_plus_tree P) (Z * node) :=
  l ← of_option null_deref p;
  t ← gets (fun t => t);
  n ← of_option dangling_deref (nodes t !! l);
  mret (l, n).

Definition update_node (l : Z) (f : node -> node) : M (b_plus_tree P) unit :=
  modify (fun t => set_nodes (alter f l (nodes t)) t).

(** Methods of p->index_format_ *)
Definition run_page {A} (l : Z) (n : node) (x : M index_page A) : M (b_plus_tree P) A := fun t =>
  match x (nd_page n) with
  | Ret a pg => Ret a (set_nodes (<[l := set_page pg n]> (nodes t)) t)
  | Exc e pg => Exc e (set_nodes (<[l := set_page pg n]> (nodes t)) t)
  | Undef r => Undef r
  | Blocked => Blocked
  end.
Definition on_page {A} (p : node_ptr) (x : M index_page A) : M (b_plus_tree P) A :=
  '(l, n) ← node_at p; run_page l n x.

(** page_handle::data() as an address *)
Definition handle_addr (ph : page_handle) : Z :=
  match data_ ph with None => 0 | Some (slot, off) => addr slot + Z.of_nat off end.

(** sizeof(index_page_hdr) *)
Definition sizeof_index_page_hdr : Z := 16.

(** The objects the constructors of node, leaf_node and internal_node make; node's
    constructor without a parent sets base from the empty page handle. *)
Definition new_object (l : Z) (c : node_class) (parent : node_ptr) (page_id : rid) : node :=
  let pg := uninit l in
  mk_node c page_id parent page_handle_new (set_fmt (index_format_new (fmt pg)) pg) (uninit_next l).
Definition with_base (n : node) : node :=
  set_page (set_fmt (set_base (handle_addr (page_handle_ n) + sizeof_index_page_hdr) (fmt (nd_page n))) (nd_page n)) n.

(** [new leaf_node(parent, page_id, tree)] and [new internal_node(parent, page_id, tree)] *)
Definition new_node (c : node_class) (parent : node_ptr) (page_id : rid) : M (b_plus_tree P) Z :=
  l ← gets new_loc;
  _ ← modify (fun t => set_new_loc (l + 1) (set_nodes (<[l := new_object l c parent page_id]> (nodes t)) t));
  mret l.

(** [new node(page_id, tree)] *)
Definition new_plain_node (page_id : rid) : M (b_plus_tree P) Z :=
  l ← gets new_loc;
  _ ← modify (fun t => set_new_loc (l + 1) (set_nodes (<[l := with_base (new_object l PlainNode None page_id)]> (nodes t)) t));
  mret l.

(** [delete p], which accepts nullptr *)
Definition delete_node (p : node_ptr) : M (b_plus_tree P) unit :=
  match p with
  | None => mret tt
  | Some l =>
      t ← gets (fun t => t);
      match nodes t !! l with
      | None => undef double_free
      | Some _ => modify (fun t => set_nodes (delete l (nodes t)) t)
      end
  end.

(** ** node *)

(** node::set_parent *)
Definition set_parent (this parent : node_ptr) : M (b_plus_tree P) unit :=
  '(l, _) ← node_at this; update_node l (set_parent_ptr parent).

(** node::parent and node::is_root *)
Definition node_parent (this : node_ptr) : M (b_plus_tree P) node_ptr := '(_, n) ← node_at this; mret (parent_ n).
Definition is_root (this : node_ptr) : M (b_plus_tree P) bool :=
  p ← node_parent this; mret (bool_decide (p = None)).

(** node::pin_node: the page goes into a local handle, base comes from the member. *)
Definition pin_node (this : node_ptr) : M (b_plus_tree P) unit :=
  '(l, n) ← node_at this;
  _ ← in_pages (ip_get_this_page (rid_page (page_id_ n)));
  update_node l with_base.

(** node::unpin_node *)
Definition unpin_node (this : node_ptr) : M (b_plus_tree P) unit :=
  '(_, n) ← node_at this; in_pages (ip_unpin_page (rid_page (page_id_ n))).

(** node::mark_dirty_and_unpin_node *)
Definition mark_dirty_and_unpin_node (this : node_ptr) : M (b_plus_tree P) unit :=
  '(_, n) ← node_at this;
  _ ← in_pages (ip_mark_dirty (rid_page (page_id_ n)));
  in_pages (ip_unpin_page (rid_page (page_id_ n))).

(** index_format_.hdr.count *)
Definition node_count (this : node_ptr) : M (b_plus_tree P) Z :=
  '(_, n) ← node_at this; mret (hdr_count (hdr (fmt (nd_page n)))).

(** The virtual functions size, min_size, max_size and is_leaf; node declares them
    without a body. *)
Definition node_size (this : node_ptr) : M (b_plus_tree P) Z :=
  '(_, n) ← node_at this;
  match nd_class n with PlainNode => undef bad_cast | _ => mret (hdr_count (hdr (fmt (nd_page n)))) end.

Definition leaf_min_size : M (b_plus_tree P) Z :=
  f ← gets fanout_;
  if Z.rem f 2 =? 0 then s ← int_of (f + 1); mret (Z.quot s 2) else mret (Z.quot f 2).
Definition internal_min_size : M (b_plus_tree P) Z :=
  f ← gets fanout_; s ← int_of (f + 1); mret (Z.quot s 2).
Definition leaf_max_size : M (b_plus_tree P) Z := f ← gets fanout_; int_of (f - 1).
Definition internal_max_size : M (b_plus_tree P) Z := gets fanout_.

Definition by_class {A} (leaf internal : M (b_plus_tree P) A) (this : node_ptr) : M (b_plus_tree P) A :=
  '(_, n) ← node_at this;
  match nd_class n with LeafNode => leaf | InternalNode => internal | PlainNode => undef bad_cast end.
Definition min_size : node_ptr -> M (b_plus_tree P) Z := by_class leaf_min_size internal_min_size.
Definition max_size : node_ptr -> M (b_plus_tree P) Z := by_class leaf_max_size internal_max_size.
Definition is_leaf : node_ptr -> M (b_plus_tree P) bool := by_class (mret true) (mret false).

(** first_key of both node classes *)
Definition first_key (this : node_ptr) : M (b_plus_tree P) Z := on_page this (key_at 0).

(** rids[i] = id and keys[i] = key *)
Definition store_rid (i : Z) (id : rid) : M index_page unit :=
  f ← gets fmt; write_mem (rids f + sizeof_rid * i) (rid_bytes id).
Definition store_key (i key : Z) : M index_page unit :=
  f ← gets fmt; write_mem (keys f + 8 * i) (le_encode 8 key).

(** The pair keys[i], rids[i] *)
Definition entry_at (i : Z) : M index_page (Z * rid) := k ← key_at i; r ← rid_at i; mret (k, r).

(** ** leaf_node *)

(** leaf_node::next and leaf_node::set_next *)
Definition leaf_next (this : node_ptr) : M (b_plus_tree P) node_ptr := '(_, n) ← node_at this; mret (next_ n).
Definition set_next (this next : node_ptr) : M (b_plus_tree P) unit :=
  c ← node_count this;
  '(_, nx) ← node_at next;
  _ ← on_page this (store_rid (c - 1) (page_id_ nx));
  '(l, _) ← node_at this;
  update_node l (set_next_ptr next).

(** leaf_node::insert; what index_format::insert returns is dropped. *)
Definition leaf_insert (this : node_ptr) (key : Z) (id : rid) : M (b_plus_tree P) unit :=
  _ ← on_page this (index_insert heap key id); mret tt.

(** leaf_node::lookup *)
Definition leaf_lookup (this : node_ptr) (key : Z) : M (b_plus_tree P) rid :=
  r ← on_page this (index_search key); mret (default rid_null r).

(** leaf_node::remove *)
Definition leaf_remove (this : node_ptr) (key : Z) (id : rid) : M (b_plus_tree P) bool := on_page this (index_remove heap key id).

(** The copying loop of move_half_to and move_all_to; i and count are compared as
    size_t.  Every round reads other bytes of the buffer, so [fuel] is its length. *)
Fixpoint copy_loop (fuel : nat) (i : Z) (this receiver : node_ptr) : M (b_plus_tree P) unit :=
  c ← node_count this;
  if i <? to_unsigned 64 c then
    match fuel with
    | O => blocked
    | S fuel =>
        '(k, id) ← on_page this (entry_at i);
        _ ← on_page receiver (index_insert heap k id);
        copy_loop fuel (i + 1) this receiver
    end
  else mret tt.

(** The second loop of move_half_to: i counts up. *)
Fixpoint pop_loop (fuel : nat) (i bound : Z) (this : node_ptr) : M (b_plus_tree P) unit :=
  if bound <=? i then
    match fuel with
    | O => blocked
    | S fuel =>
        '(k, id) ← on_page this (entry_at i);
        _ ← on_page this (index_remove heap k id);
        pop_loop fuel (i + 1) bound this
    end
  else mret tt.

(** The rounds the buffer of a node allows. *)
Definition page_fuel (this : node_ptr) : M (b_plus_tree P) nat :=
  '(_, n) ← node_at this; mret (S (length (buf (nd_page n)))).

(** move_half_to of both node classes, with their min_size *)
Definition move_half (least : M (b_plus_tree P) Z) (this receiver : node_ptr) : M (b_plus_tree P) unit :=
  _ ← pin_node this;
  _ ← pin_node receiver;
  m ← least;
  n ← page_fuel this;
  _ ← copy_loop n (to_unsigned 64 m) this receiver;
  c ← node_count this;
  last ← int_of (c - 1);
  _ ← pop_loop n (to_unsigned 64 last) (to_unsigned 64 m) this;
  _ ← mark_dirty_and_unpin_node receiver;
  mark_dirty_and_unpin_node this.

(** leaf_node::move_half_to *)
Definition leaf_move_half_to : node_ptr -> node_ptr -> M (b_plus_tree P) unit := move_half leaf_min_size.

(** leaf_node::move_all_to *)
Definition leaf_move_all_to (this receiver : node_ptr) (index : Z) : M (b_plus_tree P) unit :=
  _ ← pin_node this;
  _ ← pin_node receiver;
  n ← page_fuel this;
  _ ← copy_loop n 0 this receiver;
  nx ← leaf_next this;
  _ ← set_next receiver nx;
  _ ← mark_dirty_and_unpin_node receiver;
  _ ← mark_dirty_and_unpin_node this;
  '(_, t) ← node_at this;
  in_pages (ip_dispose_page (rid_page (page_id_ t))).

(** leaf_node::move_first_to_end_of *)
Definition leaf_move_first_to_end_of (this receiver : node_ptr) : M (b_plus_tree P) unit :=
  _ ← pin_node this;
  _ ← pin_node receiver;
  '(k, id) ← on_page this (entry_at 0);
  _ ← leaf_remove this k id;
  _ ← leaf_insert receiver k id;
  _ ← mark_dirty_and_unpin_node receiver;
  mark_dirty_and_unpin_node this.

(** leaf_node::move_last_to_front_of; the index is not used. *)
Definition leaf_move_last_to_front_of (this receiver : node_ptr) (index : Z) : M (b_plus_tree P) unit :=
  _ ← pin_node this;
  _ ← pin_node receiver;
  c ← node_count this;
  last ← int_of (c - 1);
  '(k, id) ← on_page this (entry_at last);
  _ ← leaf_remove this k id;
  _ ← leaf_insert receiver k id;
  _ ← mark_dirty_and_unpin_node receiver;
  mark_dirty_and_unpin_node this.

(** ** internal_node *)

(** internal_node::node_index, the loop; i and count are compared as size_t. *)
Fixpoint node_index_loop (fuel : nat) (i page : Z) : M index_page Z :=
  f ← gets fmt;
  if i <? to_unsigned 64 (hdr_count (hdr f)) then
    match fuel with
    | O => blocked
    | S fuel =>
        r ← rid_at i;
        if rid_page r =? page then mret (to_signed 32 i) else node_index_loop fuel (i + 1) page
    end
  else mret (-1).
Definition node_index (this n : node_ptr) : M (b_plus_tree P) Z :=
  '(_, nd) ← node_at n;
  fuel ← page_fuel this;
  on_page this (node_index_loop fuel 0 (rid_page (page_id_ nd))).

(** internal_node::remove *)
Definition internal_remove (this : node_ptr) (index : Z) : M (b_plus_tree P) unit :=
  '(k, id) ← on_page this (entry_at index);
  _ ← on_page this (index_remove heap k id);
  mret tt.

(** internal_node::key_at and internal_node::set_key_at *)
Definition node_key_at (this : node_ptr) (index : Z) : M (b_plus_tree P) Z := on_page this (key_at index).
Definition set_key_at (this : node_ptr) (index key : Z) : M (b_plus_tree P) unit := on_page this (store_key index key).

(** internal_node::move_half_to *)
Definition internal_move_half_to : node_ptr -> node_ptr -> M (b_plus_tree P) unit := move_half internal_min_size.

(** internal_node::move_all_to *)
Definition internal_move_all_to (this receiver : node_ptr) (index : Z) : M (b_plus_tree P) unit :=
  _ ← pin_node this;
  _ ← pin_node receiver;
  p ← node_parent this;
  k ← node_key_at p index;
  _ ← set_key_at this 0 k;
  n ← page_fuel this;
  _ ← copy_loop n 0 this receiver;
  _ ← mark_dirty_and_unpin_node receiver;
  mark_dirty_and_unpin_node this.

(** internal_node::move_first_to_end_of *)
Definition internal_move_first_to_end_of (this receiver : node_ptr) : M (b_plus_tree P) unit :=
  _ ← pin_node this;
  _ ← pin_node receiver;
  '(k, id) ← on_page this (entry_at 0);
  _ ← on_page receiver (index_insert heap k id);
  _ ← on_page this (index_remove heap k id);
  p ← node_parent this;
  k0 ← node_key_at this 0;
  _ ← set_key_at p 1 k0;
  _ ← mark_dirty_and_unpin_node receiver;
  mark_dirty_and_unpin_node this.

(** internal_node::move_last_to_front_of *)
Definition internal_move_last_to_front_of (this receiver : node_ptr) (index : Z) : M (b_plus_tree P) unit :=
  _ ← pin_node this;
  _ ← pin_node receiver;
  c ← node_count this;
  last ← int_of (c - 1);
  '(k, id) ← on_page this (entry_at last);
  _ ← on_page this (index_remove heap k id);
  p ← node_parent this;
  kp ← node_key_at p index;
  _ ← set_key_at receiver 0 kp;
  _ ← on_page receiver (index_insert heap k id);
  p ← node_parent this;
  _ ← set_key_at p index 0;
  _ ← mark_dirty_and_unpin_node receiver;
  mark_dirty_and_unpin_node this.

(** internal_node::first_child, neighbor and remove_and_return_only_child: a new
    object for the page in rids[index] *)
Definition neighbor (this : node_ptr) (index : Z) : M (b_plus_tree P) Z :=
  id ← on_page this (rid_at index); new_plain_node id.
Definition first_child (this : node_ptr) : M (b_plus_tree P) Z := neighbor this 0.
Definition remove_and_return_only_child (this : node_ptr) : M (b_plus_tree P) Z := neighbor this 0.

(** internal_node::lookup *)
Definition internal_lookup (this : node_ptr) (key : Z) : M (b_plus_tree P) Z :=
  idx ← on_page this (find_in_internal key);
  neighbor this idx.

(** internal_node::replace_and_return_first_key *)
Definition replace_and_return_first_key (this : node_ptr) : M (b_plus_tree P) Z :=
  on_page this (k ← key_at 0; _ ← store_key 0 0; mret k).

(** internal_node::populate_new_root *)
Definition populate_new_root (this oldnode : node_ptr) (key : Z) (newnode : node_ptr) : M (b_plus_tree P) unit :=
  '(_, o) ← node_at oldnode;
  _ ← on_page this (index_insert heap 0 (page_id_ o));
  '(_, n) ← node_at newnode;
  _ ← on_page this (index_insert heap key (page_id_ n));
  h ← gets height_;
  h' ← int_of (h + 1);
  modify (set_height h').

(** internal_node::insert_node_after: the position is found and nothing inserted. *)
Fixpoint find_position (fuel : nat) (i : Z) (id : rid) : M index_page unit :=
  f ← gets fmt;
  if i <? to_unsigned 64 (hdr_count (hdr f)) then
    match fuel with
    | O => blocked
    | S fuel => r ← rid_at i; if rid_eqb r id then mret tt else find_position fuel (i + 1) id
    end
  else mret tt.
Definition insert_node_after (this oldnode : node_ptr) (newkey : Z) (newnode : node_ptr) : M (b_plus_tree P) Z :=
  '(_, o) ← node_at oldnode;
  fuel ← page_fuel this;
  _ ← on_page this (find_position fuel 0 (page_id_ o));
  node_count this.
End operations.
