(* ===== verification/BPlusTree.v ===== *)
(** The B+ tree: src/index/b+tree/b_plus_tree.{h,cc}, and the operations of
    index_handle.cc that it carries out. *)
From S2P Require Import Prelude HashTable Unix BufferManager FileHandle Comparator Rid Memory IndexFormat IndexHandle TreeNodes.
From Stdlib Require Import Sorting.Sorted.

Section operations.
Context {P : Type} `{IndexPages P}.
Context (heap : Z -> list byte) (uninit : Z -> index_page) (uninit_next : Z -> node_ptr) (addr : Z -> Z).

(** b_plus_tree::b_plus_tree; height_ is not initialised and the header's fanout is not used. *)
Definition tree_new (height : Z) : M P (b_plus_tree P) := fun p =>
  let h := ip_header p in
  let t := mk_tree P p ∅ 1 height 0xFFFF None in
  let make c := set_root (Some 1) (set_new_loc 2 (set_nodes {[ 1 := new_object uninit uninit_next 1 c None (mk_rid (root_page h) (-1)) ]} t)) in
  Ret (if 0 <? ih_height h then (if ih_height h =? 1 then make LeafNode else make InternalNode) else t) p.

(** b_plus_tree::is_empty *)
Definition is_empty : M (b_plus_tree P) bool := r ← gets root_; mret (bool_decide (r = None)).

(** The loop of find_leaf_node, find_smallest_leaf_node and find_largest_leaf_node:
    [child] makes the object for the next level; the flow leaves the function behind
    the loop without a value. *)
Fixpoint descend (child : node_ptr -> M (b_plus_tree P) Z) (fuel : nat) (i : Z) (n : node_ptr) : M (b_plus_tree P) node_ptr :=
  h ← gets height_;
  if i <? to_unsigned 64 h then
    match fuel with
    | O => blocked
    | S fuel =>
        '(_, nd) ← node_at n;
        _ ← in_pages (ip_get_this_page (rid_page (page_id_ nd)));
        c ← child n;
        last ← int_of (h - 1);
        if i =? to_unsigned 64 last then mret (Some c)
        else
          _ ← when (negb (i =? 0)) ('(_, nd) ← node_at n; in_pages (ip_unpin_page (rid_page (page_id_ nd))));
          descend child fuel (i + 1) (Some c)
    end
  else undef missing_return.

Definition find_leaf (child : node_ptr -> M (b_plus_tree P) Z) : M (b_plus_tree P) node_ptr :=
  e ← is_empty;
  if (e : bool) then mret None
  else
    r ← gets root_;
    h ← gets height_;
    if h =? 1 then mret r else descend child (Z.to_nat (to_unsigned 64 h)) 0 r.

(** b_plus_tree::find_leaf_node *)
Definition find_leaf_node (k : Z) : M (b_plus_tree P) node_ptr :=
  find_leaf (fun n => internal_lookup uninit uninit_next addr n k).

(** b_plus_tree::find_smallest_leaf_node *)
Definition find_smallest_leaf_node : M (b_plus_tree P) node_ptr :=
  find_leaf (fun n => neighbor uninit uninit_next addr n 0).

(** b_plus_tree::find_largest_leaf_node *)
Definition find_largest_leaf_node : M (b_plus_tree P) node_ptr :=
  find_leaf (fun n => s ← node_size n; last ← int_of (s - 1); neighbor uninit uninit_next addr n last).

(** b_plus_tree::find *)
Definition tree_find (k : Z) : M (b_plus_tree P) rid :=
  n ← find_leaf_node k;
  i ← on_page n (find_in_leaf heap k);
  if i =? -1 then mret (mk_rid (-1) (-1)) else on_page n (rid_at i).

(** b_plus_tree::find_all has no body. *)
Definition find_all (k : Z) : M (b_plus_tree P) (list rid) := undef missing_return.

(** b_plus_tree::insert_in_leaf *)
Definition insert_in_leaf (l : node_ptr) (k : Z) (p : rid) : M (b_plus_tree P) unit := leaf_insert heap l k p.

(** b_plus_tree::split, for leaf_node and internal_node *)
Definition split (c : node_class) (n : node_ptr) : M (b_plus_tree P) node_ptr :=
  page ← in_pages ip_allocate_page;
  _ ← in_pages (ip_get_this_page page);
  p ← node_parent n;
  newnode ← new_node uninit uninit_next c p (mk_rid page (-1));
  _ ← (match c with
       | LeafNode => leaf_move_half_to heap addr n (Some newnode)
       | _ => internal_move_half_to heap addr n (Some newnode)
       end);
  mret (Some newnode).

(** b_plus_tree::adjust_root *)
Definition adjust_root : M (b_plus_tree P) unit :=
  r ← gets root_;
  leaf ← is_leaf r;
  s ← node_size r;
  if negb leaf && (s =? 1) then
    c ← remove_and_return_only_child uninit uninit_next addr r;
    _ ← modify (set_root (Some c));
    _ ← set_parent (Some c) None;
    delete_node r
  else when (s =? 0) (_ ← delete_node r; modify (set_root None)).

(** b_plus_tree::insert_in_parent.  A new root is made and the function goes on.
    The calls climb the chain of parents; [fuel] is the number of nodes. *)
Fixpoint insert_in_parent (fuel : nat) (n : node_ptr) (k : Z) (n1 : node_ptr) : M (b_plus_tree P) unit :=
  r ← gets root_;
  _ ← when (bool_decide (n = r))
    (page ← in_pages ip_allocate_page;
     l ← new_node uninit uninit_next InternalNode None (mk_rid page (-1));
     _ ← modify (set_root (Some l));
     _ ← set_parent n (Some l);
     _ ← set_parent n1 (Some l);
     populate_new_root heap (Some l) n k n1);
  parent ← node_parent n;
  s ← node_size parent;
  most ← max_size parent;
  if s <? most then _ ← insert_node_after parent n k n1; mret tt
  else
    newnode ← split InternalNode parent;
    newkey ← replace_and_return_first_key newnode;
    match fuel with O => blocked | S fuel => insert_in_parent fuel parent newkey newnode end.

Definition tree_fuel : M (b_plus_tree P) nat := t ← gets (fun t => t); mret (S (size (nodes t))).

(** b_plus_tree::insert.  The header is a copy: root_page and height reach nobody. *)
Definition tree_insert (k : Z) (p : rid) : M (b_plus_tree P) unit :=
  e ← is_empty;
  if (e : bool) then
    page ← in_pages ip_allocate_page;
    l ← new_node uninit uninit_next LeafNode None (mk_rid page (-1));
    _ ← modify (set_root (Some l));
    leaf_insert heap (Some l) k p
  else
    l ← find_leaf_node k;
    match l with
    | None => throw std_exception
    | Some _ =>
        s ← node_size l;
        most ← max_size l;
        if s <? most then insert_in_leaf l k p
        else
          newleaf ← split LeafNode l;
          nx ← leaf_next l;
          _ ← set_next newleaf nx;
          _ ← set_next l newleaf;
          newkey ← first_key newleaf;
          fuel ← tree_fuel;
          insert_in_parent fuel l newkey newleaf
    end.

(** b_plus_tree::redistribute *)
Definition redistribute (c : node_class) (nb n parent : node_ptr) (index : Z) : M (b_plus_tree P) unit :=
  if negb (index =? 0) then
    match c with
    | LeafNode => leaf_move_last_to_front_of heap addr nb n index
    | _ => internal_move_last_to_front_of heap addr nb n index
    end
  else
    match c with
    | LeafNode => leaf_move_first_to_end_of heap addr nb n
    | _ => internal_move_first_to_end_of heap addr nb n
    end.

(** b_plus_tree::coalesce; [rebalance] is coalesce_or_redistribute on the parent. *)
Definition coalesce (rebalance : node_ptr -> M (b_plus_tree P) unit) (c : node_class) (nb n parent : node_ptr) (index : Z) :
    M (b_plus_tree P) unit :=
  let '(nb, n, index) := if index =? 0 then (n, nb, 1) else (nb, n, index) in
  _ ← (match c with
       | LeafNode => leaf_move_all_to heap addr n nb index
       | _ => internal_move_all_to heap addr n nb index
       end);
  _ ← internal_remove heap parent index;
  s ← node_size parent;
  least ← min_size parent;
  _ ← when (s <? least) (rebalance parent);
  '(_, nd) ← node_at n;
  _ ← in_pages (ip_dispose_page (rid_page (page_id_ nd)));
  delete_node n.

(** b_plus_tree::coalesce_or_redistribute; the index of the node in its parent is
    taken to be 0.  The calls climb the chain of parents. *)
Fixpoint coalesce_or_redistribute (fuel : nat) (c : node_class) (n : node_ptr) : M (b_plus_tree P) unit :=
  r ← is_root n;
  if (r : bool) then adjust_root
  else
    match fuel with
    | O => blocked
    | S fuel =>
        parent ← node_parent n;
        nb ← neighbor uninit uninit_next addr parent 1;
        s ← node_size n;
        s' ← node_size (Some nb);
        total ← int_of (s + s');
        most ← max_size (Some nb);
        if total <=? most then coalesce (coalesce_or_redistribute fuel InternalNode) c (Some nb) n parent 0
        else redistribute c (Some nb) n parent 0
    end.

(** b_plus_tree::remove_entry: the bool of leaf_node::remove is compared as a size. *)
Definition remove_entry (l : node_ptr) (k : Z) (p : rid) : M (b_plus_tree P) bool :=
  id ← leaf_lookup l k;
  if rid_neb id p then mret false
  else
    removed ← leaf_remove heap l k p;
    least ← min_size l;
    fuel ← tree_fuel;
    _ ← when ((if (removed : bool) then 1 else 0) <? least) (coalesce_or_redistribute fuel LeafNode l);
    mret true.

(** b_plus_tree::remove *)
Definition tree_remove (k : Z) (p : rid) : M (b_plus_tree P) bool :=
  e ← is_empty;
  if (e : bool) then mret false
  else l ← find_leaf_node k; remove_entry l k p.

(** b_plus_tree::update *)
Definition tree_update (k : Z) (oldp newp : rid) : M (b_plus_tree P) bool :=
  id ← tree_find k;
  if rid_eqb id (mk_rid (-1) (-1)) then mret false
  else
    ok ← tree_remove k oldp;
    if negb ok then mret false
    else _ ← tree_insert k newp; undef missing_return.

(** b_plus_tree::destroy *)
Definition tree_destroy : M (b_plus_tree P) unit :=
  r ← gets root_;
  _ ← is_leaf r;
  _ ← delete_node r;
  modify (set_root None).

(** b_plus_tree::fetch_node *)
Definition fetch_node (page : Z) : M (b_plus_tree P) Z :=
  _ ← in_pages (ip_get_this_page page);
  new_plain_node uninit uninit_next addr (mk_rid page (-1)).

(** index_handle::search, insert_entry and delete_entry *)
Definition index_handle_search (data : Z) : M (b_plus_tree P) rid := tree_find data.
Definition insert_entry (data : Z) (id : rid) : M (b_plus_tree P) unit := tree_insert data id.
Definition index_delete_entry (data : Z) (id : rid) : M (b_plus_tree P) bool := tree_remove data id.
End operations.

(** * What the tree leaves alone *)

(** The part of the header the tree would have to keep up to date. *)
Definition recorded_root (h : index_header) : Z * Z := (root_page h, ih_height h).

(** No page operation changes where the header says the root is. *)
Class KeepsRoot (P : Type) `{IndexPages P} : Prop := {
  kr_allocate : keeps (fun p => recorded_root (ip_header p)) ip_allocate_page;
  kr_get page : keeps (fun p => recorded_root (ip_header p)) (ip_get_this_page page);
  kr_unpin page : keeps (fun p => recorded_root (ip_header p)) (ip_unpin_page page);
  kr_mark page : keeps (fun p => recorded_root (ip_header p)) (ip_mark_dirty page);
  kr_dispose page : keeps (fun p => recorded_root (ip_header p)) (ip_dispose_page page);
}.

Lemma keeps_in_file {U A X} (f : index_header -> X) (x : M (file_state U) A) :
  keeps (fun s : index_state U => f (index_header_ (is_handle s))) (in_file x).
Proof. intros s. unfold in_file. destruct (file_handle_ (is_handle s)); [|done]. by destruct (x _). Qed.

(** index_handle promises that, if the missing get_this_page does. *)
Lemma index_handle_keeps_root {U} `{Unix U} (g : Z -> M (index_state U) page_handle) :
  (forall page, keeps (fun s => recorded_root (index_header_ (is_handle s))) (g page)) ->
  @KeepsRoot (index_state U) (index_handle_pages g).
Proof.
  intros Hg. split; cbn; try done.
  - unfold index_allocate_page. apply keeps_bind; [apply keeps_in_file|intros; apply keeps_ret].
  - intros page. apply keeps_in_file.
  - intros page. apply keeps_in_file.
  - intros page. unfold index_dispose_page. apply keeps_bind; [apply keeps_in_file|]. intros _ s.
    unfold mbind, M_bind, gets, int_of, modify. destruct (int_ok _); [|done]. cbn. by destruct (0 <? _).
Qed.

Section root.
Context {P : Type} `{KeepsRoot P}.
Context (heap : Z -> list byte) (uninit : Z -> index_page) (uninit_next : Z -> node_ptr) (addr : Z -> Z).

Definition tree_root (t : b_plus_tree P) : Z * Z := recorded_root (ip_header (index_pages t)).

Lemma keeps_in_pages {A} (x : M P A) : keeps (fun p => recorded_root (ip_header p)) x -> keeps tree_root (in_pages x).
Proof. intros Hx t. specialize (Hx (index_pages t)). unfold in_pages, zoom. by destruct (x (index_pages t)). Qed.
Lemma keeps_run_page {A} l n (x : M index_page A) : keeps tree_root (run_page l n x).
Proof. intros t. unfold run_page. by destruct (x (nd_page n)). Qed.
Lemma keeps_node_at p : keeps tree_root (node_at p).
Proof. unfold node_at. keeps. Qed.
#[local] Hint Resolve kr_allocate kr_get kr_unpin kr_mark kr_dispose : keeps.
#[local] Hint Extern 2 (keeps tree_root (in_pages _)) => apply keeps_in_pages; auto with keeps : keeps.
#[local] Hint Resolve keeps_run_page keeps_node_at : keeps.
Lemma keeps_on_page {A} p (x : M index_page A) : keeps tree_root (on_page p x).
Proof. unfold on_page. keeps. Qed.
Lemma keeps_update_node l f : keeps tree_root (update_node l f).
Proof. unfold update_node. keeps. Qed.
#[local] Hint Resolve keeps_on_page keeps_update_node : keeps.

(** Unfolds the methods down to accesses of nodes and pages. *)
Ltac keeps_tree :=
  unfold internal_lookup, neighbor, leaf_insert, leaf_lookup, leaf_remove, leaf_next, set_next, insert_node_after, node_count, page_fuel, entry_at, node_size, min_size, max_size,
    is_leaf, by_class, leaf_min_size, leaf_max_size, internal_min_size, internal_max_size, first_key, is_root, node_parent, set_parent,
    pin_node, mark_dirty_and_unpin_node, new_node, new_plain_node, delete_node, node_key_at, set_key_at, internal_remove, is_empty, tree_fuel, replace_and_return_first_key, populate_new_root in *; keeps.

Lemma keeps_copy fuel i this r : keeps tree_root (copy_loop heap fuel i this r).
Proof. revert i. induction fuel as [|fuel IH]; intros i; cbn [copy_loop]; keeps_tree. Qed.
Lemma keeps_pop fuel i bound this : keeps tree_root (pop_loop heap fuel i bound this).
Proof. revert i. induction fuel as [|fuel IH]; intros i; cbn [pop_loop]; keeps_tree. Qed.
#[local] Hint Resolve keeps_copy keeps_pop : keeps.
Lemma keeps_move_half least this r : keeps tree_root least -> keeps tree_root (move_half heap addr least this r).
Proof. intros Hl. unfold move_half. keeps_tree. Qed.
Lemma keeps_split c n : keeps tree_root (split heap uninit uninit_next addr c n).
Proof.
  unfold split, leaf_move_half_to, internal_move_half_to. keeps_tree; apply keeps_move_half; keeps_tree.
Qed.
#[local] Hint Resolve keeps_split : keeps.
Lemma keeps_leaf_all this r i : keeps tree_root (leaf_move_all_to heap addr this r i).
Proof. unfold leaf_move_all_to. keeps_tree. Qed.
Lemma keeps_internal_all this r i : keeps tree_root (internal_move_all_to heap addr this r i).
Proof. unfold internal_move_all_to. keeps_tree. Qed.
#[local] Hint Resolve keeps_leaf_all keeps_internal_all : keeps.
Lemma keeps_redistribute c nb n p i : keeps tree_root (redistribute heap addr c nb n p i).
Proof.
  unfold redistribute, leaf_move_last_to_front_of, leaf_move_first_to_end_of, internal_move_last_to_front_of,
    internal_move_first_to_end_of. keeps_tree.
Qed.
Lemma keeps_adjust : keeps tree_root (adjust_root uninit uninit_next addr).
Proof. unfold adjust_root, remove_and_return_only_child. keeps_tree. Qed.
#[local] Hint Resolve keeps_redistribute keeps_adjust : keeps.
Lemma keeps_coalesce f c nb n p i :
  (forall q, keeps tree_root (f q)) -> keeps tree_root (coalesce heap addr f c nb n p i).
Proof. intros Hf. unfold coalesce. keeps_tree. Qed.
Lemma keeps_rebalance fuel c n : keeps tree_root (coalesce_or_redistribute heap uninit uninit_next addr fuel c n).
Proof. revert c n. induction fuel as [|fuel IH]; intros c n; cbn [coalesce_or_redistribute]; keeps_tree. by apply keeps_coalesce. Qed.
#[local] Hint Resolve keeps_rebalance : keeps.
Lemma keeps_descend child fuel i n : (forall q, keeps tree_root (child q)) -> keeps tree_root (descend child fuel i n).
Proof. intros Hc. revert i n. induction fuel as [|fuel IH]; intros i n; cbn [descend]; keeps_tree. Qed.
Lemma keeps_find_leaf_node k : keeps tree_root (find_leaf_node uninit uninit_next addr k).
Proof. unfold find_leaf_node, find_leaf. keeps_tree. apply keeps_descend. keeps_tree. Qed.
#[local] Hint Resolve keeps_find_leaf_node : keeps.
Lemma keeps_insert_parent fuel n k n1 : keeps tree_root (insert_in_parent heap uninit uninit_next addr fuel n k n1).
Proof. revert n k n1. induction fuel as [|fuel IH]; intros n k n1; cbn [insert_in_parent]; keeps_tree. Qed.
#[local] Hint Resolve keeps_insert_parent : keeps.

Lemma keeps_tree_insert k p : keeps tree_root (tree_insert heap uninit uninit_next addr k p).
Proof. unfold tree_insert, insert_in_leaf. keeps_tree. Qed.
Lemma keeps_tree_remove k p : keeps tree_root (tree_remove heap uninit uninit_next addr k p).
Proof. unfold tree_remove, remove_entry. keeps_tree. Qed.
Lemma keeps_tree_find k : keeps tree_root (tree_find heap uninit uninit_next addr k).
Proof. unfold tree_find. keeps_tree. Qed.
End root.

(** * Histories of an index *)

Inductive index_op := IInsert (key : Z) (id : rid) | IDelete (key : Z) (id : rid) | ISearch (key : Z).

Section histories.
Context {P : Type} `{IndexPages P}.
Context (heap : Z -> list byte) (uninit : Z -> index_page) (uninit_next : Z -> node_ptr) (addr : Z -> Z).

Definition run_index_op (o : index_op) : M (b_plus_tree P) unit :=
  match o with
  | IInsert k id => insert_entry heap uninit uninit_next addr k id
  | IDelete k id => _ ← index_delete_entry heap uninit uninit_next addr k id; mret tt
  | ISearch k => _ ← index_handle_search heap uninit uninit_next addr k; mret tt
  end.

(** The client goes on after an exception. *)
Fixpoint run_index_ops (os : list index_op) : M (b_plus_tree P) unit :=
  match os with
  | [] => mret tt
  | o :: os => _ ← attempt (run_index_op o); run_index_ops os
  end.
End histories.

Lemma keeps_attempt {S A X} (f : S -> X) (x : M S A) : keeps f x -> keeps f (attempt x).
Proof. intros Hx s. specialize (Hx s). unfold attempt. by destruct (x s). Qed.

Lemma keeps_run_index_ops {P} `{KeepsRoot P} heap uninit uninit_next addr os :
  keeps tree_root (run_index_ops heap uninit uninit_next addr os).
Proof.
  induction os as [|o os IH]; cbn [run_index_ops]; [apply keeps_ret|]. apply keeps_bind; [|done]. apply keeps_attempt.
  destruct o; cbn [run_index_op]; [apply keeps_tree_insert|apply keeps_bind; [apply keeps_tree_remove|intros; apply keeps_ret]|
    apply keeps_bind; [apply keeps_tree_find|intros; apply keeps_ret]].
Qed.

(** * The leaf at the root *)

Section one_leaf.
Context {P : Type} `{IndexPages P}.
Context (heap : Z -> list byte) (uninit : Z -> index_page) (uninit_next : Z -> node_ptr) (addr : Z -> Z).
Implicit Types t : b_plus_tree P.

Lemma node_at_some t l n : nodes t !! l = Some n -> node_at (Some l) t = Ret (l, n) t.
Proof. intros Hn. unfold node_at, mbind, M_bind, of_option, gets. cbn. by rewrite Hn. Qed.

(** A method of the format that only reads. *)
Lemma on_page_read {A} t l n (x : M index_page A) a :
  nodes t !! l = Some n -> x (nd_page n) = Ret a (nd_page n) -> on_page (Some l) x t = Ret a t.
Proof.
  intros Hn Hx. unfold on_page, mbind, M_bind. rewrite (node_at_some _ _ _ Hn). unfold run_page. rewrite Hx.
  replace (set_page (nd_page n) n) with n by (by destruct n). unfold set_nodes. rewrite insert_id by done. by destruct t.
Qed.

Lemma find_leaf_node_one t l k : root_ t = Some l -> height_ t = 1 -> find_leaf_node uninit uninit_next addr k t = Ret (Some l) t.
Proof.
  intros Hr Hh. unfold find_leaf_node, find_leaf, is_empty, mbind, M_bind, gets, mret, M_ret. rewrite Hr.
  rewrite bool_decide_eq_false_2 by done. rewrite Hh. cbn. by rewrite Hr.
Qed.

(** How many entries a node says it has. *)
Definition count_of (l : Z) t : option Z := (fun n => hdr_count (hdr (fmt (nd_page n)))) <$> nodes t !! l.

Lemma keeps_count_in_pages {A} l (x : M P A) : keeps (count_of l) (in_pages x).
Proof. unfold in_pages. apply keeps_zoom. by intros p t. Qed.
Lemma keeps_count_node_at l p : keeps (count_of l) (node_at p).
Proof. unfold node_at. keeps. Qed.
Lemma keeps_count_other {A} l l' (x : M index_page A) : l' <> l -> keeps (count_of l) (on_page (Some l') x).
Proof.
  intros Hne t. unfold on_page, mbind, M_bind. destruct (nodes t !! l') as [n|] eqn:Hn.
  - rewrite (node_at_some _ _ _ Hn). unfold run_page, count_of. destruct (x (nd_page n)); try done; cbn; by rewrite lookup_insert_ne.
  - unfold node_at, mbind, M_bind, of_option, gets. cbn. by rewrite Hn.
Qed.

Lemma count_update t l n f :
  nodes t !! l = Some n -> hdr_count (hdr (fmt (nd_page (f n)))) = hdr_count (hdr (fmt (nd_page n))) ->
  forall l', count_of l' (set_nodes (alter f l (nodes t)) t) = count_of l' t.
Proof.
  intros Hn Hf l'. unfold count_of. cbn. destruct (decide (l' = l)) as [->|]; [|by rewrite lookup_alter_ne].
  rewrite lookup_alter_eq, Hn. cbn. by rewrite Hf.
Qed.

Lemma keeps_count_pin l p : keeps (count_of l) (pin_node addr p).
Proof.
  intros t. unfold pin_node, mbind at 1, M_bind at 1. destruct p as [l'|]; [|done].
  destruct (nodes t !! l') as [n|] eqn:Hn; [|unfold node_at, mbind, M_bind, of_option, gets; cbn; by rewrite Hn].
  rewrite (node_at_some _ _ _ Hn). unfold mbind, M_bind, in_pages, zoom.
  destruct (ip_get_this_page (rid_page (page_id_ n)) (index_pages t)); try done. cbn. by apply (count_update (set_pages s t) l' n).
Qed.

(** Reading an entry leaves the node alone. *)
Lemma entry_at_reads i pg a pg' : entry_at i pg = Ret a pg' -> pg' = pg.
Proof.
  unfold entry_at, key_at, rid_at, mbind, M_bind, gets. destruct (read_mem _ 8 pg) as [bs p1| | |] eqn:E1; try done.
  apply mem_read_inv in E1 as (_ & _ & ->). unfold mret at 1, M_ret at 1.
  destruct (read_mem (rids (fmt pg) + sizeof_rid * i) sizeof_rid pg) as [bs2 p2| | |] eqn:E2; try done.
  apply mem_read_inv in E2 as (_ & _ & ->). unfold mret, M_ret. by intros [= _ <-].
Qed.

Lemma post_count_entry l i t : post (on_page (Some l) (entry_at i)) (fun _ t' => count_of l t' = count_of l t) t.
Proof.
  unfold on_page. apply post_bind. unfold post at 1. destruct (nodes t !! l) as [n|] eqn:Hn.
  2:{ unfold node_at, mbind, M_bind, of_option, gets. cbn. by rewrite Hn. }
  rewrite (node_at_some _ _ _ Hn). unfold post, run_page. destruct (entry_at i (nd_page n)) as [a pg| | |] eqn:E; try done.
  apply entry_at_reads in E as ->. unfold count_of. cbn. by rewrite lookup_insert_eq, Hn.
Qed.

Lemma post_count_copy fuel i l r t :
  r <> l -> post (copy_loop heap fuel i (Some l) (Some r)) (fun _ t' => count_of l t' = count_of l t) t.
Proof.
  intros Hne. revert i t. induction fuel as [|fuel IH]; intros i t; cbn [copy_loop];
    apply post_bind; unfold node_count; apply post_bind;
    (eapply post_mono; [apply (post_keeps (count_of l)), keeps_count_node_at|]); intros [? n] t1 H1; cbn [nd_page];
    unfold post at 1; unfold mret at 1, M_ret at 1; destruct (i <? _); try done.
  apply post_bind. eapply post_mono; [apply post_count_entry|]. intros [k id] t2 H2. cbn beta iota.
  apply post_bind. eapply post_mono; [by apply (post_keeps (count_of l)), keeps_count_other|].
  intros b t3 H3. eapply post_mono; [apply IH|]. cbn. congruence.
Qed.

(** The second loop only ends by leaving the page. *)
Lemma pop_loop_stuck fuel i bound l t : bound <= i -> post (pop_loop heap fuel i bound (Some l)) (fun _ _ => False) t.
Proof.
  revert i t. induction fuel as [|fuel IH]; intros i t Hi; cbn [pop_loop]; rewrite (proj2 (Z.leb_le _ _)) by done; [done|].
  apply post_bind. unfold post. destruct (on_page _ _ t) as [[k id] t1| | |]; try done.
  unfold mbind, M_bind. destruct (on_page _ _ t1) as [b t2| | |]; try done. apply IH. lia.
Qed.

(** min_size of a leaf with the fanout every tree has *)
Lemma leaf_min_size_const t : fanout_ t = 0xFFFF -> leaf_min_size t = Ret 32767 t.
Proof. intros Hf. unfold leaf_min_size, mbind, M_bind, gets. by rewrite Hf. Qed.

Lemma keeps_fanout_pin p : keeps fanout_ (pin_node addr p).
Proof. unfold pin_node, node_at, in_pages, update_node. keeps. Qed.

(** Half of a leaf with more entries than its min_size cannot be moved away. *)
Lemma move_half_stuck t l r c :
  r <> l -> fanout_ t = 0xFFFF -> count_of l t = Some c -> 32768 <= c <= INT_MAX ->
  post (leaf_move_half_to heap addr (Some l) (Some r)) (fun _ _ => False) t.
Proof.
  intros Hne Hf Hc Hr. unfold leaf_move_half_to, move_half. apply post_bind.
  eapply post_mono; [apply (post_keeps (fun t => (fanout_ t, count_of l t))); intros s; pose proof (keeps_fanout_pin (Some l) s);
    pose proof (keeps_count_pin l (Some l) s); destruct (pin_node _ _ s); congruence|].
  intros [] t1 [= Hf1 Hc1]. apply post_bind.
  eapply post_mono; [apply (post_keeps (fun t => (fanout_ t, count_of l t))); intros s; pose proof (keeps_fanout_pin (Some r) s);
    pose proof (keeps_count_pin l (Some r) s); destruct (pin_node _ _ s); congruence|].
  intros [] t2 [= Hf2 Hc2]. apply post_bind. unfold post at 1. rewrite leaf_min_size_const by congruence.
  apply post_bind. eapply post_mono; [apply (post_keeps (count_of l)); unfold page_fuel; apply keeps_bind;
    [apply keeps_count_node_at|intros []; apply keeps_ret]|]. intros fuel t3 Hc3.
  apply post_bind. eapply post_mono; [by apply post_count_copy|]. intros [] t4 Hc4. cbn beta in *.
  assert (count_of l t4 = Some c) as Hc5 by congruence. unfold count_of in Hc5.
  destruct (nodes t4 !! l) as [n|] eqn:Hn; [|done]. cbn in Hc5. injection Hc5 as Hcn.
  apply post_bind. unfold node_count, post at 1, mbind at 1, M_bind at 1. rewrite (node_at_some _ _ _ Hn). unfold mret, M_ret. rewrite Hcn.
  apply post_bind, post_int_of. apply post_bind. eapply post_mono; [apply pop_loop_stuck|done].
  unfold to_unsigned. rewrite !Z.mod_small; unfold INT_MAX in *; lia.
Qed.
End one_leaf.

(** * Properties *)

(** C13. What is inserted into an index is never recorded: no history of
    insertions, deletions and searches changes the root page and the height in the
    header of the handle, so the tree made for an index that was empty when it was
    opened is empty again after closing and opening, whatever was inserted. *)
Theorem index_root_never_recorded {U} `{Unix U} (g : Z -> M (index_state U) page_handle)
    (heap : Z -> list byte) (uninit : Z -> index_page) (uninit_next : Z -> node_ptr) (addr : Z -> Z) (height : Z)
    (os : list index_op) (t t' : b_plus_tree (index_state U)) :
  (forall page, keeps (fun s => recorded_root (index_header_ (is_handle s))) (g page)) ->
  ih_height (index_header_ (is_handle (index_pages t))) <= 0 ->
  @run_index_ops _ (index_handle_pages g) heap uninit uninit_next addr os t = Ret tt t' ->
  recorded_root (index_header_ (is_handle (index_pages t'))) = recorded_root (index_header_ (is_handle (index_pages t))) /\
  exists t0, @tree_new _ (index_handle_pages g) uninit uninit_next height (index_pages t') = Ret t0 (index_pages t') /\ root_ t0 = None.
Proof.
  intros Hg Hh Hrun. pose proof (index_handle_keeps_root g Hg) as K.
  pose proof (@keeps_run_index_ops _ (index_handle_pages g) K heap uninit uninit_next addr os t) as Hk. rewrite Hrun in Hk.
  split; [done|]. unfold tree_new. cbn [ip_header index_handle_pages]. unfold tree_root, recorded_root in Hk. cbn in Hk. injection Hk as _ Hk.
  rewrite Hk, (proj2 (Z.ltb_ge _ _)) by done. eexists. split; reflexivity.
Qed.

(** An empty index on an empty file, and memory in which the first insertion works. *)
Definition empty_index : index_state MemFs :=
  mk_index_state MemFs (index_handle_new (empty_handle 3) (mk_index_header 0 (-1) 12 341 0 1 4)) empty_bm.
Definition lucky_page (_ : Z) : index_page :=
  mk_index_page (mk_index_format 1040 1040 1060 (mk_index_page_hdr 0 0 0 0) INT 4 INT) 1000 (replicate 100 Byte.x00).

Lemma index_root_never_recorded_witness :
  exists t', @run_index_ops _ (index_handle_pages (fun p => in_file (get_this_page p))) (fun _ => int_bytes 7) lucky_page (fun _ => None) (fun _ => 0)
      [IInsert 5 (mk_rid 1 2); IDelete 9 (mk_rid 3 4)] (mk_tree _ empty_index ∅ 1 1 0xFFFF None) = Ret tt t' /\ is_Some (root_ t') /\
    exists t0, @tree_new _ (index_handle_pages (fun p => in_file (get_this_page p))) lucky_page (fun _ => None) 1 (index_pages t') =
      Ret t0 (index_pages t') /\ root_ t0 = None.
Proof.
  destruct (@run_index_ops _ (index_handle_pages (fun p => in_file (get_this_page p))) (fun _ => int_bytes 7) lucky_page (fun _ => None) (fun _ => 0)
    [IInsert 5 (mk_rid 1 2); IDelete 9 (mk_rid 3 4)] (mk_tree _ empty_index ∅ 1 1 0xFFFF None)) as [[] t'| | |] eqn:E;
    [|vm_compute in E; discriminate E..].
  exists t'. split; [done|]. split; [vm_compute in E; injection E as <-; by eexists|].
  refine (proj2 (index_root_never_recorded (fun p => in_file (get_this_page p)) _ _ _ _ 1 _ _ t' _ _ E)); [|done].
  intros page. apply keeps_in_file.
Defined.

(** In a tree that is one leaf, with all its keys and rids readable and the keys comparable
    and strictly sorted, find is correct: it returns the rid stored with
    a key that compares equal to the one looked for, and (-1, -1) exactly when the
    leaf has no such key, and changes nothing. *)
Theorem tree_find_one_leaf {P} `{IndexPages P} (heap : Z -> list byte) (uninit : Z -> index_page) (uninit_next : Z -> node_ptr)
    (addr : Z -> Z) (t : b_plus_tree P) (l : Z) (n : node) (ks : list Z) (rs : list rid) (key : Z) :
  let p := nd_page n in let f := fmt p in
  let cmp a b := compare_value (cmptr f) (key_tuple heap f a) (key_tuple heap f b) in
  root_ t = Some l -> height_ t = 1 -> nodes t !! l = Some n ->
  Z.of_nat (length ks) = Z.max 0 (hdr_count (hdr f) - 1) -> 0 <= hdr_count (hdr f) < 2 ^ 30 -> length rs = length ks ->
  (forall j k, ks !! j = Some k -> key_at (Z.of_nat j) p = Ret k p) ->
  (forall j r, rs !! j = Some r -> rid_at (Z.of_nat j) p = Ret r p) ->
  (forall k, k ∈ key :: ks -> comparable (cmptr f) (key_tuple heap f k)) ->
  StronglySorted (fun a b => cmp a b < 0) ks ->
  exists r, tree_find heap uninit uninit_next addr key t = Ret r t /\
    ((exists j k, ks !! j = Some k /\ cmp k key = 0 /\ rs !! j = Some r) \/
     (r = mk_rid (-1) (-1) /\ forall k, k ∈ ks -> cmp k key <> 0)).
Proof.
  intros p f cmp Hr Hh Hn Hlen Hc Hrs Hk Hrid Hcmp Hs.
  destruct (find_in_leaf_spec heap p ks key Hlen Hc Hk Hcmp Hs) as (i & Hi & Hcase).
  unfold tree_find, mbind at 1, M_bind at 1. rewrite (find_leaf_node_one _ _ _ _ l) by done.
  unfold mbind at 1, M_bind at 1. rewrite (on_page_read t l n _ i) by done.
  destruct Hcase as [(k & Hi0 & Hki & Heq)|[-> Hnone]].
  - destruct (Z.eqb_spec i (-1)); [lia|]. destruct (lookup_lt_is_Some_2 rs (Z.to_nat i)) as [r Hri].
    { rewrite Hrs. by apply lookup_lt_Some in Hki. }
    pose proof (Hrid _ _ Hri) as Hread. rewrite Z2Nat.id in Hread by done.
    exists r. split; [by apply (on_page_read t l n)|]. left. by exists (Z.to_nat i), k.
  - exists (mk_rid (-1) (-1)). split; [done|]. by right.
Qed.

(** A leaf with the keys 10 and 20 at the addresses 1 and 2. *)
Definition two_key_leaf : node :=
  mk_node LeafNode (mk_rid 1 (-1)) None page_handle_new
    (mk_index_page (mk_index_format 1000 1000 1100 (mk_index_page_hdr 3 0 0 0) INT 4 INT) 1000
      (rid_bytes (mk_rid 7 0) ++ rid_bytes (mk_rid 8 1) ++ replicate 84 Byte.x00 ++ le_encode 8 1 ++ le_encode 8 2)) None.
Definition small_ints (a : Z) : list byte := int_bytes (if a =? 1 then 10 else 20).

Lemma tree_find_one_leaf_witness :
  exists r, @tree_find _ (index_handle_pages (fun p => in_file (get_this_page p))) small_ints lucky_page (fun _ => None) (fun _ => 0) 2
      (mk_tree _ empty_index {[ 5 := two_key_leaf ]} 6 1 0xFFFF (Some 5)) = Ret r (mk_tree _ empty_index {[ 5 := two_key_leaf ]} 6 1 0xFFFF (Some 5)) /\
    r = mk_rid 8 1.
Proof.
  destruct (@tree_find_one_leaf _ (index_handle_pages (fun p => in_file (get_this_page p))) small_ints lucky_page (fun _ => None) (fun _ => 0)
    (mk_tree _ empty_index {[ 5 := two_key_leaf ]} 6 1 0xFFFF (Some 5)) 5 two_key_leaf [1; 2] [mk_rid 7 0; mk_rid 8 1] 2) as (r & Hr & Hcase);
    try done.
  - intros [|[|j]] k Hk; cbn in Hk; simplify_eq; vm_compute; reflexivity.
  - intros [|[|j]] k Hk; cbn in Hk; simplify_eq; vm_compute; reflexivity.
  - intros k Hk. vm_compute. lia.
  - repeat constructor.
  - exists r. split; [done|]. vm_compute in Hr. by injection Hr.
Defined.

(** ** Trees of more than one level *)

Section deep_search.
Context {P : Type} `{IndexPages P}.
Context (heap : Z -> list byte) (uninit : Z -> index_page) (uninit_next : Z -> node_ptr) (addr : Z -> Z).
Implicit Types t : b_plus_tree P.

(** The page that a node made with [new node] at an address looks at *)
Definition fresh_page (l : Z) : index_page := nd_page (with_base addr (new_object uninit uninit_next l PlainNode None rid_null)).

(** What find does with the leaf it comes to *)
Definition search_page (k : Z) : M index_page rid :=
  i ← find_in_leaf heap k; if i =? -1 then mret (mk_rid (-1) (-1)) else rid_at i.

Definition fresh_leaf (n : node_ptr) t : Prop := exists l nd, n = Some l /\ nodes t !! l = Some nd /\ nd_page nd = fresh_page l.

Lemma post_neighbor this i t : post (neighbor uninit uninit_next addr this i) (fun c => fresh_leaf (Some c)) t.
Proof.
  unfold neighbor. apply post_bind. unfold post at 1. destruct (on_page this (rid_at i) t) as [id t1| | |]; try done.
  unfold new_plain_node. apply post_bind, post_gets, post_bind, post_modify.
  eexists _, _. split; [done|]. split; [apply lookup_insert_eq|done].
Qed.

Lemma post_lookup this k t : post (internal_lookup uninit uninit_next addr this k) (fun c => fresh_leaf (Some c)) t.
Proof.
  unfold internal_lookup. apply post_bind. unfold post at 1.
  destruct (on_page this (find_in_internal k) t) as [idx t1| | |]; try done. apply post_neighbor.
Qed.

Lemma post_descend child fuel i n t :
  (forall this t, post (child this) (fun c => fresh_leaf (Some c)) t) -> post (descend child fuel i n) fresh_leaf t.
Proof.
  intros Hc. revert i n t. induction fuel as [|fuel IH]; intros i n t; cbn [descend];
    apply post_bind, post_gets; destruct (i <? _); try done.
  apply post_bind. unfold post at 1. destruct (node_at n t) as [[l nd] t1| | |]; try done.
  apply post_bind. unfold post at 1. destruct (in_pages _ t1) as [ph t2| | |]; try done.
  apply post_bind. eapply post_mono; [apply Hc|]. intros c t3 Hf. apply post_bind, post_int_of.
  destruct (i =? _); [exact Hf|]. apply post_bind. unfold post at 1. destruct (when _ _ t3) as [u t4| | |]; done.
Qed.

Lemma post_find_leaf child t l :
  (forall this t, post (child this) (fun c => fresh_leaf (Some c)) t) -> root_ t = Some l -> height_ t <> 1 ->
  post (find_leaf child) fresh_leaf t.
Proof.
  intros Hc Hr Hh. unfold find_leaf, is_empty. apply post_bind, post_bind, post_gets. rewrite Hr, bool_decide_eq_false_2 by done.
  unfold post at 1, mret at 1, M_ret at 1. apply post_bind, post_gets, post_bind, post_gets.
  rewrite (proj2 (Z.eqb_neq _ _) Hh). by apply post_descend.
Qed.

Lemma post_search n k t :
  fresh_leaf n t ->
  post (i ← on_page n (find_in_leaf heap k); if i =? -1 then mret (mk_rid (-1) (-1)) else on_page n (rid_at i))
    (fun r _ => exists l pg, search_page k (fresh_page l) = Ret r pg) t.
Proof.
  intros (l & nd & -> & Hn & Hp). apply post_bind. unfold post at 1, on_page at 1, mbind at 1, M_bind at 1. rewrite (node_at_some _ _ _ Hn).
  unfold run_page. rewrite Hp. destruct (find_in_leaf heap k (fresh_page l)) as [i pg| | |] eqn:E; try done.
  destruct (Z.eqb_spec i (-1)) as [->|Hi].
  - exists l, pg. unfold search_page, mbind, M_bind. by rewrite E.
  - unfold post, on_page, mbind at 1, M_bind at 1. rewrite (node_at_some _ l (set_page pg nd)) by (cbn; apply lookup_insert_eq).
    unfold run_page. cbn [nd_page set_page]. destruct (rid_at i pg) as [r pg'| | |] eqn:Er; try done.
    exists l, pg'. unfold search_page, mbind, M_bind. rewrite E. by rewrite (proj2 (Z.eqb_neq _ _) Hi).
Qed.
End deep_search.

(** C21. In a tree of any other height than one, find answers from memory that was
    never initialised: every child is a new node object whose format nobody fills from
    its page, so whatever the tree, its pages and the page files hold, an answer of find
    is the answer of a search in what the memory of some new object happened to hold. *)
Theorem deep_search_uninitialised {P} `{IndexPages P} (heap : Z -> list byte) (uninit : Z -> index_page) (uninit_next : Z -> node_ptr)
    (addr : Z -> Z) (t t' : b_plus_tree P) (l k : Z) (r : rid) :
  root_ t = Some l -> height_ t <> 1 -> tree_find heap uninit uninit_next addr k t = Ret r t' ->
  exists loc pg, search_page heap k (fresh_page uninit uninit_next addr loc) = Ret r pg.
Proof.
  intros Hr Hh. refine (post_ret _ (fun r _ => exists loc pg, search_page heap k (fresh_page uninit uninit_next addr loc) = Ret r pg) t r t' _).
  unfold tree_find. apply post_bind. eapply post_mono; [|intros n t1; apply post_search].
  apply (post_find_leaf uninit uninit_next addr _ t l); [intros; apply post_lookup|done..].
Qed.

(** A root above two leaves, and new objects on memory that looks like a page with one
    key, the one looked for *)
Definition deep_root : node :=
  mk_node InternalNode (mk_rid 1 (-1)) None page_handle_new
    (mk_index_page (mk_index_format 1000 1000 1100 (mk_index_page_hdr 2 0 0 0) INT 4 INT) 1000
      (rid_bytes (mk_rid 2 (-1)) ++ rid_bytes (mk_rid 3 (-1)) ++ replicate 84 Byte.x00 ++ le_encode 8 2)) None.
Definition stale_page (_ : Z) : index_page :=
  mk_index_page (mk_index_format 1000 1000 1100 (mk_index_page_hdr 2 0 0 0) INT 4 INT) 1000
    (rid_bytes (mk_rid 9 9) ++ rid_bytes (mk_rid 8 8) ++ replicate 84 Byte.x00 ++ le_encode 8 2).

Lemma deep_search_uninitialised_witness :
  let pages := index_handle_pages (fun _ => mret page_handle_new) in
  exists t', @tree_find _ pages small_ints stale_page (fun _ => None) (fun _ => 0) 2
      (mk_tree _ empty_index {[ 5 := deep_root ]} 6 2 0xFFFF (Some 5)) = Ret (mk_rid 9 9) t' /\
    exists loc pg, search_page small_ints 2 (fresh_page stale_page (fun _ => None) (fun _ => 0) loc) = Ret (mk_rid 9 9) pg.
Proof.
  intros pages. destruct (@tree_find _ pages small_ints stale_page (fun _ => None) (fun _ => 0) 2
    (mk_tree _ empty_index {[ 5 := deep_root ]} 6 2 0xFFFF (Some 5))) as [r t'| | |] eqn:E; [|vm_compute in E; discriminate E..].
  assert (r = mk_rid 9 9) as -> by (vm_compute in E; by injection E as <- _).
  exists t'. split; [done|]. by apply (deep_search_uninitialised small_ints stale_page (fun _ => None) (fun _ => 0) _ t' 5 2 (mk_rid 9 9)) in E.
Defined.

(** A full leaf is never split: when the root is a leaf that has reached its
    max_size, insert of any key does not return normally.  move_half_to copies the
    upper half and then counts the index up instead of down, so its second loop runs
    until it leaves the page. *)
Theorem full_leaf_insert_never_returns {P} `{IndexPages P} (heap : Z -> list byte) (uninit : Z -> index_page)
    (uninit_next : Z -> node_ptr) (addr : Z -> Z) (t : b_plus_tree P) (l : Z) (n : node) (key : Z) (id : rid) :
  root_ t = Some l -> height_ t = 1 -> fanout_ t = 0xFFFF -> nodes t !! l = Some n -> nd_class n = LeafNode ->
  new_loc t <> l -> 65534 <= hdr_count (hdr (fmt (nd_page n))) <= INT_MAX ->
  post (tree_insert heap uninit uninit_next addr key id) (fun _ _ => False) t.
Proof.
  intros Hr Hh Hf Hn Hcl Hne Hc. unfold tree_insert. apply post_bind. unfold is_empty. apply post_bind, post_gets.
  rewrite Hr, bool_decide_eq_false_2 by done. unfold post at 1, mret at 1, M_ret at 1.
  apply post_bind. unfold post at 1. rewrite (find_leaf_node_one _ _ _ _ l) by done.
  apply post_bind. unfold post at 1, node_size, mbind at 1, M_bind at 1. rewrite (node_at_some _ _ _ Hn), Hcl. unfold mret at 1, M_ret at 1.
  apply post_bind. unfold post at 1, max_size, by_class, mbind at 1, M_bind at 1. rewrite (node_at_some _ _ _ Hn), Hcl.
  unfold leaf_max_size, mbind, M_bind, gets. rewrite Hf. cbn [int_of]. change (int_of (65535 - 1) t) with (@Ret (b_plus_tree P) Z 65534 t).
  cbv beta iota. rewrite (proj2 (Z.ltb_ge _ _)) by lia. apply post_bind. unfold split. apply post_bind. unfold post at 1, in_pages, zoom.
  destruct (ip_allocate_page (index_pages t)) as [page p1| | |]; try done. apply post_bind. unfold post at 1.
  change (index_pages (set_pages p1 t)) with p1. destruct (ip_get_this_page page p1) as [ph p2| | |]; try done.
  apply post_bind. unfold post at 1, node_parent, mbind at 1, M_bind at 1. rewrite (node_at_some (set_pages p2 (set_pages p1 t)) l n Hn).
  unfold mret at 1, M_ret at 1. apply post_bind. unfold new_node. apply post_bind, post_gets, post_bind, post_modify. unfold post at 1, mret at 1, M_ret at 1.
  apply post_bind. eapply post_mono; [apply (move_half_stuck _ _ _ l _ (hdr_count (hdr (fmt (nd_page n)))))|done]; cbn; try done.
  - unfold count_of. cbn. rewrite lookup_insert_ne by done. by rewrite Hn.
  - lia.
Qed.

(** A leaf that says it is full. *)
Definition full_leaf : node :=
  mk_node LeafNode (mk_rid 1 (-1)) None page_handle_new
    (mk_index_page (mk_index_format 1000 1000 1100 (mk_index_page_hdr 65534 0 0 0) INT 4 INT) 1000 []) None.

Lemma full_leaf_insert_never_returns_witness :
  post (@tree_insert _ (index_handle_pages (fun p => in_file (get_this_page p))) small_ints lucky_page (fun _ => None) (fun _ => 0) 2 (mk_rid 9 9))
    (fun _ _ => False) (mk_tree _ empty_index {[ 5 := full_leaf ]} 6 1 0xFFFF (Some 5)).
Proof.
  apply (@full_leaf_insert_never_returns _ (index_handle_pages (fun p => in_file (get_this_page p))) small_ints lucky_page (fun _ => None) (fun _ => 0)
    _ 5 full_leaf 2 (mk_rid 9 9)); done.
Defined.
