(* ===== verification/IndexIterator.v ===== *)
(** Index scans: src/index/b+tree/index_iterator.{h,cc}. *)
From S2P Require Import Prelude HashTable Unix BufferManager FileHandle Comparator Rid Memory IndexFormat IndexHandle TreeNodes BPlusTree.

Record index_iterator {P : Type} := mk_index_iterator {
  ii_tree : b_plus_tree P;
  ii_criterion : criterion;
  ii_comparator : data_type;      (* the type the comparator was made with *)
  descending_ : bool;
  next_is_null_ : bool;
  found_one_ : bool;
  start_ : node_ptr;
  end_ : node_ptr;
  current_ : node_ptr;
  ii_now : rid;
}.
Arguments index_iterator : clear implicits.

Section setters.
Context {P : Type}.
Implicit Types i : index_iterator P.
Definition set_tree (t : b_plus_tree P) i : index_iterator P :=
  mk_index_iterator P t (ii_criterion i) (ii_comparator i) (descending_ i) (next_is_null_ i) (found_one_ i) (start_ i) (end_ i) (current_ i) (ii_now i).
Definition set_flags (null found : bool) i : index_iterator P :=
  mk_index_iterator P (ii_tree i) (ii_criterion i) (ii_comparator i) (descending_ i) null found (start_ i) (end_ i) (current_ i) (ii_now i).
Definition set_range (s e : node_ptr) i : index_iterator P :=
  mk_index_iterator P (ii_tree i) (ii_criterion i) (ii_comparator i) (descending_ i) (next_is_null_ i) (found_one_ i) s e (current_ i) (ii_now i).
Definition set_current (c : node_ptr) i : index_iterator P :=
  mk_index_iterator P (ii_tree i) (ii_criterion i) (ii_comparator i) (descending_ i) (next_is_null_ i) (found_one_ i) (start_ i) (end_ i) c (ii_now i).
Definition set_position (now : rid) i : index_iterator P :=
  mk_index_iterator P (ii_tree i) (ii_criterion i) (ii_comparator i) (descending_ i) (next_is_null_ i) (found_one_ i) (start_ i) (end_ i) (current_ i) now.
End setters.

Section operations.
Context {P : Type} `{IndexPages P}.
Context (heap : Z -> list byte) (uninit : Z -> index_page) (uninit_next : Z -> node_ptr) (addr : Z -> Z).

Definition in_tree {A} (x : M (b_plus_tree P) A) : M (index_iterator P) A := zoom ii_tree set_tree x.

Definition is_lower (c : criterion_type) : bool := bool_decide (c = GREATER_EQUAL) || bool_decide (c = GREATER_THAN).
Definition is_upper (c : criterion_type) : bool := bool_decide (c = LESS_EQUAL) || bool_decide (c = LESS_THAN).

(** The ends of the scan that the constructor chooses. *)
Definition set_ends : M (index_iterator P) unit :=
  i ← gets (fun i => i);
  let c := cr_type (ii_criterion i) in
  let val := address (cr_val (ii_criterion i)) in
  _ ← when (is_lower c)
    (if descending_ i then
       s ← in_tree (find_largest_leaf_node uninit uninit_next addr);
       e ← in_tree (find_leaf_node uninit uninit_next addr val);
       modify (set_range s e)
     else
       s ← in_tree (find_leaf_node uninit uninit_next addr val);
       e ← in_tree (find_largest_leaf_node uninit uninit_next addr);
       modify (set_range s e));
  _ ← when (is_upper c)
    (s ← in_tree (find_smallest_leaf_node uninit uninit_next addr);
     e ← in_tree (find_leaf_node uninit uninit_next addr val);
     modify (set_range s e));
  when (bool_decide (c = EQUAL)) (modify (fun i => set_range (start_ i) None i)).

(** index_iterator::index_iterator: [height] is the uninitialised height_ of the new
    tree, [start], [stop] and [cur] the uninitialised pointers. *)
Definition index_iterator_new (height : Z) (start stop cur : node_ptr) (cri : criterion) (desc : bool) : M P (index_iterator P) := fun p =>
  match tree_new uninit uninit_next height p with
  | Ret t p =>
      let i := mk_index_iterator P t cri (ct_type (cd_type (cr_coldef cri))) desc true false start stop cur (mk_rid (-1) (-1)) in
      let finish : M (index_iterator P) unit :=
        _ ← set_ends;
        i ← gets (fun i => i);
        '(_, n) ← in_tree (node_at (start_ i));
        if desc then
          s ← in_tree (node_size (start_ i));
          last ← int_of (s - 2);
          modify (set_position (mk_rid (rid_page (page_id_ n)) last))
        else modify (set_position (mk_rid (rid_page (page_id_ n)) 0)) in
      match finish i with
      | Ret _ i => Ret i (index_pages (ii_tree i))
      | Exc e i => Exc e (index_pages (ii_tree i))
      | Undef r => Undef r
      | Blocked => Blocked
      end
  | Exc e p => Exc e p
  | Undef r => Undef r
  | Blocked => Blocked
  end.

(** index_iterator::begin, end and reset *)
Definition index_begin : M (index_iterator P) rid := gets ii_now.
Definition index_end : rid := mk_rid (-1) (-1).
Definition index_reset : M (index_iterator P) unit := modify (set_position (mk_rid (-1) (-1))).

(** index_iterator::can_stop_now: nothing is returned when no case applies. *)
Definition can_stop_now (now : Z) : M (index_iterator P) bool :=
  i ← gets (fun i => i);
  let c := cr_type (ii_criterion i) in
  if bool_decide (c = NOT_EQUAL) then mret false
  else
    let len := ct_length (cd_type (cr_coldef (ii_criterion i))) in
    cmp ← compare (ii_comparator i) (mk_cptr now (heap now), len) (cr_val (ii_criterion i), len);
    if bool_decide (c = EQUAL) && negb (cmp =? 0) then mret true
    else if bool_decide (c = GREATER_EQUAL) && (cmp <? 0) && descending_ i then mret true
    else if bool_decide (c = GREATER_THAN) && (cmp <=? 0) && descending_ i then mret true
    else if bool_decide (c = LESS_EQUAL) && (0 <? cmp) && negb (descending_ i) then mret true
    else if bool_decide (c = LESS_THAN) && (0 <=? cmp) && negb (descending_ i) then mret true
    else undef missing_return.

(** index_iterator::fit *)
Definition index_fit (id : rid) (cs : criterion) : M (index_iterator P) bool :=
  i ← gets (fun i => i);
  k ← in_tree (on_page (current_ i) (key_at (rid_slot id)));
  criterion_eval cs (mk_cptr k (heap k)).

(** The inner loop of next over the slots of the current leaf: a result to return,
    or None when the leaf is exhausted.  Every round reads other bytes of the page. *)
Fixpoint slot_loop (fuel : nat) (j : Z) : M (index_iterator P) (option rid) :=
  i ← gets (fun i => i);
  s ← in_tree (node_size (current_ i));
  last ← int_of (s - 1);
  if j <? to_unsigned 64 last then
    match fuel with
    | O => blocked
    | S fuel =>
        let slot := to_signed 32 j in
        _ ← modify (fun i => set_position (mk_rid (rid_page (ii_now i)) slot) i);
        k ← in_tree (on_page (current_ i) (key_at j));
        ok ← criterion_eval (ii_criterion i) (mk_cptr k (heap k));
        if (ok : bool) then
          _ ← modify (fun i => set_flags (next_is_null_ i) true i);
          '(_, n) ← in_tree (node_at (current_ i));
          mret (Some (mk_rid (rid_page (page_id_ n)) slot))
        else
          stop ← (if found_one_ i then can_stop_now k else mret false);
          if (stop : bool) then mret (Some (mk_rid (-2) (-2))) else slot_loop fuel (j + 1)
    end
  else mret None.

(** The outer loop of next; [fuel] bounds the leaves visited. *)
Fixpoint leaf_scan (fuel : nat) : M (index_iterator P) rid :=
  i ← gets (fun i => i);
  if negb (next_is_null_ i) then
    match fuel with
    | O => blocked
    | S fuel =>
        '(_, c) ← in_tree (node_at (current_ i));
        '(_, e) ← in_tree (node_at (end_ i));
        _ ← when (rid_page (page_id_ c) =? rid_page (page_id_ e)) (modify (fun i => set_flags true (found_one_ i) i));
        _ ← in_tree (pin_node addr (current_ i));
        n ← in_tree (page_fuel (current_ i));
        now ← gets ii_now;
        r ← slot_loop n (to_unsigned 64 (rid_slot now));
        match r with
        | Some id => mret id
        | None =>
            s ← in_tree (node_size (current_ i));
            last ← int_of (s - 1);
            next ← in_tree (on_page (current_ i) (rid_at last));
            _ ← modify (set_position next);
            _ ← in_tree (unpin_node (current_ i));
            _ ← in_tree (delete_node (current_ i));
            _ ← modify (set_current None);
            l ← in_tree (new_node uninit uninit_next LeafNode None next);
            _ ← modify (set_current (Some l));
            leaf_scan fuel
        end
    end
  else mret (mk_rid (-1) (-1)).

(** index_iterator::next *)
Definition index_next (fuel : nat) : M (index_iterator P) rid :=
  _ ← modify (fun i => set_current (start_ i) i);
  leaf_scan fuel.
End operations.

(** * Properties *)

(** What a client of a scan can do. *)
Inductive scan_op := SBegin | SNext | SReset.

Section scan.
Context {P : Type} `{IndexPages P}.
Context (heap : Z -> list byte) (uninit : Z -> index_page) (uninit_next : Z -> node_ptr) (addr : Z -> Z).

(** The results of the calls to next. *)
Fixpoint run_scan (os : list scan_op) : M (index_iterator P) (list rid) :=
  match os with
  | [] => mret []
  | SBegin :: os => _ ← index_begin; run_scan os
  | SNext :: os => r ← index_next heap uninit uninit_next addr 0; rs ← run_scan os; mret (r :: rs)
  | SReset :: os => _ ← index_reset; run_scan os
  end.

Lemma run_scan_null os i : next_is_null_ i = true ->
  exists i' rs, run_scan os i = Ret rs i' /\ ii_tree i' = ii_tree i /\ Forall (fun r => r = mk_rid (-1) (-1)) rs.
Proof.
  revert i. induction os as [|[] os IH]; intros i Hi; cbn [run_scan].
  - by exists i, [].
  - destruct (IH i Hi) as (i' & rs & Hr & Ht & Hf). exists i', rs. unfold mbind, M_bind. cbn. by rewrite Hr.
  - destruct (IH (set_current (start_ i) i) Hi) as (i' & rs & Hr & Ht & Hf). exists i', (mk_rid (-1) (-1) :: rs).
    unfold mbind, M_bind, index_next. cbn. unfold mbind, M_bind. cbn. rewrite Hi. cbn. rewrite Hr. split_and!; [done..|]. by constructor.
  - destruct (IH (set_position (mk_rid (-1) (-1)) i) Hi) as (i' & rs & Hr & Ht & Hf). exists i', rs. unfold mbind, M_bind. cbn. by rewrite Hr.
Qed.

Lemma keeps_null_in_tree {A} (x : M (b_plus_tree P) A) : keeps next_is_null_ (in_tree x).
Proof. unfold in_tree. keeps. Qed.
#[local] Hint Resolve keeps_null_in_tree : keeps.

Lemma index_iterator_new_null height a b c cri desc (p p' : P) i :
  index_iterator_new uninit uninit_next addr height a b c cri desc p = Ret i p' -> next_is_null_ i = true.
Proof.
  unfold index_iterator_new. destruct (tree_new _ _ _ _) as [t p1| | |]; try done.
  match goal with |- context [match ?x ?i0 with _ => _ end] => assert (keeps next_is_null_ x) as Hk; [|specialize (Hk i0); destruct (x i0)] end; try done.
  - unfold set_ends. keeps.
  - by intros [= <- _].
Qed.
End scan.

(** A scan of an index finds nothing: next_is_null_ starts as true and nothing
    clears it, so for every index, criterion and direction, every call to next in
    any sequence of calls returns at once with (-1, -1), the end marker. *)
Theorem index_scan_finds_nothing {P} `{IndexPages P} (heap : Z -> list byte) (uninit : Z -> index_page) (uninit_next : Z -> node_ptr)
    (addr : Z -> Z) (height : Z) (a b c : node_ptr) (cri : criterion) (desc : bool) (os : list scan_op) (p p' : P) (i : index_iterator P) :
  index_iterator_new uninit uninit_next addr height a b c cri desc p = Ret i p' ->
  exists i' rs, run_scan heap uninit uninit_next addr os i = Ret rs i' /\ ii_tree i' = ii_tree i /\ Forall (fun r => r = index_end) rs.
Proof. intros Hi. apply run_scan_null. by eapply index_iterator_new_null. Qed.

(** A scan for keys up to 7 of an index whose header says that it has a leaf. *)
Definition one_leaf_index : index_state MemFs :=
  mk_index_state MemFs (index_handle_new (empty_handle 3) (mk_index_header 0 1 12 341 1 1 4)) empty_bm.
Definition up_to_seven : criterion := mk_criterion LESS_EQUAL (mk_cptr 7 (int_bytes 7)) (mk_column_definition [] (mk_column_type INT 4) false).

Lemma index_scan_finds_nothing_witness :
  exists i p', @index_iterator_new _ (index_handle_pages (fun p => in_file (get_this_page p))) lucky_page (fun _ => None) (fun _ => 0)
      1 None None None up_to_seven false one_leaf_index = Ret i p' /\
    exists i' rs, @run_scan _ (index_handle_pages (fun p => in_file (get_this_page p))) small_ints lucky_page (fun _ => None) (fun _ => 0)
      [SBegin; SNext; SReset; SNext] i = Ret rs i' /\ ii_tree i' = ii_tree i /\ Forall (fun r => r = index_end) rs.
Proof.
  eexists _, _. split; [vm_compute; reflexivity|].
  eapply (@index_scan_finds_nothing _ (index_handle_pages (fun p => in_file (get_this_page p))) small_ints lucky_page (fun _ => None) (fun _ => 0)
    1 None None None up_to_seven false [SBegin; SNext; SReset; SNext] one_leaf_index). vm_compute. reflexivity.
Defined.
