(* ===== verification/Rpc.v ===== *)
(** Remote calls, the client: src/network/rpc/rpc_conn.{h,cc}, over the codec and the
    connections.  A call sends its id and arguments and
    leaves a continuation under the id; the reply carries the id back. *)
From S2P Require Import Prelude Varint RingBuffer Raft RaftCodec Conn.

(** * The client side *)

(** The continuation of a call, which [futures_] keeps under its id: it takes the
    reply from the buffer and hands it to the caller.  [rc_run] records the ids
    whose continuation was run. *)
Definition continuation : Type := M conn unit.

Record rpc_conn := mk_rpc_conn {
  rc_conn : conn;
  rpc_id_ : Z;                   (* std::atomic<uint64_t> *)
  futures_ : gmap Z continuation;
  rc_run : list Z;
}.

Definition in_conn {A} : M conn A -> M rpc_conn A :=
  zoom rc_conn (fun c r => mk_rpc_conn c (rpc_id_ r) (futures_ r) (rc_run r)).
Definition in_read_buf {A} (x : M buffer A) : M conn A := in_input (in_in x).
Definition in_write_buf {A} (x : M buffer A) : M conn A := in_output (in_out x).

(** codec::marshal, with operator<< of the arguments. *)
Definition marshal (put_args : M buffer unit) (scratch : list byte) (rid : Z) : M buffer unit :=
  _ ← put_rpc_id scratch rid; put_args.

(** rpc_id_++ *)
Definition take_id : M rpc_conn Z :=
  rpcid ← gets rpc_id_;
  _ ← modify (fun r => mk_rpc_conn (rc_conn r) (to_unsigned 64 (rpc_id_ r + 1)) (futures_ r) (rc_run r));
  mret rpcid.

(** futures_.insert: an entry that is there stays. *)
Definition insert_future (rpcid : Z) (t : continuation) : M rpc_conn unit :=
  modify (fun r => mk_rpc_conn (rc_conn r) (rpc_id_ r)
    (if futures_ r !! rpcid is Some _ then futures_ r else <[rpcid := t]> (futures_ r)) (rc_run r)).

(** rpc_conn::call: the request is sent before its continuation is in the map. *)
Definition call_send (put_args : M buffer unit) (scratch : list byte) (rpcid : Z) : M conn unit :=
  _ ← in_write_buf (marshal put_args scratch rpcid); in_output send_buffer.
Definition rpc_send (put_args : M buffer unit) (scratch : list byte) : M rpc_conn Z :=
  rpcid ← take_id;
  _ ← in_conn (call_send put_args scratch rpcid);
  mret rpcid.
Definition rpc_call (put_args : M buffer unit) (scratch : list byte) (t : continuation) : M rpc_conn Z :=
  rpcid ← rpc_send put_args scratch;
  _ ← insert_future rpcid t;
  mret rpcid.

(** func = futures_[rpcid]; futures_.erase(it); func(): the packaged_task keeps an
    exception of the continuation for the future. *)
Definition run_future (rpcid : Z) (t : continuation) : M rpc_conn unit :=
  _ ← modify (fun r => mk_rpc_conn (rc_conn r) (rpc_id_ r) (delete rpcid (futures_ r)) (rc_run r ++ [rpcid]));
  in_conn (try_catch t (mret tt)).

(** The id at the front of the reply, in the callback of the constructor; while the
    message is not complete the loop spins on the buffer. *)
Definition take_reply_id : M conn Z :=
  ready ← in_read_buf is_ready;
  if negb ready then blocked
  else
    '(rpcid, bytes) ← in_read_buf peek_uvarint;
    _ ← in_read_buf (advance_get bytes);
    mret rpcid.

(** The callback that the constructor installs. *)
Definition rpc_on_read : M rpc_conn unit :=
  rpcid ← in_conn take_reply_id;
  fs ← gets futures_;
  match fs !! rpcid with
  | None => mret tt
  | Some t => run_future rpcid t
  end.

(** rpc_conn::cancel *)
Definition rpc_cancel (id : Z) : M rpc_conn unit :=
  modify (fun r => mk_rpc_conn (rc_conn r) (rpc_id_ r) (delete id (futures_ r)) (rc_run r)).

(** rpc_conn::rpc_conn *)
Definition rpc_conn_new (c : conn) : rpc_conn := mk_rpc_conn c 0 ∅ [].

(** * Histories of a client *)

(** A connection and the calls that have sent their request and not yet put their
    continuation into the map *)
Record client := mk_client { cl_rpc : rpc_conn; cl_sent : list Z }.

Definition in_rpc {A} : M rpc_conn A -> M client A := zoom cl_rpc (fun r c => mk_client r (cl_sent c)).

(** A call is two steps, and anything may happen in between. *)
Inductive rpc_op :=
| RSend (put_args : M buffer unit) (scratch : list byte)
| RInsert (i : nat) (t : continuation)
| RRead
| RCancel (id : Z).

Definition run_rpc_op (o : rpc_op) : M client unit :=
  match o with
  | RSend put_args scratch =>
      rpcid ← in_rpc (rpc_send put_args scratch);
      modify (fun c => mk_client (cl_rpc c) (cl_sent c ++ [rpcid]))
  | RInsert i t =>
      sent ← gets cl_sent;
      match sent !! i with
      | Some rpcid => _ ← in_rpc (insert_future rpcid t); modify (fun c => mk_client (cl_rpc c) (delete i (cl_sent c)))
      | None => mret tt
      end
  | RRead => in_rpc rpc_on_read
  | RCancel id => in_rpc (rpc_cancel id)
  end.

(** The outcome of a history: a state, or None when a step is undefined or hangs.
    An exception of a step is caught by the caller. *)
Fixpoint run_rpc_ops (os : list rpc_op) (c : client) : option client :=
  match os with
  | [] => Some c
  | o :: os => match run_rpc_op o c with Ret _ c' | Exc _ c' => run_rpc_ops os c' | _ => None end
  end.

(** Every outstanding or finished call has an id below the counter, no finished
    call is outstanding, and none finished twice. *)
Record rpc_ok (n : Z) (r : rpc_conn) : Prop := {
  ro_id : 0 <= rpc_id_ r <= n;
  ro_future : forall id t, futures_ r !! id = Some t -> 0 <= id < rpc_id_ r;
  ro_run : forall id, id ∈ rc_run r -> 0 <= id < rpc_id_ r /\ futures_ r !! id = None;
  ro_once : NoDup (rc_run r);
}.

(** A call between its two steps is neither outstanding nor finished. *)
Record client_ok (n : Z) (c : client) : Prop := {
  co_rpc : rpc_ok n (cl_rpc c);
  co_sent : NoDup (cl_sent c);
  co_new : forall id, id ∈ cl_sent c -> 0 <= id < rpc_id_ (cl_rpc c) /\ futures_ (cl_rpc c) !! id = None /\ id ∉ rc_run (cl_rpc c);
}.

(** What a step on the connection alone leaves. *)
Definition calls (r : rpc_conn) : Z * gmap Z continuation * list Z := (rpc_id_ r, futures_ r, rc_run r).

Lemma keeps_calls_conn {A} (x : M conn A) : keeps calls (in_conn x).
Proof. unfold in_conn. keeps. Qed.
#[local] Hint Resolve keeps_calls_conn : keeps.

Lemma rpc_ok_calls n r r' : calls r' = calls r -> rpc_ok n r -> rpc_ok n r'.
Proof. destruct r, r'. unfold calls. cbn. intros [= -> -> ->] [H1 H2 H3 H4]. by split. Qed.

Lemma rpc_ok_mono n m r : n <= m -> rpc_ok n r -> rpc_ok m r.
Proof. intros Hle [[? ?] ? ? ?]. split; [lia|done..]. Qed.

Definition step_ok {A} (P : rpc_conn -> Prop) (o : outcome rpc_conn A) : Prop :=
  match o with Ret _ r | Exc _ r => P r | _ => True end.

(** A step on the connection, then a step that keeps the invariant. *)
Lemma step_ok_conn {A B} (P : rpc_conn -> Prop) (x : M conn A) (k : A -> M rpc_conn B) r :
  (forall r1, calls r1 = calls r -> P r1) -> (forall a r1, calls r1 = calls r -> step_ok P (k a r1)) -> step_ok P ((in_conn x ≫= k) r).
Proof.
  intros HP Hk. pose proof (keeps_calls_conn x r) as Hc. unfold mbind, M_bind.
  destruct (in_conn x r) as [a r1|e r1| |]; try done; [by apply Hk|by apply HP].
Qed.

(** What reading a reply does to the calls: nothing, or one outstanding call finishes. *)
Inductive calls_read (r : rpc_conn) : rpc_conn -> Prop :=
| read_nothing r' : calls r' = calls r -> calls_read r r'
| read_reply id t r' :
    futures_ r !! id = Some t -> calls r' = (rpc_id_ r, delete id (futures_ r), rc_run r ++ [id]) -> calls_read r r'.

Lemma rpc_on_read_calls r : step_ok (calls_read r) (rpc_on_read r).
Proof.
  unfold rpc_on_read. apply step_ok_conn; [by constructor|]. intros id r1 Hr1.
  unfold mbind, M_bind, gets. destruct (futures_ r1 !! id) as [t|] eqn:Hx; [|by constructor].
  unfold run_future, mbind, M_bind, modify. set (r2 := mk_rpc_conn _ _ _ _).
  pose proof (keeps_calls_conn (try_catch t (mret tt)) r2) as Hc. injection Hr1 as E1 E2 E3.
  destruct (in_conn _ r2) as [a r3|e r3| |]; try done; cbn; (eapply read_reply; [by rewrite <-E2|]);
    rewrite Hc; unfold calls, r2; cbn; by rewrite E1, E2, E3.
Qed.

Lemma rpc_send_calls put_args scratch r :
  rpc_id_ r + 1 < 2 ^ 64 -> 0 <= rpc_id_ r ->
  match rpc_send put_args scratch r with
  | Ret id r' => id = rpc_id_ r /\ calls r' = (rpc_id_ r + 1, futures_ r, rc_run r)
  | Exc _ r' => calls r' = (rpc_id_ r + 1, futures_ r, rc_run r)
  | _ => True
  end.
Proof.
  intros Hlt Hge. assert (to_unsigned 64 (rpc_id_ r + 1) = rpc_id_ r + 1) as Hnext by (apply Z.mod_small; lia).
  unfold rpc_send, take_id, mbind, M_bind, gets, modify, mret, M_ret. cbn beta iota. rewrite Hnext. set (r1 := mk_rpc_conn _ _ _ _).
  pose proof (keeps_calls_conn (call_send put_args scratch (rpc_id_ r)) r1) as Hc.
  destruct (in_conn _ r1); [by split|done..].
Qed.

(** ** The invariant *)

Lemma rpc_ok_next n r r' :
  rpc_ok n r -> calls r' = (rpc_id_ r + 1, futures_ r, rc_run r) -> rpc_ok (n + 1) r'.
Proof.
  intros [Hid Hf Hr Ho]. destruct r'. unfold calls. cbn. intros [= -> -> ->]. split; cbn; [lia| | |done].
  - intros id t Hx. apply Hf in Hx. lia.
  - intros id Hin. destruct (Hr id Hin). split; [lia|done].
Qed.

(** An id that is neither outstanding nor finished becomes outstanding. *)
Lemma rpc_ok_insert n r id t :
  rpc_ok n r -> 0 <= id < rpc_id_ r -> id ∉ rc_run r -> rpc_ok n (mk_rpc_conn (rc_conn r) (rpc_id_ r) (<[id := t]> (futures_ r)) (rc_run r)).
Proof.
  intros [Hid Hf Hr Ho] Hlt Hnew. split; cbn; [done| | |done].
  - intros id' t'. rewrite lookup_insert. case_decide; [|by apply Hf]. intros _. by subst.
  - intros id' Hin. destruct (Hr id' Hin) as [? Hnone]. split; [done|]. rewrite lookup_insert_ne; [done|]. by intros <-.
Qed.

Lemma rpc_ok_finish n r id t r' :
  rpc_ok n r -> futures_ r !! id = Some t -> calls r' = (rpc_id_ r, delete id (futures_ r), rc_run r ++ [id]) -> rpc_ok n r'.
Proof.
  intros [Hid Hf Hr Ho] Hx. destruct r'. unfold calls. cbn. intros [= -> -> ->]. split; cbn; [done| | |].
  - intros id' t' [_ Hin]%lookup_delete_Some. by eapply Hf.
  - intros id' [Hin| ->%list_elem_of_singleton]%elem_of_app; [|split; [by eapply Hf|by rewrite lookup_delete_eq]].
    destruct (Hr id' Hin) as [? Hnone]. split; [done|]. apply lookup_delete_None. by right.
  - apply NoDup_app. split_and!; [done| |apply NoDup_singleton]. intros id' Hin ->%list_elem_of_singleton.
    destruct (Hr id Hin) as [_ Hnone]. congruence.
Qed.

Lemma rpc_ok_cancel n r id : rpc_ok n r -> rpc_ok n (mk_rpc_conn (rc_conn r) (rpc_id_ r) (delete id (futures_ r)) (rc_run r)).
Proof.
  intros [Hid Hf Hr Ho]. split; cbn; [done| | |done].
  - intros id' t [_ Hin]%lookup_delete_Some. by eapply Hf.
  - intros id' Hin. destruct (Hr id' Hin) as [? Hnone]. split; [done|]. apply lookup_delete_None. by right.
Qed.

Definition op_ok (n : Z) (o : outcome client unit) : Prop :=
  match o with Ret _ c | Exc _ c => client_ok n c | _ => True end.

Lemma client_ok_mono n m c : n <= m -> client_ok n c -> client_ok m c.
Proof. intros Hle [H1 H2 H3]. split; [by eapply rpc_ok_mono|done..]. Qed.

Lemma send_op_ok n c put_args scratch : client_ok n c -> n < 2 ^ 64 - 1 -> op_ok (n + 1) (run_rpc_op (RSend put_args scratch) c).
Proof.
  intros [OK Hnd Hnew] Hn. destruct c as [r sent]. cbn in *. pose proof (ro_id _ _ OK) as Hid.
  pose proof (rpc_send_calls put_args scratch r ltac:(lia) ltac:(lia)) as Hs.
  unfold in_rpc, zoom, mbind, M_bind, modify. cbn. destruct (rpc_send put_args scratch r) as [id r1|e r1| |]; try done; cbn.
  - destruct Hs as [-> Hc]. pose proof (rpc_ok_next n r r1 OK Hc) as OK1. injection Hc as E1 E2 E3.
    split; cbn; [done| |].
    + apply NoDup_app. split_and!; [done| |apply NoDup_singleton]. intros id Hin ->%list_elem_of_singleton. apply Hnew in Hin. lia.
    + rewrite E1, E2, E3. intros id [Hin| ->%list_elem_of_singleton]%elem_of_app.
      * destruct (Hnew id Hin) as (? & ? & ?). split_and!; [lia|lia|done|done].
      * split_and!; [lia|lia| |]; [|intros Hin; apply (ro_run _ _ OK) in Hin; lia].
        destruct (futures_ r !! rpc_id_ r) eqn:Hx; [|done]. apply (ro_future _ _ OK) in Hx. lia.
  - pose proof (rpc_ok_next n r r1 OK Hs) as OK1. injection Hs as E1 E2 E3. split; cbn; [done|done|].
    rewrite E1, E2, E3. intros id Hin. destruct (Hnew id Hin) as (? & ? & ?). split_and!; [lia|lia|done|done].
Qed.

Lemma insert_op_ok n c i t : client_ok n c -> op_ok n (run_rpc_op (RInsert i t) c).
Proof.
  intros [OK Hnd Hnew]. destruct c as [r sent]. cbn in *. unfold mbind, M_bind, gets. cbn.
  destruct (sent !! i) as [id|] eqn:Hi; [|by split]. destruct (Hnew id) as (Hlt & Hnone & Hrun); [by eapply list_elem_of_lookup_2|].
  unfold in_rpc, zoom, insert_future, modify. cbn. rewrite Hnone.
  pose proof (delete_Permutation _ _ _ Hi) as HP. rewrite HP in Hnd. apply NoDup_cons in Hnd as [Hni Hnd].
  split; cbn; [by apply rpc_ok_insert|done|].
  intros x Hx. destruct (Hnew x) as (? & ? & ?); [rewrite HP; by right|]. rewrite lookup_insert_ne; [done|]. by intros <-.
Qed.

Lemma read_op_ok n c : client_ok n c -> op_ok n (run_rpc_op RRead c).
Proof.
  intros [OK Hnd Hnew]. destruct c as [r sent]. cbn in *. pose proof (rpc_on_read_calls r) as Hs. unfold in_rpc, zoom. cbn.
  assert (forall r', calls_read r r' -> client_ok n (mk_client r' sent)) as Hok.
  { intros r' [r1 Hc|id t r1 Hx Hc].
    - split; cbn; [by eapply rpc_ok_calls|done|]. injection Hc as -> -> ->. done.
    - split; cbn; [by eapply rpc_ok_finish|done|]. injection Hc as -> -> ->. intros x Hxs. destruct (Hnew x Hxs) as (? & Hnone & ?).
      split_and!; [lia|lia|apply lookup_delete_None; by right|]. intros [?| ->%list_elem_of_singleton]%elem_of_app; [done|]. congruence. }
  destruct (rpc_on_read r); cbn in *; auto.
Qed.

Lemma cancel_op_ok n c id : client_ok n c -> op_ok n (run_rpc_op (RCancel id) c).
Proof.
  intros [OK Hnd Hnew]. destruct c as [r sent]. cbn in *. split; cbn; [by apply rpc_ok_cancel|done|].
  intros x Hx. destruct (Hnew x Hx) as (? & Hnone & ?). split_and!; [lia|lia|apply lookup_delete_None; by right|done].
Qed.

Lemma run_rpc_ops_ok os n c c' :
  client_ok n c -> n + Z.of_nat (length os) < 2 ^ 64 -> run_rpc_ops os c = Some c' -> client_ok (n + Z.of_nat (length os)) c'.
Proof.
  revert n c. induction os as [|o os IH]; intros n c OK Hn Hrun; cbn [run_rpc_ops length] in *.
  { injection Hrun as <-. eapply client_ok_mono; [|done]. lia. }
  assert (op_ok (n + 1) (run_rpc_op o c)) as Hs.
  { destruct o as [pa sc|i t| |id]; [apply send_op_ok; [done|lia]|..].
    all: assert (client_ok (n + 1) c) as OK1 by (eapply client_ok_mono; [|done]; lia).
    all: first [by apply insert_op_ok|by apply read_op_ok|by apply cancel_op_ok]. }
  replace (n + Z.of_nat (S (length os))) with (n + 1 + Z.of_nat (length os)) by lia.
  destruct (run_rpc_op o c) as [a c1|e c1| |]; try done; eapply IH; try done; lia.
Qed.

(** * Properties *)

(** C14. Whatever a client does with a new connection (requests sent, their continuations
    put into the map later, with replies read in between; replies in any order, replies
    that repeat an id or answer no call, cancellations, continuations and sends that fail),
    up to the wrap of the counter no continuation runs twice, and an id whose continuation
    ran was handed out by a call, is no longer in the map and was not still waiting for its
    insertion.  Looking a continuation up and taking it out of the map is one step here,
    and so is sending a request. *)
Theorem rpc_replies_run_once c os cl :
  Z.of_nat (length os) < 2 ^ 64 -> run_rpc_ops os (mk_client (rpc_conn_new c) []) = Some cl ->
  NoDup (rc_run (cl_rpc cl)) /\
  forall id, id ∈ rc_run (cl_rpc cl) -> 0 <= id < rpc_id_ (cl_rpc cl) /\ futures_ (cl_rpc cl) !! id = None /\ id ∉ cl_sent cl.
Proof.
  intros Hlen Hrun. destruct (run_rpc_ops_ok os 0 (mk_client (rpc_conn_new c) []) cl) as [[_ _ Hr Ho] _ Hnew]; [|lia|done|].
  - split; cbn; [|apply NoDup_nil_2|by intros id ?%elem_of_nil].
    split; cbn; [lia|by intros id t ?%lookup_empty_Some|by intros id ?%elem_of_nil|apply NoDup_nil_2].
  - split; [done|]. intros id Hin. destruct (Hr id Hin). split; [done|]. split; [done|]. intros Hs. by destruct (Hnew id Hs) as (_ & _ & ?).
Qed.

(** Two calls; the reply to the first is read twice. *)
Definition demo_client : conn :=
  mk_conn (mk_input (mk_buffer (Some (replicate 8 Byte.x00)) false 1 0 8) [] [])
    (mk_output (mk_buffer (Some (replicate 8 Byte.x00)) false 0 0 8) [Wrote 1; Write_failed EAGAIN; Wrote 1; Write_failed EAGAIN] []) None None [].
Definition demo_calls : list rpc_op :=
  let send := RSend (mret tt) (replicate 10 Byte.x00) in
  let insert := RInsert 0 (throw eof_exception) in [send; send; insert; RRead; insert; RRead; RCancel 1].

Lemma rpc_replies_run_once_witness :
  exists cl, run_rpc_ops demo_calls (mk_client (rpc_conn_new demo_client) []) = Some cl /\ rc_run (cl_rpc cl) = [0] /\ NoDup (rc_run (cl_rpc cl)) /\
    forall id, id ∈ rc_run (cl_rpc cl) -> 0 <= id < rpc_id_ (cl_rpc cl) /\ futures_ (cl_rpc cl) !! id = None /\ id ∉ cl_sent cl.
Proof.
  assert (exists cl, run_rpc_ops demo_calls (mk_client (rpc_conn_new demo_client) []) = Some cl /\ rc_run (cl_rpc cl) = [0]) as (cl & Hr & Hrun)
    by (vm_compute; eexists; split; reflexivity).
  exists cl. split; [exact Hr|]. split; [exact Hrun|].
  apply (rpc_replies_run_once demo_client demo_calls cl); [cbn; lia|exact Hr].
Defined.

(** A reply that is read between the send and the insertion finds no continuation:
    it is consumed, and the call stays outstanding. *)
Theorem early_reply_lost r r1 rpcid t :
  in_conn take_reply_id r = Ret rpcid r1 -> futures_ r !! rpcid = None ->
  exists r2, (rpc_on_read ≫= fun _ => insert_future rpcid t) r = Ret tt r2 /\ rc_run r2 = rc_run r /\
    futures_ r2 !! rpcid = Some t.
Proof.
  intros Hid Hnone. pose proof (keeps_calls_conn take_reply_id r) as Hk. rewrite Hid in Hk. injection Hk as _ Hf Hr.
  unfold rpc_on_read, mbind, M_bind, gets. rewrite Hid, Hf, Hnone. unfold mret, M_ret, insert_future, modify.
  rewrite Hf, Hnone. eexists. split_and!; [done|done|]. cbn. apply lookup_insert_eq.
Qed.
