(* ===== verification/Sql.v ===== *)
(** Statements and parser results: src/sql/statement/*.h, expression.cc,
    src/sql/parser_result.{h,cc} and src/sql/sql.cc.  Objects live in a heap that
    records how each was allocated; the scanner and parser that flex and bison
    generate are parameters. *)
From Stdlib Require Import Floats.SpecFloat.
From S2P Require Import Prelude.

(** * Expressions *)

Inductive expression_type :=
| LITERAL_FLOAT | LITERAL_STRING | LITERAL_INT | LITERAL_BOOL | LITERAL_NULL | STAR | COLUMN_REF | OPERATOR.
Inductive operator_type :=
| OP_NONE | OP_BETWEEN | OP_EQUALS | OP_NOT_EQUALS | OP_LESS | OP_LESS_EQUAL | OP_GREATER | OP_GREATER_EQUAL.

Definition ptr : Type := option Z.

Record expression := mk_expression {
  expr : ptr;
  expr2 : ptr;
  expr_list : ptr;
  ex_name : ptr;
  ex_table : ptr;
  fval : spec_float;             (* float *)
  ival : Z;
  flag : option bool;            (* None: not initialised *)
  ex_type : expression_type;
  op_type : operator_type;
}.

(** expression::expression *)
Definition expression_new (type : expression_type) : expression :=
  mk_expression None None None None None (S754_zero false) 0 None type OP_NONE.

Definition set_names (table name : ptr) (e : expression) : expression :=
  mk_expression (expr e) (expr2 e) (expr_list e) name table (fval e) (ival e) (flag e) (ex_type e) (op_type e).
Definition set_values (f : spec_float) (i : Z) (b : option bool) (e : expression) : expression :=
  mk_expression (expr e) (expr2 e) (expr_list e) (ex_name e) (ex_table e) f i b (ex_type e) (op_type e).
Definition set_operands (op : operator_type) (e1 e2 l : ptr) (e : expression) : expression :=
  mk_expression e1 e2 l (ex_name e) (ex_table e) (fval e) (ival e) (flag e) (ex_type e) op.

(** A double stored in a float: rounded to 24 bits. *)
Definition to_float (d : spec_float) : spec_float :=
  match d with S754_finite s m e => binary_round 24 128 s m e | _ => d end.

(** * Statements *)

Inductive statement_type := CREATE | INSERT | SELECT | UPDATE | DELETE | DROP | SHOW.
Inductive create_type := CREATE_TABLE | CREATE_INDEX.
Inductive drop_type := DROP_TABLE | DROP_SCHEMA | DROP_INDEX.
Inductive show_type := COLUMNS | TABLES.

Inductive statement :=
| create_statement (type : create_type) (schema_name table_name index_name index_column columns : ptr)
| insert_statement (schema_name table_name columns values : ptr)
| select_statement (schema_name table_name select_list where_ : ptr)
| update_statement (schema_name table_name updates where_ : ptr)
| delete_statement (schema_name table_name where_ : ptr)
| drop_statement (type : drop_type) (schema_name table_name : ptr)
| show_statement (type : show_type) (schema_name table_name : ptr).

(** The classes with their constructors *)
Definition new_create (type : create_type) : statement := create_statement type None None None None None.
Definition new_insert : statement := insert_statement None None None None.
Definition new_select : statement := select_statement None None None None.
Definition new_update : statement := update_statement None None None None.
Definition new_delete : statement := delete_statement None None None.
Definition new_drop (type : drop_type) : statement := drop_statement type None None.
Definition new_show (type : show_type) : statement := show_statement type None None.

(** statement::type, statement::is *)
Definition type_of (s : statement) : statement_type :=
  match s with
  | create_statement _ _ _ _ _ _ => CREATE | insert_statement _ _ _ _ => INSERT | select_statement _ _ _ _ => SELECT
  | update_statement _ _ _ _ => UPDATE | delete_statement _ _ _ => DELETE | drop_statement _ _ _ => DROP
  | show_statement _ _ _ => SHOW
  end.
#[global] Instance statement_type_eq_dec : EqDecision statement_type.
Proof. solve_decision. Defined.
Definition is_statement (type : statement_type) (s : statement) : bool := bool_decide (type_of s = type).

(** * The heap *)

(** What an address holds: a string of malloc (its bytes up to the terminating zero),
    or an object of new. *)
Inductive block :=
| Chars (bs : list byte)
| Expression (e : expression)
| Statement (s : statement)
| Column (name : ptr)                     (* column_definition *)
| Clause (column expr : ptr)              (* update_clause *)
| Strings (l : list ptr)                  (* std::vector<char *> *)
| Exprs (l : list ptr)                    (* std::vector<expression *> *)
| Columns (l : list ptr)                  (* std::vector<column_definition *> *)
| Clauses (l : list ptr).                 (* std::vector<update_clause *> *)

Abbreviation heap := (gmap Z block).

(** new, at an address that is not in use *)
Definition unused (h : heap) : Z := map_fold (fun a _ m => Z.max (a + 1) m) 1 h.
Definition new_block (b : block) : M heap Z := fun h => Ret (unused h) (<[unused h := b]> h).

(** An object that is read through a pointer. *)
Definition load {A} (view : block -> option A) (a : Z) : M heap A :=
  b ← gets (fun h => h !! a);
  b ← of_option dangling_deref b;
  of_option bad_cast (view b).

Definition is_chars (b : block) : option (list byte) := if b is Chars bs then Some bs else None.
Definition is_expression (b : block) : option expression := if b is Expression e then Some e else None.
Definition is_stmt (b : block) : option statement := if b is Statement s then Some s else None.
Definition is_column (b : block) : option ptr := if b is Column n then Some n else None.
Definition is_clause (b : block) : option (ptr * ptr) := if b is Clause c e then Some (c, e) else None.
Definition is_strings (b : block) : option (list ptr) := if b is Strings l then Some l else None.
Definition is_exprs (b : block) : option (list ptr) := if b is Exprs l then Some l else None.
Definition is_columns (b : block) : option (list ptr) := if b is Columns l then Some l else None.
Definition is_clauses (b : block) : option (list ptr) := if b is Clauses l then Some l else None.

Definition malloced (b : block) : bool := if b is Chars _ then true else false.

(** The end of free and of delete: [by_malloc] says which of them it is. *)
Definition release_block (by_malloc : bool) (a : Z) : M heap unit :=
  b ← gets (fun h => h !! a);
  b ← of_option double_free b;
  if Bool.eqb (malloced b) by_malloc then modify (delete a) else undef mismatched_free.

(** free(p) and delete p of a pointer without a destructor; null is allowed. *)
Definition free (p : ptr) : M heap unit := match p with None => mret tt | Some a => release_block true a end.
Definition delete_plain (p : ptr) : M heap unit := match p with None => mret tt | Some a => release_block false a end.

(** delete p of an object: its destructor runs first. *)
Definition delete_object {A} (view : block -> option A) (dtor : A -> M heap unit) (p : ptr) : M heap unit :=
  match p with
  | None => mret tt
  | Some a => o ← load view a; _ ← dtor o; release_block false a
  end.

(** for(auto&& i : v) f(i); *)
Fixpoint for_each (f : ptr -> M heap unit) (l : list ptr) : M heap unit :=
  match l with [] => mret tt | p :: l => _ ← f p; for_each f l end.

(** if (v != nullptr) { for(...) f(i); delete v; } *)
Definition delete_vector (view : block -> option (list ptr)) (f : ptr -> M heap unit) : ptr -> M heap unit :=
  delete_object view (for_each f).

(** * Destructors *)

(** expression::~expression is empty: the operands stay. *)
Definition expression_destroy (e : expression) : M heap unit := mret tt.
Definition delete_expression : ptr -> M heap unit := delete_object is_expression expression_destroy.

Section destructors.
(** column_definition::~column_definition, which src/ declares and does not define. *)
Context (column_destroy : ptr -> M heap unit).

Definition delete_column : ptr -> M heap unit := delete_object is_column column_destroy.

(** The loop body of update_statement::~update_statement; the pointer is read first. *)
Definition delete_clause (p : ptr) : M heap unit :=
  a ← of_option null_deref p;
  '(c, e) ← load is_clause a;
  _ ← free c;
  _ ← delete_expression e;
  delete_plain p.

(** create_statement::~create_statement *)
Definition create_destroy (sn tn ixn ixc cols : ptr) : M heap unit :=
  _ ← free sn; _ ← free tn; _ ← free ixn; _ ← free ixc; delete_vector is_columns delete_column cols.

(** insert_statement::~insert_statement *)
Definition insert_destroy (sn tn cols vals : ptr) : M heap unit :=
  _ ← free sn; _ ← free tn; _ ← delete_vector is_strings free cols; delete_vector is_exprs delete_expression vals.

(** select_statement::~select_statement *)
Definition select_destroy (sn tn sel wh : ptr) : M heap unit :=
  _ ← free sn; _ ← free tn; _ ← delete_expression wh; delete_vector is_exprs delete_expression sel.

(** update_statement::~update_statement: the names are deleted. *)
Definition update_destroy (sn tn ups wh : ptr) : M heap unit :=
  _ ← delete_plain sn; _ ← delete_plain tn; _ ← delete_expression wh; delete_vector is_clauses delete_clause ups.

(** delete_statement::~delete_statement *)
Definition delete_destroy (sn tn wh : ptr) : M heap unit := _ ← free sn; _ ← free tn; delete_expression wh.

(** drop_statement::~drop_statement, show_statement::~show_statement *)
Definition drop_destroy (sn tn : ptr) : M heap unit := _ ← free sn; free tn.
Definition show_destroy (sn tn : ptr) : M heap unit := _ ← free sn; free tn.

(** statement::~statement, virtual *)
Definition statement_destroy (s : statement) : M heap unit :=
  match s with
  | create_statement _ sn tn ixn ixc cols => create_destroy sn tn ixn ixc cols
  | insert_statement sn tn cols vals => insert_destroy sn tn cols vals
  | select_statement sn tn sel wh => select_destroy sn tn sel wh
  | update_statement sn tn ups wh => update_destroy sn tn ups wh
  | delete_statement sn tn wh => delete_destroy sn tn wh
  | drop_statement _ sn tn => drop_destroy sn tn
  | show_statement _ sn tn => show_destroy sn tn
  end.
Definition delete_stmt : ptr -> M heap unit := delete_object is_stmt statement_destroy.
End destructors.

(** * Making expressions *)

Definition new_expression (e : expression) : M heap Z := new_block (Expression e).

(** expression::make *)
Definition make (type : expression_type) : M heap Z := new_expression (expression_new type).

(** expression::make_between: [e] is not used. *)
Definition make_between (e left right : ptr) : M heap Z :=
  l ← new_block (Exprs [left; right]);
  new_expression (set_operands OP_BETWEEN None None (Some l) (expression_new OPERATOR)).

(** expression::make_star *)
Definition make_star (table : ptr) : M heap Z := new_expression (set_names table None (expression_new STAR)).

(** expression::make_column_ref, with and without a table: the table is set to the name. *)
Definition make_column_ref (name : ptr) : M heap Z := new_expression (set_names None name (expression_new COLUMN_REF)).
Definition make_table_column_ref (table name : ptr) : M heap Z :=
  new_expression (set_names name name (expression_new COLUMN_REF)).

(** expression::make_literal, for each type, and make_null_literal *)
Definition make_int_literal (val : Z) : M heap Z :=
  new_expression (set_values (S754_zero false) val None (expression_new LITERAL_INT)).
Definition make_float_literal (val : spec_float) : M heap Z :=
  new_expression (set_values (to_float val) 0 None (expression_new LITERAL_FLOAT)).
Definition make_bool_literal (val : bool) : M heap Z :=
  new_expression (set_values (S754_zero false) 0 (Some val) (expression_new LITERAL_BOOL)).
Definition make_string_literal (val : ptr) : M heap Z :=
  new_expression (set_names None val (expression_new LITERAL_STRING)).
Definition make_null_literal : M heap Z := new_expression (expression_new LITERAL_NULL).

(** make_op_binary *)
Definition make_op_binary (expr1 : ptr) (op : operator_type) (expr2 : ptr) : M heap Z :=
  new_expression (set_operands op expr1 expr2 None (expression_new OPERATOR)).

(** * Parser results *)

Record parser_result := mk_parser_result {
  is_valid_ : bool;
  error_msg_ : ptr;
  error_line_ : option Z;        (* None: not initialised *)
  error_column_ : option Z;
  statements_ : list ptr;
}.

(** parser_result::parser_result() and parser_result(statement* ) *)
Definition parser_result_new : parser_result := mk_parser_result false None None None [].

(** parser_result::add_statement *)
Definition add_statement (stmt : ptr) (r : parser_result) : parser_result :=
  mk_parser_result (is_valid_ r) (error_msg_ r) (error_line_ r) (error_column_ r) (statements_ r ++ [stmt]).
Definition parser_result_of (stmt : ptr) : parser_result := add_statement stmt parser_result_new.

(** parser_result::parser_result(parser_result&& ): the new object and what is left of
    the old one, which keeps its error message. *)
Definition parser_result_move (moved : parser_result) : parser_result * parser_result :=
  (mk_parser_result (is_valid_ moved) (error_msg_ moved) None None (statements_ moved),
   mk_parser_result (is_valid_ moved) (error_msg_ moved) (error_line_ moved) (error_column_ moved) []).

(** parser_result::set_valid, set_error *)
Definition set_valid (flag : bool) (r : parser_result) : parser_result :=
  mk_parser_result flag (error_msg_ r) (error_line_ r) (error_column_ r) (statements_ r).
Definition set_error (msg : ptr) (line column : Z) (r : parser_result) : parser_result :=
  mk_parser_result (is_valid_ r) msg (Some line) (Some column) (statements_ r).

(** The accessors *)
Definition result_size (r : parser_result) : Z := Z.of_nat (length (statements_ r)).
Definition error_line (r : parser_result) : M heap Z := of_option uninitialised_read (error_line_ r).
Definition error_column (r : parser_result) : M heap Z := of_option uninitialised_read (error_column_ r).
Definition get_statement (idx : Z) (r : parser_result) : M heap ptr :=
  of_option out_of_bounds (statements_ r !! Z.to_nat (to_unsigned 64 idx)).

Section results.
Context (column_destroy : ptr -> M heap unit).

(** parser_result::reset; ~parser_result is a call of it. *)
Definition result_reset (r : parser_result) : M heap parser_result :=
  _ ← free (error_msg_ r);
  _ ← for_each (delete_stmt column_destroy) (statements_ r);
  mret (mk_parser_result false None (Some (-1)) (Some (-1)) []).

(** * sql *)

(** The generated code: whether yylex_init fails, and yyparse, which fills the result. *)
Context (lexer_fails : bool) (yyparse : list byte -> parser_result -> M heap (Z * parser_result)).

(** sql::parse *)
Definition parse (sql : list byte) (result : parser_result) : M heap (bool * parser_result) :=
  if lexer_fails then mret (false, result)
  else
    '(ret, result) ← yyparse sql result;
    let success := ret =? 0 in
    mret (true, set_valid success result).

(** parser_result result; sql::parse(sql, result); and the end of its scope *)
Definition parse_and_drop (sql : list byte) : M heap bool :=
  '(ok, result) ← parse sql parser_result_new;
  _ ← result_reset result;
  mret ok.
End results.

(** sql::tokenize: [results] are the values of the calls of yylex, which is kept in
    an int16_t; None when the scanner never ends. *)
Fixpoint token_loop (results tokens : list Z) : option (list Z) :=
  match results with
  | [] => None
  | t :: rest => let token := to_signed 16 t in if token =? 0 then Some tokens else token_loop rest (tokens ++ [token])
  end.
Definition tokenize (lexer_fails : bool) (results tokens : list Z) : M unit (bool * list Z) :=
  if lexer_fails then mret (false, tokens)
  else match token_loop results tokens with Some tokens => mret (true, tokens) | None => blocked end.

(** * Ownership *)

(** Assertions about two parts of the heap: what the destructors release, and what the
    objects of the first part refer to but no destructor releases. *)
Definition hprop : Type := heap -> heap -> Prop.
Definition emp : hprop := fun g k => g = ∅ /\ k = ∅.
Definition sep (P Q : hprop) : hprop := fun g k =>
  exists g1 g2 k1 k2, g = g1 ∪ g2 /\ g1 ##ₘ g2 /\ k = k1 ∪ k2 /\ k1 ##ₘ k2 /\ P g1 k1 /\ Q g2 k2.
Definition points_to (a : Z) (b : block) : hprop := fun g k => g = {[ a := b ]} /\ k = ∅.
(** Memory that [P] would release, when nothing releases it *)
Definition lost (P : hprop) : hprop := fun g k => g = ∅ /\ P k ∅.
Declare Scope heap_scope.
Infix "∗" := sep (at level 80, right associativity) : heap_scope.
Infix "↦" := points_to (at level 20) : heap_scope.
Open Scope heap_scope.

(** The part of the heap that [m] releases: from every heap with that part it
    returns, and just that part is gone. *)
Definition frees (P : hprop) (m : M heap unit) : Prop :=
  forall g k h, P g k -> g ⊆ h -> m h = Ret tt (h ∖ g).

Lemma frees_emp : frees emp (mret tt).
Proof. intros g k h [-> _] _. by rewrite (right_id_L ∅ (∖)). Qed.

Lemma frees_lost P : frees (lost P) (mret tt).
Proof. intros g k h [-> _] _. by rewrite (right_id_L ∅ (∖)). Qed.

Lemma difference_difference (h g1 g2 : heap) : (h ∖ g1) ∖ g2 = h ∖ (g1 ∪ g2).
Proof.
  apply map_eq. intros a. rewrite !lookup_difference, lookup_union.
  destruct (g1 !! a), (g2 !! a); cbn; try done; by destruct (h !! a).
Qed.

Lemma subseteq_difference (h g1 g2 : heap) : g1 ##ₘ g2 -> g1 ∪ g2 ⊆ h -> g2 ⊆ h ∖ g1.
Proof.
  intros Hd Hsub. apply map_subseteq_spec. intros a b Ha. apply lookup_difference_Some. split.
  - eapply lookup_weaken; [|done]. by apply lookup_union_Some_r.
  - by eapply map_disjoint_Some_l.
Qed.

Lemma frees_seq P Q m k : frees P m -> frees Q k -> frees (P ∗ Q) (_ ← m; k).
Proof.
  intros Hm Hk g l h (g1 & g2 & k1 & k2 & -> & Hd & _ & _ & HP & HQ) Hsub. unfold mbind, M_bind.
  rewrite (Hm g1 k1 h HP) by (etrans; [apply map_union_subseteq_l|done]).
  by rewrite (Hk g2 k2 (h ∖ g1) HQ), difference_difference by (by apply subseteq_difference).
Qed.

Lemma frees_ex {A} (P : A -> hprop) m : (forall x, frees (P x) m) -> frees (fun g k => exists x, P x g k) m.
Proof. intros Hm g k h [x Hx]. by apply (Hm x) with k. Qed.

Lemma frees_pure (φ : Prop) (P : hprop) m : (φ -> frees P m) -> frees (fun g k => φ /\ P g k) m.
Proof. intros Hm g k h [Hφ HP]. by apply Hm with k. Qed.

Lemma sep_lookup P a b g k h : (P ∗ a ↦ b) g k -> g ⊆ h -> h !! a = Some b.
Proof.
  intros (g1 & g2 & k1 & k2 & -> & Hd & _ & _ & _ & -> & _) Hsub. eapply lookup_weaken; [|done].
  apply lookup_union_Some_r; [done|]. apply lookup_singleton_eq.
Qed.

(** An object of the part can be read first. *)
Lemma frees_load {A} (view : block -> option A) a b o P (k : A -> M heap unit) :
  view b = Some o -> frees (P ∗ a ↦ b) (k o) -> frees (P ∗ a ↦ b) (load view a ≫= k).
Proof.
  intros Hv Hk g l h Hg Hsub. pose proof (sep_lookup _ _ _ _ _ _ Hg Hsub) as Ha.
  unfold load, mbind, M_bind, gets, of_option, mret, M_ret. rewrite Ha, Hv. by apply Hk with l.
Qed.

Lemma frees_release by_malloc a b : malloced b = by_malloc -> frees (a ↦ b) (release_block by_malloc a).
Proof.
  intros Hb g k h [-> _] Hsub%map_singleton_subseteq_l. unfold release_block, mbind, M_bind, gets, of_option, mret, M_ret.
  rewrite Hsub, Hb, Bool.eqb_reflx. unfold modify. f_equal. apply map_eq. intros a'.
  rewrite lookup_delete, lookup_difference, lookup_singleton. by case_decide.
Qed.

(** A string that a pointer owns; null owns nothing. *)
Definition own_string (p : ptr) : hprop :=
  match p with None => emp | Some a => fun g k => exists bs, (a ↦ Chars bs) g k end.

(** An object that a pointer owns, with what its members own. *)
Definition own_object {A} (view : block -> option A) (content : A -> hprop) (p : ptr) : hprop :=
  match p with
  | None => emp
  | Some a => fun g k => exists b o, view b = Some o /\ (content o ∗ a ↦ b) g k
  end.

Fixpoint own_list (own : ptr -> hprop) (l : list ptr) : hprop :=
  match l with [] => emp | p :: l => own p ∗ own_list own l end.
Definition own_vector (view : block -> option (list ptr)) (own : ptr -> hprop) : ptr -> hprop :=
  own_object view (own_list own).

(** What an expression owns: its names (make_column_ref may store one pointer twice), its
    operands and the vector of operands *)
Definition own_operands (own : ptr -> hprop) (e : expression) : hprop :=
  own_string (ex_name e) ∗ (if decide (ex_table e = ex_name e) then emp else own_string (ex_table e)) ∗
  own (expr e) ∗ own (expr2 e) ∗ own_vector is_exprs own (expr_list e).

(** An expression with all it owns, of depth at most [depth] *)
Fixpoint own_tree (depth : nat) (p : ptr) : hprop :=
  match depth with
  | O => fun g k => p = None /\ emp g k
  | S depth => own_object is_expression (own_operands (own_tree depth)) p
  end.

(** An expression of a statement: the destructor is empty, so deleting it releases the node,
    and all that the node owns is lost. *)
Definition own_expression (depth : nat) : ptr -> hprop :=
  own_object is_expression (fun e => lost (own_operands (own_tree depth) e)).
Definition own_clause (depth : nat) (p : ptr) : hprop := fun g k =>
  exists a, p = Some a /\ exists ce, ((own_string ce.1 ∗ own_expression depth ce.2) ∗ a ↦ Clause ce.1 ce.2) g k.

(** Views of objects that come from new *)
Class ByNew {A} (view : block -> option A) : Prop := by_new : forall b o, view b = Some o -> malloced b = false.
#[export] Instance by_new_expression : ByNew is_expression. Proof. by intros [] ? [=]. Qed.
#[export] Instance by_new_stmt : ByNew is_stmt. Proof. by intros [] ? [=]. Qed.
#[export] Instance by_new_column : ByNew is_column. Proof. by intros [] ? [=]. Qed.
#[export] Instance by_new_strings : ByNew is_strings. Proof. by intros [] ? [=]. Qed.
#[export] Instance by_new_exprs : ByNew is_exprs. Proof. by intros [] ? [=]. Qed.
#[export] Instance by_new_columns : ByNew is_columns. Proof. by intros [] ? [=]. Qed.
#[export] Instance by_new_clauses : ByNew is_clauses. Proof. by intros [] ? [=]. Qed.

Create HintDb frees.
#[local] Hint Resolve frees_emp frees_seq : frees.

Lemma frees_free p : frees (own_string p) (free p).
Proof. destruct p as [a|]; [|apply frees_emp]. apply frees_ex. intros bs. by apply frees_release. Qed.
#[local] Hint Resolve frees_free : frees.

Lemma frees_object {A} (view : block -> option A) `{!ByNew view} content dtor p :
  (forall o, frees (content o) (dtor o)) -> frees (own_object view content p) (delete_object view dtor p).
Proof.
  intros Hd. destruct p as [a|]; [|apply frees_emp]. apply frees_ex. intros b. apply frees_ex. intros o.
  apply frees_pure. intros Hv. eapply frees_load; [done|]. apply frees_seq; [apply Hd|].
  apply frees_release. by eapply by_new.
Qed.
#[local] Hint Resolve frees_object : frees.

Lemma frees_each own f l : (forall p, frees (own p) (f p)) -> frees (own_list own l) (for_each f l).
Proof. intros Hf. induction l as [|p l IH]; [apply frees_emp|]. by apply frees_seq. Qed.

Lemma frees_vector view `{!ByNew view} own f p :
  (forall q, frees (own q) (f q)) -> frees (own_vector view own p) (delete_vector view f p).
Proof. intros Hf. apply frees_object; [done|]. intros l. by apply frees_each. Qed.
#[local] Hint Resolve frees_vector : frees.

Lemma frees_expression n p : frees (own_expression n p) (delete_expression p).
Proof. apply frees_object; [apply _|]. intros e. apply frees_lost. Qed.
#[local] Hint Resolve frees_expression : frees.

Lemma frees_skip P m : frees P m -> frees P (_ ← mret tt; m).
Proof. done. Qed.

Section ownership.
(** The depth of the expressions, what a column definition owns through its name, and the
    destructor that releases it *)
Context (depth : nat) (own_name : ptr -> hprop) (column_destroy : ptr -> M heap unit).
Hypothesis column_frees : forall name, frees (own_name name) (column_destroy name).

Definition own_column : ptr -> hprop := own_object is_column own_name.

Definition own_statement (s : statement) : hprop :=
  match s with
  | create_statement _ sn tn ixn ixc cols =>
      own_string sn ∗ own_string tn ∗ own_string ixn ∗ own_string ixc ∗ own_vector is_columns own_column cols
  | insert_statement sn tn cols vals =>
      own_string sn ∗ own_string tn ∗ own_vector is_strings own_string cols ∗ own_vector is_exprs (own_expression depth) vals
  | select_statement sn tn sel wh =>
      own_string sn ∗ own_string tn ∗ own_expression depth wh ∗ own_vector is_exprs (own_expression depth) sel
  | update_statement sn tn ups wh =>
      own_string sn ∗ own_string tn ∗ own_expression depth wh ∗ own_vector is_clauses (own_clause depth) ups
  | delete_statement sn tn wh => own_string sn ∗ own_string tn ∗ own_expression depth wh
  | drop_statement _ sn tn | show_statement _ sn tn => own_string sn ∗ own_string tn
  end.
Definition own_stmt : ptr -> hprop := own_object is_stmt own_statement.
Definition own_result (r : parser_result) : hprop := own_string (error_msg_ r) ∗ own_list own_stmt (statements_ r).

Lemma sep_assoc_frees P Q R m : frees (P ∗ Q ∗ R) m -> frees ((P ∗ Q) ∗ R) m.
Proof.
  intros Hm g k h (g12 & g3 & k12 & k3 & -> & Hd & -> & Hk & (g1 & g2 & k1 & k2 & -> & Hd' & -> & Hk' & HP & HQ) & HR).
  apply map_disjoint_union_l in Hd as [Hd1 Hd2], Hk as [Hk1 Hk2].
  apply Hm with (k1 ∪ (k2 ∪ k3)). exists g1, (g2 ∪ g3), k1, (k2 ∪ k3). rewrite (assoc_L (∪)). split_and!; [done| |done| |done|].
  - by apply map_disjoint_union_r.
  - by apply map_disjoint_union_r.
  - by exists g2, g3, k2, k3.
Qed.

Lemma frees_clause p : frees (own_clause depth p) (delete_clause p).
Proof.
  apply frees_ex. intros a. apply frees_pure. intros ->. apply frees_ex. intros [c e].
  apply (frees_load is_clause a (Clause c e) (c, e)); [done|]. apply sep_assoc_frees.
  apply frees_seq; [apply frees_free|]. apply frees_seq; [apply frees_expression|]. by apply frees_release.
Qed.

Lemma frees_column p : frees (own_column p) (delete_column column_destroy p).
Proof. by apply frees_object; [apply _|]. Qed.
#[local] Hint Resolve frees_clause frees_column : frees.

(** An update statement with a name, which its destructor deletes instead of freeing *)
Definition named_update (s : statement) : bool :=
  match s with update_statement sn tn _ _ => bool_decide (is_Some sn) || bool_decide (is_Some tn) | _ => false end.
Definition update_named (h : heap) (p : ptr) : bool :=
  match p with
  | Some a => match h !! a with Some (Statement s) => named_update s | _ => false end
  | None => false
  end.

Lemma frees_statement s : named_update s = false -> frees (own_statement s) (statement_destroy column_destroy s).
Proof.
  destruct s as [| | |sn tn ups wh| | |]; intros Hn; cbn [own_statement statement_destroy];
    unfold create_destroy, insert_destroy, select_destroy, update_destroy, delete_destroy, drop_destroy, show_destroy;
    [auto 10 with frees typeclass_instances..| |auto 10 with frees typeclass_instances|auto with frees|auto with frees].
  destruct sn, tn; try done. auto 10 with frees typeclass_instances.
Qed.

(** A statement that is not such an update is released. *)
Lemma delete_stmt_frees p g k h :
  own_stmt p g k -> g ⊆ h -> update_named h p = false -> delete_stmt column_destroy p h = Ret tt (h ∖ g).
Proof.
  destruct p as [a|]; [|intros; by eapply frees_emp]. intros (b & st & Hv & Hg) Hsub Hn.
  assert (b = Statement st) as -> by (by destruct b; simplify_eq/=). cbn in Hn. rewrite (sep_lookup _ _ _ _ _ _ Hg Hsub) in Hn.
  assert (frees (own_statement st ∗ a ↦ Statement st) (delete_stmt column_destroy (Some a))) as Hf; [|by eapply Hf].
  eapply frees_load; [done|]. apply frees_seq; [by apply frees_statement|]. by apply frees_release.
Qed.

(** One that is is undefined: the name came from malloc. *)
Lemma delete_plain_string q g k h : own_string (Some q) g k -> g ⊆ h -> delete_plain (Some q) h = Undef mismatched_free.
Proof.
  intros (bs & -> & _) Hsub%map_singleton_subseteq_l. unfold delete_plain, release_block, mbind, M_bind, gets, of_option, mret, M_ret.
  by rewrite Hsub.
Qed.

Lemma update_destroy_undefined sn tn ups wh P g k h :
  (own_string sn ∗ own_string tn ∗ P) g k -> g ⊆ h -> named_update (update_statement sn tn ups wh) = true ->
  update_destroy sn tn ups wh h = Undef mismatched_free.
Proof.
  intros (ga & gb & ka & kb & -> & Hd & _ & _ & Hsn & gc & gd & kc & kd & -> & Hd' & _ & _ & Htn & _) Hall Hn.
  unfold update_destroy. destruct sn as [q|].
  - unfold mbind, M_bind. rewrite (delete_plain_string q ga ka); [done|done|]. etrans; [apply map_union_subseteq_l|exact Hall].
  - destruct Hsn as [-> _], tn as [q|]; [|done]. rewrite (left_id_L ∅ (∪)) in Hall.
    rewrite (bind_ret _ _ _ tt h) by done. unfold mbind, M_bind. rewrite (delete_plain_string q gc kc); [done|done|]. etrans; [apply map_union_subseteq_l|exact Hall].
Qed.

Lemma delete_stmt_undefined p g k h :
  own_stmt p g k -> g ⊆ h -> update_named h p = true -> delete_stmt column_destroy p h = Undef mismatched_free.
Proof.
  destruct p as [a|]; [|done]. intros (b & st & Hv & Hg) Hsub Hn.
  assert (b = Statement st) as -> by (by destruct b; simplify_eq/=). cbn in Hn. pose proof (sep_lookup _ _ _ _ _ _ Hg Hsub) as Ha. rewrite Ha in Hn.
  unfold delete_stmt, delete_object. rewrite (bind_ret _ _ _ st h)
    by (unfold load, mbind, M_bind, gets, of_option, mret, M_ret; by rewrite Ha).
  destruct st as [| | |sn tn ups wh| | |]; try done. cbn [statement_destroy]. unfold mbind, M_bind.
  destruct Hg as (g1 & g2 & k1 & k2 & -> & _ & _ & _ & Hst & _).
  erewrite update_destroy_undefined; [done|exact Hst| |done]. etrans; [apply map_union_subseteq_l|exact Hsub].
Qed.

Lemma own_stmt_in ps g k a : own_list own_stmt ps g k -> Some a ∈ ps -> is_Some (g !! a).
Proof.
  revert g k. induction ps as [|p ps IH]; intros g k Hg Hin; [by apply elem_of_nil in Hin|].
  destruct Hg as (g1 & g2 & k1 & k2 & -> & Hd & _ & _ & Hp & Hps). apply elem_of_cons in Hin as [<-|Hin].
  - destruct Hp as (b & st & _ & Hp). exists b. by apply lookup_union_Some_l, (sep_lookup _ _ _ _ _ _ Hp).
  - destruct (IH _ _ Hps Hin) as [b Hb]. exists b. by apply lookup_union_Some_r.
Qed.

Lemma update_named_difference ps g1 g2 k h :
  own_list own_stmt ps g2 k -> g1 ##ₘ g2 -> g1 ∪ g2 ⊆ h -> existsb (update_named (h ∖ g1)) ps = existsb (update_named h) ps.
Proof.
  intros Hps Hd Hsub. assert (forall q, q ∈ ps -> update_named (h ∖ g1) q = update_named h q) as Heq.
  { intros [a|] Hin; [|done]. cbn. destruct (own_stmt_in _ _ _ _ Hps Hin) as [b Hb].
    rewrite (lookup_weaken g2 (h ∖ g1) a b), (lookup_weaken g2 h a b); [done|done| |done|by apply subseteq_difference].
    etrans; [by apply map_union_subseteq_r|exact Hsub]. }
  clear -Heq. induction ps as [|q ps IH]; [done|]. cbn. rewrite Heq by left. f_equal. apply IH. intros q' Hq'. apply Heq. by right.
Qed.

(** Deleting the statements: up to the first update with a name *)
Lemma delete_stmts ps g k h :
  own_list own_stmt ps g k -> g ⊆ h ->
  for_each (delete_stmt column_destroy) ps h = if existsb (update_named h) ps then Undef mismatched_free else Ret tt (h ∖ g).
Proof.
  revert g k h. induction ps as [|p ps IH]; intros g k h Hg Hsub; [by eapply frees_emp|].
  destruct Hg as (g1 & g2 & k1 & k2 & -> & Hd & _ & _ & Hp & Hps). cbn [for_each existsb].
  assert (g1 ⊆ h) as Hsub1 by (etrans; [apply map_union_subseteq_l|exact Hsub]). unfold mbind, M_bind.
  destruct (update_named h p) eqn:Hn; [by rewrite (delete_stmt_undefined p g1 k1)|].
  rewrite (delete_stmt_frees p g1 k1), (IH g2 k2), difference_difference by (done || by apply subseteq_difference). cbn [orb].
  by rewrite (update_named_difference ps g1 g2 k2).
Qed.

Lemma result_reset_frees r g k h :
  own_result r g k -> g ⊆ h ->
  result_reset column_destroy r h =
    if existsb (update_named h) (statements_ r) then Undef mismatched_free
    else Ret (mk_parser_result false None (Some (-1)) (Some (-1)) []) (h ∖ g).
Proof.
  intros (g1 & g2 & k1 & k2 & -> & Hd & _ & _ & Hm & Hps) Hsub. unfold result_reset, mbind, M_bind.
  rewrite (frees_free (error_msg_ r) g1 k1 h Hm) by (etrans; [apply map_union_subseteq_l|exact Hsub]).
  rewrite (delete_stmts _ g2 k2), difference_difference by (done || by apply subseteq_difference).
  rewrite (update_named_difference (statements_ r) g1 g2 k2) by done. by destruct (existsb _ _).
Qed.
End ownership.

(** * Properties *)

(** C15. Parsing a command and letting the result go out of scope, for whatever statements
    the parser built.  What the result owns falls into two parts: [g], the error message, the
    statements, their names, columns, clauses and vectors and the top node of each of
    their expressions, and [k], the operands, names and vectors below those nodes.  If no
    statement is an UPDATE with a name, exactly [g] is released, each block once and with the
    right allocator, and [k] is leaked; if one is, the destructor is undefined (it deletes a
    name that came from malloc).  The answer is true also when the parser refused the
    command; it is false, and nothing happens, when the scanner cannot be made. *)
Theorem parse_and_drop_frees depth own_name column_destroy yyparse sql ret r (g k h h' : heap) :
  (forall name, frees (own_name name) (column_destroy name)) ->
  yyparse sql parser_result_new h = Ret (ret, r) h' -> own_result depth own_name r g k -> g ##ₘ k -> g ∪ k ⊆ h' ->
  parse_and_drop column_destroy false yyparse sql h =
    (if existsb (update_named h') (statements_ r) then Undef mismatched_free else Ret true (h' ∖ g)) /\ k ⊆ h' ∖ g /\
  parse_and_drop column_destroy true yyparse sql h = Ret false h.
Proof.
  intros Hc Hp Hg Hd Hsub. split; [|split; [by apply subseteq_difference|done]].
  unfold parse_and_drop, parse, mbind, M_bind. rewrite Hp. unfold mret, M_ret.
  rewrite (result_reset_frees depth own_name column_destroy Hc _ g k h') by (done || (etrans; [apply map_union_subseteq_l|exact Hsub])).
  cbn [statements_ set_valid]. by destruct (existsb _ _).
Qed.

(** select * from t where a = 1, with the names as strings of malloc *)
Definition demo_parse (sql : list byte) (r : parser_result) : M heap (Z * parser_result) :=
  t ← new_block (Chars [Byte.x74]);
  e ← make_star None;
  v ← new_block (Exprs [Some e]);
  n ← new_block (Chars [Byte.x61]);
  c ← make_column_ref (Some n);
  i ← make_int_literal 1;
  w ← make_op_binary (Some c) OP_EQUALS (Some i);
  s ← new_block (Statement (select_statement None (Some t) (Some v) (Some w)));
  mret (0, add_statement (Some s) r).

Lemma own_sep (P Q : hprop) g1 g2 k1 k2 : P g1 k1 -> Q g2 k2 -> g1 ##ₘ g2 -> k1 ##ₘ k2 -> (P ∗ Q) (g1 ∪ g2) (k1 ∪ k2).
Proof. intros. by exists g1, g2, k1, k2. Qed.

Lemma own_some {A} (view : block -> option A) content a b o g k :
  view b = Some o -> content o g k -> g ##ₘ {[ a := b ]} -> own_object view content (Some a) (g ∪ {[ a := b ]}) k.
Proof.
  intros. exists b, o. split; [done|]. rewrite <-(right_id_L ∅ (∪) k). by apply own_sep; [|split|..|apply map_disjoint_empty_r].
Qed.

Lemma own_none_l (P : hprop) g k : P g k -> (emp ∗ P) g k.
Proof.
  intros HP. rewrite <-(left_id_L ∅ (∪) g), <-(left_id_L ∅ (∪) k).
  by apply own_sep; [|..|apply map_disjoint_empty_l|apply map_disjoint_empty_l].
Qed.

Lemma own_empty (P Q : hprop) : P ∅ ∅ -> Q ∅ ∅ -> (P ∗ Q) ∅ ∅.
Proof. intros HP HQ. exists ∅, ∅, ∅, ∅. by split_and!. Qed.
Ltac own_nothing := repeat (apply own_empty; [by split_and!|]); by split_and!.

Definition demo_result : parser_result := add_statement (Some 8) parser_result_new.
Definition demo_where : expression := set_operands OP_EQUALS (Some 5) (Some 6) None (expression_new OPERATOR).
Definition demo_select : statement := select_statement None (Some 1) (Some 3) (Some 7).
(** What is released, and what is lost: the column reference with its name, the literal *)
Definition demo_released : heap :=
  (({[ 1 := Chars [Byte.x74] ]} ∪ ((∅ ∪ {[ 7 := Expression demo_where ]}) ∪ (((∅ ∪ {[ 2 := Expression (expression_new STAR) ]}) ∪ ∅) ∪ {[ 3 := Exprs [Some 2] ]})))
    ∪ {[ 8 := Statement demo_select ]}) ∪ ∅.
Definition demo_lost : heap :=
  (({[ 4 := Chars [Byte.x61] ]} ∪ ∅) ∪ {[ 5 := Expression (set_names None (Some 4) (expression_new COLUMN_REF)) ]}) ∪
  ((∅ ∪ {[ 6 := Expression (set_values (S754_zero false) 1 None (expression_new LITERAL_INT)) ]}) ∪ ∅).

Lemma demo_owned : own_result 1 (fun _ => emp) demo_result demo_released demo_lost.
Proof.
  apply own_none_l. rewrite <-(right_id_L ∅ (∪) demo_lost). apply own_sep; [|by split|by apply map_disjoint_empty_r|by apply map_disjoint_empty_r].
  apply (own_some is_stmt _ 8 _ demo_select); [done| |by apply (bool_decide_unpack _); vm_compute].
  apply own_none_l. rewrite <-(left_id_L ∅ (∪) demo_lost).
  apply own_sep; [by eexists| |by apply (bool_decide_unpack _); vm_compute|apply map_disjoint_empty_l].
  rewrite <-(right_id_L ∅ (∪) demo_lost).
  apply own_sep; [| |by apply (bool_decide_unpack _); vm_compute|apply map_disjoint_empty_r].
  - apply (own_some is_expression _ 7 _ demo_where); [done| |apply map_disjoint_empty_l]. split; [done|].
    do 2 apply own_none_l. rewrite <-(left_id_L ∅ (∪) (∅ : heap)).
    apply own_sep; [| |by apply (bool_decide_unpack _); vm_compute|apply map_disjoint_empty_l].
    + apply (own_some is_expression _ 5 _ (set_names None (Some 4) (expression_new COLUMN_REF))); [done| |by apply (bool_decide_unpack _); vm_compute].
      rewrite <-(left_id_L ∅ (∪) (∅ : heap)) at 2.
      apply own_sep; [by eexists| |apply map_disjoint_empty_r|apply map_disjoint_empty_l].
      own_nothing.
    + rewrite <-(left_id_L ∅ (∪) (∅ : heap)) at 3. apply own_sep; [|by split|apply map_disjoint_empty_r|apply map_disjoint_empty_l].
      apply (own_some is_expression _ 6 _ (set_values (S754_zero false) 1 None (expression_new LITERAL_INT))); [done| |apply map_disjoint_empty_l].
      own_nothing.
  - apply (own_some is_exprs _ 3 _ [Some 2]); [done| |by apply (bool_decide_unpack _); vm_compute].
    rewrite <-(left_id_L ∅ (∪) (∅ : heap)) at 3.
    apply own_sep; [|by split|apply map_disjoint_empty_r|apply map_disjoint_empty_l].
    apply (own_some is_expression _ 2 _ (expression_new STAR)); [done| |apply map_disjoint_empty_l]. split; [done|].
    own_nothing.
Qed.

Definition demo_heap : heap := demo_released ∪ demo_lost.

Lemma demo_disjoint : demo_released ##ₘ demo_lost.
Proof. by apply (bool_decide_unpack _); vm_compute. Qed.

Lemma parse_and_drop_frees_witness :
  demo_parse [] parser_result_new ∅ = Ret (0, demo_result) demo_heap /\ size demo_heap = 8%nat /\
  parse_and_drop (fun _ => mret tt) false demo_parse [] ∅ = Ret true demo_lost /\ size demo_lost = 3%nat.
Proof.
  destruct (parse_and_drop_frees 1 (fun _ => emp) (fun _ => mret tt) demo_parse [] 0 demo_result demo_released demo_lost ∅ demo_heap)
    as (E & _ & _).
  - intros name. apply frees_emp.
  - vm_compute. reflexivity.
  - apply demo_owned.
  - apply demo_disjoint.
  - reflexivity.
  - split; [vm_compute; reflexivity|]. split; [vm_compute; reflexivity|]. split; [|vm_compute; reflexivity].
    rewrite E. vm_compute. reflexivity.
Defined.

(** Destroying an update statement that has a table name, as every statement
    UPDATE t SET ... does, is undefined: the name came from malloc and is deleted. *)
Theorem update_statement_destroy_undefined column_destroy (h : heap) p tn ups wh bs :
  h !! p = Some (Statement (update_statement None (Some tn) ups wh)) -> h !! tn = Some (Chars bs) ->
  delete_stmt column_destroy (Some p) h = Undef mismatched_free.
Proof.
  intros Hp Ht. unfold delete_stmt, delete_object, load, mbind, M_bind, gets, of_option, mret, M_ret. rewrite Hp.
  cbn [is_stmt statement_destroy]. unfold update_destroy, delete_plain, release_block, mbind, M_bind, gets, of_option, mret, M_ret.
  by rewrite Ht.
Qed.

Lemma update_statement_destroy_undefined_witness :
  delete_stmt (fun _ => mret tt) (Some 2)
    {[ 1 := Chars [Byte.x74]; 2 := Statement (update_statement None (Some 1) None None) ]} = Undef mismatched_free.
Proof. apply (update_statement_destroy_undefined (fun _ => mret tt) _ 2 1 None None [Byte.x74]); reflexivity. Defined.

(** A result that was moved from and the one it was moved to release the error
    message twice. *)
Theorem moved_error_freed_twice column_destroy (h : heap) line column a bs :
  h !! a = Some (Chars bs) ->
  let '(new, old) := parser_result_move (set_error (Some a) line column parser_result_new) in
  (_ ← result_reset column_destroy new; result_reset column_destroy old) h = Undef double_free.
Proof.
  intros Ha. cbn. unfold result_reset, mbind, M_bind. cbn [error_msg_ statements_ free for_each].
  unfold release_block, mbind, M_bind, gets, of_option, mret, M_ret. rewrite Ha. cbn [malloced Bool.eqb].
  unfold modify. by rewrite lookup_delete_eq.
Qed.

(** Deleting an expression leaves its operands allocated. *)
Theorem operands_leak (h : heap) p e a b :
  h !! p = Some (Expression e) -> expr e = Some a -> a <> p -> h !! a = Some b ->
  exists h', delete_expression (Some p) h = Ret tt h' /\ h' !! a = Some b.
Proof.
  intros Hp He Hne Ha. exists (delete p h). split; [|by rewrite lookup_delete_ne].
  unfold delete_expression, delete_object, load, release_block, mbind, M_bind, gets, of_option, mret, M_ret. by rewrite Hp; cbn; rewrite Hp.
Qed.
