(* ===== verification/TxnManager.v ===== *)
(** The handle caches of transactions: src/transaction/txn_manager.{h,cc}.  The
    constructor table_handle() that the maps need is declared in src/ and not
    defined; the object it would make is a parameter. *)
From S2P Require Import Prelude Unix BufferManager FileHandle Storage IndexHandle IndexManager TableManager TableHandle.
From stdpp Require Import strings.

Record txn_manager {U : Type} := mk_txn_manager {
  tx_bm : buffer_manager U;                  (* behind tbl_mgr_ and idx_mgr_ *)
  tx_tables_ : gmap string table_handle;
  tx_indexes_ : gmap string index_handle;
}.
Arguments txn_manager : clear implicits.
Arguments mk_txn_manager {U}.
Arguments tx_bm {U}.
Arguments tx_tables_ {U}.
Arguments tx_indexes_ {U}.

Section operations.
Context {U : Type} `{Unix U}.
Context (default_handle : table_handle).

Definition in_mgr {A} : M (buffer_manager U) A -> M (txn_manager U) A :=
  zoom tx_bm (fun b t => mk_txn_manager b (tx_tables_ t) (tx_indexes_ t)).

(** txn_manager::txn_manager *)
Definition txn_manager_new (b : buffer_manager U) : txn_manager U := mk_txn_manager b ∅ ∅.

(** txn_manager::get_table; [changed], [is_open] and [garbage] are the members that
    open_table leaves uninitialised.  The map gets its entry by operator=, and the
    cached handle goes out through the copy constructor. *)
Definition get_table (changed is_open : bool) (garbage : file_handle) (name : string) : M (txn_manager U) table_handle :=
  tables ← gets tx_tables_;
  match tables !! name with
  | None =>
      handle ← in_mgr (open_table changed is_open garbage name);
      _ ← modify (fun t => mk_txn_manager (tx_bm t) (<[name := table_handle_assign false default_handle handle]> (tx_tables_ t)) (tx_indexes_ t));
      mret handle
  | Some handle => mret (table_handle_copy handle)
  end.

(** txn_manager::get_index: the number of the index is not part of the key. *)
Definition get_index (garbage : file_handle) (name : string) (index : Z) : M (txn_manager U) index_handle :=
  indexes ← gets tx_indexes_;
  match indexes !! name with
  | None =>
      handle ← in_mgr (open_index garbage name index);
      _ ← modify (fun t => mk_txn_manager (tx_bm t) (tx_tables_ t) (<[name := handle]> (tx_indexes_ t)));
      mret handle
  | Some handle => mret handle
  end.
End operations.

(** * Histories *)

Inductive cache_op := GetTable (changed is_open : bool) (garbage : file_handle) (name : string) | GetIndex (garbage : file_handle) (name : string) (index : Z).

Section caches.
Context {U : Type} `{Unix U} (default_handle : table_handle).
Implicit Types s : txn_manager U.

(** Requests of transactions, one after the other; one that throws is caught by its
    caller. *)
Definition run_cache_op (o : cache_op) : M (txn_manager U) unit :=
  match o with
  | GetTable c op g name => _ ← get_table default_handle c op g name; mret tt
  | GetIndex g name i => _ ← get_index g name i; mret tt
  end.
Fixpoint run_cache_ops (os : list cache_op) : M (txn_manager U) unit :=
  match os with
  | [] => mret tt
  | o :: os => _ ← attempt (run_cache_op o); run_cache_ops os
  end.

(** Entries stay as they are. *)
Definition cached s s' : Prop := tx_tables_ s ⊆ tx_tables_ s' /\ tx_indexes_ s ⊆ tx_indexes_ s'.
#[local] Instance cached_preorder : PreOrder cached.
Proof. split; [by split|]. intros ? ? ? [] []. split; by etrans. Qed.

Lemma in_mgr_cached {A} (x : M (buffer_manager U) A) s :
  match in_mgr x s with Ret _ s' | Exc _ s' => tx_tables_ s' = tx_tables_ s /\ tx_indexes_ s' = tx_indexes_ s | _ => True end.
Proof. unfold in_mgr, zoom. by destruct (x (tx_bm s)). Qed.

Lemma run_cache_op_cached o s : match run_cache_op o s with Ret _ s' | Exc _ s' => cached s s' | _ => True end.
Proof.
  destruct o as [c op g name|g name i]; cbn [run_cache_op]; unfold get_table, get_index, mbind, M_bind, gets, modify, mret, M_ret.
  - destruct (tx_tables_ s !! name) eqn:Hx; [done|]. pose proof (in_mgr_cached (open_table c op g name) s) as Hc.
    destruct (in_mgr _ s) as [h s1|e s1| |]; try done; destruct Hc as [E1 E2]; split; cbn; rewrite ?E1, ?E2; try done.
    by apply insert_subseteq.
  - destruct (tx_indexes_ s !! name) eqn:Hx; [done|]. pose proof (in_mgr_cached (open_index g name i) s) as Hc.
    destruct (in_mgr _ s) as [h s1|e s1| |]; try done; destruct Hc as [E1 E2]; split; cbn; rewrite ?E1, ?E2; try done.
    by apply insert_subseteq.
Qed.

Lemma run_cache_ops_cached os s s' : run_cache_ops os s = Ret tt s' -> cached s s'.
Proof.
  revert s. induction os as [|o os IH]; intros s; [by intros [= <-]|]. cbn [run_cache_ops]. unfold mbind, M_bind, attempt.
  pose proof (run_cache_op_cached o s) as Ho. destruct (run_cache_op o s) as [a s1|e s1| |]; try done;
    intros Hr; (etrans; [exact Ho|by apply IH]).
Qed.

(** A request enters the handle it returns, and an entry is handed out. *)
Lemma get_table_enters c op g name th s s' :
  get_table default_handle c op g name s = Ret th s' ->
  exists h, tx_tables_ s' !! name = Some h /\ tb_header_changed_ h = tb_header_changed_ th /\
    tb_file_is_open_ h = tb_file_is_open_ th /\ table_header_ h = table_header_ th /\ tb_file_handle_ h = tb_file_handle_ th.
Proof.
  unfold get_table, mbind, M_bind, gets, modify, mret, M_ret. destruct (tx_tables_ s !! name) as [h|] eqn:Hx.
  { intros [= <- <-]. by exists h. }
  destruct (in_mgr _ s) as [h s1| | |]; try done. intros [= <- <-]. cbn [tx_tables_]. rewrite lookup_insert_eq. by eexists.
Qed.

Lemma get_index_enters g name i ih s s' : get_index g name i s = Ret ih s' -> tx_indexes_ s' !! name = Some ih.
Proof.
  unfold get_index, mbind, M_bind, gets, modify, mret, M_ret. destruct (tx_indexes_ s !! name) as [h|] eqn:Hx; [by intros [= <- <-]|].
  destruct (in_mgr _ s) as [h s1| | |]; try done. intros [= <- <-]. cbn [tx_indexes_]. by rewrite lookup_insert_eq.
Qed.
End caches.

(** * Properties *)

(** Once a transaction got a table, every later request for its name, after any
    history of requests, is answered from the cache: nothing is opened, the state is
    unchanged, and the handle names the same file with the same header, but with an
    empty schema. *)
Theorem table_cache_stable {U} `{Unix U} d c op g name th os c' op' g' (s s1 s2 : txn_manager U) :
  get_table d c op g name s = Ret th s1 -> run_cache_ops d os s1 = Ret tt s2 ->
  get_table d c' op' g' name s2 =
    Ret (mk_table_handle (tb_header_changed_ th) (tb_file_is_open_ th) schema_new (table_header_ th) (tb_file_handle_ th)) s2.
Proof.
  intros (h & Hh & E1 & E2 & E3 & E4)%get_table_enters [Ht _]%run_cache_ops_cached.
  unfold get_table, mbind, M_bind, gets. rewrite (lookup_weaken _ _ _ _ Hh Ht).
  unfold table_handle_copy. by rewrite E1, E2, E3, E4.
Qed.

(** The cache of indexes is keyed by the file name alone: once a transaction got
    index [i] of a file, a request for any other index [j] of it, after any history of
    requests, is answered with the handle of index [i]. *)
Theorem index_cache_ignores_number {U} `{Unix U} d g name i ih os g' j (s s1 s2 : txn_manager U) :
  get_index g name i s = Ret ih s1 -> run_cache_ops d os s1 = Ret tt s2 -> get_index g' name j s2 = Ret ih s2.
Proof.
  intros Hx%get_index_enters [_ Hi]%run_cache_ops_cached. unfold get_index, mbind, M_bind, gets.
  by rewrite (lookup_weaken _ _ _ _ Hx Hi).
Qed.

(** A file system with the table t and its index t.1, and requests for both. *)
Definition bare_handle : table_handle := mk_table_handle false false schema_new (mk_table_header 0 0 0) None.
Definition stored_tables : outcome (buffer_manager MemFs) unit :=
  (_ ← create_table 5 (empty_handle 0) "t" schema_new; create_index 77 (empty_handle 0) "t" 1 2 4) tty_bm.
Definition stored_bm : buffer_manager MemFs := match stored_tables with Ret _ b | Exc _ b => b | _ => tty_bm end.
Definition requests : list cache_op := [GetIndex (empty_handle 0) "t" 1; GetTable false false (empty_handle 0) "u"].

Lemma table_cache_stable_witness :
  exists th s1 s2, get_table bare_handle true true (empty_handle 0) "t" (txn_manager_new stored_bm) = Ret th s1 /\
    run_cache_ops bare_handle requests s1 = Ret tt s2 /\
    get_table bare_handle false false (empty_handle 0) "t" s2 =
      Ret (mk_table_handle (tb_header_changed_ th) (tb_file_is_open_ th) schema_new (table_header_ th) (tb_file_handle_ th)) s2.
Proof.
  assert (is_Some (returns ((_ ← get_table bare_handle true true (empty_handle 0) "t"; run_cache_ops bare_handle requests)
    (txn_manager_new stored_bm)))) as (th & s1 & E1 & [[[] s2] E2])%returns_bind by (vm_compute; by eexists).
  assert (run_cache_ops bare_handle requests s1 = Ret tt s2) as E by (revert E2; destruct (run_cache_ops _ _ s1); by intros [= -> ->]).
  exists th, s1, s2. split; [exact E1|]. split; [exact E|].
  apply (table_cache_stable bare_handle true true (empty_handle 0) "t" th requests false false (empty_handle 0) (txn_manager_new stored_bm) s1 s2);
    [exact E1|exact E].
Defined.

Lemma index_cache_ignores_number_witness :
  exists ih s1 s2, get_index (empty_handle 0) "t" 1 (txn_manager_new stored_bm) = Ret ih s1 /\
    run_cache_ops bare_handle requests s1 = Ret tt s2 /\ get_index (empty_handle 0) "t" 2 s2 = Ret ih s2.
Proof.
  assert (is_Some (returns ((_ ← get_index (empty_handle 0) "t" 1; run_cache_ops bare_handle requests)
    (txn_manager_new stored_bm)))) as (ih & s1 & E1 & [[[] s2] E2])%returns_bind by (vm_compute; by eexists).
  assert (run_cache_ops bare_handle requests s1 = Ret tt s2) as E by (revert E2; destruct (run_cache_ops _ _ s1); by intros [= -> ->]).
  exists ih, s1, s2. split; [exact E1|]. split; [exact E|].
  apply (index_cache_ignores_number bare_handle (empty_handle 0) "t" 1 ih requests (empty_handle 0) 2 (txn_manager_new stored_bm) s1 s2);
    [exact E1|exact E].
Defined.
