(* ===== verification/Alphadb.v ===== *)
(** The database front end: src/db/alphadb.{h,cc}, over the managers, the parser
    results and the calls chdir, mkdir and system of the operating system. *)
From Stdlib Require Import Strings.String.
From stdpp Require Import strings.
From S2P Require Import Prelude Unix BufferManager FileHandle Storage Comparator Rid Row TableFormat IndexHandle IndexManager TableManager TableHandle Sql.
Open Scope Z_scope.

(** The calls on directories: the result and the directories afterwards. *)
Class Shell (D : Type) := {
  chdir : string -> D -> Z * D;
  mkdir : string -> Z -> D -> Z * D;
  system : string -> D -> Z * D;
}.

Definition DB_BASE_DIR : string := "~/".

(** metadata_ and indeces_ are never used, and txn_mgr_ is never set. *)
Record alphadb {U D : Type} := mk_alphadb {
  db_dirs : D;
  db_bm : buffer_manager U;                    (* behind io_mgr_, tbl_mgr_ and idx_mgr_ *)
  current_dir_ : string;
  db_opened_ : gmap string bool;
  db_tables_ : gmap string table_handle;
}.
Arguments alphadb : clear implicits.
Arguments mk_alphadb {U D}.
Arguments db_dirs {U D}.
Arguments db_bm {U D}.
Arguments current_dir_ {U D}.
Arguments db_opened_ {U D}.
Arguments db_tables_ {U D}.

Section operations.
Context {U D : Type} `{Unix U} `{Shell D}.

Definition set_dirs (d : D) (a : alphadb U D) : alphadb U D := mk_alphadb d (db_bm a) (current_dir_ a) (db_opened_ a) (db_tables_ a).
Definition set_db_bm (b : buffer_manager U) (a : alphadb U D) : alphadb U D := mk_alphadb (db_dirs a) b (current_dir_ a) (db_opened_ a) (db_tables_ a).
Definition set_dir (c : string) (a : alphadb U D) : alphadb U D := mk_alphadb (db_dirs a) (db_bm a) c (db_opened_ a) (db_tables_ a).
Definition set_opened (name : string) (b : bool) (a : alphadb U D) : alphadb U D :=
  mk_alphadb (db_dirs a) (db_bm a) (current_dir_ a) (<[name := b]> (db_opened_ a)) (db_tables_ a).
Definition set_table (name : string) (th : table_handle) (a : alphadb U D) : alphadb U D :=
  mk_alphadb (db_dirs a) (db_bm a) (current_dir_ a) (db_opened_ a) (<[name := th]> (db_tables_ a)).

Definition in_db_bm {A} : M (buffer_manager U) A -> M (alphadb U D) A := zoom db_bm set_db_bm.

(** A call of the operating system; the test is [< 0] for chdir and mkdir. *)
Definition sys_call (call : D -> Z * D) : M (alphadb U D) Z := fun a =>
  let '(r, d) := call (db_dirs a) in Ret r (set_dirs d a).

(** alphadb::alphadb *)
Definition alphadb_new (pool : nat -> buffer_entry) (u : U) (d : D) : outcome D (alphadb U D) :=
  let '(r, d) := chdir DB_BASE_DIR d in
  if r <? 0 then Exc std_exception d else Ret (mk_alphadb d (io_manager_new pool u) DB_BASE_DIR ∅ ∅) d.

(** db_opened_[name], which enters false for a new name *)
Definition opened (name : string) : M (alphadb U D) bool :=
  m ← gets db_opened_;
  let b := default false (m !! name) in
  _ ← modify (set_opened name b);
  mret b.

(** alphadb::create_db *)
Definition create_db (name : string) : M (alphadb U D) bool :=
  r ← sys_call (chdir DB_BASE_DIR);
  if r <? 0 then mret false
  else r ← sys_call (mkdir name 511); mret (negb (r <? 0)).

(** alphadb::open_db *)
Definition open_db (name : string) : M (alphadb U D) bool :=
  b ← opened name;
  if (b : bool) then mret true
  else
    _ ← modify (fun a => set_dir (current_dir_ a ++ "/" ++ name)%string a);
    dir ← gets current_dir_;
    r ← sys_call (chdir dir);
    if r <? 0 then mret false
    else _ ← modify (set_opened name true); mret true.

(** alphadb::close_db *)
Definition close_db (name : string) : M (alphadb U D) bool :=
  b ← opened name;
  if negb b then mret true
  else
    _ ← modify (set_dir DB_BASE_DIR);
    dir ← gets current_dir_;
    r ← sys_call (chdir dir);
    if r <? 0 then mret false
    else _ ← modify (set_opened name false); mret true.

(** alphadb::drop_db *)
Definition drop_db (name : string) : M (alphadb U D) bool :=
  b ← opened name;
  _ ← (if (b : bool) then close_db name else mret true);
  r ← sys_call (system ("rm -r " ++ DB_BASE_DIR ++ "/" ++ name)%string);
  mret (r =? 0).

(** Values of variables that the code leaves uninitialised. *)
Record leftovers := mk_leftovers {
  lo_handle : file_handle;
  lo_num : Z;
  lo_flags : bool * bool;
  lo_hdrs : nat -> table_page_hdr;
  lo_format : table_format;
}.
Context (lo : leftovers) (addr : Z -> Z).

(** alphadb::create_table, drop_table, create_index, drop_index *)
Definition db_create_table (name : string) (s : schema) : M (alphadb U D) bool :=
  _ ← in_db_bm (create_table (lo_num lo) (lo_handle lo) name s); mret false.
Definition db_drop_table (name : string) : M (alphadb U D) bool := _ ← in_db_bm (destroy_table name); mret false.
Definition db_create_index (name : string) : M (alphadb U D) bool :=
  _ ← in_db_bm (create_index (lo_num lo) (lo_handle lo) name (-1) (-1) (-1)); mret false.
Definition db_drop_index (name : string) : M (alphadb U D) bool := _ ← in_db_bm (destroy_index name (-1)); mret false.

(** * serve_command *)

(** The heap of the parser and the database *)
Record command_state := mk_command_state { cs_heap : heap; cs_db : alphadb U D }.
Definition in_heap {A} : M heap A -> M command_state A := zoom cs_heap (fun h c => mk_command_state h (cs_db c)).
Definition in_db {A} : M (alphadb U D) A -> M command_state A := zoom cs_db (fun d c => mk_command_state (cs_heap c) d).

(** A char* member made a std::string *)
Definition name_of (p : ptr) : M command_state string :=
  a ← of_option null_deref p;
  bs ← in_heap (load is_chars a);
  mret (string_of_list_byte bs).

(** A method of a local table_handle *)
Definition on_table {A} (th : table_handle) (x : M (table_state U) A) : M (alphadb U D) A :=
  in_db_bm (fun b =>
    match x (mk_table_state U th b) with
    | Ret r t => Ret r (ts_bm t)
    | Exc e t => Exc e (ts_bm t)
    | Undef r => Undef r
    | Blocked => Blocked
    end).

(** th.insert_record("TODO", 1) *)
Definition insert_todo (th : table_handle) : M (alphadb U D) rid :=
  on_table th (insert_record addr (lo_hdrs lo) (lo_format lo) (mk_cptr 0 (list_byte_of_string "TODO" ++ [Byte.x00])) 1).

(** The cases of the switch.  The case DELETE reads the pointer istmt, which only the
    case INSERT sets. *)
Definition serve_insert (name : string) : M (alphadb U D) unit :=
  tables ← gets db_tables_;
  match tables !! name with
  | None =>
      th ← in_db_bm (open_table (lo_flags lo).1 (lo_flags lo).2 (lo_handle lo) name);
      _ ← modify (set_table name (table_handle_copy th));
      _ ← insert_todo th;
      mret tt
  | Some th => _ ← insert_todo (table_handle_copy th); mret tt
  end.

Definition serve_statement (s : statement) : M command_state unit :=
  match s with
  | create_statement _ _ tn _ _ _ => name ← name_of tn; _ ← in_db (create_db name); mret tt
  | insert_statement _ tn _ _ => name ← name_of tn; in_db (serve_insert name)
  | update_statement _ tn _ _ => _ ← name_of tn; mret tt
  | delete_statement _ _ _ => undef uninitialised_read
  | drop_statement _ _ tn =>
      name ← name_of tn; _ ← in_db (db_drop_table name); name ← name_of tn; _ ← in_db (db_drop_index name); mret tt
  | select_statement _ _ _ _ | show_statement _ _ _ => mret tt
  end.

(** for(auto&& stmt : stmts) *)
Fixpoint serve_statements (stmts : list ptr) : M command_state unit :=
  match stmts with
  | [] => mret tt
  | p :: stmts =>
      a ← of_option null_deref p;
      s ← in_heap (load is_stmt a);
      _ ← serve_statement s;
      serve_statements stmts
  end.

Context (column_destroy : ptr -> M heap unit) (lexer_fails : bool) (yyparse : list byte -> parser_result -> M heap (Z * parser_result)).

(** What runs when the scope of a local result ends, by return or by an exception *)
Definition with_result {A} (r : parser_result) (x : M command_state A) : M command_state A := fun c =>
  match x c with
  | Ret a c => (_ ← in_heap (result_reset column_destroy r); mret a) c
  | Exc e c => (_ ← in_heap (result_reset column_destroy r); throw e) c
  | o => o
  end.

(** alphadb::serve_command; [reply] is not touched. *)
Definition serve_command (command : list byte) (reply : string) : M command_state (bool * string) :=
  '(_, result) ← in_heap (parse lexer_fails yyparse command parser_result_new);
  with_result result (_ ← serve_statements (statements_ result); mret (false, reply)).
End operations.
Arguments command_state : clear implicits.

(** * Serving leaves the statements alone *)

Section serving.
Context {U D : Type} `{Unix U} `{Shell D} (lo : leftovers) (addr : Z -> Z).
Abbreviation state := (command_state U D).

Lemma keeps_heap_db {A} (x : M (alphadb U D) A) : keeps cs_heap (in_db x).
Proof. unfold in_db. keeps. Qed.

Lemma keeps_load {A} (view : block -> option A) a : keeps (fun c : state => cs_heap c) (in_heap (load view a)).
Proof.
  intros c. unfold in_heap, zoom, load, mbind, M_bind, gets, of_option, undef, mret, M_ret.
  destruct (cs_heap c !! a) as [b|]; [|done]. by destruct (view b).
Qed.
#[local] Hint Resolve keeps_heap_db keeps_load : keeps.

Lemma keeps_heap_name p : keeps (fun c : state => cs_heap c) (name_of p).
Proof. unfold name_of. keeps. Qed.
#[local] Hint Resolve keeps_heap_name : keeps.

Lemma keeps_heap_statement s : keeps (fun c : state => cs_heap c) (serve_statement lo addr s).
Proof. destruct s; cbn [serve_statement]; keeps. Qed.
#[local] Hint Resolve keeps_heap_statement : keeps.

Lemma keeps_heap_statements ps : keeps (fun c : state => cs_heap c) (serve_statements lo addr ps).
Proof. induction ps; cbn [serve_statements]; keeps. Qed.

(** Statements that only need their names: CREATE with a name, SELECT and SHOW. *)
Definition harmless (h : heap) (p : ptr) : Prop :=
  exists a s, p = Some a /\ h !! a = Some (Statement s) /\
  match s with
  | create_statement _ _ tn _ _ _ => exists t bs, tn = Some t /\ h !! t = Some (Chars bs)
  | select_statement _ _ _ _ | show_statement _ _ _ => True
  | _ => False
  end.

(** What those statements leave of the database. *)
Definition stored (a : alphadb U D) := (db_bm a, current_dir_ a, db_opened_ a, db_tables_ a).

Lemma create_db_returns name (a : alphadb U D) : exists ok a', create_db name a = Ret ok a' /\ stored a' = stored a.
Proof.
  unfold create_db, mbind, M_bind, sys_call. destruct (chdir DB_BASE_DIR (db_dirs a)) as [r d]. destruct (r <? 0); [by eexists _, _|].
  cbn [set_dirs db_dirs]. destruct (mkdir name 511 d) as [r' d']. by eexists _, _.
Qed.

Lemma serve_harmless ps (c : state) :
  Forall (harmless (cs_heap c)) ps ->
  exists c', serve_statements lo addr ps c = Ret tt c' /\ cs_heap c' = cs_heap c /\ stored (cs_db c') = stored (cs_db c).
Proof.
  revert c. induction ps as [|p ps IH]; intros c Hps; [by exists c|].
  apply Forall_cons in Hps as [(a & s & -> & Ha & Hs) Hps]. cbn [serve_statements].
  assert (exists c1, serve_statement lo addr s c = Ret tt c1 /\ cs_heap c1 = cs_heap c /\ stored (cs_db c1) = stored (cs_db c)) as (c1 & E1 & Hh & Hst).
  { destruct s; try done; try (by exists c). destruct Hs as (t & bs & -> & Ht). cbn [serve_statement].
    destruct (create_db_returns (string_of_list_byte bs) (cs_db c)) as (ok & a' & Ec & Hst).
    unfold name_of, in_heap, zoom, load, mbind, M_bind, gets, of_option, mret, M_ret. rewrite Ht. cbn [is_chars].
    unfold in_db, zoom. cbn [cs_db]. rewrite Ec. eexists. split; [done|]. by split. }
  destruct (IH c1) as (c2 & E2 & Hh2 & Hst2); [by rewrite Hh|].
  exists c2. split; [|split; congruence].
  rewrite <-E2. unfold mbind, M_bind, of_option, mret, M_ret, in_heap at 1, zoom, load, mbind, M_bind, gets, of_option.
  rewrite Ha. destruct c as [h db]. cbn [cs_heap cs_db] in *. unfold is_stmt, mret, M_ret. cbn beta iota. by rewrite E1.
Qed.

Lemma harmless_unnamed (h : heap) ps : Forall (harmless h) ps -> existsb (update_named h) ps = false.
Proof.
  induction 1 as [|p ps (a & s & -> & Ha & Hs) _ IH]; [done|]. cbn. rewrite Ha, IH. by destruct s.
Qed.
End serving.

(** C16. A command that the parser turned into CREATE (with a name), SELECT and SHOW
    statements is served to its end: the answer is false and the reply as it was, whatever
    the statements did, and only directories may have changed.  Of the memory the statements
    own, the part [g] (statements, names, columns, vectors, the top node of each expression)
    is released, each block once, with nothing else of the heap touched; the part [k]
    (operands, names and vectors below those nodes) is leaked. *)
Theorem serve_command_releases {U D} `{Unix U} `{Shell D} lo addr depth own_name column_destroy yyparse command reply
    (c : command_state U D) ret r (g k h' : heap) :
  (forall name, frees (own_name name) (column_destroy name)) ->
  yyparse command parser_result_new (cs_heap c) = Ret (ret, r) h' -> own_result depth own_name r g k -> g ##ₘ k -> g ∪ k ⊆ h' ->
  Forall (harmless h') (statements_ r) ->
  exists c', serve_command lo addr column_destroy false yyparse command reply c = Ret (false, reply) c' /\
    cs_heap c' = h' ∖ g /\ k ⊆ cs_heap c' /\ stored (cs_db c') = stored (cs_db c).
Proof.
  intros Hcol Hp Hg Hd Hsub Hps. unfold serve_command, parse, in_heap at 1, zoom, mbind, M_bind. rewrite Hp.
  unfold mret at 1, M_ret at 1. unfold mret at 1, M_ret at 1. unfold with_result, mbind, M_bind. cbn [set_valid statements_].
  destruct (serve_harmless lo addr (statements_ r) (mk_command_state h' (cs_db c))) as (c1 & -> & Hh & Hst); [done|].
  cbn [cs_heap cs_db] in *. unfold mret, M_ret, in_heap, zoom. rewrite Hh.
  rewrite (result_reset_frees depth own_name column_destroy Hcol (set_valid (ret =? 0) r) g k h')
    by (done || (etrans; [apply map_union_subseteq_l|exact Hsub])).
  cbn [statements_ set_valid]. rewrite harmless_unnamed by done.
  eexists. split; [done|]. split_and!; [done|by apply subseteq_difference|done].
Qed.

(** Two databases a and b in the base directory, seen through paths. *)
Definition demo_paths : list string := ["~"; "~/"; "~//a"; "~//b"]%string.
Inductive demo_dirs := DemoDirs.
#[export] Instance demo_shell : Shell demo_dirs := {|
  chdir p d := (if bool_decide (p ∈ demo_paths) then 0 else -1, d);
  mkdir p _ d := (-1, d);
  system _ d := (1, d);
|}.
Definition demo_db : alphadb MemFs demo_dirs := mk_alphadb DemoDirs tty_bm DB_BASE_DIR ∅ ∅.
Definition demo_leftovers : leftovers :=
  mk_leftovers (empty_handle 0) 0 (false, false) (fun _ => mk_table_page_hdr 0 0 0 0)
    (mk_table_format (mk_table_page_hdr 0 0 0 0) 0 0 0 VARCHAR 0 []).

Lemma serve_command_releases_witness :
  exists c', serve_command demo_leftovers (fun _ => 0) (fun _ => mret tt) false demo_parse [] "" (mk_command_state ∅ demo_db) = Ret (false, ""%string) c' /\
    cs_heap c' = demo_heap ∖ demo_released /\ demo_lost ⊆ cs_heap c' /\ stored (cs_db c') = stored demo_db.
Proof.
  apply (serve_command_releases demo_leftovers (fun _ => 0) 1 (fun _ => emp) (fun _ => mret tt) demo_parse [] "" (mk_command_state ∅ demo_db) 0 demo_result).
  - intros name. apply frees_emp.
  - vm_compute. reflexivity.
  - apply demo_owned.
  - apply demo_disjoint.
  - reflexivity.
  - apply Forall_singleton. exists 8. eexists. split; [reflexivity|]. split; [vm_compute; reflexivity|exact I].
Defined.

(** * Inserting *)

Inductive db_op :=
| OCreate (name : string) | OOpen (name : string) | OClose (name : string) | ODrop (name : string)
| OCreateTable (name : string) (s : schema) | ODropTable (name : string) | OCreateIndex (name : string) | ODropIndex (name : string)
| OInsert (name : string).

Section inserting.
Context {U D : Type} `{Unix U} `{Shell D} (lo : leftovers) (addr : Z -> Z).
Implicit Types a : alphadb U D.

Definition run_db_op (o : db_op) : M (alphadb U D) bool :=
  match o with
  | OCreate name => create_db name | OOpen name => open_db name | OClose name => close_db name | ODrop name => drop_db name
  | OCreateTable name s => db_create_table lo name s | ODropTable name => db_drop_table name
  | OCreateIndex name => db_create_index lo name | ODropIndex name => db_drop_index name
  | OInsert name => _ ← serve_insert lo addr name; mret true
  end.

(** The results of a history, an exception being the result of its operation. *)
Fixpoint run_db_ops (os : list db_op) : M (alphadb U D) (list (bool + exn)) :=
  match os with
  | [] => mret []
  | o :: os => r ← attempt (run_db_op o); rs ← run_db_ops os; mret (r :: rs)
  end.

(** The file handle of a cached table is gone. *)
Definition dangling a : Prop := forall name th, db_tables_ a !! name = Some th -> tb_file_handle_ th = None.

Lemma insert_record_dangles hdrs g data len (s : table_state U) :
  tb_file_handle_ (ts_handle s) = None -> insert_record addr hdrs g data len s = Undef dangling_deref.
Proof. intros Hs. unfold insert_record, get_next_free, mbind, M_bind, gets, in_table_file. by rewrite Hs. Qed.

Lemma insert_todo_dangles th a : tb_file_handle_ th = None -> insert_todo lo addr th a = Undef dangling_deref.
Proof. intros Hth. unfold insert_todo, on_table, in_db_bm, zoom. by rewrite insert_record_dangles. Qed.

Lemma post_any {S A} (m : M S A) (Q : A -> S -> Prop) s : (forall x s', Q x s') -> post m Q s.
Proof. unfold post. intros HQ. by destruct (m s). Qed.

Lemma post_with_handle {A} fh (x : M (file_state U) A) (Q : A * file_handle -> buffer_manager U -> Prop) b :
  (forall s, post x (fun r s' => forall f, Q (r, f) (fs_bm s')) s) -> post (with_handle fh x) Q b.
Proof. intros Hx. specialize (Hx (mk_file_state U fh b)). unfold post, with_handle in *. by destruct (x _). Qed.

Lemma open_table_dangles c o g name (b b' : buffer_manager U) th : open_table c o g name b = Ret th b' -> tb_file_handle_ th = None.
Proof.
  intros Ho. apply (post_ret (open_table c o g name) (fun th _ => tb_file_handle_ th = None) b th b'); [|done].
  unfold open_table. apply post_bind, post_any. intros fh b1. apply post_bind, post_with_handle. intros s.
  apply post_bind, post_any. intros ph s1. apply post_bind, post_any. intros [hd sc] s2. by apply post_bind, post_any.
Qed.

Lemma insert_never_returns name a : dangling a -> post (serve_insert lo addr name) (fun _ _ => False) a.
Proof.
  intros Hd. unfold serve_insert. apply post_bind, post_gets. destruct (db_tables_ a !! name) as [th|] eqn:Hth.
  - apply post_bind. unfold post. by rewrite insert_todo_dangles by (cbn; eauto).
  - apply post_bind. unfold post at 1, in_db_bm, zoom. destruct (open_table _ _ _ name (db_bm a)) as [th b'| | |] eqn:Ho; try done.
    apply post_bind, post_modify, post_bind. unfold post. by rewrite insert_todo_dangles by (by eapply open_table_dangles).
Qed.

Lemma keeps_tables_bm {A} (x : M (buffer_manager U) A) : keeps db_tables_ (in_db_bm (D:=D) x).
Proof. unfold in_db_bm. keeps. Qed.
Lemma keeps_tables_sys call : keeps db_tables_ (sys_call (U:=U) (D:=D) call).
Proof. intros a. unfold sys_call. by destruct (call (db_dirs a)). Qed.
#[local] Hint Resolve keeps_tables_bm keeps_tables_sys : keeps.
Lemma keeps_tables_opened name : keeps (S:=alphadb U D) db_tables_ (opened name).
Proof. unfold opened. keeps. Qed.
#[local] Hint Resolve keeps_tables_opened : keeps.
Lemma keeps_tables_close name : keeps (S:=alphadb U D) db_tables_ (close_db name).
Proof. unfold close_db. keeps. Qed.
#[local] Hint Resolve keeps_tables_close : keeps.

(** Every operation that goes on leaves the cached tables as they are. *)
Lemma run_db_op_tables o a : dangling a ->
  match run_db_op o a with
  | Ret _ a' => db_tables_ a' = db_tables_ a /\ (forall name, o <> OInsert name)
  | Exc _ a' => db_tables_ a' = db_tables_ a
  | _ => True
  end.
Proof.
  intros Hd. assert ((exists name, o = OInsert name) \/ (keeps db_tables_ (run_db_op o) /\ forall name, o <> OInsert name)) as [[name ->]|[Hk Ho]].
  { destruct o; try (right; split; [cbn [run_db_op]|done]); [..|by left; eauto];
      unfold create_db, open_db, drop_db, db_create_table, db_drop_table, db_create_index, db_drop_index; keeps. }
  - pose proof (insert_never_returns name a Hd) as Hp. cbn [run_db_op]. unfold mbind, M_bind, post in *.
    destruct (serve_insert lo addr name a) as [|e a'| |] eqn:E; try done. revert E.
    unfold serve_insert, mbind, M_bind, gets, modify. destruct (db_tables_ a !! name) as [th|] eqn:Hth.
    { by rewrite insert_todo_dangles by (cbn; eauto). }
    pose proof (keeps_tables_bm (open_table (lo_flags lo).1 (lo_flags lo).2 (lo_handle lo) name) a) as Hk. revert Hk.
    unfold in_db_bm, zoom. destruct (open_table _ _ _ name (db_bm a)) as [th b'|e' b'| |] eqn:Ho; try done.
    + by rewrite insert_todo_dangles by (by eapply open_table_dangles).
    + by intros Hk [= _ <-].
  - specialize (Hk a). by destruct (run_db_op o a).
Qed.

Lemma inserts_fail os rs a a' : dangling a -> run_db_ops os a = Ret rs a' ->
  forall i name, os !! i = Some (OInsert name) -> exists e, rs !! i = Some (inr e).
Proof.
  revert rs a. induction os as [|o os IH]; intros rs a Hd Hrun i name Hi; [done|].
  cbn [run_db_ops] in Hrun. unfold mbind, M_bind, attempt in Hrun. pose proof (run_db_op_tables o a Hd) as Ho.
  destruct (run_db_op o a) as [ok a1|e a1| |]; try done;
    (destruct (run_db_ops os a1) as [rs1 a2| | |] eqn:Hos; try done); injection Hrun as <- <-.
  - destruct Ho as [Ht Hno]. destruct i as [|i]; [injection Hi as ->; by destruct (Hno name)|].
    eapply (IH rs1 a1); [|done|done]. unfold dangling. by rewrite Ht.
  - destruct i as [|i]; [by exists e|]. eapply (IH rs1 a1); [|done|done]. unfold dangling. by rewrite Ho.
Qed.
End inserting.

(** No INSERT ever succeeds: in every history of operations on a new database
    that stays defined, each insertion ends in an exception.  (open_table hands out a
    handle on a dead file_handle, so an insertion either fails to open its table or
    is undefined.) *)
Theorem inserts_never_succeed {U D} `{Unix U} `{Shell D} lo addr pool (u : U) (d d' : D) os rs (a a' : alphadb U D) :
  alphadb_new pool u d = Ret a d' -> run_db_ops lo addr os a = Ret rs a' ->
  forall i name, os !! i = Some (OInsert name) -> exists e, rs !! i = Some (inr e).
Proof.
  unfold alphadb_new. destruct (chdir DB_BASE_DIR d) as [r d1]. destruct (r <? 0); [done|]. intros [= <- <-].
  apply inserts_fail. intros name th. cbn [db_tables_]. by rewrite lookup_empty.
Qed.

Lemma inserts_never_succeed_witness :
  exists rs a', run_db_ops demo_leftovers (fun _ => 0) [OOpen "a"; OInsert "t"; OClose "a"] demo_db = Ret rs a' /\
    exists e, rs !! 1%nat = Some (inr e).
Proof.
  assert (is_Some (returns (run_db_ops demo_leftovers (fun _ => 0) [OOpen "a"; OInsert "t"; OClose "a"] demo_db))) as [[rs a'] E]
    by (vm_compute; by eexists).
  exists rs, a'. assert (run_db_ops demo_leftovers (fun _ => 0) [OOpen "a"; OInsert "t"; OClose "a"] demo_db = Ret rs a') as Hrun
    by (revert E; destruct (run_db_ops _ _ _ demo_db); by intros [= -> ->]).
  split; [exact Hrun|].
  assert (alphadb_new demo_entry tty_fs DemoDirs = Ret demo_db DemoDirs) as Hnew by (unfold alphadb_new; vm_compute (chdir _ _); reflexivity).
  apply (inserts_never_succeed demo_leftovers (fun _ => 0) demo_entry tty_fs DemoDirs DemoDirs
    [OOpen "a"; OInsert "t"; OClose "a"] rs demo_db a' Hnew Hrun 1%nat "t"%string). reflexivity.
Defined.

(** * Opening databases *)

(** What chdir is relied on: it succeeds on directories, and the parents of a
    directory are directories. *)
Class ShellLaws (D : Type) `{Shell D} := {
  is_dir : D -> string -> bool;
  chdir_result p d : ((chdir p d).1 <? 0) = negb (is_dir d p);
  chdir_dirs p d q : is_dir (chdir p d).2 q = is_dir d q;
  dir_parent d p n : is_dir d (p ++ "/" ++ n)%string = true -> is_dir d p = true;
}.

Section opening.
Context {U D : Type} `{ShellLaws D}.
Implicit Types a : alphadb U D.

Fixpoint open_dbs (names : list string) : M (alphadb U D) (list bool) :=
  match names with
  | [] => mret []
  | name :: names => b ← open_db name; bs ← open_dbs names; mret (b :: bs)
  end.

Definition is_open a (name : string) : bool := default false (db_opened_ a !! name).
Definition lost a : Prop := is_dir (db_dirs a) (current_dir_ a) = false.

Lemma is_open_opened a name name' : is_open (set_opened name (is_open a name) a) name' = is_open a name'.
Proof. unfold is_open at 1. cbn. rewrite lookup_insert. by case_decide; subst. Qed.

(** open_db on every branch *)
Lemma open_db_spec name a : exists a',
  open_db name a = Ret (is_open a name || is_dir (db_dirs a) (current_dir_ a ++ "/" ++ name)%string) a' /\
  (forall p, is_dir (db_dirs a') p = is_dir (db_dirs a) p) /\
  current_dir_ a' = (if is_open a name then current_dir_ a else current_dir_ a ++ "/" ++ name)%string /\
  (forall name', is_open a' name' =
    if decide (name = name') then is_open a name || is_dir (db_dirs a) (current_dir_ a ++ "/" ++ name)%string else is_open a name').
Proof.
  unfold open_db, opened, mbind, M_bind, gets, modify, mret, M_ret. fold (is_open a name).
  destruct (is_open a name) eqn:Ho; cbn [orb].
  { eexists. split; [done|]. cbn. split_and!; [done|done|]. intros name'. unfold is_open at 1. cbn. rewrite lookup_insert. by case_decide. }
  cbn [set_opened set_dir current_dir_ db_dirs db_bm db_opened_ db_tables_]. unfold sys_call. cbn [db_dirs].
  set (p := (current_dir_ a ++ "/" ++ name)%string). change (db_dirs (set_dir p (set_opened name false a))) with (db_dirs a).
  pose proof (chdir_result p (db_dirs a)) as Hr. pose proof (chdir_dirs p (db_dirs a)) as Hd.
  destruct (chdir p (db_dirs a)) as [r d]. cbn [fst snd] in *. rewrite Hr.
  destruct (is_dir (db_dirs a) p); cbn [negb]; eexists; (split; [done|]); cbn; (split_and!; [done|done|]);
    intros name'; unfold is_open at 1; cbn; rewrite !lookup_insert; by case_decide.
Qed.

Lemma lost_open name a : lost a -> exists a', open_db name a = Ret (is_open a name) a' /\ lost a' /\ forall n, is_open a' n = is_open a n.
Proof.
  intros Hl. destruct (open_db_spec name a) as (a' & E & Hd & Hc & Ho). exists a'.
  assert (is_dir (db_dirs a) (current_dir_ a ++ "/" ++ name)%string = false) as Hno.
  { apply not_true_is_false. intros Ht%dir_parent. unfold lost in Hl. congruence. }
  rewrite Hno, orb_false_r in *. split_and!; [done| |].
  - unfold lost. rewrite Hd, Hc. by destruct (is_open a name).
  - intros n. rewrite Ho. by case_decide; subst.
Qed.

Lemma lost_opens names a : lost a -> exists a', open_dbs names a = Ret (is_open a <$> names) a'.
Proof.
  revert a. induction names as [|name names IH]; intros a Hl; [by exists a|].
  destruct (lost_open name a Hl) as (a1 & E1 & Hl1 & Ho1). destruct (IH a1 Hl1) as [a2 E2].
  exists a2. cbn [open_dbs]. unfold mbind, M_bind. rewrite E1, E2. unfold mret, M_ret. f_equal. cbn. f_equal.
  apply list_fmap_ext. intros _ n _. apply Ho1.
Qed.
End opening.

(** A failed open_db spoils the later ones: current_dir_ keeps the name that
    failed, so afterwards open_db succeeds for exactly the databases that were open
    already, and fails for every other, whether it exists or not, in any sequence. *)
Theorem failed_open_spoils {U D} `{ShellLaws D} name names (a a1 : alphadb U D) :
  open_db name a = Ret false a1 -> exists a2, open_dbs names a1 = Ret (is_open a1 <$> names) a2.
Proof.
  intros Ho. destruct (open_db_spec name a) as (a' & E & Hd & Hc & _). rewrite Ho in E. injection E as E <-.
  symmetry in E. apply orb_false_iff in E as [E1 E2]. apply lost_opens. unfold lost. by rewrite Hd, Hc, E1.
Qed.

Lemma demo_parent p n : (p ++ "/" ++ n)%string ∈ demo_paths -> p ∈ demo_paths.
Proof.
  unfold demo_paths. rewrite !list_elem_of_In. cbn [In].
  destruct p as [|c1 [|c2 [|c3 [|c4 p]]]]; cbn; intros Hp; repeat destruct Hp as [Hp|Hp]; try done; injection Hp; intros; subst; auto;
    by destruct p.
Qed.

#[export] Instance demo_shell_laws : ShellLaws demo_dirs.
Proof.
  refine {| is_dir _ p := bool_decide (p ∈ demo_paths) |}.
  - intros p d. cbn. by case_bool_decide.
  - done.
  - intros _ p n Hp%bool_decide_eq_true. apply bool_decide_eq_true. by eapply demo_parent.
Defined.

Lemma failed_open_spoils_witness :
  exists a1 a2, open_db "x" demo_db = Ret false a1 /\ open_dbs ["a"; "b"]%string a1 = Ret (is_open a1 <$> ["a"; "b"]%string) a2.
Proof.
  assert (exists a1, open_db "x" demo_db = Ret false a1) as [a1 E] by (eexists; vm_compute; reflexivity).
  exists a1. destruct (failed_open_spoils "x" ["a"; "b"]%string demo_db a1 E) as [a2 E2]. exists a2. split; [exact E|exact E2].
Defined.
