(* ===== verification/ThreadPool.v ===== *)
(** The thread pool: src/network/thread_pool.{h,cc}, as the interleaving of its
    workers, the callers of enqueue and the destructor.  A section under mutex_ is
    one step; a call of notify_one or notify_all, which is made outside of it, is
    another.  condition_ may wake a worker without a notification. *)
From S2P Require Import Prelude.

Section pool.
(** The tasks, and whether a task returns: one that waits for a mutex it holds does not *)
Context {task : Type} (ends : task -> bool).

(** Where a worker is: before the lock, blocked in wait, woken (before it has the
    lock again), running a task, or returned. *)
Inductive worker := Locking | Waiting | Woken | Running (t : task) | Done.

(** The destructor: not called, behind its locked block, behind notify_all (joining),
    or returned. *)
Inductive dtor := NotCalled | Stopped | Joining | Finished.

(** [owed] counts callers of enqueue that have not notified yet.  [enqueued], [taken]
    and [finished] record the tasks accepted, taken from the queue and run. *)
Record pool_state := mk_pool {
  pl_working : bool;
  tasks_ : list task;
  workers_ : list worker;
  owed : nat;
  pl_dtor : dtor;
  enqueued : list task;
  taken : list task;
  finished : list task;
}.

Definition set_worker (i : nat) (w : worker) (p : pool_state) : pool_state :=
  mk_pool (pl_working p) (tasks_ p) (<[i := w]> (workers_ p)) (owed p) (pl_dtor p) (enqueued p) (taken p) (finished p).
Definition set_workers (ws : list worker) (p : pool_state) : pool_state :=
  mk_pool (pl_working p) (tasks_ p) ws (owed p) (pl_dtor p) (enqueued p) (taken p) (finished p).
Definition set_owed (n : nat) (p : pool_state) : pool_state :=
  mk_pool (pl_working p) (tasks_ p) (workers_ p) n (pl_dtor p) (enqueued p) (taken p) (finished p).
Definition set_dtor (b : bool) (d : dtor) (p : pool_state) : pool_state :=
  mk_pool b (tasks_ p) (workers_ p) (owed p) d (enqueued p) (taken p) (finished p).

(** thread_pool::thread_pool *)
Definition thread_pool_new (threads : Z) : pool_state :=
  mk_pool true [] (replicate (Z.to_nat threads) Locking) 0 NotCalled [] [] [].

(** The locked block of enqueue; on a stopped pool it throws. *)
Definition pool_enqueue (t : task) (p : pool_state) : pool_state + exn :=
  if pl_working p
  then inl (mk_pool true (tasks_ p ++ [t]) (workers_ p) (S (owed p)) (pl_dtor p) (enqueued p ++ [t]) (taken p) (finished p))
  else inr runtime_error.

(** The locked block of worker [i]: it waits, returns, or takes the front task. *)
Definition worker_section (i : nat) (p : pool_state) : pool_state :=
  match tasks_ p with
  | [] => set_worker i (if pl_working p then Waiting else Done) p
  | t :: ts =>
      mk_pool (pl_working p) ts (<[i := Running t]> (workers_ p)) (owed p) (pl_dtor p) (enqueued p) (taken p ++ [t]) (finished p)
  end.

(** task(): a task that returns sends its worker back to the lock (the packaged_task inside
    keeps an exception); one that does not keeps it. *)
Definition worker_task (i : nat) (t : task) (p : pool_state) : option pool_state :=
  if ends t then
    Some (mk_pool (pl_working p) (tasks_ p) (<[i := Locking]> (workers_ p)) (owed p) (pl_dtor p) (enqueued p) (taken p) (finished p ++ [t]))
  else None.

Definition wake (w : worker) : worker := if w is Waiting then Woken else w.
Definition is_waiting (w : worker) : bool := if w is Waiting then true else false.
Definition is_done (w : worker) : bool := if w is Done then true else false.

(** A step: a caller enters a task; a caller notifies and condition_ picks waiting
    worker [i], or nobody waits; worker [i] goes on, or wakes by itself; the destructor
    goes on. *)
Inductive action := Enqueue (t : task) | NotifyOne (i : nat) | Worker (i : nat) | Spurious (i : nat) | Destroy.

Definition pool_step (a : action) (p : pool_state) : option pool_state :=
  match a with
  | Enqueue t => match pool_enqueue t p with inl p' => Some p' | inr _ => Some p end
  | NotifyOne i =>
      match owed p with
      | O => None
      | S n =>
          if existsb is_waiting (workers_ p)
          then if workers_ p !! i is Some Waiting then Some (set_owed n (set_worker i Woken p)) else None
          else Some (set_owed n p)
      end
  | Worker i =>
      match workers_ p !! i with
      | Some Locking | Some Woken => Some (worker_section i p)
      | Some (Running t) => worker_task i t p
      | _ => None
      end
  | Spurious i => if workers_ p !! i is Some Waiting then Some (set_worker i Woken p) else None
  | Destroy =>
      match pl_dtor p with
      | NotCalled => Some (set_dtor false Stopped p)
      | Stopped => Some (set_dtor false Joining (set_workers (wake <$> workers_ p) p))
      | Joining => if forallb is_done (workers_ p) then Some (set_dtor false Finished p) else None
      | Finished => None
      end
  end.

(** Histories of a pool. *)
Inductive pool_reach (threads : Z) : pool_state -> Prop :=
| reach_new : pool_reach threads (thread_pool_new threads)
| reach_step p a p' : pool_reach threads p -> pool_step a p = Some p' -> pool_reach threads p'.
End pool.
Arguments pool_state : clear implicits.
Arguments worker : clear implicits.
Arguments action : clear implicits.

(** * Invariant *)

Section invariant.
Context {task : Type} (ends : task -> bool).
Implicit Types (p : pool_state task) (ws : list (worker task)).

(** The tasks that workers are running *)
Definition running_task (w : worker task) : option task := if w is Running t then Some t else None.
Definition running ws : list task := omap running_task ws.

Record pool_ok (threads : Z) p : Prop := {
  ok_count : length (workers_ p) = Z.to_nat threads;
  ok_fifo : taken p ++ tasks_ p = enqueued p;
  ok_once : finished p ++ running (workers_ p) ≡ₚ taken p;
  ok_working : pl_working p = match pl_dtor p with NotCalled => true | _ => false end;
  ok_done : Done ∈ workers_ p -> pl_working p = false /\ tasks_ p = [];
  ok_joining : match pl_dtor p with Joining | Finished => Waiting ∉ workers_ p | _ => True end;
  (* no notification is lost *)
  ok_notified : 0 < threads -> pl_working p = true -> tasks_ p <> [] ->
    (0 < owed p)%nat \/ exists w, w ∈ workers_ p /\ w <> Waiting;
  ok_finished : pl_dtor p = Finished -> forall w, w ∈ workers_ p -> w = Done;
}.

Lemma insert_split {A} (l : list A) i x y : l !! i = Some x -> exists l1 l2, l = l1 ++ x :: l2 /\ <[i := y]> l = l1 ++ y :: l2.
Proof.
  intros Hi. exists (take i l), (drop (S i) l). split; [by rewrite take_drop_middle|].
  apply insert_take_drop. by apply lookup_lt_Some in Hi.
Qed.

(** Changing one worker *)
Lemma elem_of_mid {A} (l1 l2 : list A) x y : y ∈ l1 ++ x :: l2 <-> y = x \/ y ∈ l1 ++ l2.
Proof. rewrite !elem_of_app, elem_of_cons. tauto. Qed.

Lemma running_mid l1 (w : worker task) l2 : running (l1 ++ w :: l2) ≡ₚ option_list (running_task w) ++ running (l1 ++ l2).
Proof.
  unfold running. rewrite !omap_app. cbn. destruct (running_task w); cbn; [|done]. by rewrite Permutation_middle.
Qed.

Lemma new_ok threads : pool_ok threads (thread_pool_new threads).
Proof.
  split; cbn; try done.
  - by rewrite length_replicate.
  - by induction (Z.to_nat threads).
  - by intros [? _]%elem_of_replicate.
Qed.

Lemma pool_enqueue_ok threads t p p' : pool_ok threads p -> pool_enqueue t p = inl p' -> pool_ok threads p'.
Proof.
  intros [Hn Hf Ho Hw Hd Hj Hk He]. unfold pool_enqueue. destruct (pl_working p) eqn:Ew; [|done]. intros [= <-].
  split; cbn; try done.
  - by rewrite app_assoc, Hf.
  - intros Hin. by destruct (Hd Hin).
  - intros. left. lia.
Qed.

(** A worker that runs nothing takes its section. *)
Lemma section_ok threads i w p :
  workers_ p !! i = Some w -> w = Locking \/ w = Woken -> pool_ok threads p -> pool_ok threads (worker_section i p).
Proof.
  intros Hi Hw OK. assert (running_task w = None /\ w <> Done /\ w <> Waiting) as (Hr & Hnd & Hnw) by (by destruct Hw as [->| ->]).
  destruct OK as [Hn Hf Ho Hwk Hd Hj Hk He]. unfold worker_section. destruct (tasks_ p) as [|t ts] eqn:Et.
  - destruct (insert_split _ i w (if pl_working p then Waiting else Done) Hi) as (l1 & l2 & E1 & E2).
    split; unfold set_worker; cbn; rewrite ?length_insert, ?Et, ?E2; try done.
    + rewrite running_mid. rewrite E1, running_mid, Hr in Ho. by destruct (pl_working p).
    + intros Hin. destruct (pl_working p) eqn:Ep; [|done]. exfalso. apply elem_of_mid in Hin as [|Hin]; [done|].
      destruct Hd as [[=] _]. rewrite E1. apply elem_of_mid. by right.
    + rewrite Hwk. rewrite E1 in Hj. destruct (pl_dtor p); try done; (intros [|Hin]%elem_of_mid; [done|]);
        apply Hj, elem_of_mid; by right.
    + intros HF. exfalso. apply Hnd, (He HF). eapply list_elem_of_lookup_2; done.
  - destruct (insert_split _ i w (Running t) Hi) as (l1 & l2 & E1 & E2).
    split; cbn; rewrite ?length_insert, ?E2; try done.
    + by rewrite <-app_assoc.
    + rewrite running_mid. cbn. rewrite E1, running_mid, Hr in Ho. cbn in Ho. rewrite <-Permutation_middle, Ho. apply Permutation_cons_append.
    + intros [|Hin]%elem_of_mid; [done|]. destruct Hd as [_ [=]]. rewrite E1. apply elem_of_mid. by right.
    + rewrite E1 in Hj. destruct (pl_dtor p); try done; (intros [|Hin]%elem_of_mid; [done|]); apply Hj, elem_of_mid; by right.
    + intros. right. exists (Running t). split; [|done]. apply elem_of_mid. by left.
    + intros HF. exfalso. apply Hnd, (He HF). eapply list_elem_of_lookup_2; done.
Qed.

Lemma task_ok threads i t p p' :
  workers_ p !! i = Some (Running t) -> pool_ok threads p -> worker_task ends i t p = Some p' -> pool_ok threads p'.
Proof.
  intros Hi [Hn Hf Ho Hwk Hd Hj Hk He]. destruct (insert_split _ i _ Locking Hi) as (l1 & l2 & E1 & E2).
  unfold worker_task. destruct (ends t); [|done]. intros [= <-]. split; cbn; rewrite ?length_insert, ?E2; try done.
  - rewrite running_mid. rewrite E1, running_mid in Ho. cbn in *. by rewrite <-app_assoc.
  - intros [|Hin]%elem_of_mid; [done|]. apply Hd. rewrite E1. apply elem_of_mid. by right.
  - rewrite E1 in Hj. destruct (pl_dtor p); try done; (intros [|Hin]%elem_of_mid; [done|]); apply Hj, elem_of_mid; by right.
  - intros. right. exists Locking. split; [|done]. apply elem_of_mid. by left.
  - intros HF. exfalso. assert (Running t = Done) as [=]. apply (He HF). eapply list_elem_of_lookup_2; done.
Qed.

(** A waiting worker wakes. *)
Lemma woken_ok threads i p : workers_ p !! i = Some Waiting -> pool_ok threads p ->
  pool_ok threads (set_worker i Woken p) /\ exists w, w ∈ workers_ (set_worker i Woken p) /\ w <> Waiting.
Proof.
  intros Hi [Hn Hf Ho Hwk Hd Hj Hk He]. destruct (insert_split _ i _ Woken Hi) as (l1 & l2 & E1 & E2).
  assert (Woken ∈ <[i := Woken]> (workers_ p)) as Hin by (rewrite E2; apply elem_of_mid; by left).
  split; [|by exists Woken]. unfold set_worker. split; cbn; rewrite ?length_insert, ?E2; try done.
  - rewrite running_mid. by rewrite E1, running_mid in Ho.
  - intros [|Hin']%elem_of_mid; [done|]. apply Hd. rewrite E1. apply elem_of_mid. by right.
  - rewrite E1 in Hj. destruct (pl_dtor p); try done; (intros [|Hin']%elem_of_mid; [done|]); apply Hj, elem_of_mid; by right.
  - intros. right. exists Woken. split; [|done]. apply elem_of_mid. by left.
  - intros HF. exfalso. assert ((Waiting : worker task) = Done) as [=]. apply (He HF). eapply list_elem_of_lookup_2; done.
Qed.

Lemma set_owed_ok threads n p : pool_ok threads p -> (0 < threads -> exists w, w ∈ workers_ p /\ w <> Waiting) -> pool_ok threads (set_owed n p).
Proof. intros [Hn Hf Ho Hwk Hd Hj Hk He] Hx. split; cbn; try done. intros Ht _ _. right. by apply Hx. Qed.

Lemma nobody_waits threads p :
  pool_ok threads p -> existsb is_waiting (workers_ p) = false -> 0 < threads -> exists w, w ∈ workers_ p /\ w <> Waiting.
Proof.
  intros OK Hno Ht. pose proof (ok_count _ _ OK) as Hlen. destruct (workers_ p) as [|w ws]; cbn in *; [lia|].
  exists w. split; [left|]. intros ->. done.
Qed.

Lemma running_wake ws : running (wake <$> ws) = running ws.
Proof. unfold running. induction ws as [|[] ws IH]; cbn; by rewrite ?IH. Qed.

Lemma elem_of_wake w ws : w ∈ wake <$> ws -> w <> Waiting /\ (w = Woken \/ w ∈ ws).
Proof. intros ([] & -> & Hin)%list_elem_of_fmap; cbn; auto. Qed.

Lemma destroy_ok threads p p' : pool_ok threads p -> pool_step ends Destroy p = Some p' -> pool_ok threads p'.
Proof.
  intros [Hn Hf Ho Hwk Hd Hj Hk He]. cbn. destruct (pl_dtor p) eqn:Ed; try done.
  - intros [= <-]. split; cbn; try done. intros Hin. by destruct (Hd Hin).
  - intros [= <-]. split; cbn; try done.
    + by rewrite length_fmap.
    + by rewrite running_wake.
    + intros [_ [|Hin]]%elem_of_wake; [done|]. by destruct (Hd Hin).
    + by intros [? _]%elem_of_wake.
  - destruct (forallb is_done (workers_ p)) eqn:Ef; [|done]. intros [= <-]. split; cbn; try done.
    + intros Hin. by destruct (Hd Hin).
    + intros _ w Hin. rewrite forallb_forall in Ef. specialize (Ef w). rewrite <-list_elem_of_In in Ef.
      specialize (Ef Hin). by destruct w.
Qed.

Lemma pool_step_ok threads a p p' : pool_ok threads p -> pool_step ends a p = Some p' -> pool_ok threads p'.
Proof.
  intros OK. destruct a as [t|i|i|i|]; [..|by apply destroy_ok]; cbn.
  - destruct (pool_enqueue t p) as [p1|] eqn:Ee; intros [= <-]; [by eapply pool_enqueue_ok|done].
  - destruct (owed p) as [|n]; [done|]. destruct (existsb is_waiting (workers_ p)) eqn:Ex.
    + destruct (workers_ p !! i) as [[]|] eqn:Hi; try done. intros [= <-]. destruct (woken_ok threads i p Hi OK) as [OK' Hw].
      apply set_owed_ok; [done|by intros _].
    + intros [= <-]. apply set_owed_ok; [done|]. by apply nobody_waits.
  - destruct (workers_ p !! i) as [[]|] eqn:Hi; try done; [intros [= <-]; eapply section_ok; eauto..|by apply task_ok].
  - destruct (workers_ p !! i) as [[]|] eqn:Hi; try done. intros [= <-]. by apply woken_ok.
Qed.

Lemma pool_reach_ok threads p : pool_reach ends threads p -> pool_ok threads p.
Proof. induction 1; [apply new_ok|by eapply pool_step_ok]. Qed.
End invariant.

(** * Shutting down *)

Section shutdown.
Context {task : Type} (ends : task -> bool).
Implicit Types (p : pool_state task).

(** How much is left to do, once the destructor is called. *)
Definition weight (w : worker task) : nat :=
  match w with Done => 0 | Locking | Woken => 1 | Waiting | Running _ => 2 end.
Definition left_to_do p : nat :=
  2 * length (tasks_ p) + sum_list (weight <$> workers_ p) + owed p +
  match pl_dtor p with NotCalled => 3 | Stopped => 2 | Joining => 1 | Finished => 0 end.

Lemma weight_insert (ws : list (worker task)) i x y :
  ws !! i = Some x -> (sum_list (weight <$> <[i := y]> ws) + weight x = sum_list (weight <$> ws) + weight y)%nat.
Proof.
  intros Hi. destruct (insert_split ws i x y Hi) as (l1 & l2 & -> & ->). rewrite !fmap_app, !sum_list_with_app || rewrite !fmap_app.
  rewrite !fmap_cons. induction l1 as [|a l1 IH]; cbn in *; lia.
Qed.

Lemma weight_wake (ws : list (worker task)) : (sum_list (weight <$> (wake <$> ws)) <= sum_list (weight <$> ws))%nat.
Proof. induction ws as [|[] ws IH]; cbn; lia. Qed.

(** Every step but a (refused) enqueue brings a stopped pool closer to its end. *)
Lemma stopped_step_decreases a p p' :
  pl_dtor p <> NotCalled -> pl_working p = false -> (forall t, a <> Enqueue t) -> pool_step ends a p = Some p' ->
  (left_to_do p' < left_to_do p)%nat.
Proof.
  intros Hd Hw Ha. destruct a as [t|i|i|i|]; cbn; [by destruct (Ha t)|..].
  - destruct (owed p) as [|n] eqn:Eo; [done|]. destruct (existsb is_waiting (workers_ p)).
    + destruct (workers_ p !! i) as [[]|] eqn:Hi; try done. intros [= <-]. pose proof (weight_insert _ i _ Woken Hi) as HW.
      unfold left_to_do. cbn in *. lia.
    + intros [= <-]. unfold left_to_do. cbn. lia.
  - destruct (workers_ p !! i) as [[]|] eqn:Hi; try done; [| |unfold worker_task; destruct (ends t); [|done]];
      intros [= <-]; unfold worker_section, left_to_do;
      try (destruct (tasks_ p) as [|t' ts] eqn:Et); rewrite ?Hw; cbn; rewrite ?Et;
      match goal with |- context [<[i := ?y]> _] => pose proof (weight_insert _ i _ y Hi) as HW end; cbn in *; lia.
  - destruct (workers_ p !! i) as [[]|] eqn:Hi; try done. intros [= <-]. pose proof (weight_insert _ i _ Woken Hi) as HW.
    unfold left_to_do. cbn in *. lia.
  - destruct (pl_dtor p) eqn:Ed; try done.
    + intros [= <-]. unfold left_to_do. cbn. rewrite ?Ed. pose proof (weight_wake (workers_ p)). lia.
    + destruct (forallb is_done (workers_ p)); [|done]. intros [= <-]. unfold left_to_do. cbn. rewrite ?Ed. lia.
Qed.

(** What a worker runs was accepted. *)
Lemma running_enqueued threads p i t : pool_ok threads p -> workers_ p !! i = Some (Running t) -> t ∈ enqueued p.
Proof.
  intros OK Hi. rewrite <-(ok_fifo _ _ OK). apply elem_of_app. left. rewrite <-(ok_once _ _ OK). apply elem_of_app. right.
  unfold running. apply list_elem_of_omap. exists (Running t). split; [by eapply list_elem_of_lookup_2|done].
Qed.

(** A pool whose destructor has not returned has a step to make, if its tasks return. *)
Lemma not_finished_steps threads p : pool_ok threads p -> pl_dtor p <> Finished -> (forall t, t ∈ enqueued p -> ends t = true) ->
  exists a p', (forall t, a <> Enqueue t) /\ pool_step ends a p = Some p'.
Proof.
  intros OK Hd Hends. destruct (pl_dtor p) eqn:Ed; [| |..|done].
  1,2: exists Destroy; eexists; (split; [done|]); cbn; by rewrite Ed.
  destruct (forallb is_done (workers_ p)) eqn:Ef.
  { exists Destroy. eexists. split; [done|]. cbn. by rewrite Ed, Ef. }
  pose proof (ok_joining _ _ OK) as Hj. rewrite Ed in Hj.
  assert (exists w, w ∈ workers_ p /\ is_done w = false) as (w & Hin & Hw).
  { clear -Ef. induction (workers_ p) as [|w ws IH]; [done|]. cbn in Ef. destruct (is_done w) eqn:Ew.
    - destruct (IH Ef) as (w' & ? & ?). exists w'. split; [by right|done].
    - exists w. split; [left|done]. }
  apply list_elem_of_lookup_1 in Hin as Hi. destruct Hi as [i Hi]. exists (Worker i). destruct w as [| | |t|]; try done;
    eexists; (split; [done|]); cbn; rewrite Hi; [done..|]. unfold worker_task. by rewrite (Hends t) by (by eapply running_enqueued).
Qed.

Lemma finished_all_run threads p : pool_ok threads p -> 0 < threads -> pl_dtor p = Finished -> tasks_ p = [] /\ finished p ≡ₚ enqueued p.
Proof.
  intros OK Ht Hd. pose proof (ok_finished _ _ OK Hd) as Hall. pose proof (ok_count _ _ OK) as Hlen.
  assert (tasks_ p = []) as Hts.
  { apply (ok_done _ _ OK). destruct (workers_ p) as [|w ws] eqn:Ews; cbn in Hlen; [lia|].
    rewrite (Hall w) by left. left. }
  split; [done|]. rewrite <-(ok_fifo _ _ OK), Hts, app_nil_r, <-(ok_once _ _ OK).
  assert (running (workers_ p) = []) as ->; [|by rewrite app_nil_r].
  clear -Hall. induction (workers_ p) as [|w ws IH]; [done|]. cbn. rewrite (Hall w) by left. cbn. apply IH. intros. apply Hall. by right.
Qed.
End shutdown.

(** * Properties *)

(** C5. However the threads interleave, tasks are taken in the order they were
    accepted and none is lost or taken twice: the tasks taken, followed by those in
    the queue, are the tasks accepted, and the tasks finished and running are the
    tasks taken; and with a worker in the pool no notification is lost: while the pool
    works and a task is queued, a caller is about to notify or a worker is not waiting. *)
Theorem thread_pool_fifo {task} (ends : task -> bool) threads (p : pool_state task) :
  pool_reach ends threads p ->
  taken p ++ tasks_ p = enqueued p /\ finished p ++ running (workers_ p) ≡ₚ taken p /\
  (0 < threads -> pl_working p = true -> tasks_ p <> [] -> (0 < owed p)%nat \/ exists w, w ∈ workers_ p /\ w <> Waiting).
Proof. intros OK%pool_reach_ok. split_and!; [apply (ok_fifo _ _ OK)|apply (ok_once _ _ OK)|apply (ok_notified _ _ OK)]. Qed.

(** Two workers, three tasks, and a worker that waited and was notified. *)
Definition demo_actions : list (action nat) :=
  [Worker 0; Enqueue 7%nat; NotifyOne 0; Worker 0; Enqueue 8%nat; Worker 1; Worker 1; Enqueue 9%nat; NotifyOne 0].
Definition run_pool {task} (ends : task -> bool) (acts : list (action task)) (p : pool_state task) : option (pool_state task) :=
  foldl (fun o a => o ≫= pool_step ends a) (Some p) acts.

Lemma run_pool_reach {task} (ends : task -> bool) threads acts (p p' : pool_state task) :
  pool_reach ends threads p -> run_pool ends acts p = Some p' -> pool_reach ends threads p'.
Proof.
  unfold run_pool. intros Hp. rewrite <-(reverse_involutive acts). generalize (reverse acts). clear acts. intros acts. revert p'.
  induction acts as [|a acts IH]; intros p'; [by intros [= <-]|]. rewrite reverse_cons, foldl_app. cbn.
  destruct (foldl _ (Some p) (reverse acts)) as [p1|] eqn:E; [|done]. cbn. intros Hs. eapply reach_step; [by apply IH|done].
Qed.

Lemma thread_pool_fifo_witness :
  exists p, run_pool (fun _ => true) demo_actions (thread_pool_new 2) = Some p /\ taken p ++ tasks_ p = enqueued p /\
    finished p ++ running (workers_ p) ≡ₚ taken p /\ tasks_ p = [9%nat] /\ finished p = [8%nat].
Proof.
  eexists. split; [vm_compute; reflexivity|].
  match goal with |- taken ?p ++ _ = _ /\ _ => destruct (thread_pool_fifo (fun _ => true) 2 p) as (H1 & H2 & _) end.
  - eapply (run_pool_reach (fun _ => true) 2 demo_actions); [apply reach_new|vm_compute; reflexivity].
  - split; [exact H1|]. split; [exact H2|]. split; reflexivity.
Defined.

(** C17. The destructor ends with all work done, under every schedule, if the pool has a
    worker and every task it accepted returns: once it is called, each step of the pool
    other than a refused enqueue decreases a measure, a step is possible until the
    destructor has returned, and when it has, the queue is empty and the finished tasks are
    exactly the accepted ones.  (A task that does not return, such as one that locks a mutex
    it holds, keeps the destructor from returning: stuck_task_blocks.) *)
Theorem thread_pool_drains {task} (ends : task -> bool) threads (p : pool_state task) :
  0 < threads -> pool_reach ends threads p -> pl_dtor p <> NotCalled -> (forall t, t ∈ enqueued p -> ends t = true) ->
  (forall a p', (forall t, a <> Enqueue t) -> pool_step ends a p = Some p' -> (left_to_do p' < left_to_do p)%nat) /\
  (forall t, pool_step ends (Enqueue t) p = Some p) /\
  (pl_dtor p <> Finished -> exists a p', (forall t, a <> Enqueue t) /\ pool_step ends a p = Some p') /\
  (pl_dtor p = Finished -> tasks_ p = [] /\ finished p ≡ₚ enqueued p).
Proof.
  intros Ht OK%pool_reach_ok Hd Hends. assert (pl_working p = false) as Hw by (rewrite (ok_working _ _ OK); by destruct (pl_dtor p)).
  split_and!.
  - intros a p' Ha Hs. by apply (stopped_step_decreases ends a p p').
  - intros t. cbn. unfold pool_enqueue. by rewrite Hw.
  - intros Hf. by apply (not_finished_steps ends threads).
  - by apply (finished_all_run threads).
Qed.

(** The pool of the history above, destroyed. *)
Definition demo_destroy : list (action nat) :=
  demo_actions ++ [Destroy; Destroy; Worker 0; Worker 0; Worker 1; Worker 0; Worker 0; NotifyOne 0; Destroy].

Lemma thread_pool_drains_witness :
  exists p, run_pool (fun _ => true) demo_destroy (thread_pool_new 2) = Some p /\ pl_dtor p = Finished /\ tasks_ p = [] /\ finished p ≡ₚ enqueued p.
Proof.
  eexists. split; [vm_compute; reflexivity|]. split; [reflexivity|].
  match goal with |- tasks_ ?p = [] /\ _ => destruct (thread_pool_drains (fun _ => true) 2 p) as (_ & _ & _ & H) end.
  - lia.
  - eapply (run_pool_reach (fun _ => true) 2 demo_destroy); [apply reach_new|vm_compute; reflexivity].
  - discriminate.
  - reflexivity.
  - apply H. reflexivity.
Defined.

(** A pool made with no thread never runs a task. *)
Theorem no_threads_no_task {task} (ends : task -> bool) threads (p : pool_state task) :
  threads <= 0 -> pool_reach ends threads p -> taken p = [] /\ finished p = [].
Proof.
  intros Ht Hr. pose proof (pool_reach_ok ends threads p Hr) as OK. pose proof (ok_count _ _ OK) as Hlen.
  assert (workers_ p = []) as Hnil by (apply nil_length_inv; lia). pose proof (ok_once _ _ OK) as Ho. rewrite Hnil, app_nil_r in Ho.
  assert (finished p = []) as Hf; [|split; [|done]; rewrite Hf in Ho; by apply Permutation_nil in Ho].
  clear -Hr Ht. induction Hr as [|p a p' Hr IH Hs]; [done|]. pose proof (ok_count _ _ (pool_reach_ok ends threads p Hr)) as Hlen.
  assert (workers_ p = []) as Hnil by (apply nil_length_inv; lia).
  destruct a as [t|i|i|i|]; cbn in Hs; rewrite ?Hnil in Hs; cbn in Hs; try done.
  - unfold pool_enqueue in Hs. by destruct (pl_working p); injection Hs as <-.
  - destruct (owed p); [done|]. by injection Hs as <-.
  - destruct (pl_dtor p); try done; by injection Hs as <-.
Qed.

(** A worker whose task does not return runs it for ever, so the destructor never
    returns. *)
Theorem stuck_task_blocks {task} (ends : task -> bool) threads acts (p p' : pool_state task) i t :
  pool_reach ends threads p -> workers_ p !! i = Some (Running t) -> ends t = false -> run_pool ends acts p = Some p' ->
  workers_ p' !! i = Some (Running t) /\ pl_dtor p' <> Finished.
Proof.
  intros Hr Hi He Hrun. assert (workers_ p' !! i = Some (Running t)) as Hi'.
  { clear Hr. revert p Hi Hrun. unfold run_pool. induction acts as [|a acts IH]; intros p Hi Hrun; [by injection Hrun as <-|].
    cbn in Hrun. destruct (pool_step ends a p) as [p1|] eqn:Hs.
    2:{ exfalso. clear -Hrun. induction acts; [done|by apply IHacts]. }
    apply (IH p1); [|done]. clear IH Hrun. destruct a as [t0|j|j|j|]; cbn in Hs.
    - unfold pool_enqueue in Hs. by destruct (pl_working p); injection Hs as <-.
    - destruct (owed p); [done|]. destruct (existsb is_waiting (workers_ p)); [|by injection Hs as <-].
      destruct (workers_ p !! j) as [[]|] eqn:Hj; try done. injection Hs as <-. cbn.
      rewrite list_lookup_insert_ne; [done|]. intros ->. congruence.
    - destruct (workers_ p !! j) as [[]|] eqn:Hj; try done.
      3:{ unfold worker_task in Hs. destruct (ends t0) eqn:Ht0; [|done]. injection Hs as <-. cbn.
          rewrite list_lookup_insert_ne; [done|]. intros ->. congruence. }
      all: injection Hs as <-; unfold worker_section; destruct (tasks_ p); cbn; (rewrite list_lookup_insert_ne; [done|]); intros ->; congruence.
    - destruct (workers_ p !! j) as [[]|] eqn:Hj; try done. injection Hs as <-. cbn.
      rewrite list_lookup_insert_ne; [done|]. intros ->. congruence.
    - destruct (pl_dtor p); try done; [by injection Hs as <-|injection Hs as <-; cbn; by rewrite list_lookup_fmap, Hi|].
      destruct (forallb is_done (workers_ p)); [|done]. by injection Hs as <-. }
  split; [done|]. intros Hf. pose proof (run_pool_reach ends threads acts p p' Hr Hrun) as OK%pool_reach_ok.
  assert (Running t = Done) as [=]. apply (ok_finished _ _ OK Hf). by eapply list_elem_of_lookup_2.
Qed.
