(* ===== verification/Kqueue.v ===== *)
(** The kqueue poller: the macOS half of src/network/poller.{h,cc}, over the channels
    of Channel.v.  The kernel queue is a parameter: [Kqueue] gives the calls and
    [KqueueLaws] what kevent(2) documents about a change of one filter. *)
From S2P Require Import Prelude Channel.

(** * The kernel interface *)

Inductive kfilter := EVFILT_READ | EVFILT_WRITE.
#[global] Instance kfilter_eq_dec : EqDecision kfilter.
Proof. solve_decision. Defined.

(** EV_SET(&ev, fd, filter, flags, 0, 0, udata), for the two sets of flags in use *)
Inductive kchange := EvAdd (fd : Z) (f : kfilter) (udata : Z) | EvDelete (fd : Z) (f : kfilter).

Class Kqueue (K : Type) := {
  (* one change; false when it fails *)
  kq_change : kchange -> K -> bool * K;
  (* kevent with room for events: (udata, flags) of the ready ones, None on failure *)
  kq_wait : Z * Z -> K -> option (list (Z * Z)) * K;
  (* the udata of the filter of a descriptor *)
  kq_filter : K -> Z -> kfilter -> option Z;
}.

Class KqueueLaws (K : Type) `{Kqueue K} : Prop := {
  add_filter fd f u k : (kq_change (EvAdd fd f u) k).1 = true /\ kq_filter (kq_change (EvAdd fd f u) k).2 fd f = Some u;
  delete_filter fd f k : is_Some (kq_filter k fd f) ->
    (kq_change (EvDelete fd f) k).1 = true /\ kq_filter (kq_change (EvDelete fd f) k).2 fd f = None;
  delete_nothing fd f k : kq_filter k fd f = None -> (kq_change (EvDelete fd f) k).1 = false;   (* ENOENT *)
  failed_change c k fd f : (kq_change c k).1 = false -> kq_filter (kq_change c k).2 fd f = kq_filter k fd f;
  other_filter c k fd f : match c with EvAdd fd' f' _ | EvDelete fd' f' => (fd', f') end <> (fd, f) ->
    kq_filter (kq_change c k).2 fd f = kq_filter k fd f;
}.

(** kevent with a change list and no room for events: the first change that fails
    ends it. *)
Fixpoint kevent_changes {K} `{Kqueue K} (cs : list kchange) (k : K) : K :=
  match cs with
  | [] => k
  | c :: cs => let '(ok, k) := kq_change c k in if ok : bool then kevent_changes cs k else k
  end.

(** * State *)

Definition EV_EOF : Z := 32768.

(** events_ keeps (udata, flags), udata 0 being null. *)
Record kqueue_poller {K : Type} := mk_kqueue {
  kq_chans : gmap Z channel;
  kq_channels_ : gset Z;
  kq_kern : K;
  kq_events_ : list (Z * Z);
  last_active_ : option Z;       (* None: not initialised, until the first loop_once *)
  kq_ran : list Z;
  kq_closed : list Z;
}.
Arguments kqueue_poller : clear implicits.
Arguments mk_kqueue {K}.

Section operations.
Context {K : Type} `{Kqueue K}.
Implicit Types p : Z.

Definition kq_chan p : M (kqueue_poller K) channel := m ← gets kq_chans; of_option dangling_deref (m !! p).
Definition set_kq_chan p (c : channel) (s : kqueue_poller K) : kqueue_poller K :=
  mk_kqueue (<[p := c]> (kq_chans s)) (kq_channels_ s) (kq_kern s) (kq_events_ s) (last_active_ s) (kq_ran s) (kq_closed s).
Definition set_kern (k : K) (s : kqueue_poller K) : kqueue_poller K :=
  mk_kqueue (kq_chans s) (kq_channels_ s) k (kq_events_ s) (last_active_ s) (kq_ran s) (kq_closed s).
Definition set_kq_channels (l : gset Z) (s : kqueue_poller K) : kqueue_poller K :=
  mk_kqueue (kq_chans s) l (kq_kern s) (kq_events_ s) (last_active_ s) (kq_ran s) (kq_closed s).
Definition set_events (es : list (Z * Z)) (n : option Z) (s : kqueue_poller K) : kqueue_poller K :=
  mk_kqueue (kq_chans s) (kq_channels_ s) (kq_kern s) es n (kq_ran s) (kq_closed s).

(** The changes that update_channel asks for *)
Definition update_changes p (c : channel) : list kchange :=
  [if read_enabled c then EvAdd (ch_fd c) EVFILT_READ p else EvDelete (ch_fd c) EVFILT_READ;
   if write_enabled c then EvAdd (ch_fd c) EVFILT_WRITE p else EvDelete (ch_fd c) EVFILT_WRITE].

(** kqueue_poller::add_channel *)
Definition kq_add_channel p : M (kqueue_poller K) unit :=
  c ← kq_chan p;
  let changes := (if read_enabled c then [EvAdd (ch_fd c) EVFILT_READ p] else []) ++
                 (if write_enabled c then [EvAdd (ch_fd c) EVFILT_WRITE p] else []) in
  _ ← modify (fun s => set_kern (kevent_changes changes (kq_kern s)) s);
  modify (fun s => set_kq_channels ({[p]} ∪ kq_channels_ s) s).

(** kqueue_poller::update_channel *)
Definition kq_update_channel p : M (kqueue_poller K) unit :=
  c ← kq_chan p;
  modify (fun s => set_kern (kevent_changes (update_changes p c) (kq_kern s)) s).

(** The loop of remove_channel, from index [n] - 1 down: the first event of the channel
    loses its pointer; None when an index is outside of the array. *)
Fixpoint clear_event (n : nat) p (es : list (Z * Z)) : option (list (Z * Z)) :=
  match n with
  | O => Some es
  | S i =>
      match es !! i with
      | None => None
      | Some e => if decide (e.1 = p) then Some (alter (fun e => (0, e.2)) i es) else clear_event i p es
      end
  end.

(** kqueue_poller::remove_channel *)
Definition kq_remove_channel p : M (kqueue_poller K) unit :=
  _ ← modify (fun s => set_kq_channels (kq_channels_ s ∖ {[p]}) s);
  active ← gets last_active_;
  active ← of_option uninitialised_read active;
  es ← gets kq_events_;
  es ← of_option out_of_bounds (clear_event (Z.to_nat (active + 1)) p es);
  modify (set_events es (Some active)).

(** channel::close over this poller; the kernel drops the filters of a closed
    descriptor by itself. *)
Definition kq_close p : M (kqueue_poller K) unit :=
  c ← kq_chan p;
  when (0 <=? ch_fd c)
    (_ ← kq_remove_channel p;
     modify (fun s => let s := set_kq_chan p (mk_channel (-1) (ch_events c) (ch_read_cb c) (ch_write_cb c)) s in
       mk_kqueue (kq_chans s) (kq_channels_ s) (kq_kern s) (kq_events_ s) (last_active_ s) (kq_ran s) (kq_closed s ++ [ch_fd c]))).

(** channel::enable_read, enable_write over this poller *)
Definition kq_enable (ev : Z) p (enable : bool) : M (kqueue_poller K) unit :=
  c ← kq_chan p;
  _ ← modify (set_kq_chan p (with_event enable ev c));
  kq_update_channel p.

(** channel::on_read over this poller *)
Definition kq_on_read p (cb : Z) : M (kqueue_poller K) unit :=
  _ ← kq_enable READ_EVENT p true;
  c ← kq_chan p; modify (set_kq_chan p (mk_channel (ch_fd c) (ch_events c) (Some cb) (ch_write_cb c))).

(** What the callbacks do. *)
Context (callback : Z -> M (kqueue_poller K) unit).

Definition kq_call (cb : option Z) : M (kqueue_poller K) unit :=
  match cb with
  | Some n =>
      _ ← modify (fun s => mk_kqueue (kq_chans s) (kq_channels_ s) (kq_kern s) (kq_events_ s) (last_active_ s) (kq_ran s ++ [n]) (kq_closed s));
      callback n
  | None => throw std_exception
  end.

(** The body of the loop of loop_once, for the event at last_active_ *)
Definition kq_handle (e : Z * Z) : M (kqueue_poller K) unit :=
  let '(p, flags) := e in
  if p =? 0 then mret tt
  else
    c ← kq_chan p;
    let eof := negb (Z.land flags EV_EOF =? 0) in
    if eof || read_enabled c then kq_call (ch_read_cb c)
    else if negb eof && write_enabled c then kq_call (ch_write_cb c)
    else mret tt.

(** while(--last_active_ >= 0), with [n] = last_active_ before the decrement; the
    callbacks leave last_active_ alone. *)
Fixpoint kq_dispatch (n : nat) : M (kqueue_poller K) unit :=
  match n with
  | O => modify (fun s => set_events (kq_events_ s) (Some (-1)) s)
  | S i =>
      _ ← modify (fun s => set_events (kq_events_ s) (Some (Z.of_nat i)) s);
      es ← gets kq_events_;
      e ← of_option out_of_bounds (es !! i);
      _ ← kq_handle e;
      kq_dispatch i
  end.

(** kqueue_poller::loop_once; the array keeps what it held behind the new events.  When
    kevent fails last_active_ goes from -1 to -2. *)
Definition timespec_of (timeout : Z) : Z * Z := (Z.quot timeout 1000, Z.rem timeout 1000 * 1000 * 1000).
Definition kq_loop_once (timeout : Z) : M (kqueue_poller K) unit :=
  ans ← (fun s => let '(r, k) := kq_wait (timespec_of timeout) (kq_kern s) in Ret r (set_kern k s));
  match ans with
  | None => modify (fun s => set_events (kq_events_ s) (Some (-2)) s)
  | Some evs =>
      _ ← modify (fun s => set_events (evs ++ drop (length evs) (kq_events_ s)) (Some (Z.of_nat (length evs))) s);
      kq_dispatch (length evs)
  end.
End operations.

(** * Properties *)

Section filters.
Context {K : Type} `{KqueueLaws K}.

(** What a change leaves for its own filter. *)
Definition after_change (c : kchange) : option Z :=
  match c with EvAdd _ _ u => Some u | EvDelete _ _ => None end.
Definition change_key (c : kchange) : Z * kfilter := match c with EvAdd fd f _ | EvDelete fd f => (fd, f) end.

Lemma change_spec c k :
  let '(fd, f) := change_key c in
  (kq_change c k).1 = negb (match c with EvDelete _ _ => bool_decide (kq_filter k fd f = None) | _ => false end) /\
  kq_filter (kq_change c k).2 fd f = after_change c.
Proof.
  destruct c as [fd f u|fd f]; cbn; [apply add_filter|]. case_bool_decide as Hn.
  - pose proof (delete_nothing fd f k Hn) as Hd. split; [done|]. by rewrite failed_change.
  - apply delete_filter. by destruct (kq_filter k fd f); [eexists|].
Qed.
End filters.

(** What update_channel makes the kernel watch, on every branch: a change list is
    processed up to its first failing change, and deleting a filter that is not there
    fails.  So the filter for reading follows the channel, the one for writing follows
    it unless reading is disabled and was not watched, in which case nothing changes:
    a channel that only writes is never watched.  Other descriptors keep their filters. *)
Theorem update_channel_filters {K} `{KqueueLaws K} (s : kqueue_poller K) p c :
  kq_chans s !! p = Some c ->
  exists s', kq_update_channel p s = Ret tt s' /\ kq_chans s' = kq_chans s /\
    (forall fd f, fd <> ch_fd c -> kq_filter (kq_kern s') fd f = kq_filter (kq_kern s) fd f) /\
    kq_filter (kq_kern s') (ch_fd c) EVFILT_READ = (if read_enabled c then Some p else None) /\
    kq_filter (kq_kern s') (ch_fd c) EVFILT_WRITE =
      (if read_enabled c || bool_decide (is_Some (kq_filter (kq_kern s) (ch_fd c) EVFILT_READ))
       then if write_enabled c then Some p else None
       else kq_filter (kq_kern s) (ch_fd c) EVFILT_WRITE).
Proof.
  intros Hc. unfold kq_update_channel, kq_chan, mbind, M_bind, gets, modify. rewrite Hc. cbn [of_option].
  eexists. split; [reflexivity|]. split; [done|]. cbn [kq_kern set_kern]. unfold update_changes.
  set (k := kq_kern s). set (c1 := if read_enabled c then _ else _). set (c2 := if write_enabled c then _ else _).
  assert (change_key c1 = (ch_fd c, EVFILT_READ)) as Hk1 by (unfold c1; by destruct (read_enabled c)).
  assert (change_key c2 = (ch_fd c, EVFILT_WRITE)) as Hk2 by (unfold c2; by destruct (write_enabled c)).
  pose proof (change_spec c1 k) as Hs1. rewrite Hk1 in Hs1. destruct Hs1 as [Ho1 Hf1].
  assert (forall fd f, (fd, f) <> (ch_fd c, EVFILT_READ) -> kq_filter (kq_change c1 k).2 fd f = kq_filter k fd f) as Hx1.
  { intros fd f Hne. apply other_filter. fold (change_key c1). rewrite Hk1. congruence. }
  cbn [kevent_changes]. destruct (kq_change c1 k) as [ok1 k1]. cbn [fst snd] in *.
  pose proof (change_spec c2 k1) as Hs2. rewrite Hk2 in Hs2. destruct Hs2 as [Ho2 Hf2].
  assert (forall fd f, (fd, f) <> (ch_fd c, EVFILT_WRITE) -> kq_filter (kq_change c2 k1).2 fd f = kq_filter k1 fd f) as Hx2.
  { intros fd f Hne. apply other_filter. fold (change_key c2). rewrite Hk2. congruence. }
  destruct (kq_change c2 k1) as [ok2 k2]. cbn [fst snd] in *.
  assert ((if ok2 then k2 else k2) = k2) as -> by (by destruct ok2). subst ok1.
  unfold c1, c2 in *. clear c1 c2.
  destruct (read_enabled c); cbn [negb orb after_change] in *.
  - split_and!; [intros; rewrite Hx2, Hx1; congruence|rewrite Hx2, Hf1; congruence|rewrite Hf2; by destruct (write_enabled c)].
  - destruct (kq_filter k (ch_fd c) EVFILT_READ) as [u|] eqn:Hr; cbn.
    + split_and!; [intros; rewrite Hx2, Hx1; congruence|rewrite Hx2, Hf1; congruence|].
      rewrite Hf2. by destruct (write_enabled c).
    + split_and!; [intros; rewrite Hx1; congruence|done|].
      by rewrite Hx1.
Qed.

(** A kernel queue as a map of filters. *)
Record mem_queue := mk_mem_queue { mq_filters : gmap (Z * bool) Z }.
Definition filter_key (fd : Z) (f : kfilter) : Z * bool := (fd, if f is EVFILT_READ then true else false).
#[export] Instance mem_kqueue : Kqueue mem_queue := {|
  kq_change c k :=
    match c with
    | EvAdd fd f u => (true, mk_mem_queue (<[filter_key fd f := u]> (mq_filters k)))
    | EvDelete fd f =>
        if mq_filters k !! filter_key fd f is Some _ then (true, mk_mem_queue (delete (filter_key fd f) (mq_filters k))) else (false, k)
    end;
  kq_wait _ k := (Some [], k);
  kq_filter k fd f := mq_filters k !! filter_key fd f;
|}.

Lemma filter_key_inj fd f fd' f' : filter_key fd f = filter_key fd' f' -> (fd, f) = (fd', f').
Proof. unfold filter_key. destruct f, f'; congruence. Qed.

#[export] Instance mem_kqueue_laws : KqueueLaws mem_queue.
Proof.
  split; cbn.
  - intros. split; [done|]. apply lookup_insert_eq.
  - intros fd f k [u Hu]. rewrite Hu. split; [done|]. apply lookup_delete_eq.
  - intros fd f k Hn. by rewrite Hn.
  - intros [fd f u|fd f] k fd' f'; cbn; [done|]. by destruct (mq_filters k !! filter_key fd f) eqn:E.
  - intros [fd f u|fd f] k fd' f' Hne; cbn.
    + apply lookup_insert_ne. by intros ?%filter_key_inj.
    + destruct (mq_filters k !! filter_key fd f); [|done]. apply lookup_delete_ne. by intros ?%filter_key_inj.
Qed.

(** A channel on descriptor 5 that writes and does not read. *)
Definition write_channel : channel := mk_channel 5 WRITE_EVENT None (Some 1).
Definition write_poller : kqueue_poller mem_queue := mk_kqueue {[ 100 := write_channel ]} ∅ (mk_mem_queue ∅) [] (Some (-1)) [] [].

Lemma update_channel_filters_witness :
  exists s', kq_update_channel 100 write_poller = Ret tt s' /\ kq_chans s' = kq_chans write_poller /\
    (forall fd f, fd <> 5 -> kq_filter (kq_kern s') fd f = kq_filter (kq_kern write_poller) fd f) /\
    kq_filter (kq_kern s') 5 EVFILT_READ = None /\ kq_filter (kq_kern s') 5 EVFILT_WRITE = None.
Proof.
  destruct (update_channel_filters write_poller 100 write_channel) as (s' & E & Hc & Ho & Hr & Hw); [reflexivity|].
  exists s'. split; [exact E|]. split; [exact Hc|]. split; [exact Ho|].
  split; [etransitivity; [exact Hr|vm_compute; reflexivity]|etransitivity; [exact Hw|vm_compute; reflexivity]].
Defined.

(** The channel of the event at index [i] *)
Definition event_of (es : list (Z * Z)) (i : nat) : option Z := fst <$> es !! i.

Lemma clear_event_in p n es : (n <= length es)%nat -> is_Some (clear_event n p es).
Proof.
  induction n as [|n IH]; intros Hn; [by eexists|]. cbn [clear_event].
  destruct (lookup_lt_is_Some_2 es n) as [e ->]; [lia|]. case_decide; [by eexists|]. apply IH. lia.
Qed.

Lemma clear_event_length p n es es' : clear_event n p es = Some es' -> length es' = length es.
Proof.
  induction n as [|n IH]; cbn [clear_event]; [by intros [= ->]|]. destruct (es !! n); [|done].
  case_decide; [|done]. intros [= <-]. by rewrite length_alter.
Qed.

Lemma clear_event_above p n es es' i : clear_event n p es = Some es' -> (n <= i)%nat -> event_of es' i = event_of es i.
Proof.
  induction n as [|n IH]; intros Hc Hi; [by injection Hc as ->|]. cbn [clear_event] in Hc.
  destruct (es !! n) as [e|]; [|done]. case_decide; [|apply IH; [done|lia]]. injection Hc as <-.
  unfold event_of. by rewrite list_lookup_alter_ne by lia.
Qed.

Lemma clear_event_other p n es es' i :
  clear_event n p es = Some es' -> event_of es i <> Some p -> event_of es' i = event_of es i.
Proof.
  induction n as [|n IH]; intros Hc Hi; [by injection Hc as ->|]. cbn [clear_event] in Hc.
  destruct (es !! n) as [e|] eqn:He; [|done]. case_decide as Hd; [|by apply IH]. injection Hc as <-.
  unfold event_of in *. destruct (decide (i = n)) as [->|]; [|by rewrite list_lookup_alter_ne].
  rewrite He in Hi. cbn in Hi. congruence.
Qed.

Lemma clear_event_clears p n es es' i :
  clear_event n p es = Some es' ->
  p <> 0 -> (i < n)%nat -> (forall j k, (j < n)%nat -> (k < n)%nat -> event_of es j = Some p -> event_of es k = Some p -> j = k) ->
  event_of es' i <> Some p.
Proof.
  intros Hc Hp. induction n as [|n IH]; intros Hi Hone; [lia|]. cbn [clear_event] in Hc.
  destruct (es !! n) as [e|] eqn:He; [|done]. assert (event_of es n = Some e.1) as Hen by (unfold event_of; by rewrite He).
  case_decide as Hd.
  - injection Hc as <-. unfold event_of in *. destruct (decide (i = n)) as [->|Hne].
    + rewrite list_lookup_alter_eq, He. cbn. congruence.
    + rewrite list_lookup_alter_ne by lia. intros Hx. apply Hne. apply Hone; (done || lia || congruence).
  - destruct (decide (i = n)) as [->|].
    + rewrite (clear_event_above p n es es') by (done || lia). congruence.
    + apply IH; [done|lia|]. intros. apply Hone; (done || lia).
Qed.

Lemma kq_remove_ret {K} `{Kqueue K} (s : kqueue_poller K) p active es :
  last_active_ s = Some active -> clear_event (Z.to_nat (active + 1)) p (kq_events_ s) = Some es ->
  kq_remove_channel p s = Ret tt (set_events es (Some active) (set_kq_channels (kq_channels_ s ∖ {[p]}) s)).
Proof.
  intros Hl He. unfold kq_remove_channel, modify, mbind, M_bind, gets. cbn. rewrite Hl. cbn. unfold mret, M_ret. by rewrite He.
Qed.

(** A channel that is removed while a round of events is handled, and that has at
    most one event among those not handled yet and the one being handled, gets no
    further event of the round; the events of other channels stay. *)
Theorem removed_channel_not_dispatched {K} `{Kqueue K} (s : kqueue_poller K) p active :
  p <> 0 -> last_active_ s = Some active -> active < Z.of_nat (length (kq_events_ s)) ->
  (forall j k, Z.of_nat j <= active -> Z.of_nat k <= active ->
     event_of (kq_events_ s) j = Some p -> event_of (kq_events_ s) k = Some p -> j = k) ->
  exists s', kq_remove_channel p s = Ret tt s' /\ (p ∉ kq_channels_ s') /\
    (forall i, Z.of_nat i <= active -> event_of (kq_events_ s') i <> Some p) /\
    (forall i, event_of (kq_events_ s) i <> Some p -> event_of (kq_events_ s') i = event_of (kq_events_ s) i).
Proof.
  intros Hp Hl Hlt Hone. destruct (clear_event_in p (Z.to_nat (active + 1)) (kq_events_ s)) as [es Hes]; [lia|].
  rewrite (kq_remove_ret s p active es) by done. eexists. split; [reflexivity|]. cbn. split_and!.
  - set_solver.
  - intros i Hi. eapply clear_event_clears; [done|done|lia|]. intros j k Hj Hk. apply Hone; lia.
  - intros i. by eapply clear_event_other.
Qed.

(** Two channels with one event each; the second is being handled. *)
Definition round_poller : kqueue_poller mem_queue :=
  mk_kqueue {[ 100 := write_channel; 200 := write_channel ]} {[ 100; 200 ]} (mk_mem_queue ∅) [(100, 0); (200, 0)] (Some 1) [] [].

Lemma removed_channel_not_dispatched_witness :
  exists s', kq_remove_channel 100 round_poller = Ret tt s' /\ (100 ∉ kq_channels_ s') /\
    (forall i, Z.of_nat i <= 1 -> event_of (kq_events_ s') i <> Some 100) /\
    (forall i, event_of (kq_events_ round_poller) i <> Some 100 -> event_of (kq_events_ s') i = event_of (kq_events_ round_poller) i).
Proof.
  apply (removed_channel_not_dispatched round_poller 100 1); [discriminate|reflexivity|cbn; lia|].
  intros [|[|j]] [|[|k]]; cbn; intros ? ? [=] [=]; reflexivity.
Defined.

(** With two events in the round (one for reading, one for writing) only the later
    one is cleared, which is the one being handled: the channel gets the other. *)
Theorem removed_channel_dispatched_again {K} `{Kqueue K} (s : kqueue_poller K) p f1 f2 :
  kq_events_ s = [(p, f1); (p, f2)] -> last_active_ s = Some 1 ->
  exists s', kq_remove_channel p s = Ret tt s' /\ event_of (kq_events_ s') 0 = Some p.
Proof.
  intros He Hl. assert (clear_event 2 p (kq_events_ s) = Some [(p, f1); (0, f2)]) as Hes.
  { rewrite He. cbn. by rewrite decide_True. }
  rewrite (kq_remove_ret s p 1 _ Hl Hes). by eexists.
Qed.

(** remove_channel before the first loop_once reads last_active_, which nothing has
    initialised. *)
Theorem remove_before_poll_undefined {K} `{Kqueue K} (s : kqueue_poller K) p :
  last_active_ s = None -> kq_remove_channel p s = Undef uninitialised_read.
Proof. intros Hl. unfold kq_remove_channel, modify, mbind, M_bind, gets. cbn. by rewrite Hl. Qed.

(** While reading is enabled, an event for writing runs the read callback. *)
Theorem read_starves_write {K} `{Kqueue K} callback (s : kqueue_poller K) p flags c :
  p <> 0 -> kq_chans s !! p = Some c -> read_enabled c = true -> kq_handle callback (p, flags) s = kq_call callback (ch_read_cb c) s.
Proof.
  intros Hp Hc Hr. unfold kq_handle. rewrite (proj2 (Z.eqb_neq _ _)) by done.
  unfold kq_chan, mbind, M_bind, gets. rewrite Hc. cbn [of_option]. unfold mret, M_ret. by rewrite Hr, orb_true_r.
Qed.

(** loop_once(-1), documented to block, asks kevent for an invalid time. *)
Theorem timeout_minus_one_invalid : timespec_of (-1) = (0, -1000000).
Proof. reflexivity. Qed.
