(* ===== verification/Server.v ===== *)
(** Servers and the life of connections: src/network/server.{h,cc}, src/network/net.h
    and the constructors and close of src/network/conn.cc.  The descriptors and status
    flags are those of the operating system; the results of socket, bind, listen,
    accept and connect are inputs. *)
From S2P Require Import Prelude.

(** O_NONBLOCK on Linux *)
Definition O_NONBLOCK : Z := 2048.

Inductive sock_option := SO_REUSEADDR | SO_REUSEPORT.

(** A conn: [co_sock] is None where no constructor sets sock_; [co_chan] is the
    address of its channel. *)
Record conn_object := mk_conn_object { co_sock : option Z; co_chan : Z }.

(** Open descriptors with their flags, the socket options set, the channels and
    connections allocated, and the next address of new. *)
Record sockets := mk_sockets {
  fd_flags : gmap Z Z;
  options : list (Z * sock_option * bool);
  live_channels : gset Z;
  conn_objects : gmap Z conn_object;
  next_addr : Z;
}.

Definition set_fd_flags (f : gmap Z Z) (s : sockets) : sockets := mk_sockets f (options s) (live_channels s) (conn_objects s) (next_addr s).
Definition set_live (l : gset Z) (s : sockets) : sockets := mk_sockets (fd_flags s) (options s) l (conn_objects s) (next_addr s).

(** fcntl(fd, F_GETFL) and fcntl(fd, F_SETFL, flags): -1 and no effect on a
    descriptor that is not open. *)
Definition getfl (fd : Z) : M sockets Z := m ← gets fd_flags; mret (default (-1) (m !! fd)).
Definition setfl (fd flags : Z) : M sockets unit :=
  modify (fun s => set_fd_flags (alter (fun _ => flags) fd (fd_flags s)) s).

(** net.h: set_non_blocking, set_reuse_address, set_reuse_port, add_flag *)
Definition set_non_blocking (fd : Z) (value : bool) : M sockets unit :=
  flags ← getfl fd;
  setfl fd (if value then Z.lor flags O_NONBLOCK else Z.land flags (Z.lnot O_NONBLOCK)).
Definition set_reuse (o : sock_option) (fd : Z) (value : bool) : M sockets unit :=
  modify (fun s => mk_sockets (fd_flags s) (options s ++ [(fd, o, value)]) (live_channels s) (conn_objects s) (next_addr s)).
Definition add_flag (fd flag : Z) : M sockets unit := flags ← getfl fd; setfl fd (Z.lor flags flag).

(** socket and accept give an open descriptor; close *)
Definition new_fd (fd : Z) : M sockets unit := modify (fun s => set_fd_flags (<[fd := 2]> (fd_flags s)) s).
Definition close_fd (fd : Z) : M sockets unit := modify (fun s => set_fd_flags (delete fd (fd_flags s)) s).

(** new channel and delete channel *)
Definition new_chan : M sockets Z :=
  a ← gets next_addr;
  _ ← modify (fun s => mk_sockets (fd_flags s) (options s) ({[a]} ∪ live_channels s) (conn_objects s) (a + 1));
  mret a.
Definition delete_chan (a : Z) : M sockets unit :=
  l ← gets live_channels;
  if decide (a ∈ l) then modify (set_live (l ∖ {[a]})) else undef double_free.

Definition new_conn_object (o : conn_object) : M sockets Z :=
  a ← gets next_addr;
  _ ← modify (fun s => mk_sockets (fd_flags s) (options s) (live_channels s) (<[a := o]> (conn_objects s)) (a + 1));
  mret a.

(** conn::conn(int, poller* ): sock_ is not set. *)
Definition conn_accepted (fd : Z) : M sockets Z :=
  _ ← set_non_blocking fd true;
  c ← new_chan;
  new_conn_object (mk_conn_object None c).

(** conn::conn(endpoint, poller* ), with the results of socket and connect *)
Definition conn_connected (sock connected : Z) : M sockets Z :=
  if sock <? 0 then throw std_exception
  else
    _ ← new_fd sock;
    _ ← set_non_blocking sock true;
    if connected <? 0 then throw std_exception
    else c ← new_chan; new_conn_object (mk_conn_object (Some sock) c).

(** conn::close *)
Definition conn_close (a : Z) : M sockets unit :=
  m ← gets conn_objects;
  c ← of_option dangling_deref (m !! a);
  sock ← of_option uninitialised_read (co_sock c);
  _ ← close_fd sock;
  delete_chan (co_chan c).

(** conn::~conn *)
Definition conn_destroy (a : Z) : M sockets unit :=
  _ ← conn_close a;
  modify (fun s => mk_sockets (fd_flags s) (options s) (live_channels s) (delete a (conn_objects s)) (next_addr s)).

(** * Servers *)

(** listen_fd_ and listener_ are None until start sets them. *)
Record server := mk_server {
  port_ : Z;
  listen_fd_ : option Z;
  listener_ : option Z;
  conns_ : list Z;
  callback_ : option Z;
  sv_called : list (Z * Z);      (* (callback, conn) run by handle_accept *)
  sv_sockets : sockets;
}.

Definition in_sockets {A} : M sockets A -> M server A :=
  zoom sv_sockets (fun k s => mk_server (port_ s) (listen_fd_ s) (listener_ s) (conns_ s) (callback_ s) (sv_called s) k).

(** server::server *)
Definition server_new (port : Z) (k : sockets) : server := mk_server port None None [] None [] k.

(** server::start, with the results of socket, bind and listen *)
Definition server_start (sock bound listening : Z) : M server unit :=
  _ ← modify (fun s => mk_server (port_ s) (Some sock) (listener_ s) (conns_ s) (callback_ s) (sv_called s) (sv_sockets s));
  if sock <? 0 then throw std_exception
  else
    _ ← in_sockets (new_fd sock);
    _ ← in_sockets (set_reuse SO_REUSEADDR sock true);
    _ ← in_sockets (set_reuse SO_REUSEPORT sock true);
    if bound <? 0 then throw std_exception
    else if listening <? 0 then throw std_exception
    else
      c ← in_sockets new_chan;
      modify (fun s => mk_server (port_ s) (listen_fd_ s) (Some c) (conns_ s) (callback_ s) (sv_called s) (sv_sockets s)).

Fixpoint close_conns (l : list Z) : M server unit :=
  match l with [] => mret tt | a :: l => _ ← in_sockets (conn_close a); close_conns l end.

(** server::shutdown; ~server is a call of it. *)
Definition server_shutdown : M server unit :=
  s ← gets (fun s => s);
  fd ← of_option uninitialised_read (listen_fd_ s);
  _ ← in_sockets (close_fd fd);
  c ← of_option uninitialised_read (listener_ s);
  _ ← in_sockets (delete_chan c);
  close_conns (conns_ s).

(** server::handle_accept, with the result of accept, which is not checked *)
Definition server_accept (fd : Z) : M server unit :=
  _ ← in_sockets (if 0 <=? fd then new_fd fd else mret tt);
  _ ← in_sockets (set_non_blocking fd true);
  c ← in_sockets (conn_accepted fd);
  modify (fun s => mk_server (port_ s) (listen_fd_ s) (listener_ s) (conns_ s ++ [c]) (callback_ s)
    (if callback_ s is Some cb then sv_called s ++ [(cb, c)] else sv_called s) (sv_sockets s)).

(** server::set_callback *)
Definition set_callback (cb : Z) : M server unit :=
  modify (fun s => mk_server (port_ s) (listen_fd_ s) (listener_ s) (conns_ s) (Some cb) (sv_called s) (sv_sockets s)).

(** * Properties *)

Fixpoint accept_all (fds : list Z) : M server unit :=
  match fds with [] => mret tt | fd :: fds => _ ← server_accept fd; accept_all fds end.

(** A started server whose connections all came from accept. *)
Record serving (s : server) : Prop := {
  sv_fd : is_Some (listen_fd_ s);
  sv_listener : exists c, listener_ s = Some c /\ c ∈ live_channels (sv_sockets s);
  sv_conns : forall a, a ∈ conns_ s ->
    a < next_addr (sv_sockets s) /\ exists c, conn_objects (sv_sockets s) !! a = Some (mk_conn_object None c);
}.

Lemma start_serving sock bound listening s s' :
  server_start sock bound listening s = Ret tt s' -> conns_ s = [] -> serving s'.
Proof.
  unfold server_start, mbind, M_bind, modify. destruct (sock <? 0); [done|]. cbn.
  destruct (bound <? 0); [done|]. destruct (listening <? 0); [done|]. cbn. intros [= <-] Hc. split; cbn.
  - by eexists.
  - eexists. split; [done|]. set_solver.
  - by rewrite Hc; intros a ?%elem_of_nil.
Qed.

(** What handle_accept does to the sockets. *)
Lemma accept_spec fd s : exists s' c,
  server_accept fd s = Ret tt s' /\ conns_ s' = conns_ s ++ [c] /\ listen_fd_ s' = listen_fd_ s /\ listener_ s' = listener_ s /\
  next_addr (sv_sockets s) < c < next_addr (sv_sockets s') /\ live_channels (sv_sockets s) ⊆ live_channels (sv_sockets s') /\
  conn_objects (sv_sockets s') = <[c := mk_conn_object None (next_addr (sv_sockets s))]> (conn_objects (sv_sockets s)).
Proof.
  unfold server_accept, mbind, M_bind. destruct (0 <=? fd); cbn;
    (eexists _, (next_addr (sv_sockets s) + 1); split; [reflexivity|]; cbn; split_and!; (done || lia || set_solver)).
Qed.

Lemma accept_all_serving fds s : serving s -> exists s', accept_all fds s = Ret tt s' /\ serving s' /\ (conns_ s' = [] -> fds = [] /\ conns_ s = []).
Proof.
  revert s. induction fds as [|fd fds IH]; intros s Hs.
  { by exists s. }
  destruct Hs as [Hf (l & Hl & Hlive) Hc].
  destruct (accept_spec fd s) as (s1 & c & E & Hcs & Hfd & Hli & Hn & Hsub & Hobj).
  destruct (IH s1) as (s' & E' & Hs' & Hx).
  { split; [by rewrite Hfd|exists l; rewrite Hli; split; [done|set_solver]|].
    intros a. rewrite Hcs, elem_of_app, list_elem_of_singleton, Hobj. intros [Ha| ->].
    - destruct (Hc a Ha) as [Hlt [ch Hch]]. split; [lia|]. exists ch. by rewrite lookup_insert_ne by lia.
    - split; [lia|]. eexists. apply lookup_insert_eq. }
  exists s'. split; [|split; [done|]].
  - cbn [accept_all]. unfold mbind, M_bind. by rewrite E.
  - intros [_ Hnil]%Hx. rewrite Hcs in Hnil. by destruct (conns_ s).
Qed.

(** Closing the first connection of a serving server *)
Lemma serving_shutdown s : serving s -> conns_ s <> [] -> server_shutdown s = Undef uninitialised_read.
Proof.
  intros [[fd Hf] (l & Hl & Hlive) Hc] Hne. destruct (conns_ s) as [|a cs] eqn:Ecs; [done|]. destruct (Hc a) as [_ [ch Hch]]; [left|].
  unfold server_shutdown, mbind, M_bind, gets. rewrite Hf, Hl, Ecs. cbn [of_option]. unfold mret, M_ret, in_sockets, zoom, close_fd, modify, delete_chan.
  cbn. unfold mbind, M_bind, gets. cbn. rewrite decide_True by done. cbn. unfold in_sockets, zoom, conn_close, mbind, M_bind, gets. cbn. by rewrite Hch.
Qed.

(** A server that has accepted a connection cannot be shut down or destroyed: after
    start and any sequence of accepted connections (failed accepts included), shutdown
    is undefined exactly because an accepted conn never sets sock_, the descriptor that
    its close passes to close(2). *)
Theorem accepted_shutdown_undefined port k sock bound listening fds s :
  server_start sock bound listening (server_new port k) = Ret tt s -> fds <> [] ->
  exists s', accept_all fds s = Ret tt s' /\ server_shutdown s' = Undef uninitialised_read.
Proof.
  intros Hs%start_serving Hne; [|done]. destruct (accept_all_serving fds s Hs) as (s' & E & Hs' & Hx).
  exists s'. split; [done|]. apply serving_shutdown; [done|]. intros Hnil. by destruct (Hx Hnil).
Qed.

(** A server listening on descriptor 3 *)
Definition no_sockets : sockets := mk_sockets ∅ [] ∅ ∅ 1.
Definition demo_server : server :=
  mk_server 80 (Some 3) (Some 1) [] None [] (mk_sockets {[ 3 := 2 ]} [(3, SO_REUSEADDR, true); (3, SO_REUSEPORT, true)] {[ 1 ]} ∅ 2).

Lemma accepted_shutdown_undefined_witness :
  server_start 3 0 0 (server_new 80 no_sockets) = Ret tt demo_server /\
  exists s', accept_all [4; -1] demo_server = Ret tt s' /\ server_shutdown s' = Undef uninitialised_read.
Proof.
  assert (server_start 3 0 0 (server_new 80 no_sockets) = Ret tt demo_server) as E by (vm_compute; reflexivity).
  split; [exact E|]. apply (accepted_shutdown_undefined 80 no_sockets 3 0 0 [4; -1] demo_server E). discriminate.
Defined.

(** A server that was shut down releases its listener again when it is destroyed. *)
Theorem shutdown_twice_undefined s s' : serving s -> conns_ s = [] -> server_shutdown s = Ret tt s' -> server_shutdown s' = Undef double_free.
Proof.
  intros [[fd Hf] (l & Hl & Hlive) _] Hc. unfold server_shutdown, mbind, M_bind, gets. rewrite Hf, Hl, Hc.
  unfold of_option, mret, M_ret, in_sockets, zoom, close_fd, modify, delete_chan, mbind, M_bind, gets. cbn. rewrite decide_True by done. cbn.
  intros [= <-]. cbn. rewrite Hf. cbn. rewrite Hl. cbn. by rewrite decide_False by set_solver.
Qed.

(** set_non_blocking changes exactly the flag O_NONBLOCK of an open descriptor. *)
Theorem set_non_blocking_flag fd value s flags :
  fd_flags s !! fd = Some flags ->
  exists s' flags', set_non_blocking fd value s = Ret tt s' /\ fd_flags s' = <[fd := flags']> (fd_flags s) /\
    forall i, 0 <= i -> Z.testbit flags' i = if i =? 11 then value else Z.testbit flags i.
Proof.
  intros Hf. unfold set_non_blocking, getfl, setfl, mbind, M_bind, gets, modify, mret, M_ret. rewrite Hf. cbn [default from_option id].
  eexists _, _. split; [reflexivity|]. split; [cbn; by apply alter_insert_eq || apply map_eq; intros j; rewrite lookup_alter, lookup_insert; case_decide; subst; rewrite ?Hf|].
  intros i Hi. change O_NONBLOCK with (2 ^ 11). destruct value; rewrite ?Z.lor_spec, ?Z.land_spec, ?Z.lnot_spec, Z.pow2_bits_eqb by lia;
    destruct (Z.eqb_spec 11 i), (Z.eqb_spec i 11); subst; try lia; by destruct (Z.testbit flags i).
Qed.
