(* ===== verification/RaftState.v ===== *)
(** The state file of a raft server: read_state_from_disk, persist_state_to_disk, start
    and shutdown of src/consensus/raft/raft_server.cc.  The file is its characters, by
    code; printing and reading a log entry, for which src/ has no stream operators, are
    parameters. *)
From S2P Require Import Prelude Raft.

(** * Formatted output *)

(** The decimal digits of a number, most significant first. *)
Fixpoint digits (fuel : nat) (n : Z) (acc : list Z) : list Z :=
  match fuel with
  | O => acc
  | S fuel => let acc := (48 + n mod 10) :: acc in if n / 10 =? 0 then acc else digits fuel (n / 10) acc
  end.

(** os << n, for integers of up to 64 bits: at most twenty digits *)
Definition print_int (n : Z) : list Z := if n <? 0 then 45 :: digits 20 (- n) [] else digits 20 n [].

(** * Formatted input *)

(** The rest of the stream, and whether neither eofbit nor failbit is set. *)
Record stream := mk_stream { st_rest : list Z; st_good : bool }.

Definition is_digit (c : Z) : bool := (48 <=? c) && (c <=? 57).
Definition is_space (c : Z) : bool := (c =? 32) || ((9 <=? c) && (c <=? 13)).

Fixpoint skip_space (cs : list Z) : list Z :=
  match cs with c :: cs' => if is_space c then skip_space cs' else cs | [] => [] end.

(** The number that a run of digits denotes, and what follows it *)
Fixpoint scan_digits (acc : Z) (cs : list Z) : Z * list Z :=
  match cs with
  | c :: cs' => if is_digit c then scan_digits (10 * acc + (c - 48)) cs' else (acc, cs)
  | [] => (acc, [])
  end.

(** is >> x for an int x that held [old] (None: not initialised): on a stream that is
    not good, or at its end, x stays; without digits it becomes 0, out of range the
    nearest int, and the stream fails. *)
Definition read_int (old : option Z) : M stream (option Z) := fun s =>
  if negb (st_good s) then Ret old s
  else
    match skip_space (st_rest s) with
    | [] => Ret old (mk_stream [] false)
    | c :: cs =>
        let '(neg, cs') := if (c =? 45) || (c =? 43) then (c =? 45, cs) else (false, c :: cs) in
        let '(v, rest) := scan_digits 0 cs' in
        if bool_decide (rest = cs') then Ret (Some 0) (mk_stream rest false)
        else
          let x := if neg : bool then - v else v in
          if (INT_MIN <=? x) && (x <=? INT_MAX) then Ret (Some x) (mk_stream rest (negb (bool_decide (rest = []))))
          else Ret (Some (if neg then INT_MIN else INT_MAX)) (mk_stream rest false)
    end.

Section state_file.
(** fs << log and fs >> entry *)
Context (print_log : log -> list Z) (read_log : M stream log).

(** raft_server::persist_state_to_disk: the new content of the file *)
Definition persist_state_to_disk : R (list Z) :=
  _ ← locked (mret tt);
  s ← gets id;
  mret (print_int (current_term_ s) ++ print_int (voted_for_ s) ++ print_int (Z.of_nat (length (log_entries_ s))) ++
        (log_entries_ s ≫= print_log)).

Fixpoint read_logs (n : nat) : M stream (list log) :=
  match n with O => mret [] | S n => e ← read_log; es ← read_logs n; mret (e :: es) end.

(** The locals of read_state_from_disk: the three integers and the entries *)
Definition read_fields : M stream (Z * Z * list log) :=
  current_term ← read_int None;
  voted_for ← read_int None;
  size ← read_int None;
  size ← of_option uninitialised_read size;
  entries ← read_logs (Z.to_nat size);
  t ← of_option uninitialised_read current_term;
  v ← of_option uninitialised_read voted_for;
  mret (t, v, entries).

(** raft_server::read_state_from_disk of a file with this content *)
Definition read_state_from_disk (file : list Z) : R unit := fun s =>
  match read_fields (mk_stream file true) with
  | Ret (t, v, entries) _ =>
      locked (modify (fun s => with_log entries (commit_index_ s) (last_applied_ s) (with_vote (role_ s) (votes_ s) (u64 t) v s))) s
  | Exc e _ => Exc e s
  | Undef u => Undef u
  | Blocked => Blocked
  end.

(** raft_server::start; raft_server::shutdown up to rpc_server::shutdown *)
Definition raft_start (file : list Z) : R unit := _ ← read_state_from_disk file; reschedule_election.
Definition raft_shutdown : R (list Z) := file ← persist_state_to_disk; _ ← shutdown_timers; mret file.
End state_file.

(** * Properties *)

Definition all_digits (cs : list Z) : Prop := cs <> [] /\ Forall (fun c => is_digit c = true) cs.

Lemma digits_ok fuel n acc : Forall (fun c => is_digit c = true) acc -> acc <> [] \/ fuel <> O -> all_digits (digits fuel n acc).
Proof.
  revert n acc. induction fuel as [|fuel IH]; intros n acc Ha Hne; cbn [digits]; [by destruct Hne|].
  assert (is_digit (48 + n mod 10) = true) as Hd.
  { pose proof (Z.mod_pos_bound n 10). unfold is_digit. apply andb_true_iff. split; apply Z.leb_le; lia. }
  destruct (n / 10 =? 0); [by split; [|constructor]|]. apply IH; [by constructor|by left].
Qed.

Lemma print_nonneg n : 0 <= n -> all_digits (print_int n).
Proof. intros Hn. unfold print_int. destruct (Z.ltb_spec n 0); [lia|]. apply digits_ok; [done|by right]. Qed.

Lemma print_neg n : n < 0 -> exists ds, print_int n = 45 :: ds /\ all_digits ds.
Proof.
  intros Hn. unfold print_int. destruct (Z.ltb_spec n 0); [|lia]. eexists. split; [done|]. apply digits_ok; [done|by right].
Qed.

Lemma all_digits_app cs ds : all_digits cs -> all_digits ds -> all_digits (cs ++ ds).
Proof. intros [Hc Hcs] [_ Hds]. split; [by destruct cs|by apply Forall_app]. Qed.

Lemma scan_all acc cs rest : Forall (fun c => is_digit c = true) cs -> exists v, scan_digits acc (cs ++ rest) = scan_digits v rest.
Proof.
  intros Hcs. revert acc. induction Hcs as [|c cs Hc _ IH]; intros acc; [by exists acc|]. cbn. rewrite Hc. apply IH.
Qed.

Lemma digit_plain d : is_digit d = true -> is_space d = false /\ (d =? 45) || (d =? 43) = false.
Proof.
  unfold is_digit. intros [H1 H2]%andb_true_iff. reflect_bool.
  unfold is_space. split; repeat (apply orb_false_iff; split); try (apply Z.eqb_neq; lia). apply andb_false_iff. right. apply Z.leb_gt. lia.
Qed.

(** Reading a run of digits that ends the file, behind an optional sign, leaves
    nothing to read. *)
Lemma read_int_last old sign ds : sign = [] \/ sign = [45] -> all_digits ds ->
  exists x, read_int old (mk_stream (sign ++ ds) true) = Ret (Some x) (mk_stream [] false).
Proof.
  intros Hsign [Hne Hds]. destruct ds as [|d ds]; [done|]. destruct (scan_all 0 (d :: ds) [] Hds) as [v Hv]. rewrite app_nil_r in Hv.
  change (scan_digits v []) with (v, @nil Z) in Hv. assert (is_space d = false /\ (d =? 45) || (d =? 43) = false) as [Hs Hp].
  { apply Forall_cons in Hds as [Hd _]. by apply digit_plain. }
  unfold read_int. cbn [st_good negb st_rest]. destruct Hsign as [->| ->]; cbn [app skip_space].
  - rewrite Hs, Hp. cbn beta iota. rewrite Hv, bool_decide_false by done. destruct ((INT_MIN <=? v) && _); eauto.
  - change (is_space 45) with false. cbn beta iota. change ((45 =? 45) || (45 =? 43)) with true. cbn beta iota.
    rewrite Hv, bool_decide_false by done. destruct ((INT_MIN <=? _) && _); eauto.
Qed.

Lemma scan_stop acc ds rest : Forall (fun c => is_digit c = true) ds -> (forall c cs, rest = c :: cs -> is_digit c = false) ->
  exists v, scan_digits acc (ds ++ rest) = (v, rest).
Proof.
  intros Hds Hr. destruct (scan_all acc ds rest Hds) as [v ->]. exists v. destruct rest as [|c cs]; [done|]. cbn. by rewrite (Hr c cs).
Qed.

(** Reading a run of digits in front of a minus sign *)
Lemma read_int_minus old ds rest : all_digits ds ->
  exists x b, read_int old (mk_stream (ds ++ 45 :: rest) true) = Ret (Some x) (mk_stream (45 :: rest) b).
Proof.
  intros [Hne Hds]. destruct ds as [|d ds]; [done|].
  destruct (scan_stop 0 (d :: ds) (45 :: rest) Hds) as [v Hv]; [by intros c cs [= <- _]|].
  assert (is_space d = false /\ (d =? 45) || (d =? 43) = false) as [Hs Hp].
  { apply Forall_cons in Hds as [Hd _]. by apply digit_plain. }
  unfold read_int. cbn [st_good negb st_rest app skip_space]. rewrite Hs, Hp. cbn beta iota. cbn [app] in Hv. rewrite Hv.
  rewrite bool_decide_false; [destruct ((INT_MIN <=? v) && _); eauto|].
  intros Hl%(f_equal length). cbn in Hl. rewrite length_app in Hl. cbn in Hl. lia.
Qed.

(** The state file of a server without log entries cannot be read back: the numbers
    are written without a separator, so size, or voted_for and size, are not read. *)
Theorem persisted_state_unreadable print_log read_log (s s' : raft_server) file s1 :
  0 <= current_term_ s -> log_entries_ s = [] -> persist_state_to_disk print_log s = Ret file s1 ->
  read_state_from_disk read_log file s' = Undef uninitialised_read.
Proof.
  intros Ht Hl Hp. assert (file = print_int (current_term_ s) ++ print_int (voted_for_ s) ++ [48]) as ->.
  { revert Hp. unfold persist_state_to_disk, locked, releasing, lock, mbind, M_bind, gets, modify, mret, M_ret, blocked. destruct (mutex_ s); [done|]. cbn.
    unfold mret, M_ret. cbn. rewrite Hl. cbn. by intros [= <- _]. }
  clear Hp. pose proof (print_nonneg _ Ht) as Hdt. assert (all_digits [48]) as Hd0 by (by split; [|repeat constructor]).
  unfold read_state_from_disk, read_fields. destruct (Z.ltb_spec (voted_for_ s) 0) as [Hv|Hv].
  - destruct (print_neg _ Hv) as (ds & -> & Hds). cbn [app].
    destruct (read_int_minus None (print_int (current_term_ s)) (ds ++ [48]) Hdt) as (x & b & E1). unfold mbind, M_bind. rewrite E1.
    destruct b; [|done]. destruct (read_int_last None [45] (ds ++ [48])) as [y E2]; [by right|by apply all_digits_app|].
    cbn [app] in E2. by rewrite E2.
  - destruct (read_int_last None [] (print_int (current_term_ s) ++ print_int (voted_for_ s) ++ [48])) as [x E];
      [by left|apply all_digits_app; [done|]; apply all_digits_app; [by apply print_nonneg|done]|].
    cbn [app] in E. unfold mbind, M_bind. by rewrite E.
Qed.
