(* ===== verification/Printing.v ===== *)
(** What the program prints: the stream operators of src/io, src/table, src/network
    and src/consensus/raft, the texts of src/io/exceptions.cc and the log of src/db.
    An operator gives the text it appends to the stream. *)
From Stdlib Require Import Strings.Ascii.
From stdpp Require Import pretty strings.
From S2P Require Import Prelude HashTable Unix BufferManager FileHandle RingBuffer Raft Comparator Rid Memory IndexFormat IndexHandle TreeNodes.

#[local] Open Scope string_scope.
#[local] Open Scope Z_scope.

(** * Characters, numbers and truth values on a stream *)

Definition ch (c : ascii) : string := String c EmptyString.
#[global] Arguments ch c%_char_scope.
Definition endl : string := ch "010".
(** bool without boolalpha *)
Definition show_bool (b : bool) : string := if b then "1" else "0".

Fixpoint repeat_char (n : nat) (c : ascii) : string :=
  match n with O => "" | S n => String c (repeat_char n c) end.

#[global] Arguments repeat_char n c%_char_scope.

(** myprint of buffer.cc; an int argument becomes a size_t. *)
Definition myprint (c : ascii) (size : Z) : string := repeat_char (Z.to_nat (size_t size)) c.

#[global] Arguments myprint c%_char_scope size.

Fixpoint concat_text (l : list string) : string :=
  match l with [] => "" | s :: l => s +:+ concat_text l end.

(** * Record ids, files and the hash table *)

(** operator<< of rid *)
Definition show_rid (id : rid) : string :=
  "rid<" +:+ pretty (rid_page id) +:+ "," +:+ pretty (rid_slot id) +:+ ">" +:+ endl.

(** operator<< of file_handle *)
Definition show_file_handle (f : file_handle) : string :=
  "header: " +:+ pretty (page_num (header_ f)) +:+ endl.

(** The chain of a bucket, and operator<< of hash_table *)
Definition show_key (fd page : Z) : string := "<->(" +:+ pretty fd +:+ "," +:+ pretty page +:+ ")".
Fixpoint show_chain (fuel : nat) (entry : ptr) : M hash_table string :=
  match fuel with
  | O => blocked
  | S fuel =>
      match entry with
      | None => mret ""
      | Some _ =>
          e ← HashTable.load entry;
          rest ← show_chain fuel (he_next e);
          mret (show_key (he_fd e) (he_page e) +:+ rest)
      end
  end.
Fixpoint show_buckets (n : nat) (i : Z) : M hash_table string :=
  match n with
  | O => mret ""
  | S n =>
      entry ← bucket_get i;
      fuel ← gets chain_fuel;
      line ← show_chain fuel entry;
      rest ← show_buckets n (i + 1);
      mret (pretty i +:+ "|" +:+ line +:+ endl +:+ rest)
  end.
Definition show_hash_table : M hash_table string :=
  n ← gets bucket_num_; show_buckets (Z.to_nat n) 0.

(** * The buffer manager *)

Section buffer_manager.
Context {U : Type} `{Unix U}.
(** How the library prints a pointer, and the address of the bytes of a slot *)
Context (show_pointer : Z -> string) (addr : Z -> Z).

Definition rule : string := repeat_char 63%nat "-" +:+ endl.

Definition show_slot (i : Z) (e : buffer_entry) : string :=
  pretty i +:+ " ::" +:+ " fd = " +:+ pretty (be_fd e) +:+ " page = " +:+ pretty (be_page e)
  +:+ " dirty = " +:+ show_bool (be_dirty e) +:+ " pin = " +:+ pretty (be_pin e)
  +:+ " pointer = " +:+ show_pointer (addr i) +:+ endl +:+ rule.
Fixpoint show_slots (n : nat) (i : Z) : M (buffer_manager U) string :=
  match n with
  | O => mret ""
  | S n => e ← pool_get i; rest ← show_slots n (i + 1); mret (show_slot i e +:+ rest)
  end.
Definition show_arrows (l : list Z) : string := concat_text ((fun i => "->" +:+ pretty i) <$> l).

(** operator<< of buffer_manager *)
Definition show_buffer_manager : M (buffer_manager U) string :=
  b ← gets id;
  slots ← show_slots (Z.to_nat (pool_size_ b)) 0;
  mret (rule +:+ slots +:+ "used list" +:+ show_arrows (used_list_ b).*2 +:+ endl
        +:+ "free list" +:+ show_arrows (free_list_ b) +:+ endl).

(** operator<< of io_manager *)
Definition show_io_manager : M (buffer_manager U) string := s ← show_buffer_manager; mret (s +:+ endl).
End buffer_manager.

(** * The ring buffer *)

(** A row of the picture for head > tail, and one for head < tail *)
Definition open_row (indent : Z) (a fill : ascii) (gap : Z) (b : ascii) : string :=
  myprint " " indent +:+ ch a +:+ myprint fill gap +:+ ch b +:+ endl.
#[global] Arguments open_row indent (a fill)%_char_scope gap b%_char_scope.
Definition framed_row (side fill : ascii) (head : Z) (a : ascii) (gap : Z) (b : ascii) (rest : Z) : string :=
  ch side +:+ myprint fill head +:+ ch a +:+ myprint " " gap +:+ ch b +:+ myprint fill rest +:+ ch side +:+ endl.

#[global] Arguments framed_row (side fill)%_char_scope head a%_char_scope gap b%_char_scope rest.

(** The lines in front of the picture *)
Definition buffer_line (b : buffer) : string :=
  "cap:" +:+ pretty (max_size_ b) +:+ " " +:+ "size:" +:+ pretty (buffer_size b) +:+ " " +:+ "head:" +:+ pretty (head_ b)
  +:+ " " +:+ "tail:" +:+ pretty (tail_ b) +:+ endl.
Definition bar (cap : Z) : string := ch "|" +:+ myprint "-" cap +:+ ch "|" +:+ endl.

(** operator<< of buffer: positions are in columns of 100 bytes, in int. *)
Definition show_buffer : M buffer string :=
  b ← gets id;
  let cap := to_signed 32 (max_size_ b / 100) in
  let head := to_signed 32 (head_ b / 100) in
  let tail := to_signed 32 (tail_ b / 100) in
  let front := endl +:+ buffer_line b +:+ bar cap in
  if buffer_empty b || (head =? tail) then
    mret (front
      +:+ myprint " " tail +:+ ch "^" +:+ endl
      +:+ myprint " " tail +:+ ch "|" +:+ endl
      +:+ myprint " " tail +:+ ch "+" +:+ myprint "-" 3 +:+ "h=" +:+ pretty (head_ b) +:+ endl
      +:+ myprint " " tail +:+ ch "|" +:+ endl
      +:+ myprint " " tail +:+ ch "+" +:+ myprint "-" 3 +:+ "t=" +:+ pretty (tail_ b) +:+ endl)
  else if tail <? head then
    d ← int_of (head - tail); gap ← int_of (d - 1);
    mret (front
      +:+ open_row tail "^" " " gap "^"
      +:+ open_row tail "|" " " gap "|"
      +:+ open_row tail "v" " " gap "^"
      +:+ open_row tail "t" "-" gap "h"
      +:+ endl)
  else
    d ← int_of (tail - head); gap ← int_of (d - 2); rest ← int_of (cap - tail);
    mret (front
      +:+ framed_row "|" " " head "^" gap "^" rest
      +:+ framed_row "|" " " head "|" gap "|" rest
      +:+ framed_row "|" " " head "^" gap "v" rest
      +:+ framed_row "+" "-" head "h" gap "t" rest
      +:+ endl).

(** * A raft server *)

(** operator<< of raft_server *)
Definition show_raft_server (s : raft_server) : string :=
  "leader:" +:+ show_bool (bool_decide (role_ s = leader)) +:+ "term: " +:+ pretty (current_term_ s)
  +:+ "commit: " +:+ pretty (commit_index_ s) +:+ "size: " +:+ pretty (Z.of_nat (length (log_entries_ s))) +:+ endl.

(** * Nodes of the tree *)

Section nodes.
Context {P : Type} `{IndexPages P}.
Context (addr : Z -> Z) (show_pointer : Z -> string).

(** The entries [0 .. n-1] of a node; keys are pointers. *)
Definition show_entry (i : Z) : M index_page string :=
  '(k, r) ← entry_at i;
  mret ("| pointer: " +:+ show_rid r +:+ "| keys: " +:+ show_pointer k).
Fixpoint show_entries (n : nat) (i : Z) : M index_page string :=
  match n with
  | O => mret ""
  | S n => s ← show_entry i; rest ← show_entries n (i + 1); mret (s +:+ rest)
  end.

(** The frame around the text of a node: a bar as long as the text *)
Definition node_bar (s : string) : string := "+" +:+ repeat_char (String.length s) "-" +:+ "+" +:+ endl.
Definition framed (s : string) : string := node_bar s +:+ "|" +:+ s +:+ "|" +:+ endl +:+ node_bar s +:+ endl.

Definition show_node (last_text : node_ptr -> Z -> M (b_plus_tree P) string) (this : node_ptr) : M (b_plus_tree P) string :=
  _ ← pin_node addr this;
  c ← node_count this;
  n ← int_of (c - 1);
  entries ← on_page this (show_entries (Z.to_nat n) 0);
  tail ← last_text this n;
  _ ← unpin_node this;
  mret (framed ("node count: " +:+ pretty c +:+ " | " +:+ entries +:+ tail +:+ endl)).

(** operator<< of leaf_node and of internal_node, which also prints its last pointer *)
Definition show_leaf_node : node_ptr -> M (b_plus_tree P) string := show_node (fun _ _ => mret " | ->").
Definition show_internal_node : node_ptr -> M (b_plus_tree P) string :=
  show_node (fun this n => r ← on_page this (rid_at n); mret (" | pointer: " +:+ show_rid r)).
End nodes.

(** * Texts of the storage exceptions *)

(** what() of the classes that define it; the others declare it only. *)
Inductive exception_class := closed_file | no_mem | no_buf.
Definition what (e : exception_class) : string :=
  match e with
  | closed_file => "invalid file descriptor (file closed)"
  | no_mem => "Not enough memory"
  | no_buf => "Not enough buffer space"
  end.

(** * The log of src/db *)

Inductive log_level := DEBUG | INFO | WARN | ERROR.
Definition level_number (l : log_level) : Z := match l with DEBUG => 0 | INFO => 1 | WARN => 2 | ERROR => 3 end.
Definition DEFAULT_LOG_LEVEL : log_level := DEBUG.

(** open_ is None until operator<< sets it; [lg_out] is the standard output. *)
Record logger := mk_logger { open_ : option bool; level_ : log_level; lg_out : string }.

(** log::log *)
Definition logger_new (level : log_level) (out : string) : logger := mk_logger None level out.

(** log::operator<<, of the text of its argument *)
Definition log_text (msg : string) : M logger unit :=
  l ← gets id;
  when (level_number DEFAULT_LOG_LEVEL <=? level_number (level_ l))
    (modify (fun l => mk_logger (Some true) (level_ l) (lg_out l +:+ msg))).

(** log::~log *)
Definition logger_destroy : M logger unit :=
  l ← gets id;
  o ← of_option uninitialised_read (open_ l);
  _ ← when o (modify (fun l => mk_logger (open_ l) (level_ l) (lg_out l +:+ endl)));
  modify (fun l => mk_logger (Some false) (level_ l) (lg_out l)).

(** log::get_label *)
Definition get_label (l : log_level) : string :=
  match l with DEBUG => "DEBUG" | INFO => "INFO" | WARN => "WARN" | ERROR => "ERROR" end.

(** * Lemmas on texts *)

Fixpoint all_chars (p : ascii -> bool) (s : string) : bool :=
  match s with EmptyString => true | String c s => p c && all_chars p s end.

(** The characters of a decimal number *)
Definition numeral (c : ascii) : bool :=
  let n := N_of_ascii c in ((48 <=? n) && (n <=? 57) || (n =? 45))%N.

Lemma pretty_N_go_numeral x s : all_chars numeral s = true -> all_chars numeral (pretty_N_go x s) = true.
Proof.
  revert s. induction (N.lt_wf_0 x) as [x _ IH]; intros s Hs. destruct (decide (0 < x)%N) as [Hx|]; [|by assert (x = 0%N) as -> by lia].
  rewrite pretty_N_go_step by done. apply IH; [by apply N.div_lt|]. cbn. rewrite Hs, andb_true_r.
  unfold pretty_N_char. by repeat case_match.
Qed.

Lemma pretty_numeral (z : Z) : all_chars numeral (pretty z) = true.
Proof.
  assert (forall n : N, all_chars numeral (pretty n) = true) as Hn.
  { intros n. unfold pretty, pretty_N. case_decide; [done|]. by apply pretty_N_go_numeral. }
  destruct z; [done|apply Hn|]. cbn. apply Hn.
Qed.

(** A number ends where the text goes on with something else. *)
Lemma numeral_split a b c s c' s' :
  all_chars numeral a = true -> all_chars numeral b = true -> numeral c = false -> numeral c' = false ->
  a +:+ String c s = b +:+ String c' s' -> a = b /\ String c s = String c' s'.
Proof.
  revert b. induction a as [|x a IH]; intros [|y b] Ha Hb Hc Hc' E; cbn in *.
  - done.
  - injection E as -> _. rewrite Hc in Hb. done.
  - injection E as <- _. rewrite Hc' in Ha. done.
  - injection E as -> E. apply andb_prop in Ha as [_ Ha]. apply andb_prop in Hb as [_ Hb].
    destruct (IH b Ha Hb Hc Hc' E) as [-> ?]. done.
Qed.

Lemma pretty_split (x y : Z) c s c' s' :
  numeral c = false -> numeral c' = false -> pretty x +:+ String c s = pretty y +:+ String c' s' -> x = y /\ String c s = String c' s'.
Proof.
  intros Hc Hc' [E ?]%numeral_split; [|apply pretty_numeral..|done|done]. split; [by apply (inj pretty)|done].
Qed.

Lemma append_length a b : String.length (a +:+ b) = (String.length a + String.length b)%nat.
Proof. induction a as [|c a IH]; [done|]. change (S (String.length (a +:+ b)) = S (String.length a + String.length b)). by rewrite IH. Qed.

Lemma repeat_char_length n c : String.length (repeat_char n c) = n.
Proof. induction n as [|n IH]; cbn; [done|by rewrite IH]. Qed.

Lemma myprint_length c z : Z.of_nat (String.length (myprint c z)) = size_t z.
Proof. unfold myprint. rewrite repeat_char_length. pose proof (Z.mod_pos_bound z SIZE_T ltac:(done)). unfold size_t. lia. Qed.

Lemma append_assoc a b c : (a +:+ b) +:+ c = a +:+ b +:+ c.
Proof. induction a as [|x a IH]; [done|]. change (String x ((a +:+ b) +:+ c) = String x (a +:+ b +:+ c)). by rewrite IH. Qed.

Lemma append_inj a x y : a +:+ x = a +:+ y -> x = y.
Proof. induction a as [|c a IH]; [done|]. intros E. injection E as E. by apply IH. Qed.

Lemma size_t_small z : 0 <= z < 2 ^ 64 -> size_t z = z.
Proof. intros. unfold size_t, SIZE_T. by apply Z.mod_small. Qed.

(** * The hash table's text *)

Definition show_line (i : nat) (keys : list (Z * Z)) : string :=
  pretty (Z.of_nat i) +:+ "|" +:+ concat_text ((fun k => show_key k.1 k.2) <$> keys) +:+ endl.

Lemma wp_show_chain (t : hash_table) fuel q p (c : list HashTable.node) (Q : string -> hash_table -> Prop) E :
  lseg (ht_heap t) q p c None -> (length c < fuel)%nat ->
  Q (concat_text ((fun k => show_key k.1 k.2) <$> c.*2.*1)) t -> wp (show_chain fuel p) Q E t.
Proof.
  revert fuel q p Q. induction c as [|[l d] c IH]; intros [|fuel] q p Q Hs Hf HQ; cbn in Hs, Hf; try lia.
  { subst p. by apply wp_ret. }
  destruct Hs as (-> & e & He & <- & _ & Hs). cbn [show_chain]. wp_step. eapply wp_load; [done|]. wp_step.
  eapply IH; [done|lia|]. apply wp_ret, HQ.
Qed.

Lemma wp_show_buckets (t : hash_table) chs n i (Q : string -> hash_table -> Prop) E :
  chains_ok t chs -> (i + n = length chs)%nat ->
  Q (concat_text (imap (fun j (c : list HashTable.node) => show_line (i + j) c.*2.*1) (drop i chs))) t ->
  wp (show_buckets n (Z.of_nat i)) Q E t.
Proof.
  intros CK. revert i Q. induction n as [|n IH]; intros i Q Hn HQ; cbn [show_buckets].
  { rewrite drop_ge in HQ by lia. by apply wp_ret. }
  destruct (lookup_lt_is_Some_2 chs i) as [c Hc]; [lia|].
  destruct (lookup_lt_is_Some_2 (hash_table_ t) i) as [p Hp].
  { rewrite (ck_buckets _ _ CK), <-(ck_len _ _ CK). lia. }
  rewrite (drop_S _ _ _ Hc) in HQ. cbn [imap concat_text] in HQ.
  wp_step. eapply wp_bucket_get; [done|]. wp_steps.
  eapply wp_show_chain; [by apply (ck_seg _ _ CK i)|unfold chain_fuel; pose proof (chain_length _ _ CK i c Hc); lia|]. wp_step.
  replace (Z.of_nat i + 1) with (Z.of_nat (S i)) by lia. apply IH; [lia|]. apply wp_ret.
  rewrite Nat.add_0_r in HQ. unfold show_line in HQ at 1. rewrite !append_assoc in HQ.
  erewrite imap_ext; [exact HQ|]. intros j x _. cbn. f_equal. lia.
Qed.

Lemma concat_keys (chs : list (list HashTable.node)) : concat ((fun c => c.*2.*1) <$> chs) = (concat chs).*2.*1.
Proof. induction chs as [|c chs IH]; [done|]. cbn. by rewrite IH, !fmap_app. Qed.

(** * Properties *)

(** C40. Printing a hash table is safe and shows exactly its contents: for a table that
    holds the map m, operator<< ends without touching a null or freed entry, leaves
    the table alone and prints one line per bucket, in order; together the lines list
    every key of m exactly once, each on the line of its own bucket. *)
Theorem hash_table_text t m :
  ht_repr t m ->
  exists lines, show_hash_table t = Ret (concat_text (imap show_line lines)) t /\
    length lines = Z.to_nat (bucket_num_ t) /\ concat lines ≡ₚ (map_to_list m).*1 /\
    forall i ks k, lines !! i = Some ks -> k ∈ ks -> key_bucket t k = i.
Proof.
  intros (chs & CK & ->). exists ((fun c => c.*2.*1) <$> chs). split_and!.
  - apply wp_eq. unfold show_hash_table. wp_steps. change 0 with (Z.of_nat 0).
    apply (wp_show_buckets t chs); [done|by rewrite (ck_len _ _ CK)|]. rewrite drop_0, imap_fmap. done.
  - by rewrite length_fmap, (ck_len _ _ CK).
  - unfold chains_map. rewrite map_to_list_to_map by apply (ck_keys _ _ CK).
    by rewrite concat_keys.
  - intros i ks k (c & -> & Hc)%list_lookup_fmap_Some Hk.
    apply list_elem_of_fmap in Hk as ([k' v] & -> & Hk). apply list_elem_of_fmap in Hk as ([l d] & -> & Hk).
    by destruct (ck_node _ _ CK i c l d.1 d.2 Hc) as (_ & Hb & _); [destruct d|].
Qed.

(** A table of two buckets with three keys *)
Definition printed_ops : list ht_op := [OpInsert 3 1 0; OpInsert 4 1 1; OpInsert 5 1 2].
Definition printed_table : hash_table :=
  match run_ops printed_ops (hash_table_new 2) with Ret _ t => t | _ => hash_table_new 2 end.

Lemma hash_table_text_witness :
  show_hash_table printed_table = Ret ("0|<->(5,1)<->(3,1)" +:+ endl +:+ "1|<->(4,1)" +:+ endl) printed_table /\
  exists lines, show_hash_table printed_table = Ret (concat_text (imap show_line lines)) printed_table /\
    length lines = 2%nat /\ concat lines ≡ₚ (map_to_list (map_ops printed_ops ∅).2).*1 /\
    forall i ks k, lines !! i = Some ks -> k ∈ ks -> key_bucket printed_table k = i.
Proof.
  split; [vm_compute; reflexivity|]. apply (hash_table_text printed_table (map_ops printed_ops ∅).2).
  assert (wp (run_ops printed_ops) (fun _ t => ht_repr t (map_ops printed_ops ∅).2) (fun _ _ => False) (hash_table_new 2)) as Hw.
  { eapply run_ops_spec; [by apply hash_table_new_repr| |done]. repeat constructor; cbn; unfold INT_MAX; lia. }
  exact (wp_returns _ _ _ _ [None; None; None] printed_table Hw ltac:(vm_compute; reflexivity)).
Defined.

(** The text of a rid determines it. *)
Theorem rid_text_injective : Inj (=) (=) show_rid.
Proof.
  intros [p s] [p' s']. unfold show_rid. cbn [rid_page rid_slot]. intros E.
  apply append_inj, (pretty_split p p' "," _ ",") in E as [-> E]; [|done..].
  injection E as E. by apply (pretty_split s s' ">" _ ">") in E as [-> _].
Qed.

(** The status line of a raft server determines whether it is the leader, its term, its
    commit index and the length of its log, although the fields are printed without
    separators. *)
Theorem raft_text_injective s s' :
  show_raft_server s = show_raft_server s' ->
  (role_ s = leader <-> role_ s' = leader) /\ current_term_ s = current_term_ s' /\
  commit_index_ s = commit_index_ s' /\ length (log_entries_ s) = length (log_entries_ s').
Proof.
  unfold show_raft_server. intros E. apply append_inj in E.
  assert (forall b b' x y, show_bool b +:+ x = show_bool b' +:+ y -> b = b' /\ x = y) as Hb.
  { intros [] [] x y Hxy; injection Hxy as Hxy; done. }
  apply Hb in E as [Hl E]. apply append_inj, (pretty_split _ _ "c" _ "c") in E as [Ht E]; [|done..].
  apply (append_inj "commit: "), (pretty_split _ _ "s" _ "s") in E as [Hc E]; [|done..].
  apply (append_inj "size: "), (pretty_split _ _ "010" _ "010") in E as [Hs _]; [|done..].
  split_and!; [|done|done|lia]. split; intros Hr; [rewrite (bool_decide_eq_true_2 _ Hr) in Hl; symmetry in Hl|rewrite (bool_decide_eq_true_2 _ Hr) in Hl]; by apply bool_decide_eq_true_1 in Hl.
Qed.

Lemma framed_row_length side fill head a gap b rest :
  Z.of_nat (String.length (framed_row side fill head a gap b rest)) = size_t head + size_t gap + size_t rest + 5.
Proof. unfold framed_row. rewrite !append_length, !Nat2Z.inj_add, !myprint_length. cbn. lia. Qed.

(** The picture of a ring buffer whose data wraps around (head below tail by at
    least one column of 100 bytes): every row is exactly as wide as the bar above it
    when the columns of head and tail are at least two apart; when they are neighbours
    the gap between them is -1, which myprint takes as a size_t, and every row is
    2^64 blanks too wide. *)
Theorem buffer_picture_width b :
  full_ b = false -> 0 <= head_ b -> head_ b / 100 < tail_ b / 100 -> tail_ b <= max_size_ b < 2 ^ 32 ->
  exists rows, show_buffer b = Ret (endl +:+ buffer_line b +:+ bar (max_size_ b / 100) +:+ concat_text rows +:+ endl) b /\
    length rows = 4%nat /\
    Forall (fun r => Z.of_nat (String.length r) = Z.of_nat (String.length (bar (max_size_ b / 100))) +
      (if head_ b / 100 + 1 =? tail_ b / 100 then 2 ^ 64 else 0)) rows.
Proof.
  intros Hf Hh Hlt Hm. set (cap := max_size_ b / 100). set (h := head_ b / 100) in *. set (t := tail_ b / 100) in *.
  assert (0 <= h < t /\ t <= cap < 2 ^ 31 /\ cap < INT_MAX) as (Hht & Htc & Hc).
  { unfold h, t, cap, INT_MAX in *. split_and!; try (apply Z.div_le_mono || apply Z.div_pos); try lia.
    all: apply Z.div_lt_upper_bound; lia. }
  exists [framed_row "|" " " h "^" (t - h - 2) "^" (cap - t); framed_row "|" " " h "|" (t - h - 2) "|" (cap - t);
          framed_row "|" " " h "^" (t - h - 2) "v" (cap - t); framed_row "+" "-" h "h" (t - h - 2) "t" (cap - t)].
  split; [|split; [done|]].
  - apply wp_eq. unfold show_buffer. wp_steps. cbn [id]. fold cap h t.
    rewrite !to_signed_id by lia.
    assert (head_ b <> tail_ b) by (intros E; unfold h, t in *; rewrite E in *; lia).
    unfold buffer_empty. rewrite Hf, (proj2 (Z.eqb_neq _ _)) by done. cbn [negb andb orb].
    rewrite (proj2 (Z.eqb_neq h t)), (proj2 (Z.ltb_ge t h)) by lia.
    do 3 (wp_step; apply wp_int_of; [unfold INT_MIN, INT_MAX in *; lia|]). apply wp_ret.
    split; [|done]. cbn [concat_text]. by rewrite !append_assoc.
  - repeat constructor; rewrite framed_row_length; unfold bar;
      rewrite !append_length, !Nat2Z.inj_add, myprint_length; cbn [String.length ch endl];
      rewrite !(size_t_small h), !(size_t_small (cap - t)), !(size_t_small cap) by (unfold INT_MAX in *; lia);
      (destruct (Z.eqb_spec (h + 1) t) as [<-|];
       [replace (h + 1 - h - 2) with (-1) by lia; change (size_t (-1)) with (2 ^ 64 - 1)|rewrite size_t_small by (unfold INT_MAX in *; lia)]; lia).
Qed.

(** A ring buffer of 1000 bytes with 800 of them in use *)
Definition wrapped_ring : buffer := mk_buffer None false 50 250 1000.

Lemma buffer_picture_width_witness :
  exists rows, show_buffer wrapped_ring = Ret (endl +:+ buffer_line wrapped_ring +:+ bar 10 +:+ concat_text rows +:+ endl) wrapped_ring /\
    length rows = 4%nat /\ Forall (fun r => Z.of_nat (String.length r) = 13) rows.
Proof.
  destruct (buffer_picture_width wrapped_ring) as (rows & E & Hl & Hr); [done|cbn; lia|reflexivity|cbn; lia|].
  exists rows. split; [exact E|]. split; [exact Hl|exact Hr].
Defined.

Lemma log_text_step {A} m (k : M logger A) l : (log_text m ≫= fun _ => k) l = k (mk_logger (Some true) (level_ l) (lg_out l +:+ m)).
Proof. by destruct l as [o [] out]. Qed.

(** A log line: the texts in order and one end of line, at every level; a log to which
    nothing was written reads its unset flag when it is destroyed. *)
Theorem log_line level out msgs :
  (foldr (fun m k => log_text m ≫= fun _ => k) logger_destroy msgs) (logger_new level out) =
    match msgs with
    | [] => Undef uninitialised_read
    | _ => Ret tt (mk_logger (Some false) level (out +:+ concat_text msgs +:+ endl))
    end.
Proof.
  assert (forall out, (foldr (fun m k => log_text m ≫= fun _ => k) logger_destroy msgs) (mk_logger (Some true) level out) =
    Ret tt (mk_logger (Some false) level (out +:+ concat_text msgs +:+ endl))) as Hopen.
  { induction msgs as [|m msgs IH]; intros o; cbn [foldr]; [done|].
    rewrite log_text_step. cbn [level_ lg_out concat_text]. by rewrite IH, !append_assoc. }
  destruct msgs as [|m msgs]; [done|]. specialize (Hopen out). cbn [foldr] in *. by rewrite log_text_step in *.
Qed.
