(* ===== verification/RpcService.v ===== *)
(** Remote calls, the server: src/network/rpc/rpc.{h,cc} and rpc_server.{h,cc}, over
    server, the connections and the codec, with the construction of a raft server and
    its vote handler behind it. *)
From S2P Require Import Prelude Varint RingBuffer Raft RaftCodec Conn Rpc Server RaftState.

(** * An rpc object *)

(** What a service works on: the buffers of a connection and the object it was
    registered for. *)
Definition in_request {T A} (x : M buffer A) : M (conn * T) A := zoom fst (fun c s => (c, s.2)) (in_read_buf x).
Definition in_response {T A} (x : M buffer A) : M (conn * T) A := zoom fst (fun c s => (c, s.2)) (in_write_buf x).
Definition in_object {T A} (x : M T A) : M (conn * T) A := zoom snd (fun o s => (s.1, o)) x.

(** codec::unmarshal, with operator>> of the arguments; the id is an int *)
Definition unmarshal {R} (get_args : M buffer R) : M buffer (Z * R) :=
  id ← get_rpc_id; args ← get_args; mret (to_signed 32 id, args).

(** The closure of rpc::set: R1 and R2 come with the stream operators of the codec, and
    func is the member function of the object.  [scratch] is the array of operator<<. *)
Definition service_body {T R1 R2} (get_args : M buffer R1) (func : R1 -> M T R2) (put_reply : R2 -> M buffer unit)
    (scratch : list byte) : M (conn * T) unit :=
  rid ← in_request get_rpc_id;
  '(_, request) ← in_request (unmarshal get_args);
  reply ← in_object (func request);
  in_response (marshal (put_reply reply) scratch rid).

Record rpc {T : Type} := mk_rpc {
  codec_ : option Z;                          (* the connection whose buffers it points to *)
  service_ : option (M (conn * T) unit);      (* std::function *)
}.
Arguments rpc : clear implicits.

(** * The server *)

Record rpc_server {T : Type} := mk_rpc_server {
  rs_base : server;
  rs_bufs : gmap Z conn;                      (* the rpc_conn objects, by address *)
  rs_obj : T;                                 (* the object the services work on *)
  rs_rpcs : gmap Z (rpc T);                   (* the rpc objects on the heap *)
  rs_next : Z;
  services_ : gmap Z Z;
  rpc_count_ : Z;
  rs_frames : gmap Z (option Z);              (* what the variable conn captured by a callback holds *)
}.
Arguments rpc_server : clear implicits.

Section operations.
Context {T : Type}.

Definition set_rs_base (b : server) (s : rpc_server T) := mk_rpc_server T b (rs_bufs s) (rs_obj s) (rs_rpcs s) (rs_next s) (services_ s) (rpc_count_ s) (rs_frames s).
Definition set_rs_bufs (m : gmap Z conn) (s : rpc_server T) := mk_rpc_server T (rs_base s) m (rs_obj s) (rs_rpcs s) (rs_next s) (services_ s) (rpc_count_ s) (rs_frames s).
Definition set_rs_obj (o : T) (s : rpc_server T) := mk_rpc_server T (rs_base s) (rs_bufs s) o (rs_rpcs s) (rs_next s) (services_ s) (rpc_count_ s) (rs_frames s).
Definition set_rs_rpcs (m : gmap Z (rpc T)) (n : Z) (s : rpc_server T) := mk_rpc_server T (rs_base s) (rs_bufs s) (rs_obj s) m n (services_ s) (rpc_count_ s) (rs_frames s).
Definition set_services (m : gmap Z Z) (s : rpc_server T) := mk_rpc_server T (rs_base s) (rs_bufs s) (rs_obj s) (rs_rpcs s) (rs_next s) m (rpc_count_ s) (rs_frames s).
Definition set_rpc_count (n : Z) (s : rpc_server T) := mk_rpc_server T (rs_base s) (rs_bufs s) (rs_obj s) (rs_rpcs s) (rs_next s) (services_ s) n (rs_frames s).
Definition set_rs_frames (m : gmap Z (option Z)) (s : rpc_server T) := mk_rpc_server T (rs_base s) (rs_bufs s) (rs_obj s) (rs_rpcs s) (rs_next s) (services_ s) (rpc_count_ s) m.

Definition in_base {A} : M server A -> M (rpc_server T) A := zoom rs_base set_rs_base.

(** An operation on the buffers of a connection and the object *)
Definition on_conn {A} (a : Z) (x : M (conn * T) A) : M (rpc_server T) A := fun s =>
  match rs_bufs s !! a with
  | None => Undef dangling_deref
  | Some c =>
      match x (c, rs_obj s) with
      | Ret r co => Ret r (set_rs_obj co.2 (set_rs_bufs (<[a := co.1]> (rs_bufs s)) s))
      | Exc e co => Exc e (set_rs_obj co.2 (set_rs_bufs (<[a := co.1]> (rs_bufs s)) s))
      | Undef u => Undef u
      | Blocked => Blocked
      end
  end.

(** [new rpc()] and [delete r] *)
Definition rpc_new : M (rpc_server T) Z :=
  a ← gets rs_next;
  _ ← modify (fun s => set_rs_rpcs (<[a := mk_rpc T None None]> (rs_rpcs s)) (a + 1) s);
  mret a.
Definition rpc_delete (a : Z) : M (rpc_server T) unit :=
  m ← gets rs_rpcs;
  match m !! a with
  | None => undef double_free
  | Some _ => modify (fun s => set_rs_rpcs (delete a m) (rs_next s) s)
  end.

(** r->... *)
Definition rpc_update (a : Z) (f : rpc T -> rpc T) : M (rpc_server T) unit :=
  m ← gets rs_rpcs;
  r ← of_option dangling_deref (m !! a);
  modify (fun s => set_rs_rpcs (<[a := f r]> m) (rs_next s) s).

(** rpc::set, with the closure; rpc::set_codec *)
Definition rpc_set (a : Z) (body : M (conn * T) unit) : M (rpc_server T) unit :=
  rpc_update a (fun r => mk_rpc T (codec_ r) (Some body)).
Definition rpc_set_codec (a : Z) (codec : Z) : M (rpc_server T) unit :=
  rpc_update a (fun r => mk_rpc T (Some codec) (service_ r)).

(** rpc::operator(): an empty std::function throws bad_function_call. *)
Definition rpc_invoke (a : Z) : M (rpc_server T) unit :=
  m ← gets rs_rpcs;
  r ← of_option dangling_deref (m !! a);
  match service_ r with
  | None => throw std_exception
  | Some body => c ← of_option uninitialised_read (codec_ r); on_conn c body
  end.

(** rpc_server::rpc_server *)
Definition rpc_server_new (port : Z) (k : sockets) (obj : T) : rpc_server T :=
  mk_rpc_server T (server_new port k) ∅ obj ∅ 1 ∅ 0 ∅.

(** rpc_server::start: the listener that server::start made gets its callback again. *)
Definition rpc_server_start (sock bound listening : Z) : M (rpc_server T) unit :=
  _ ← in_base (server_start sock bound listening);
  b ← gets rs_base;
  _ ← of_option uninitialised_read (listener_ b);
  mret tt.

(** rpc_server::shutdown *)
Definition rpc_server_shutdown : M (rpc_server T) unit := in_base server_shutdown.

(** rpc_server::~rpc_server, followed by ~server *)
Fixpoint delete_services (l : list (Z * Z)) : M (rpc_server T) unit :=
  match l with [] => mret tt | (_, a) :: l => _ ← rpc_delete a; delete_services l end.
Definition delete_all_services : M (rpc_server T) unit :=
  m ← gets services_; _ ← delete_services (map_to_list m); modify (set_services ∅).
Definition rpc_server_destroy : M (rpc_server T) unit :=
  _ ← delete_all_services; in_base server_shutdown.

(** rpc_server::count *)
Definition rpc_count (s : rpc_server T) : Z := rpc_count_ s.

(** rpc_server::Register, with the hash taken of the name.  An object whose hash is
    taken already is not released. *)
Definition rpc_register (name : list byte) (body : M (conn * T) unit) : M (rpc_server T) unit :=
  r ← rpc_new;
  _ ← rpc_set r body;
  hashcode ← zoom (fun _ => tt) (fun _ s => s) (rpc_hash name);
  modify (fun s => if services_ s !! hashcode is Some _ then s else set_services (<[hashcode := r]> (services_ s)) s).

(** The callback that handle_accept gives a connection: [frame] is what the captured
    variable conn holds, None when handle_accept has returned.  The id, which stays in
    the buffer, becomes an int key, and the count is an atomic<int>. *)
Definition rpc_serve (frame : option Z) : M (rpc_server T) unit :=
  c ← of_option dangling_deref frame;
  rpcid ← on_conn c (in_request get_rpc_id);
  m ← gets services_;
  _ ← match m !! to_signed 32 rpcid with
      | None => mret tt
      | Some a =>
          _ ← rpc_set_codec a c;
          _ ← rpc_invoke a;
          modify (fun s => set_rpc_count (to_signed 32 (rpc_count_ s + 1)) s)
      end;
  on_conn c (zoom fst (fun c s => (c, s.2)) (in_output send_buffer)).

(** rpc_server::handle_accept with the result of accept, which is not checked; [bufs]
    are the buffers of the new rpc_conn.  The local variable ends with the call. *)
Definition rpc_accept (fd : Z) (bufs : conn) : M (rpc_server T) unit :=
  _ ← in_base (in_sockets (if 0 <=? fd then new_fd fd else mret tt));
  _ ← in_base (in_sockets (set_non_blocking fd true));
  c ← in_base (in_sockets (conn_accepted fd));
  modify (fun s =>
    let b := rs_base s in
    set_rs_frames (<[c := None]> (rs_frames s)) (set_rs_bufs (<[c := bufs]> (rs_bufs s))
      (set_rs_base (mk_server (port_ b) (listen_fd_ b) (listener_ b) (conns_ b ++ [c]) (callback_ b) (sv_called b) (sv_sockets b)) s))).

(** What the poller runs when the connection is readable *)
Definition rpc_readable (c : Z) : M (rpc_server T) unit :=
  m ← gets rs_frames;
  frame ← of_option dangling_deref (m !! c);
  rpc_serve frame.
End operations.

(** * A raft server on the network *)

Section raft.
(** The arrays of the stream operators, and the replies, before they are written *)
Context (buf scratch : list byte) (vote_reply : request_vote_reply) (append_reply : append_entries_reply).

(** The two services a raft server registers *)
Definition vote_service : M (conn * raft_server) unit :=
  service_body get_request_vote_args (fun args => request_vote args vote_reply) (put_request_vote_reply buf) scratch.
Definition append_service : M (conn * raft_server) unit :=
  service_body (get_append_entries_args []) (fun args => append_entries args append_reply) (put_append_entries_reply buf) scratch.

Definition c_string (s : string) : list byte := String.list_byte_of_string s ++ [Byte.x00].

(** The body of raft_server::raft_server *)
Definition raft_construct (sock bound listening : Z) : M (rpc_server raft_server) unit :=
  _ ← rpc_register (c_string "raft::request_vote") vote_service;
  _ ← rpc_register (c_string "raft::append_entries") append_service;
  rpc_server_start sock bound listening.
End raft.

Definition in_raft {A} : M raft_server A -> M (rpc_server raft_server) A := zoom rs_obj set_rs_obj.

(** raft_server::shutdown *)
Definition raft_server_shutdown (print_log : log -> list Z) : M (rpc_server raft_server) (list Z) :=
  file ← in_raft (raft_shutdown print_log); _ ← rpc_server_shutdown; mret file.

(** raft_server::~raft_server, followed by ~rpc_server *)
Fixpoint delete_peers (l : list Z) : M (rpc_server raft_server) unit :=
  match l with [] => mret tt | a :: l => _ ← in_base (in_sockets (conn_destroy a)); delete_peers l end.
Definition raft_destroy : M (rpc_server raft_server) unit :=
  s ← gets rs_obj; _ ← delete_peers (peers_ s); rpc_server_destroy.

(** * Lemmas *)

(** The id in front of a message, and the message behind it *)
Lemma wp_marshal_vote b l scratch rid g0 g1 g2 g3 rest args (Q : unit -> buffer -> Prop) E :
  rb_ok b l -> full_ b = false -> tail_ b = head_ b -> head_ b + 7 <= max_size_ b -> (10 <= length scratch)%nat ->
  0 <= rid < 128 -> 0 <= rv_term args < 128 -> 0 <= rv_candidate_id args < 128 -> 0 <= rv_last_log_index args < 128 ->
  (forall b' l', rb_ok b' l' -> tail_ b' = tail_ b ->
     rb_contents b' l' = [byte_of_Z rid; byte_of_Z 4; byte_of_Z (rv_last_log_index args); g1; g2; g3] -> Q tt b') ->
  wp (marshal (put_request_vote_args (g0 :: g1 :: g2 :: g3 :: rest) args) scratch rid) Q E b.
Proof.
  intros OK Hf Hht Hroom Hsc Hrid H1 H2 H3 HQ. unfold marshal, put_rpc_id. rewrite encode_small by done. wp_step.
  destruct (OK) as [_ Hlen Hm Hh Ht _].
  assert (rb_size b = 0) as Hz. { unfold rb_size. by rewrite Hf, Hht, Z.leb_refl, Z.sub_diag. }
  assert (rb_contents b l = []) as Hnil. { unfold rb_contents. by rewrite Hz. }
  set (s := [byte_of_Z rid]). destruct (block_state_spec b l s OK Hf) as [OK1 C1]; [cbn; lia..|]. rewrite Hnil in C1.
  unfold put_scratch. destruct scratch as [|x scratch]; [cbn in Hsc; lia|].
  destruct (Z.ltb_spec (Z.of_nat (length (splice (x :: scratch) 0 s))) (Z.of_nat (length s))); [cbn in *; lia|].
  change (take (Z.to_nat (Z.of_nat (length s))) (splice (x :: scratch) 0 s)) with s.
  apply (wp_put_block b l s _ _ OK); [cbn; lia|].
  assert (head_ (block_state b l s) = head_ b + 1) as Hh1. { cbn. rewrite Z.mod_small by lia. lia. }
  eapply (wp_put_vote_small (block_state b l s)); [exact OK1|done|cbn [tail_ block_state]; lia|rewrite Hh1; cbn; lia|done..|].
  intros b' l' OK' Ht' Hm' C'. apply (HQ b' l' OK'); [done|]. by rewrite C', C1.
Qed.

Definition set_read_buf (b : buffer) (c : conn) : conn :=
  mk_conn (mk_input b (i_results (cn_input c)) (i_asked (cn_input c))) (cn_output c) (cn_read_cb c) (cn_write_cb c) (cn_called c).

Lemma in_request_ret {T A} (x : M buffer A) c (s : T) a b :
  x (i_buf (cn_input c)) = Ret a b -> in_request x (c, s) = Ret a (set_read_buf b c, s).
Proof. intros E. unfold in_request, in_read_buf, in_input, in_in, zoom. cbn. by rewrite E. Qed.

Lemma peek_id b l r q :
  rb_ok b l -> rb_contents b l = r :: q -> byte_to_Z r < 128 -> get_rpc_id b = Ret (byte_to_Z r) b.
Proof. intros OK C Hr. unfold get_rpc_id, mbind, M_bind. by rewrite (peek_small b l r q). Qed.

(** What the vote handler is given for a message in the read buffer *)
Lemma service_sees buf scratch r0 c s b l r n k q :
  i_buf (cn_input c) = b -> rb_ok b l -> tail_ b + 2 <= max_size_ b -> rb_contents b l = r :: n :: k :: q ->
  byte_to_Z r < 128 -> byte_to_Z k < 128 ->
  exists c', cn_output c' = cn_output c /\
    vote_service buf scratch r0 (c, s) =
    (reply ← in_object (request_vote (mk_request_vote_args (byte_to_Z k) (byte_to_Z k) (byte_to_Z k) (byte_to_Z k)) r0);
     in_response (marshal (put_request_vote_reply buf reply) scratch (byte_to_Z r))) (c', s).
Proof.
  intros Hb OK Hroom C Hr Hk.
  assert (wp get_request_vote_args (fun a _ => a = mk_request_vote_args (byte_to_Z k) (byte_to_Z k) (byte_to_Z k) (byte_to_Z k)) (fun _ _ => False) b)
    as (a & b' & E & ->)%wp_no_exn by (by eapply (wp_get_vote_small b l r n k q)).
  assert (unmarshal get_request_vote_args b = Ret (to_signed 32 (byte_to_Z r), mk_request_vote_args (byte_to_Z k) (byte_to_Z k) (byte_to_Z k) (byte_to_Z k)) b') as Eu.
  { unfold unmarshal, mbind, M_bind. by rewrite (peek_id b l r (n :: k :: q)), E. }
  assert (get_rpc_id b = Ret (byte_to_Z r) b) as Er by (by eapply peek_id).
  subst b. exists (set_read_buf b' (set_read_buf (i_buf (cn_input c)) c)). split; [done|].
  unfold vote_service, service_body. erewrite bind_ret by (apply in_request_ret, Er).
  erewrite bind_ret by (apply in_request_ret, Eu). done.
Qed.

(** The id of the reply to the first call is 0; is_ready takes it for the length. *)
Lemma first_reply_waits c b l r q :
  i_buf (cn_input c) = b -> rb_ok b l -> rb_contents b l = Byte.x00 :: r :: q -> take_reply_id c = Blocked.
Proof.
  intros Hb OK C. assert (is_ready b = Ret false b) as E.
  { destruct (get_begin_front b l Byte.x00 (r :: q) OK C) as [rest Eb].
    pose proof (length_contents b l OK) as L. rewrite C in L. cbn [length] in L.
    assert (peek_varint b = Ret (0, 1) b) as Ep.
    { unfold peek_varint. rewrite (bind_ret _ _ _ _ _ Eb). unfold decode_varint. by rewrite decode_small. }
    unfold is_ready. rewrite (bind_ret _ _ _ _ _ Ep). rewrite (bind_ret _ _ _ 1 b) by done.
    rewrite (bind_ret _ _ _ b b) by done. rewrite (buffer_size_rb b l OK). change (to_unsigned 64 1) with 1.
    destruct (Z.ltb_spec 1 (rb_size b)); [done|lia]. }
  unfold take_reply_id, mbind, M_bind, in_read_buf, in_input, in_in, zoom. rewrite Hb, E. done.
Qed.

(** ** The registered services *)

(** Every service is an object of its own on the heap. *)
Record services_ok (s : rpc_server raft_server) : Prop := {
  sr_live : forall k a, services_ s !! k = Some a -> is_Some (rs_rpcs s !! a);
  sr_inj : forall k k' a, services_ s !! k = Some a -> services_ s !! k' = Some a -> k = k';
  sr_next : forall a, is_Some (rs_rpcs s !! a) -> a < rs_next s;
}.

Definition registry (s : rpc_server raft_server) : gset Z * Z * gmap Z Z := (dom (rs_rpcs s), rs_next s, services_ s).

Lemma services_ok_registry s s' : registry s' = registry s -> services_ok s -> services_ok s'.
Proof.
  unfold registry. intros [= Hd Hn Hs] [H1 H2 H3].
  assert (forall a, is_Some (rs_rpcs s' !! a) <-> is_Some (rs_rpcs s !! a)) as Hiff by (intros a; by rewrite <-!elem_of_dom, Hd).
  split; intros *; rewrite ?Hs, ?Hn, ?Hiff; eauto.
Qed.

Lemma keeps_registry_update a f : keeps registry (rpc_update a f).
Proof.
  intros s. unfold rpc_update, mbind, M_bind, gets, of_option. destruct (rs_rpcs s !! a) as [r|] eqn:E; [|done].
  cbn. unfold registry. cbn. rewrite dom_insert_L. f_equal. f_equal. assert (a ∈ dom (rs_rpcs s)) by (by apply elem_of_dom_2 in E). set_solver.
Qed.

Lemma keeps_registry_conn {A} a (x : M (conn * raft_server) A) : keeps registry (on_conn a x).
Proof. intros s. unfold on_conn. destruct (rs_bufs s !! a); [|done]. by destruct (x _). Qed.
#[local] Hint Resolve keeps_registry_update keeps_registry_conn : keeps.

Lemma keeps_registry_serve frame : keeps registry (rpc_serve frame).
Proof. unfold rpc_serve, rpc_set_codec, rpc_invoke. keeps. Qed.

Lemma keeps_registry_accept fd bufs : keeps registry (rpc_accept fd bufs).
Proof. unfold rpc_accept, in_base. keeps. Qed.

(** What a server does between its construction and its end *)
Inductive rpc_server_op :=
| RegisterOp (name : list byte) (body : M (conn * raft_server) unit)
| AcceptOp (fd : Z) (bufs : conn)
| ServeOp (frame : option Z).

Definition run_server_op (o : rpc_server_op) : M (rpc_server raft_server) unit :=
  match o with
  | RegisterOp name body => rpc_register name body
  | AcceptOp fd bufs => rpc_accept fd bufs
  | ServeOp frame => rpc_serve frame
  end.

(** The exceptions of a step are caught by the loop. *)
Fixpoint run_server_ops (os : list rpc_server_op) (s : rpc_server raft_server) : option (rpc_server raft_server) :=
  match os with
  | [] => Some s
  | o :: os => match run_server_op o s with Ret _ s' | Exc _ s' => run_server_ops os s' | _ => None end
  end.

(** The object Register makes, set up *)
Definition with_rpc (body : M (conn * raft_server) unit) (s : rpc_server raft_server) : rpc_server raft_server :=
  set_rs_rpcs (<[rs_next s := mk_rpc _ None (Some body)]> (<[rs_next s := mk_rpc _ None None]> (rs_rpcs s))) (rs_next s + 1) s.

Lemma rpc_register_eq name body (s : rpc_server raft_server) :
  rpc_register name body s =
    match rpc_hash name tt with
    | Ret h _ => Ret tt (if services_ s !! h is Some _ then with_rpc body s else set_services (<[h := rs_next s]> (services_ s)) (with_rpc body s))
    | Exc e _ => Exc e (with_rpc body s)
    | Undef u => Undef u
    | Blocked => Blocked
    end.
Proof.
  unfold rpc_register. rewrite (bind_ret _ _ _ (rs_next s) (set_rs_rpcs (<[rs_next s := mk_rpc _ None None]> (rs_rpcs s)) (rs_next s + 1) s)) by done.
  rewrite (bind_ret _ _ _ tt (with_rpc body s)).
  2:{ unfold rpc_set, rpc_update, mbind, M_bind, gets, of_option. cbn [rs_rpcs set_rs_rpcs]. by rewrite lookup_insert_eq. }
  unfold mbind, M_bind, zoom. by destruct (rpc_hash name tt).
Qed.

Lemma with_rpc_live body s a : is_Some (rs_rpcs (with_rpc body s) !! a) <-> a = rs_next s \/ is_Some (rs_rpcs s !! a).
Proof. cbn. rewrite !lookup_insert_is_Some'. naive_solver. Qed.

(** A step leaves the services in order, whether it returns or throws. *)
Definition services_kept (o : outcome (rpc_server raft_server) unit) : Prop :=
  match o with Ret _ s | Exc _ s => services_ok s | _ => True end.

Lemma register_ok name body s : services_ok s -> services_kept (rpc_register name body s).
Proof.
  intros [H1 H2 H3]. rewrite rpc_register_eq.
  assert (match rpc_hash name tt with Exc _ _ => False | _ => True end) as Hx.
  { unfold rpc_hash. destruct name as [|c name]; [done|]. cbn. by destruct (byte_to_Z c =? 0). }
  destruct (rpc_hash name tt) as [h ?| | |]; try done. clear Hx. cbn [services_kept].
  assert (rs_rpcs s !! rs_next s = None) as Hn. { destruct (rs_rpcs s !! rs_next s) eqn:E; [|done]. specialize (H3 (rs_next s)). rewrite E in H3. specialize (H3 ltac:(done)). lia. }
  assert (forall k, services_ s !! k <> Some (rs_next s)) as Hnew. { intros k [r Hr]%H1. congruence. }
  destruct (services_ s !! h) as [a|] eqn:Eh; split; intros *;
    try change (rs_rpcs (set_services _ (with_rpc body s))) with (rs_rpcs (with_rpc body s)); rewrite ?with_rpc_live; cbn [services_ with_rpc set_services set_rs_rpcs rs_next].
  - eauto.
  - apply H2.
  - intros [->|?%H3]; lia.
  - intros [[_ <-]|[_ ?]]%lookup_insert_Some; [by left|eauto].
  - intros [[<- <-]|[Hne Hk]]%lookup_insert_Some [[<- Ha]|[Hne' Hk']]%lookup_insert_Some; try done; [by apply Hnew in Hk'|subst; by apply Hnew in Hk|by eapply H2].
  - intros [->|?%H3]; lia.
Qed.

Lemma server_op_ok o s : services_ok s -> services_kept (run_server_op o s).
Proof.
  intros OK. destruct o as [name body|fd bufs|frame]; cbn; [by apply register_ok|..];
    [pose proof (keeps_registry_accept fd bufs s) as Hk|pose proof (keeps_registry_serve frame s) as Hk];
    unfold services_kept; case_match; try done; by eapply services_ok_registry.
Qed.

Lemma server_ops_ok os s s' : services_ok s -> run_server_ops os s = Some s' -> services_ok s'.
Proof.
  revert s. induction os as [|o os IH]; intros s OK Hr; cbn in Hr; [by simplify_eq|].
  pose proof (server_op_ok o s OK) as Hk. destruct (run_server_op o s); try done; by eapply IH.
Qed.

Lemma delete_services_ok (l : list (Z * Z)) (s : rpc_server raft_server) :
  NoDup l.*2 -> (forall a, a ∈ l.*2 -> is_Some (rs_rpcs s !! a)) ->
  exists s', delete_services l s = Ret tt s' /\ services_ s' = services_ s /\ rs_base s' = rs_base s /\
    forall a, rs_rpcs s' !! a = if decide (a ∈ l.*2) then None else rs_rpcs s !! a.
Proof.
  revert s. induction l as [|[k a] l IH]; intros s Hnd Hl.
  { exists s. split_and!; try done. }
  cbn in Hnd. apply NoDup_cons in Hnd as [Hna Hnd]. destruct (Hl a) as [r Hr]; [left|].
  destruct (IH (set_rs_rpcs (delete a (rs_rpcs s)) (rs_next s) s) Hnd) as (s' & E & Hs & Hb & Hm).
  { intros a' Ha'. cbn. rewrite lookup_delete_ne; [apply Hl; by right|]. by intros ->. }
  exists s'. split; [|split_and!; [done|done|]].
  - cbn [delete_services]. rewrite (bind_ret _ _ _ tt (set_rs_rpcs (delete a (rs_rpcs s)) (rs_next s) s)); [done|].
    unfold rpc_delete, mbind, M_bind, gets. by rewrite Hr.
  - intros a'. rewrite Hm. change (((k, a) :: l).*2) with (a :: l.*2). cbn [rs_rpcs set_rs_rpcs].
    destruct (decide (a' ∈ a :: l.*2)) as [Hin|Hin].
    + apply elem_of_cons in Hin as [->|Hin]; [rewrite decide_False by done; apply lookup_delete_eq|by rewrite decide_True].
    + apply not_elem_of_cons in Hin as [Hne Hin]. rewrite decide_False by done. by rewrite lookup_delete_ne.
Qed.

(** A raft server is never constructed: the constructor registers its first handler
    under a non-empty name, whose hash never ends, in any state and with any sockets. *)
Lemma raft_never_constructed buf scratch r0 a0 sock bound listening s :
  raft_construct buf scratch r0 a0 sock bound listening s = Blocked.
Proof.
  unfold raft_construct, mbind, M_bind. rewrite rpc_register_eq.
  assert (rpc_hash (c_string "raft::request_vote") tt = Blocked) as -> by (vm_compute; reflexivity). done.
Qed.

(** * Properties *)

(** C37. A vote request, end to end, with an rpc id, a term, a candidate and a
    last_log_index below 128 (one byte each).  It is marshalled into an empty buffer with a
    valid array and room for seven bytes before the end of the array, with a scratch array
    of at least ten bytes; the bytes arrive unchanged in the valid read buffer of a
    connection, the first two of them before the end of its array.  Then the service that a
    raft server registers calls request_vote with four copies of the sender's
    last_log_index (term, candidate and last term are lost), whatever the stack arrays
    held, and the reply goes out under the caller's id. *)
Theorem vote_request_end_to_end (b : buffer) (l scratch : list byte) rid g0 g1 g2 g3 rest args :
  rb_ok b l -> full_ b = false -> tail_ b = head_ b -> head_ b + 7 <= max_size_ b -> (10 <= length scratch)%nat ->
  0 <= rid < 128 -> 0 <= rv_term args < 128 -> 0 <= rv_candidate_id args < 128 -> 0 <= rv_last_log_index args < 128 ->
  let k := rv_last_log_index args in
  exists b1 l1, marshal (put_request_vote_args (g0 :: g1 :: g2 :: g3 :: rest) args) scratch rid b = Ret tt b1 /\ rb_ok b1 l1 /\
    forall c s b2 l2 buf scratch2 r0,
      i_buf (cn_input c) = b2 -> rb_ok b2 l2 -> tail_ b2 + 2 <= max_size_ b2 -> rb_contents b2 l2 = rb_contents b1 l1 ->
      exists c', cn_output c' = cn_output c /\
        vote_service buf scratch2 r0 (c, s) =
          (reply ← in_object (request_vote (mk_request_vote_args k k k k) r0);
           in_response (marshal (put_request_vote_reply buf reply) scratch2 rid)) (c', s).
Proof.
  intros OK Hf Hht Hroom Hsc Hrid H1 H2 H3 k.
  assert (wp (marshal (put_request_vote_args (g0 :: g1 :: g2 :: g3 :: rest) args) scratch rid)
    (fun _ b1 => exists l1, rb_ok b1 l1 /\ rb_contents b1 l1 = [byte_of_Z rid; byte_of_Z 4; byte_of_Z k; g1; g2; g3]) (fun _ _ => False) b)
    as ([] & b1 & E & l1 & OK1 & C1)%wp_no_exn.
  { apply (wp_marshal_vote b l); try done. intros b1 l1 OK1 _ C1. by exists l1. }
  exists b1, l1. split; [done|]. split; [done|]. intros c s b2 l2 buf scratch2 r0 Hb OK2 Hr C2. rewrite C1 in C2.
  destruct (service_sees buf scratch2 r0 c s b2 l2 _ _ _ _ Hb OK2 Hr C2) as (c' & Hc & Es).
  { rewrite byte_to_of_Z, Z.mod_small by lia. lia. }
  { rewrite byte_to_of_Z, Z.mod_small by lia. lia. }
  exists c'. split; [done|]. rewrite !byte_to_of_Z, !Z.mod_small in Es by lia. done.
Qed.

Lemma vote_request_end_to_end_witness :
  exists b1 l1, marshal (put_request_vote_args (replicate 40 Byte.x2a) (mk_request_vote_args 3 1 7 2)) (replicate 10 Byte.x00) 5 (small_ring 16) = Ret tt b1 /\
    rb_ok b1 l1 /\
    forall c s b2 l2 buf scratch2 r0,
      i_buf (cn_input c) = b2 -> rb_ok b2 l2 -> tail_ b2 + 2 <= max_size_ b2 -> rb_contents b2 l2 = rb_contents b1 l1 ->
      exists c', cn_output c' = cn_output c /\
        vote_service buf scratch2 r0 (c, s) =
          (reply ← in_object (request_vote (mk_request_vote_args 7 7 7 7) r0);
           in_response (marshal (put_request_vote_reply buf reply) scratch2 5)) (c', s).
Proof.
  apply (vote_request_end_to_end (small_ring 16) (replicate 16 Byte.x00) (replicate 10 Byte.x00) 5 Byte.x2a Byte.x2a Byte.x2a Byte.x2a
    (replicate 36 Byte.x2a) (mk_request_vote_args 3 1 7 2)); cbn; try reflexivity; try lia.
  split; cbn; (done || lia).
Defined.

(** The reply to the first call of a client is never taken: the id of that call is 0,
    and a read buffer that starts with it and holds at least one more byte is taken as
    incomplete, so the callback of the connection spins forever, whatever was called,
    answered or cancelled before. *)
Theorem first_reply_spins (r : rpc_conn) (b : buffer) (l : list byte) (x : byte) (q : list byte) :
  i_buf (cn_input (rc_conn r)) = b -> rb_ok b l -> rb_contents b l = Byte.x00 :: x :: q -> rpc_on_read r = Blocked.
Proof.
  intros Hb OK C. unfold rpc_on_read, mbind, M_bind, in_conn, zoom. by rewrite (first_reply_waits _ b l x q).
Qed.

(** The complete reply "id 0, two bytes, vote granted" in the buffer of a client *)
Definition answered_client : rpc_conn :=
  rpc_conn_new (mk_conn (mk_input (mk_buffer (Some [Byte.x00; Byte.x02; Byte.x01; Byte.x00; Byte.x00; Byte.x00; Byte.x00; Byte.x00]) false 4 0 8) [] [])
    (mk_output (small_ring 8) [] []) None None []).

Lemma first_reply_spins_witness : rpc_on_read answered_client = Blocked.
Proof.
  apply (first_reply_spins answered_client (mk_buffer (Some [Byte.x00; Byte.x02; Byte.x01; Byte.x00; Byte.x00; Byte.x00; Byte.x00; Byte.x00]) false 4 0 8)
    [Byte.x00; Byte.x02; Byte.x01; Byte.x00; Byte.x00; Byte.x00; Byte.x00; Byte.x00] Byte.x02 [Byte.x01; Byte.x00]); [done| |done].
  split; cbn; (done || lia).
Defined.

(** The services of an rpc_server are released exactly once: after any history of
    registrations (under names already taken included), accepted connections and served
    requests, deleting the services never touches a released object, leaves the server
    part alone, and releases exactly the objects that are in the map. *)
Theorem services_deleted_once port k obj os s :
  run_server_ops os (rpc_server_new port k obj) = Some s ->
  exists s', delete_all_services s = Ret tt s' /\ services_ s' = ∅ /\ rs_base s' = rs_base s /\
    (forall h a, services_ s !! h = Some a -> rs_rpcs s' !! a = None) /\
    (forall a, (forall h, services_ s !! h <> Some a) -> rs_rpcs s' !! a = rs_rpcs s !! a).
Proof.
  intros Hr. assert (services_ok s) as OK.
  { eapply server_ops_ok; [|exact Hr]. split; cbn; intros *; [by intros ?%lookup_empty_Some..|by rewrite lookup_empty; intros []]. }
  set (m := map_to_list (services_ s)).
  assert (forall a, a ∈ m.*2 <-> exists h, services_ s !! h = Some a) as Hm.
  { intros a. unfold m. rewrite list_elem_of_fmap. split; [intros ([h a'] & -> & Hh%elem_of_map_to_list); by exists h|].
    intros [h Hh]. exists (h, a). split; [done|]. by apply elem_of_map_to_list. }
  destruct (delete_services_ok m s) as (s1 & E & Hs & Hb & Hd).
  { apply NoDup_fmap_2_strong; [|apply NoDup_map_to_list]. intros [h a] [h' a'] Hh%elem_of_map_to_list Hh'%elem_of_map_to_list E.
    cbn in E. subst a'. f_equal. by eapply (sr_inj s OK). }
  { intros a [h Hh]%Hm. by eapply (sr_live s OK). }
  exists (set_services ∅ s1). split; [|split_and!; [done|done|..]].
  - unfold delete_all_services. rewrite (bind_ret _ _ _ (services_ s) s) by done. by rewrite (bind_ret _ _ _ _ _ E).
  - intros h a Hh. cbn. rewrite Hd, decide_True; [done|]. apply Hm. by exists h.
  - intros a Ha. cbn. rewrite Hd, decide_False; [done|]. intros [h Hh]%Hm. by apply (Ha h).
Qed.

(** Two registrations under the empty name, and a connection *)
Definition demo_raft : raft_server := mk_raft_server false 0 0 0 1 follower 0 3 (-1) [mk_log 0 1] 0 0 [] [] [] 0 (fun _ => 150) [].
Definition demo_server_ops : list rpc_server_op :=
  [RegisterOp [Byte.x00] (mret tt); RegisterOp [Byte.x00] (throw std_exception); AcceptOp 4 (rc_conn answered_client)].

Lemma services_deleted_once_witness :
  exists s s', run_server_ops demo_server_ops (rpc_server_new 80 no_sockets demo_raft) = Some s /\
    services_ s = {[ 0 := 1 ]} /\ delete_all_services s = Ret tt s' /\ rs_rpcs s' !! 1 = None /\ is_Some (rs_rpcs s' !! 2).
Proof.
  destruct (run_server_ops demo_server_ops (rpc_server_new 80 no_sockets demo_raft)) as [s|] eqn:E; [|vm_compute in E; discriminate E].
  destruct (services_deleted_once 80 no_sockets demo_raft demo_server_ops s E) as (s' & Ed & _ & _ & Hd & Hk).
  assert (services_ s = {[ 0 := 1 ]} /\ is_Some (rs_rpcs s !! 2)) as [Hs H2]
    by (vm_compute in E; injection E as <-; split; [reflexivity|by eexists]).
  exists s, s'. split; [done|]. split; [done|]. split; [done|]. split; [apply (Hd 0); by rewrite Hs|].
  rewrite Hk; [done|]. intros h. rewrite Hs. intros [_ ?]%lookup_singleton_Some. lia.
Defined.

Lemma in_sockets_ret {T A} (x : M sockets A) (s : rpc_server T) a k :
  x (sv_sockets (rs_base s)) = Ret a k ->
  exists s', in_base (in_sockets x) s = Ret a s' /\ conns_ (rs_base s') = conns_ (rs_base s).
Proof. intros E. unfold in_base, in_sockets, zoom. rewrite E. eexists. split; reflexivity. Qed.

(** Every request on an accepted connection is undefined: its callback holds a reference
    to the variable conn of handle_accept, which has ended. *)
Theorem accepted_callback_dangles {T} fd bufs (s : rpc_server T) :
  exists s' c, rpc_accept fd bufs s = Ret tt s' /\ conns_ (rs_base s') = conns_ (rs_base s) ++ [c] /\
    rpc_readable c s' = Undef dangling_deref.
Proof.
  assert (exists k, (if 0 <=? fd then new_fd fd else mret tt) (sv_sockets (rs_base s)) = Ret tt k) as [k1 E1]
    by (destruct (0 <=? fd); by eexists).
  destruct (in_sockets_ret _ s _ _ E1) as (s1 & R1 & C1).
  destruct (in_sockets_ret (set_non_blocking fd true) s1 tt _ eq_refl) as (s2 & R2 & C2).
  destruct (in_sockets_ret (conn_accepted fd) s2 _ _ eq_refl) as (s3 & R3 & C3).
  unfold rpc_accept. rewrite (bind_ret _ _ _ _ _ R1), (bind_ret _ _ _ _ _ R2), (bind_ret _ _ _ _ _ R3).
  eexists _, _. split; [reflexivity|]. split; [cbn [rs_base set_rs_frames set_rs_bufs set_rs_base conns_]; by rewrite C3, C2, C1|].
  unfold rpc_readable. erewrite bind_ret by reflexivity. cbn [rs_frames set_rs_frames]. by rewrite lookup_insert_eq.
Qed.

(** Where a vote request is answered at all, the answer depends on the sender's
    last_log_index alone: above the term of the receiver the server locks its own mutex
    and hangs. *)
Theorem served_vote_hangs buf scratch r0 c s b l r n k q :
  i_buf (cn_input c) = b -> rb_ok b l -> tail_ b + 2 <= max_size_ b -> rb_contents b l = r :: n :: k :: q ->
  byte_to_Z r < 128 -> byte_to_Z k < 128 -> mutex_ s = false -> current_term_ s < byte_to_Z k ->
  vote_service buf scratch r0 (c, s) = Blocked.
Proof.
  intros Hb OK Hroom C Hr Hk Hm Ht. destruct (service_sees buf scratch r0 c s b l r n k q Hb OK Hroom C Hr Hk) as (c' & _ & ->).
  unfold mbind, M_bind, in_object, zoom. cbn [snd]. unfold request_vote. rewrite locked_free by done.
  unfold mbind at 1, M_bind at 1, gets. cbn [id with_mutex current_term_ rv_term]. rewrite (proj2 (Z.ltb_ge _ _)) by lia.
  rewrite (proj2 (Z.ltb_lt _ _)) by lia. unfold mbind at 1, M_bind at 1. cbn [when]. by rewrite convert_to_held.
Qed.
