(* ===== verification/Reactor.v ===== *)
(** The life of the pollers and of the dispatcher: the constructors and destructors of
    src/network/poller.cc and src/network/dispatcher.cc, and the wake-up pipe.  Both
    pollers are destroyed through one interface.  The clock of dispatcher.h. *)
From stdpp Require Import sorting.
From S2P Require Import Prelude Channel Kqueue Dispatcher.

(** * The clock *)

Inductive timeunit := unit_ | milli | micro | nano.

(** duration_cast from the nanoseconds of system_clock truncates towards zero. *)
Definition nanoseconds_in (u : timeunit) : Z :=
  match u with unit_ => 10 ^ 9 | milli => 10 ^ 6 | micro => 10 ^ 3 | nano => 1 end.
Definition current_time (u : timeunit) (now : Z) : Z := Z.quot now (nanoseconds_in u).

(** Readings of the clock in one unit never go back while the clock does not, and for
    clocks that started after the epoch a coarser reading is the finer one truncated. *)
Theorem current_time_consistent u now now' :
  (now <= now' -> current_time u now <= current_time u now') /\
  (0 <= now -> current_time unit_ now = Z.quot (current_time milli now) 1000 /\
    current_time milli now = Z.quot (current_time micro now) 1000 /\ current_time nano now = now).
Proof.
  unfold current_time. split.
  - intros Hn. apply Z.quot_le_mono; [by destruct u|done].
  - intros Hn. cbn [nanoseconds_in]. rewrite !Z.quot_quot by lia. by rewrite Z.quot_1_r.
Qed.

(** * What a destructor uses of a poller *)

Class PollerChannels (S : Type) := {
  pc_members : S -> gset Z;           (* channels_, by address *)
  pc_fd : S -> Z -> option Z;         (* fd_ of the channel at an address, None: no object *)
  pc_close : Z -> M S unit;           (* channel::close *)
  pc_closed : S -> list Z;            (* the descriptors closed so far *)
  pc_note : Z -> S -> S;              (* ::close(fd) *)
  pc_ready : S -> Prop;               (* what remove_channel reads is there *)
}.

(** close removes an open channel and closes its descriptor, leaves the others alone,
    and does nothing for a channel that was closed before. *)
Class PollerChannelsLaws (S : Type) `{PollerChannels S} : Prop := {
  close_open s p fd : pc_ready s -> pc_fd s p = Some fd -> 0 <= fd ->
    exists s', pc_close p s = Ret tt s' /\ pc_members s' = pc_members s ∖ {[p]} /\ pc_closed s' = pc_closed s ++ [fd] /\
      pc_ready s' /\ forall q, q <> p -> pc_fd s' q = pc_fd s q;
  close_again s p fd : pc_fd s p = Some fd -> fd < 0 -> pc_close p s = Ret tt s;
  close_dangling s p : pc_fd s p = None -> pc_close p s = Undef dangling_deref;
  note_closed fd s : pc_members (pc_note fd s) = pc_members s /\ pc_closed (pc_note fd s) = pc_closed s ++ [fd];
}.

Section destructor.
Context {S : Type} `{PollerChannels S}.

(** std::set<channel*> in the order of its iterator *)
Definition in_order (l : gset Z) : list Z := merge_sort Z.le (elements l).

(** while(channels_.size()) ( *channels_.begin())->close(): a round that removes nothing
    repeats forever, so more rounds than members are never needed. *)
Fixpoint close_channels (fuel : nat) : M S unit :=
  cs ← gets pc_members;
  match in_order cs with
  | [] => mret tt
  | p :: _ =>
      match fuel with
      | O => blocked
      | Datatypes.S fuel => _ ← pc_close p; close_channels fuel
      end
  end.

(** epoll_poller::~epoll_poller and kqueue_poller::~kqueue_poller *)
Definition poller_destroy (poller_fd : Z) : M S unit :=
  cs ← gets pc_members;
  _ ← close_channels (Datatypes.S (size cs));
  modify (pc_note poller_fd).
End destructor.

(** ** Lemmas *)

Lemma in_order_perm l : in_order l ≡ₚ elements l.
Proof. apply merge_sort_Permutation. Qed.

Lemma in_order_sorted l : StronglySorted Z.le (in_order l).
Proof. apply StronglySorted_merge_sort; apply _. Qed.

Lemma in_order_unique l ps : StronglySorted Z.le ps -> ps ≡ₚ elements l -> in_order l = ps.
Proof.
  intros Hs Hp. apply (StronglySorted_unique Z.le); [apply in_order_sorted|done|]. by rewrite in_order_perm, Hp.
Qed.

Lemma in_order_remove l p ps : in_order l = p :: ps -> in_order (l ∖ {[p]}) = ps.
Proof.
  intros E. pose proof (in_order_sorted l) as Hs. pose proof (in_order_perm l) as Hp. rewrite E in Hs, Hp.
  apply StronglySorted_inv in Hs as [Hs _]. apply in_order_unique; [done|].
  assert (p ∈ l) as Hin. { apply elem_of_elements. rewrite <-Hp. left. }
  apply (Permutation_cons_inv (a := p)). rewrite Hp. rewrite (union_difference_L {[p]} l) at 1 by set_solver.
  by rewrite elements_union_singleton by set_solver.
Qed.

Lemma Forall2_impl_elem {A B} (P Q : A -> B -> Prop) l k :
  Forall2 P l k -> (forall x y, x ∈ l -> P x y -> Q x y) -> Forall2 Q l k.
Proof. intros Hf. induction Hf as [|x y l k Hxy Hf IH]; intros HPQ; constructor; [apply HPQ; [left|done]|]. apply IH. intros a b Ha. apply HPQ. by right. Qed.

Lemma destroy_empty {S} `{PollerChannels S} (s : S) fd : pc_members s = ∅ -> poller_destroy fd s = Ret tt (pc_note fd s).
Proof.
  intros E. unfold poller_destroy. rewrite (bind_ret _ _ _ (pc_members s) s) by done. rewrite E, size_empty. cbn [close_channels].
  unfold mbind, M_bind, gets. by rewrite E.
Qed.

Section lemmas.
Context {S : Type} `{PollerChannelsLaws S}.
Implicit Types s : S.

Definition closable s (p fd : Z) : Prop := pc_fd s p = Some fd /\ 0 <= fd.

(** Closing a prefix of the channels *)
Lemma close_prefix fuel ps qs fds s :
  pc_ready s -> in_order (pc_members s) = ps ++ qs -> NoDup (ps ++ qs) -> Forall2 (closable s) ps fds -> (length ps <= fuel)%nat ->
  exists s', close_channels fuel s = close_channels (fuel - length ps) s' /\ in_order (pc_members s') = qs /\
    pc_closed s' = pc_closed s ++ fds /\ forall q, q ∈ qs -> pc_fd s' q = pc_fd s q.
Proof.
  revert fuel fds s. induction ps as [|p ps IH]; intros fuel fds s Hrdy Ho Hnd Hf Hl.
  { inversion Hf; subst. exists s. rewrite Nat.sub_0_r, app_nil_r. done. }
  inversion Hf as [|? fd ? fds' [Hfd Hpos] Hf']; subst. destruct fuel as [|fuel]; [cbn in Hl; lia|].
  destruct (close_open s p fd Hrdy Hfd Hpos) as (s1 & E1 & Hm & Hc & Hrdy1 & Hother). cbn in Hnd. apply NoDup_cons in Hnd as [Hp Hnd].
  destruct (IH fuel fds' s1) as (s' & E & Ho' & Hc' & Hq).
  - done.
  - rewrite Hm. by apply in_order_remove.
  - done.
  - eapply Forall2_impl_elem; [exact Hf'|]. intros q fq Hq [? ?]. split; [|done]. rewrite Hother; [done|]. intros ->. apply Hp, elem_of_app. by left.
  - cbn in Hl. lia.
  - exists s'. split_and!; [|done|by rewrite Hc', Hc, <-app_assoc|].
    + cbn [close_channels length Nat.sub]. rewrite (bind_ret _ _ _ (pc_members s) s) by done. rewrite Ho. cbn [app].
      by rewrite (bind_ret _ _ _ _ _ E1).
    + intros q Hin. rewrite Hq by done. apply Hother. intros ->. apply Hp, elem_of_app. by right.
Qed.

Lemma close_stuck fuel p qs fd s :
  in_order (pc_members s) = p :: qs -> pc_fd s p = Some fd -> fd < 0 -> close_channels fuel s = Blocked.
Proof.
  intros Ho Hfd Hneg. induction fuel as [|fuel IH]; cbn [close_channels]; rewrite (bind_ret _ _ _ (pc_members s) s) by done; rewrite Ho; [done|].
  by rewrite (bind_ret _ _ _ _ _ (close_again s p fd Hfd Hneg)).
Qed.
End lemmas.

(** * The two pollers *)

(** epoll_poller::epoll_poller and kqueue_poller::kqueue_poller, over a new instance of
    the kernel's queue; channels_ is empty, the events and last_active_ are not initialised.
    create_poller makes one of them on the heap. *)
Definition epoll_poller_new {K} (k : K) : net K := mk_net ∅ ∅ k [] [].
Definition kqueue_poller_new {K} (k : K) (events : list (Z * Z)) : kqueue_poller K :=
  mk_kqueue ∅ ∅ k events None [] [].

#[export] Instance epoll_channels {K} `{Epoll K} : PollerChannels (net K) := {|
  pc_members := channels_;
  pc_fd s p := ch_fd <$> chans s !! p;
  pc_close := channel_close;
  pc_closed := closed_fds;
  pc_note fd s := mk_net (chans s) (channels_ s) (kern s) (closed_fds s ++ [fd]) (ran s);
  pc_ready _ := True;
|}.

#[export] Instance kqueue_channels {K} `{Kqueue K} : PollerChannels (kqueue_poller K) := {|
  pc_members := kq_channels_;
  pc_fd s p := ch_fd <$> kq_chans s !! p;
  pc_close := kq_close;
  pc_closed := kq_closed;
  pc_note fd s := mk_kqueue (kq_chans s) (kq_channels_ s) (kq_kern s) (kq_events_ s) (last_active_ s) (kq_ran s) (kq_closed s ++ [fd]);
  pc_ready s := exists n, last_active_ s = Some n /\ n < Z.of_nat (length (kq_events_ s));
|}.

Lemma chan_ret {K} `{Epoll K} (s : net K) p c : chans s !! p = Some c -> chan p s = Ret c s.
Proof. intros E. unfold chan, mbind, M_bind, gets. by rewrite E. Qed.

Lemma kq_chan_ret {K} `{Kqueue K} (s : kqueue_poller K) p c : kq_chans s !! p = Some c -> kq_chan p s = Ret c s.
Proof. intros E. unfold kq_chan, mbind, M_bind, gets. by rewrite E. Qed.

#[export] Instance epoll_channels_laws {K} `{Epoll K} : PollerChannelsLaws (net K).
Proof.
  split; cbn [pc_members pc_fd pc_close pc_closed pc_note pc_ready epoll_channels].
  - intros s p fd _ (c & Hc & ->)%fmap_Some Hfd. unfold channel_close. rewrite (bind_ret _ _ _ _ _ (chan_ret s p c Hc)).
    rewrite (proj2 (Z.leb_le _ _)) by done. cbn [when]. unfold remove_channel, epoll_ctl, set_chan, modify.
    unfold mbind at 1, M_bind at 1. rewrite (bind_ret _ _ _ _ _ (chan_ret s p c Hc)).
    destruct (ep_ctl CTL_DEL (ch_fd c) (ch_events c) p (kern s)) as [r k] eqn:E. unfold mbind at 1, M_bind at 1. rewrite E.
    unfold mbind at 1, M_bind at 1. set (s1 := mk_net _ _ _ _ _).
    rewrite (bind_ret _ _ _ _ _ (chan_ret s1 p c Hc)). eexists. split; [reflexivity|]. cbn. split_and!; [done|done|done|].
    intros q Hq. by rewrite lookup_insert_ne.
  - intros s p fd (c & Hc & ->)%fmap_Some Hfd. unfold channel_close. rewrite (bind_ret _ _ _ _ _ (chan_ret s p c Hc)).
    by rewrite (proj2 (Z.leb_gt _ _)).
  - intros s p Hc%fmap_None. unfold channel_close, chan, mbind, M_bind, gets. by rewrite Hc.
  - done.
Qed.

#[export] Instance kqueue_channels_laws {K} `{Kqueue K} : PollerChannelsLaws (kqueue_poller K).
Proof.
  split; cbn [pc_members pc_fd pc_close pc_closed pc_note pc_ready kqueue_channels].
  - intros s p fd (n & Hn & Hlt) (c & Hc & ->)%fmap_Some Hfd. unfold kq_close. rewrite (bind_ret _ _ _ _ _ (kq_chan_ret s p c Hc)).
    rewrite (proj2 (Z.leb_le _ _)) by done. cbn [when].
    destruct (clear_event_in p (Z.to_nat (n + 1)) (kq_events_ s)) as [es Hes]; [lia|].
    rewrite (bind_ret _ _ _ _ _ (kq_remove_ret s p n es Hn Hes)). eexists. split; [reflexivity|]. cbn.
    split_and!; [done|done|exists n; split; [done|]; by rewrite (clear_event_length p _ _ _ Hes)|].
    intros q Hq. by rewrite lookup_insert_ne.
  - intros s p fd (c & Hc & ->)%fmap_Some Hfd. unfold kq_close. rewrite (bind_ret _ _ _ _ _ (kq_chan_ret s p c Hc)).
    by rewrite (proj2 (Z.leb_gt _ _)).
  - intros s p Hc%fmap_None. unfold kq_close, kq_chan, mbind, M_bind, gets. by rewrite Hc.
  - done.
Qed.

(** * The dispatcher and its pipe *)

(** The number of bytes a pipe holds before write blocks (pipe(7)) *)
Definition PIPE_CAPACITY : Z := 65536.

(** The timers, the poller, the ends of the pipe, the descriptors that do not block, the
    bytes waiting in the pipe and the address of channel_. *)
Record reactor {K : Type} := mk_reactor {
  rx_timers : dispatcher;
  rx_net : net K;
  wake_up_ : Z * Z;
  rx_nonblocking : gset Z;
  rx_pipe : Z;
  rx_channel : Z;
}.
Arguments reactor : clear implicits.
Arguments mk_reactor {K}.

Section dispatcher.
Context {K : Type} `{Epoll K}.

Definition in_net {A} : M (net K) A -> M (reactor K) A :=
  zoom rx_net (fun n r => mk_reactor (rx_timers r) n (wake_up_ r) (rx_nonblocking r) (rx_pipe r) (rx_channel r)).
Definition in_timers {A} : M dispatcher A -> M (reactor K) A :=
  zoom rx_timers (fun d r => mk_reactor d (rx_net r) (wake_up_ r) (rx_nonblocking r) (rx_pipe r) (rx_channel r)).
Definition set_pipe (n : Z) (r : reactor K) : reactor K :=
  mk_reactor (rx_timers r) (rx_net r) (wake_up_ r) (rx_nonblocking r) n (rx_channel r).

(** The number that stands for the callback of channel_ *)
Definition WAKE_CB : Z := 0.

(** dispatcher::dispatcher with __linux__, with the ends of the pipe, the address of the new channel and
    what its event word held *)
Definition dispatcher_construct (fds : Z * Z) (chan garbage : Z) : M (reactor K) unit :=
  _ ← modify (fun r => mk_reactor (rx_timers r) (rx_net r) fds ({[fds.1]} ∪ rx_nonblocking r) 0 chan);
  _ ← in_net (channel_new chan fds.1 garbage);
  in_net (on_read chan WAKE_CB).

(** dispatcher::wakeup: write(wake_up_[1], "", 1) *)
Definition wakeup : M (reactor K) unit :=
  r ← gets id;
  if rx_pipe r <? PIPE_CAPACITY then modify (set_pipe (rx_pipe r + 1))
  else if decide ((wake_up_ r).2 ∈ rx_nonblocking r) then mret tt   (* EAGAIN *)
  else blocked.

(** dispatcher::exit *)
Definition dispatcher_exit : M (reactor K) unit := _ ← in_timers exit; wakeup.

(** The callback of channel_: read(channel_->fd(), &buf, 1) from the end that does not
    block; anything but one byte ends the process. *)
Definition on_wakeup : M (reactor K) unit :=
  r ← gets id;
  if 0 <? rx_pipe r then modify (set_pipe (rx_pipe r - 1)) else undef assertion_failure.

(** A round of the poller, with the wake-up callbacks that it runs *)
Fixpoint run_wakeups (cbs : list Z) : M (reactor K) unit :=
  match cbs with [] => mret tt | n :: cbs => _ ← when (n =? WAKE_CB) on_wakeup; run_wakeups cbs end.
Definition reactor_poll (timeout : Z) : M (reactor K) unit :=
  before ← gets (fun r => length (ran (rx_net r)));
  _ ← in_net (poll_once timeout);
  after ← gets (fun r => ran (rx_net r));
  run_wakeups (drop before after).

(** dispatcher::~dispatcher up to the thread pool; ~channel is empty. *)
Definition dispatcher_destroy (poller_fd : Z) : M (reactor K) unit :=
  r ← gets id;
  _ ← in_net (modify (pc_note (wake_up_ r).2));
  _ ← in_net (poller_destroy poller_fd);
  in_net (modify (fun n => mk_net (delete (rx_channel r) (chans n)) (channels_ n) (kern n) (closed_fds n) (ran n))).
End dispatcher.

(** ** Histories of exits and rounds *)

Inductive reactor_op := XExit | XPoll (timeout : Z).
Fixpoint run_reactor {K} `{Epoll K} (os : list reactor_op) : M (reactor K) unit :=
  match os with
  | [] => mret tt
  | XExit :: os => _ ← dispatcher_exit; run_reactor os
  | XPoll t :: os => _ ← reactor_poll t; run_reactor os
  end.

#[export] Instance reactor_op_eq_dec : EqDecision reactor_op.
Proof. solve_decision. Defined.
Definition exits (os : list reactor_op) : Z := Z.of_nat (length (filter (fun o => o = XExit) os)).

Section histories.
Context {K : Type} `{EpollLaws K}.
Implicit Types r : reactor K.

(** Nothing is registered, no callback has run, and what the pipe holds *)
Definition waiting (n : Z) (fds : Z * Z) (nb : gset Z) r : Prop :=
  silent (rx_net r) /\ rx_pipe r = n /\ wake_up_ r = fds /\ rx_nonblocking r = nb.

Lemma construct_waiting fds chan garbage r :
  silent (rx_net r) -> post (dispatcher_construct fds chan garbage) (fun _ => waiting 0 fds ({[fds.1]} ∪ rx_nonblocking r)) r.
Proof.
  intros Hs. unfold dispatcher_construct. apply post_bind, post_modify, post_bind. unfold post at 1, in_net, zoom. cbn [rx_net].
  pose proof (quiet_op (ONew chan fds.1 garbage) (rx_net r) Hs) as H1. unfold post in H1. cbn [run_chan_op] in H1.
  destruct (channel_new chan fds.1 garbage (rx_net r)) as [[] n1| | |]; try done. unfold post, zoom. cbn [rx_net].
  pose proof (quiet_op (OOnRead chan WAKE_CB) n1 H1) as H2. unfold post in H2. cbn [run_chan_op] in H2.
  by destruct (on_read chan WAKE_CB n1) as [[] n2| | |].
Qed.

Lemma exit_waiting n fds nb r :
  waiting n fds nb r ->
  if n <? PIPE_CAPACITY then exists r', dispatcher_exit r = Ret tt r' /\ waiting (n + 1) fds nb r'
  else if decide (fds.2 ∈ nb) then exists r', dispatcher_exit r = Ret tt r' /\ waiting n fds nb r'
  else dispatcher_exit r = Blocked.
Proof.
  intros (Hs & <- & <- & <-). unfold dispatcher_exit.
  assert (in_timers exit r = Ret tt (mk_reactor (Dispatcher.set_working false (rx_timers r)) (rx_net r) (wake_up_ r) (rx_nonblocking r) (rx_pipe r) (rx_channel r))) as E by done.
  rewrite (bind_ret _ _ _ _ _ E). unfold wakeup. erewrite bind_ret by reflexivity. cbn [rx_pipe wake_up_ rx_nonblocking id].
  destruct (rx_pipe r <? PIPE_CAPACITY); [by eexists|]. case_decide; [by eexists|done].
Qed.

Lemma poll_waiting n fds nb timeout r :
  waiting n fds nb r -> post (reactor_poll timeout) (fun _ => waiting n fds nb) r.
Proof.
  intros (Hs & Hp & Hw & Hn). pose proof (quiet_op (OPoll timeout) (rx_net r) Hs) as H1. unfold post in H1. cbn [run_chan_op] in H1.
  unfold reactor_poll. apply post_bind, post_gets, post_bind. unfold post at 1, in_net, zoom.
  destruct (poll_once timeout (rx_net r)) as [[] n1| | |]; try done. apply post_bind, post_gets. cbn [rx_net].
  destruct H1 as [Hk Hr]. rewrite Hr, drop_nil. cbn [run_wakeups]. unfold post, mret, M_ret. done.
Qed.

Lemma run_waiting os n fds nb r r' :
  waiting n fds nb r -> fds.2 ∉ nb -> run_reactor os r = Ret tt r' -> waiting (n + exits os) fds nb r'.
Proof.
  revert n r. induction os as [|o os IH]; intros n r Hw Hnb Hr; cbn [run_reactor] in Hr.
  { unfold mret, M_ret in Hr. injection Hr as <-. by rewrite Z.add_0_r. }
  destruct o as [|t].
  - pose proof (exit_waiting n fds nb r Hw) as Hx. unfold mbind, M_bind in Hr. destruct (n <? PIPE_CAPACITY).
    + destruct Hx as (r1 & E & Hw1). rewrite E in Hr. replace (n + exits (XExit :: os)) with (n + 1 + exits os); [by eapply IH|].
      unfold exits. rewrite filter_cons_True by done. cbn. lia.
    + rewrite decide_False in Hx by done. by rewrite Hx in Hr.
  - pose proof (poll_waiting n fds nb t r Hw) as Hx. unfold mbind, M_bind in Hr. unfold post in Hx.
    destruct (reactor_poll t r) as [[] r1| | |]; try done. replace (exits (XPoll t :: os)) with (exits os); [by eapply IH|].
    unfold exits. by rewrite filter_cons_False.
Qed.
End histories.

(** * Properties *)

(** C38. The destructor of a poller (epoll, or kqueue after its first loop_once) closes,
    in the order of their addresses, the channels in its set: when all of them are open it
    ends with the set empty, each descriptor closed once and its own last; it never ends
    when it comes to a channel that was closed already and is still in the set, and it is
    undefined when it comes to one that was deleted.  (Of a kqueue poller it is required
    that last_active_, which remove_channel reads and only loop_once sets, has a value and
    lies in the array of events.) *)
Theorem poller_destructor {S} `{PollerChannelsLaws S} (s : S) poller_fd ps qs fds :
  pc_ready s -> in_order (pc_members s) = ps ++ qs -> Forall2 (closable s) ps fds ->
  match qs with
  | [] => exists s', poller_destroy poller_fd s = Ret tt s' /\ pc_members s' = ∅ /\ pc_closed s' = pc_closed s ++ fds ++ [poller_fd]
  | q :: _ =>
      match pc_fd s q with
      | Some fd => fd < 0 -> poller_destroy poller_fd s = Blocked
      | None => poller_destroy poller_fd s = Undef dangling_deref
      end
  end.
Proof.
  intros Hrdy Ho Hf. pose proof (in_order_perm (pc_members s)) as Hp. rewrite Ho in Hp.
  assert (NoDup (ps ++ qs)) as Hnd by (rewrite Hp; apply NoDup_elements).
  assert (length (ps ++ qs) = size (pc_members s)) as Hlen by (by rewrite Hp).
  rewrite length_app in Hlen.
  destruct (close_prefix (Datatypes.S (size (pc_members s))) ps qs fds s Hrdy Ho Hnd Hf) as (s1 & E & Ho1 & Hc & Hq); [lia|].
  unfold poller_destroy. rewrite (bind_ret _ _ _ (pc_members s) s) by done. unfold mbind, M_bind. rewrite E.
  destruct qs as [|q qs].
  - assert (pc_members s1 = ∅) as Hm.
    { apply leibniz_equiv, elements_empty_inv. apply Permutation_nil_r. by rewrite <-in_order_perm, Ho1. }
    assert (close_channels (Datatypes.S (size (pc_members s)) - length ps) s1 = Ret tt s1) as ->.
    { destruct (_ - _)%nat; cbn [close_channels]; rewrite (bind_ret _ _ _ (pc_members s1) s1) by done; by rewrite Ho1. }
    destruct (note_closed poller_fd s1) as [Hm2 Hc2]. eexists. split; [reflexivity|]. by rewrite Hm2, Hm, Hc2, Hc, <-app_assoc.
  - rewrite <-(Hq q) by left. destruct (pc_fd s1 q) as [fd|] eqn:Efd.
    + intros Hneg. by rewrite (close_stuck _ q qs fd).
    + destruct (Datatypes.S (size (pc_members s)) - length ps)%nat as [|fuel] eqn:Hfuel; [cbn in Hlen; lia|].
      cbn [close_channels]. rewrite (bind_ret _ _ _ (pc_members s1) s1) by done. rewrite Ho1. unfold mbind, M_bind.
      by rewrite close_dangling.
Qed.

(** A kqueue poller with two open channels, and one whose second channel was closed *)
Definition two_channels : kqueue_poller mem_queue :=
  mk_kqueue {[ 8 := mk_channel 5 0 None None; 3 := mk_channel 6 0 None None ]} {[ 8; 3 ]} (mk_mem_queue ∅) [] (Some (-1)) [] [].
Definition closed_channel : kqueue_poller mem_queue :=
  mk_kqueue {[ 8 := mk_channel (-1) 0 None None; 3 := mk_channel 6 0 None None ]} {[ 8; 3 ]} (mk_mem_queue ∅) [] (Some (-1)) [] [].

Lemma poller_destructor_witness :
  (exists s', poller_destroy 9 two_channels = Ret tt s' /\ pc_members s' = ∅ /\ pc_closed s' = [6; 5; 9]) /\
  poller_destroy 9 closed_channel = Blocked.
Proof.
  split.
  - destruct (poller_destructor two_channels 9 [3; 8] [] [6; 5]) as (s' & E & Hm & Hc);
      [exists (-1); split; [reflexivity|cbn; lia]|vm_compute; reflexivity|repeat constructor; vm_compute; done|].
    exists s'. split; [exact E|]. split; [exact Hm|exact Hc].
  - assert (match pc_fd closed_channel 8 with Some fd => fd < 0 -> poller_destroy 9 closed_channel = Blocked
      | None => poller_destroy 9 closed_channel = Undef dangling_deref end) as Hb.
    { apply (poller_destructor closed_channel 9 [3] [8] [6]); [exists (-1); split; [reflexivity|cbn; lia]|vm_compute; reflexivity|repeat constructor; vm_compute; done]. }
    assert (pc_fd closed_channel 8 = Some (-1)) as E8 by (vm_compute; reflexivity). rewrite E8 in Hb. by apply Hb.
Defined.

(** A kqueue poller that was never polled cannot be destroyed with an open channel in its
    set. *)
Theorem unpolled_kqueue_destructor {K} `{Kqueue K} (s : kqueue_poller K) poller_fd p ps c :
  last_active_ s = None -> in_order (kq_channels_ s) = p :: ps -> kq_chans s !! p = Some c -> 0 <= ch_fd c ->
  poller_destroy poller_fd s = Undef uninitialised_read.
Proof.
  intros Hl Ho Hc Hfd. unfold poller_destroy. rewrite (bind_ret _ _ _ (kq_channels_ s) s) by done. unfold mbind, M_bind. cbn [close_channels].
  rewrite (bind_ret _ _ _ (kq_channels_ s) s) by done. rewrite Ho. cbn [pc_close kqueue_channels]. unfold mbind at 1, M_bind at 1. unfold kq_close.
  rewrite (bind_ret _ _ _ _ _ (kq_chan_ret s p c Hc)), (proj2 (Z.leb_le _ _)) by done. cbn [when].
  unfold mbind, M_bind. by rewrite remove_before_poll_undefined.
Qed.

(** C18. On Linux a dispatcher cannot be woken: from a kernel that watches nothing, after any
    history of rounds of the epoll poller and calls of exit the byte of every exit is still
    in the pipe, because epoll_ctl modifies the channel of the pipe and never adds it; when
    the pipe is full the next exit blocks forever, since only the reading end was made
    non-blocking.  (The kqueue poller registers the channel: kqueue_wakeup_watched.) *)
Theorem wakeups_never_read {K} `{EpollLaws K} (r0 r1 r : reactor K) fds chan garbage os :
  silent (rx_net r0) -> fds.2 <> fds.1 -> fds.2 ∉ rx_nonblocking r0 ->
  dispatcher_construct fds chan garbage r0 = Ret tt r1 -> run_reactor os r1 = Ret tt r ->
  rx_pipe r = exits os /\ (PIPE_CAPACITY <= exits os -> dispatcher_exit r = Blocked).
Proof.
  intros Hs Hne Hnb Hc Hr. pose proof (construct_waiting fds chan garbage r0 Hs) as Hw. unfold post in Hw. rewrite Hc in Hw.
  assert (fds.2 ∉ {[fds.1]} ∪ rx_nonblocking r0) as Hn by set_solver.
  pose proof (run_waiting os 0 fds _ r1 r Hw Hn Hr) as Hw'. split; [apply Hw'|]. intros Hcap.
  pose proof (exit_waiting _ _ _ _ Hw') as Hx. rewrite (proj2 (Z.ltb_ge _ _)), decide_False in Hx by (done || lia). done.
Qed.

Definition new_reactor : reactor MemEpoll.t :=
  mk_reactor (dispatcher_new (fun _ => 0)) (epoll_poller_new (∅ : MemEpoll.t)) (0, 0) ∅ 0 0.

Lemma wakeups_never_read_witness :
  exists r1 r, dispatcher_construct (5, 6) 100 0 new_reactor = Ret tt r1 /\
    run_reactor [XExit; XPoll 10; XExit; XPoll 0] r1 = Ret tt r /\ rx_pipe r = 2.
Proof.
  destruct (dispatcher_construct (5, 6) 100 0 new_reactor) as [[] r1| | |] eqn:E1; [|vm_compute in E1; discriminate E1..].
  destruct (run_reactor [XExit; XPoll 10; XExit; XPoll 0] r1) as [[] r| | |] eqn:E2;
    [|vm_compute in E1; injection E1 as <-; vm_compute in E2; discriminate E2..].
  exists r1, r. split; [done|]. split; [done|].
  apply (wakeups_never_read new_reactor r1 r (5, 6) 100 0 [XExit; XPoll 10; XExit; XPoll 0]); [done|done|set_solver|exact E1|exact E2].
Defined.

(** dispatcher::dispatcher with __APPLE__, what it does to the poller *)
Definition dispatcher_construct_apple {K} `{Kqueue K} (fd chan garbage : Z) : M (kqueue_poller K) unit :=
  _ ← modify (set_kq_chan chan (mk_channel fd (short garbage) None None));
  kq_on_read chan WAKE_CB.

Lemma read_enabled_with c : read_enabled (with_event true READ_EVENT c) = true.
Proof.
  unfold read_enabled, with_event, READ_EVENT, short. cbn [ch_events]. apply negb_true_iff, Z.eqb_neq.
  assert (forall x, Z.land x 1 = x mod 2) as Hl by (intros x; apply (Z.land_ones x 1); lia). rewrite Hl.
  set (x := Z.lor (ch_events c) 1). assert (to_signed 16 x mod 2 = x mod 2) as ->.
  { unfold to_signed, to_unsigned. assert (forall y, (y mod 2 ^ 16) mod 2 = y mod 2) as Hm.
    { intros y. apply Z.mod_mod_divide. by exists (2 ^ 15). }
    case_match; [apply Hm|]. replace (x mod 2 ^ 16 - 2 ^ 16) with (x mod 2 ^ 16 + (- 2 ^ 15) * 2) by lia. rewrite Z.mod_add by lia. apply Hm. }
  rewrite <-Hl. unfold x. rewrite Z.land_lor_distr_l, Hl. intros E. apply Z.lor_eq_0_iff in E as [_ E]. done.
Qed.

(** On macOS the channel of the pipe is watched for reading: update_channel adds the filter. *)
Theorem kqueue_wakeup_watched {K} `{KqueueLaws K} (s : kqueue_poller K) fd chan garbage :
  exists s', dispatcher_construct_apple fd chan garbage s = Ret tt s' /\ kq_filter (kq_kern s') fd EVFILT_READ = Some chan.
Proof.
  set (c := mk_channel fd (short garbage) None None). set (c1 := with_event true READ_EVENT c).
  set (s1 := set_kq_chan chan c1 (set_kq_chan chan c s)).
  assert (kq_chans s1 !! chan = Some c1) as Hc1 by (by apply lookup_insert_eq).
  destruct (update_channel_filters s1 chan c1 Hc1) as (s2 & E2 & Hcs & _ & Hf & _). unfold c1 at 2 in Hf. rewrite read_enabled_with in Hf.
  unfold dispatcher_construct_apple, kq_on_read, kq_enable. rewrite (bind_ret _ _ _ tt (set_kq_chan chan c s)) by done.
  rewrite (bind_ret _ _ _ tt s2).
  - rewrite (bind_ret _ _ _ c1 s2) by (apply kq_chan_ret; by rewrite Hcs). eexists. split; [reflexivity|exact Hf].
  - rewrite (bind_ret _ _ _ c (set_kq_chan chan c s)) by (apply kq_chan_ret; by apply lookup_insert_eq).
    by rewrite (bind_ret _ _ _ tt s1).
Qed.

(** The reading end of the pipe is never closed: nothing puts its channel into the set
    of the poller, and ~channel closes nothing. *)
Theorem wake_up_end_leaks {K} `{Epoll K} (r : reactor K) poller_fd :
  channels_ (rx_net r) = ∅ ->
  exists r', dispatcher_destroy poller_fd r = Ret tt r' /\
    closed_fds (rx_net r') = closed_fds (rx_net r) ++ [(wake_up_ r).2; poller_fd].
Proof.
  intros Hc. unfold dispatcher_destroy. rewrite (bind_ret _ _ _ r r) by done. set (n1 := pc_note (wake_up_ r).2 (rx_net r)).
  set (r1 := mk_reactor (rx_timers r) n1 (wake_up_ r) (rx_nonblocking r) (rx_pipe r) (rx_channel r)).
  rewrite (bind_ret _ _ _ tt r1) by done. erewrite bind_ret; [|unfold in_net, zoom; rewrite destroy_empty by done; reflexivity].
  eexists. split; [reflexivity|]. cbn. by rewrite <-app_assoc.
Qed.
