(* ===== verification/Lifetimes.v ===== *)
(** Who releases what: the destructors of record (src/table/record.{h,cc}), schema
    (src/table/schema.{h,cc}) and buffer_manager (src/io/buffer_manager.cc), with the
    copies that the compiler writes for the first two; the destructors of io_manager,
    alphadb and buffer.  Arrays live in a heap that
    records how each was allocated. *)
From S2P Require Import Prelude HashTable Unix BufferManager Rid RingBuffer Alphadb.

(** * Arrays *)

Inductive allocator := ByMalloc | ByNewArray.
#[global] Instance allocator_eq_dec : EqDecision allocator.
Proof. solve_decision. Defined.

Record arrays := mk_arrays { live : gmap Z (allocator * list byte); next_array : Z }.

(** malloc, strdup and [new char[n]] *)
Definition allocate (how : allocator) (bs : list byte) : M arrays Z := fun m =>
  Ret (next_array m) (mk_arrays (<[next_array m := (how, bs)]> (live m)) (next_array m + 1)).

(** free(p) and delete[] p, which accept nullptr *)
Definition deallocate (how : allocator) (p : option Z) : M arrays unit :=
  match p with
  | None => mret tt
  | Some a =>
      m ← gets live;
      match m !! a with
      | None => undef double_free
      | Some (how', _) =>
          if decide (how' = how) then modify (fun s => mk_arrays (delete a (live s)) (next_array s))
          else undef mismatched_free
      end
  end.

(** * Records *)

Record record_object := mk_record_object { ro_rid : rid; ro_size : Z; ro_data : option Z }.

(** record::record *)
Definition record_object_new : record_object := mk_record_object (mk_rid (-1) (-1)) (-1) None.

(** record::set of [size] bytes of [data] *)
Definition record_object_set (data : list byte) (size : Z) (id : rid) (r : record_object) : M arrays record_object :=
  if (size <? 0) || (Z.of_nat (length data) <? size) then undef out_of_bounds
  else
    let bs := take (Z.to_nat size) data in
    match ro_data r with
    | None => a ← allocate ByNewArray bs; mret (mk_record_object id size (Some a))
    | Some a =>
        m ← gets live;
        '(how, old) ← of_option dangling_deref (m !! a);
        if Z.of_nat (length old) <? size then undef out_of_bounds
        else
          _ ← modify (fun s => mk_arrays (<[a := (how, bs ++ drop (length bs) old)]> (live s)) (next_array s));
          mret (mk_record_object id size (Some a))
    end.

(** record::data, record::get_rid *)
Definition record_data (r : record_object) : option Z := ro_data r.
Definition record_rid (r : record_object) : rid := ro_rid r.

(** record::~record *)
Definition record_destroy (r : record_object) : M arrays unit := deallocate ByNewArray (ro_data r).

(** The copy constructor that the compiler provides: the pointer is copied. *)
Definition record_copy (r : record_object) : record_object := mk_record_object (ro_rid r) (ro_size r) (ro_data r).

(** ** Histories of record variables *)

Record records := mk_records { rs_vars : gmap Z record_object; rs_arrays : arrays }.

Inductive record_op :=
| RecNew (x : Z)                                    (* record x; *)
| RecSet (x : Z) (data : list byte) (size : Z) (id : rid)
| RecCopy (x y : Z)                                 (* record y = x; *)
| RecDestroy (x : Z).                               (* the end of x *)

Definition in_arrays {A} : M arrays A -> M records A := zoom rs_arrays (fun m s => mk_records (rs_vars s) m).
Definition record_var (x : Z) : M records record_object := m ← gets rs_vars; of_option dangling_deref (m !! x).
Definition set_var (x : Z) (r : record_object) : M records unit := modify (fun s => mk_records (<[x := r]> (rs_vars s)) (rs_arrays s)).

(** A variable is made once at a time. *)
Definition fresh_var (x : Z) : M records unit := m ← gets rs_vars; if decide (is_Some (m !! x)) then undef bad_iterator else mret tt.

Definition run_record_op (o : record_op) : M records unit :=
  match o with
  | RecNew x => _ ← fresh_var x; set_var x record_object_new
  | RecSet x data size id => r ← record_var x; r' ← in_arrays (record_object_set data size id r); set_var x r'
  | RecCopy x y => _ ← fresh_var y; r ← record_var x; set_var y (record_copy r)
  | RecDestroy x => r ← record_var x; _ ← in_arrays (record_destroy r); modify (fun s => mk_records (delete x (rs_vars s)) (rs_arrays s))
  end.
Fixpoint run_record_ops (os : list record_op) : M records unit :=
  match os with [] => mret tt | o :: os => _ ← run_record_op o; run_record_ops os end.

(** Each array belongs to exactly one variable. *)
Record owned (s : records) : Prop := {
  ow_live : forall x r a, rs_vars s !! x = Some r -> ro_data r = Some a -> exists bs, live (rs_arrays s) !! a = Some (ByNewArray, bs);
  ow_inj : forall x y r r' a, rs_vars s !! x = Some r -> rs_vars s !! y = Some r' -> ro_data r = Some a -> ro_data r' = Some a -> x = y;
  ow_all : forall a, is_Some (live (rs_arrays s) !! a) -> exists x r, rs_vars s !! x = Some r /\ ro_data r = Some a;
  ow_next : forall a, is_Some (live (rs_arrays s) !! a) -> a < next_array (rs_arrays s);
}.

(** * Schemas *)

(** The names of the columns *)
Definition schema_names : Type := list (option Z).

(** schema::schema and schema::add_column, which keeps the pointer *)
Definition schema_names_new : schema_names := [].
Definition add_name (name : option Z) (s : schema_names) : schema_names := s ++ [name].

(** The loop of table_manager::read_schema, as far as the names go: [new char[len]] each *)
Fixpoint read_names (lens : list nat) (s : schema_names) : M arrays schema_names :=
  match lens with
  | [] => mret s
  | n :: lens => a ← allocate ByNewArray (replicate n Byte.x00); read_names lens (add_name (Some a) s)
  end.

(** schema::~schema *)
Fixpoint schema_destroy (s : schema_names) : M arrays unit :=
  match s with [] => mret tt | p :: s => _ ← deallocate ByMalloc p; schema_destroy s end.

(** * The buffer manager *)

Section pool.
Context {U : Type} `{Unix U}.

(** delete[] buffer_pool_[i].data for the slots i, i+1, ... (n of them): a slot without
    data stands for one whose array is gone. *)
Fixpoint release_slots (n : nat) (i : Z) : M (buffer_manager U) unit :=
  match n with
  | O => mret tt
  | S n => _ ← pool_set i (set_data []); release_slots n (i + 1)
  end.

(** buffer_manager::~buffer_manager; the array buffer_pool_ itself stays. *)
Definition buffer_manager_destroy : M (buffer_manager U) unit :=
  n ← gets pool_size_;
  _ ← release_slots (Z.to_nat n) 0;
  in_hash hash_table_destroy.

(** io_manager::~io_manager *)
Definition io_manager_destroy : M (buffer_manager U) unit := buffer_manager_destroy.
End pool.

(** alphadb::~alphadb: the managers of tables and indexes hold nothing of their own, and
    txn_mgr_ is a pointer that no constructor sets. *)
Definition alphadb_destroy {U D} `{Unix U} `{Shell D} : M (alphadb U D) unit :=
  _ ← in_db_bm io_manager_destroy;
  undef uninitialised_read.

(** buffer::~buffer: delete, not delete[], of what new char[] gave *)
Definition buffer_destroy : M buffer unit :=
  p ← gets buf_;
  match p with
  | None => mret tt
  | Some _ => undef mismatched_free
  end.

(** * Lemmas *)

Definition no_copy (o : record_op) : Prop := if o is RecCopy _ _ then False else True.

(** A step that neither frees twice nor with the wrong function, and keeps the owners *)
Definition owned_step (o : outcome records unit) : Prop :=
  match o with
  | Ret _ s => owned s
  | Undef u => u <> double_free /\ u <> mismatched_free
  | _ => True
  end.

Lemma owned_new x s : owned s -> owned_step (run_record_op (RecNew x) s).
Proof.
  intros [H1 H2 H3 H4]. cbn [run_record_op]. unfold fresh_var, set_var, mbind, M_bind, gets, modify. case_decide as Hx; [done|].
  cbn. rewrite <-eq_None_not_Some in Hx. split; cbn.
  - intros y r a [[_ <-]|[_ Hy]]%lookup_insert_Some Ha; [done|by eapply H1].
  - intros y z r r' a [[_ <-]|[_ Hy]]%lookup_insert_Some [[_ <-]|[_ Hz]]%lookup_insert_Some Ha Ha'; try done. by eapply H2.
  - intros a (y & r & Hy & Ha)%H3. exists y, r. split; [|done]. rewrite lookup_insert_ne; [done|]. intros ->. congruence.
  - done.
Qed.

(** An array that no variable points to *)
Lemma owned_fresh s x r : owned s -> rs_vars s !! x = Some r -> live (rs_arrays s) !! next_array (rs_arrays s) = None /\
  forall a, ro_data r = Some a -> a <> next_array (rs_arrays s).
Proof.
  intros [H1 H2 H3 H4] Hx. assert (live (rs_arrays s) !! next_array (rs_arrays s) = None) as Hn.
  { destruct (live (rs_arrays s) !! next_array (rs_arrays s)) eqn:E; [|done]. specialize (H4 (next_array (rs_arrays s)) ltac:(by eexists)). lia. }
  split; [done|]. intros a Ha ->. destruct (H1 x r _ Hx Ha) as [bs Hb]. congruence.
Qed.

Lemma owned_set x data size id s : owned s -> owned_step (run_record_op (RecSet x data size id) s).
Proof.
  intros OK. cbn [run_record_op]. unfold record_var, mbind, M_bind, gets. destruct (rs_vars s !! x) as [r|] eqn:Hx; [|done]. cbn [of_option mret M_ret].
  unfold in_arrays, zoom, record_object_set. destruct ((size <? 0) || _); [done|]. set (bs := take (Z.to_nat size) data).
  destruct (owned_fresh s x r OK Hx) as [Hn _]. destruct OK as [H1 H2 H3 H4]. destruct (ro_data r) as [a|] eqn:Ha.
  - destruct (H1 x r a Hx Ha) as [old Hold]. unfold mbind, M_bind, gets. rewrite Hold. cbn. destruct (_ <? size); [done|]. cbn. split; cbn.
    + intros y r' a' [[_ <-]|[_ Hy]]%lookup_insert_Some Ha'; cbn in Ha'; [injection Ha' as <-; eexists; apply lookup_insert_eq|].
      destruct (decide (a' = a)) as [->|]; [eexists; apply lookup_insert_eq|rewrite lookup_insert_ne by done; by eapply H1].
    + intros y z r1 r2 a' [[<- <-]|[Hyx Hy]]%lookup_insert_Some [[<- <-]|[Hzx Hz]]%lookup_insert_Some Ha1 Ha2; cbn in Ha1, Ha2; try done;
        simplify_eq; [by eapply (H2 x z)|by eapply (H2 y x)|by eapply H2].
    + intros a'. rewrite lookup_insert_is_Some'. intros Ha'. assert (exists y r', rs_vars s !! y = Some r' /\ ro_data r' = Some a') as (y & r' & Hy & Hd).
      { destruct Ha' as [<-|Ha']; [by exists x, r|by apply H3]. }
      destruct (decide (y = x)) as [->|]; [exists x; eexists; rewrite lookup_insert_eq; split; [done|]; cbn; congruence|exists y, r'; by rewrite lookup_insert_ne].
    + intros a'. rewrite lookup_insert_is_Some'. intros [<-|Ha']; apply H4; [by eexists|done].
  - cbn. split; cbn.
    + intros y r' a' [[_ <-]|[_ Hy]]%lookup_insert_Some Ha'; cbn in Ha'; [injection Ha' as <-; eexists; apply lookup_insert_eq|].
      destruct (H1 y r' a' Hy Ha') as [b Hb]. exists b. rewrite lookup_insert_ne; [done|]. intros <-. congruence.
    + intros y z r1 r2 a' [[<- <-]|[Hyx Hy]]%lookup_insert_Some [[<- <-]|[Hzx Hz]]%lookup_insert_Some Ha1 Ha2; cbn in Ha1, Ha2; try done; simplify_eq.
      * destruct (H1 z r2 _ Hz Ha2). congruence.
      * destruct (H1 y r1 _ Hy Ha1). congruence.
      * by eapply H2.
    + intros a'. rewrite lookup_insert_is_Some'. intros [<-|(y & r' & Hy & Hd)%H3]; [exists x; eexists; by rewrite lookup_insert_eq|].
      exists y, r'. rewrite lookup_insert_ne; [done|]. intros ->. congruence.
    + intros a'. rewrite lookup_insert_is_Some'. intros [<-|Ha'%H4]; lia.
Qed.

Lemma owned_destroy x s : owned s -> owned_step (run_record_op (RecDestroy x) s).
Proof.
  intros [H1 H2 H3 H4]. cbn [run_record_op]. unfold record_var, mbind, M_bind, gets. destruct (rs_vars s !! x) as [r|] eqn:Hx; [|done]. cbn [of_option mret M_ret].
  unfold in_arrays, zoom, record_destroy, deallocate. destruct (ro_data r) as [a|] eqn:Ha.
  - destruct (H1 x r a Hx Ha) as [bs Hb]. unfold mbind, M_bind, gets. rewrite Hb, decide_True by done. cbn. split; cbn.
    + intros y r' a' [Hne Hy]%lookup_delete_Some Ha'. destruct (H1 y r' a' Hy Ha') as [b ?]. exists b. rewrite lookup_delete_ne; [done|].
      intros <-. by apply Hne, (H2 x y r r' a).
    + intros y z r1 r2 a' [_ Hy]%lookup_delete_Some [_ Hz]%lookup_delete_Some. by eapply H2.
    + intros a' [Hne Ha']%lookup_delete_is_Some. destruct (H3 a' Ha') as (y & r' & Hy & Hd). exists y, r'. split; [|done].
      rewrite lookup_delete_ne; [done|]. intros <-. congruence.
    + intros a' [_ Ha']%lookup_delete_is_Some. by apply H4.
  - cbn. split; cbn.
    + intros y r' a' [_ Hy]%lookup_delete_Some. by eapply H1.
    + intros y z r1 r2 a' [_ Hy]%lookup_delete_Some [_ Hz]%lookup_delete_Some. by eapply H2.
    + intros a' (y & r' & Hy & Hd)%H3. exists y, r'. split; [|done]. rewrite lookup_delete_ne; [done|]. intros <-. congruence.
    + done.
Qed.

Lemma owned_run os s : Forall no_copy os -> owned s -> owned_step (run_record_ops os s).
Proof.
  intros Hos. revert s. induction Hos as [|o os Ho Hos IH]; intros s OK; [done|]. cbn [run_record_ops]. unfold mbind, M_bind.
  assert (owned_step (run_record_op o s)) as Hs by (destruct o; [by apply owned_new|by apply owned_set|done|by apply owned_destroy]).
  destruct (run_record_op o s) as [[] s1| | |]; try done. by apply IH.
Qed.

(** The empty store *)
Definition no_records : records := mk_records ∅ (mk_arrays ∅ 1).

Lemma owned_empty : owned no_records.
Proof. split; cbn; intros *; rewrite ?lookup_empty; try done; by intros []. Qed.

Lemma read_names_spec lens s m : exists s' m', read_names lens s m = Ret (s ++ s') m' /\ length s' = length lens /\
  (forall a x, live m !! a = Some x -> a < next_array m -> live m' !! a = Some x).
Proof.
  revert s m. induction lens as [|n lens IH]; intros s m; cbn [read_names].
  { exists [], m. by rewrite app_nil_r. }
  set (m1 := mk_arrays (<[next_array m := (ByNewArray, replicate n Byte.x00)]> (live m)) (next_array m + 1)).
  destruct (IH (add_name (Some (next_array m)) s) m1) as (s' & m' & E & Hl & Hk).
  exists (Some (next_array m) :: s'), m'. split; [rewrite (bind_ret _ _ _ (next_array m) m1) by done; rewrite E; unfold add_name; by rewrite <-app_assoc|].
  split; [cbn; by rewrite Hl|]. intros a x Ha Hlt. apply Hk; cbn; [rewrite lookup_insert_ne by lia; done|lia].
Qed.

(** What is gone stays gone while names are released. *)
Lemma deallocate_live how p m m' a : deallocate how p m = Ret tt m' -> live m !! a = None -> live m' !! a = None.
Proof.
  unfold deallocate. destruct p as [b|]; [|by intros [= <-]]. unfold mbind, M_bind, gets. destruct (live m !! b) as [[how' bs]|]; [|done].
  case_decide; [|done]. intros [= <-] Ha. cbn. apply lookup_delete_None. by right.
Qed.

Lemma schema_destroy_live s m m' a : schema_destroy s m = Ret tt m' -> live m !! a = None -> live m' !! a = None.
Proof.
  revert m. induction s as [|p s IH]; intros m; cbn [schema_destroy]; [by intros [= <-]|]. unfold mbind, M_bind.
  destruct (deallocate ByMalloc p m) as [[] m1| | |] eqn:E; try done. intros Hs Ha. eapply IH; [exact Hs|]. by eapply deallocate_live.
Qed.

Lemma schema_destroy_gone s m m' a : schema_destroy s m = Ret tt m' -> Some a ∈ s -> live m' !! a = None.
Proof.
  revert m. induction s as [|p s IH]; intros m Hd Hin; [by apply elem_of_nil in Hin|]. cbn [schema_destroy] in Hd. unfold mbind, M_bind in Hd.
  destruct (deallocate ByMalloc p m) as [[] m1| | |] eqn:E; try done. apply elem_of_cons in Hin as [<-|Hin]; [|by eapply IH].
  eapply schema_destroy_live; [exact Hd|]. revert E. unfold deallocate, mbind, M_bind, gets. destruct (live m !! a) as [[how bs]|]; [|done].
  case_decide; [|done]. intros [= <-]. cbn. apply lookup_delete_eq.
Qed.

(** * Properties *)

(** C19. Records that are never copied are released exactly once: after any history of
    records made, set any number of times and destroyed, no array is released twice or
    with the wrong function, and when the last record is gone no array is left. *)
Theorem record_arrays_released os :
  Forall no_copy os ->
  match run_record_ops os no_records with
  | Ret _ s => rs_vars s = ∅ -> live (rs_arrays s) = ∅
  | Undef u => u <> double_free /\ u <> mismatched_free
  | _ => True
  end.
Proof.
  intros Hos. pose proof (owned_run os no_records Hos owned_empty) as Hs. destruct (run_record_ops os no_records) as [[] s| | |]; try done.
  destruct Hs as [_ _ H3 _]. intros Hv. apply map_empty. intros a. destruct (live (rs_arrays s) !! a) eqn:E; [|done].
  destruct (H3 a) as (x & r & Hx & _); [by eexists|]. by rewrite Hv, lookup_empty in Hx.
Qed.

Definition two_records : list record_op :=
  [RecNew 1; RecNew 2; RecSet 1 [Byte.x01; Byte.x02] 2 (mk_rid 0 0); RecSet 1 [Byte.x03] 1 (mk_rid 0 1); RecDestroy 2; RecDestroy 1].

Lemma record_arrays_released_witness :
  exists s, run_record_ops two_records no_records = Ret tt s /\ live (rs_arrays s) = ∅.
Proof.
  pose proof (record_arrays_released two_records ltac:(repeat constructor)) as H.
  destruct (run_record_ops two_records no_records) as [[] s| | |] eqn:E; [|vm_compute in E; discriminate E..].
  exists s. split; [reflexivity|]. apply H. vm_compute in E. injection E as <-. reflexivity.
Defined.

(** A copy of a record that has an array shares it: destroying both, in either order and
    whatever happens to other records in between, releases the array twice. *)
Theorem record_copy_double_free s x y r a bs :
  x <> y -> rs_vars s !! x = Some r -> rs_vars s !! y = None -> ro_data r = Some a -> live (rs_arrays s) !! a = Some (ByNewArray, bs) ->
  run_record_ops [RecCopy x y; RecDestroy x; RecDestroy y] s = Undef double_free /\
  run_record_ops [RecCopy x y; RecDestroy y; RecDestroy x] s = Undef double_free.
Proof.
  intros Hne Hx Hy Ha Hl. cbn [run_record_ops run_record_op].
  assert (forall s, rs_vars s !! y = None -> fresh_var y s = Ret tt s) as Hf.
  { intros s0 E. unfold fresh_var, mbind, M_bind, gets. rewrite E. by rewrite decide_False by (by intros [? [=]]). }
  assert (forall s z r0, rs_vars s !! z = Some r0 -> record_var z s = Ret r0 s) as Hv.
  { intros s0 z r0 E. unfold record_var, mbind, M_bind, gets. by rewrite E. }
  set (s1 := mk_records (<[y := record_copy r]> (rs_vars s)) (rs_arrays s)).
  assert ((_ ← fresh_var y; r ← record_var x; set_var y (record_copy r)) s = Ret tt s1) as E1.
  { rewrite (bind_ret _ _ _ _ _ (Hf s Hy)). by rewrite (bind_ret _ _ _ _ _ (Hv s x r Hx)). }
  assert (forall s0 z, rs_vars s0 !! z = Some r \/ rs_vars s0 !! z = Some (record_copy r) ->
    exists r0, ro_data r0 = Some a /\ record_var z s0 = Ret r0 s0) as Hz.
  { intros s0 z [E|E]; eexists; (split; [|by apply Hv]); done. }
  assert (forall z w, z <> w -> (rs_vars s1 !! z = Some r \/ rs_vars s1 !! z = Some (record_copy r)) ->
    (rs_vars s1 !! w = Some r \/ rs_vars s1 !! w = Some (record_copy r)) ->
    (_ ← (r0 ← record_var z; _ ← in_arrays (record_destroy r0); modify (fun s2 => mk_records (delete z (rs_vars s2)) (rs_arrays s2)));
     _ ← (r0 ← record_var w; _ ← in_arrays (record_destroy r0); modify (fun s2 => mk_records (delete w (rs_vars s2)) (rs_arrays s2))); mret tt) s1 = Undef double_free) as Hgo.
  { intros z w Hzw Hz1 Hw1. destruct (Hz s1 z Hz1) as (r1 & Hd1 & Er1).
    set (m2 := mk_arrays (delete a (live (rs_arrays s))) (next_array (rs_arrays s))).
    set (s2 := mk_records (delete z (rs_vars s1)) m2).
    rewrite (bind_ret _ _ _ tt s2).
    2:{ rewrite (bind_ret _ _ _ _ _ Er1). rewrite (bind_ret _ _ _ tt (mk_records (rs_vars s1) m2)); [done|].
        unfold in_arrays, zoom, record_destroy, deallocate. rewrite Hd1. unfold mbind, M_bind, gets. cbn [rs_arrays s1]. by rewrite Hl, decide_True. }
    destruct (Hz s2 w) as (r2 & Hd2 & Er2). { cbn [rs_vars s2]. by rewrite lookup_delete_ne. }
    unfold mbind at 1, M_bind at 1. rewrite (bind_ret _ _ _ _ _ Er2). unfold mbind, M_bind, in_arrays, zoom, record_destroy, deallocate. rewrite Hd2.
    unfold mbind, M_bind, gets. cbn [rs_arrays s2 live m2]. by rewrite lookup_delete_eq. }
  rewrite (bind_ret _ _ _ _ _ E1), (bind_ret _ _ _ _ _ E1).
  assert (rs_vars s1 !! x = Some r) as Hx1 by (cbn; by rewrite lookup_insert_ne).
  assert (rs_vars s1 !! y = Some (record_copy r)) as Hy1 by apply lookup_insert_eq.
  split; apply Hgo; try done; by (left + right).
Qed.

(** The schema of an opened table cannot be destroyed: read_schema allocates the names
    with new and ~schema frees them, for every table with at least one column. *)
Theorem opened_schema_destroy_undefined n lens m :
  exists s m', read_names (n :: lens) schema_names_new m = Ret s m' /\ length s = S (length lens) /\ schema_destroy s m' = Undef mismatched_free.
Proof.
  cbn [read_names]. set (m1 := mk_arrays (<[next_array m := (ByNewArray, replicate n Byte.x00)]> (live m)) (next_array m + 1)).
  destruct (read_names_spec lens (add_name (Some (next_array m)) schema_names_new) m1) as (s' & m' & E & Hl & Hk).
  eexists _, m'. split; [rewrite (bind_ret _ _ _ (next_array m) m1) by done; exact E|]. split; [cbn; by rewrite Hl|].
  cbn. unfold mbind, M_bind, gets. rewrite (Hk (next_array m) (ByNewArray, replicate n Byte.x00)); [done|apply lookup_insert_eq|cbn; lia].
Qed.

(** Destroying a schema and a copy of it releases a name twice, unless it has no names. *)
Theorem schema_copy_double_free s m m' :
  schema_destroy s m = Ret tt m' -> Exists (fun p => p <> None) s -> schema_destroy s m' = Undef double_free.
Proof.
  intros Hd Hx. assert (forall a, Some a ∈ s -> live m' !! a = None) as Hg by (intros a; by eapply schema_destroy_gone).
  clear Hd. induction s as [|[a|] s IH]; [by inversion Hx| |].
  - cbn. unfold mbind, M_bind, gets. by rewrite (Hg a) by left.
  - cbn. inversion Hx; subst; [done|]. apply IH; [done|]. intros a Ha. apply Hg. by right.
Qed.

(** ** The buffer manager *)

Lemma release_slots_ret {U} `{Unix U} n i (b : buffer_manager U) :
  (i + n <= length (buffer_pool_ b))%nat ->
  exists b', release_slots n (Z.of_nat i) b = Ret tt b' /\ bm_sys b' = bm_sys b /\ bm_hash b' = bm_hash b /\
    length (buffer_pool_ b') = length (buffer_pool_ b) /\
    forall j, buffer_pool_ b' !! j = if decide (i <= j < i + n)%nat then set_data [] <$> buffer_pool_ b !! j else buffer_pool_ b !! j.
Proof.
  revert i b. induction n as [|n IH]; intros i b Hl; cbn [release_slots].
  { exists b. split_and!; try done. intros j. rewrite decide_False by lia. done. }
  destruct (lookup_lt_is_Some_2 (buffer_pool_ b) i) as [e He]; [lia|].
  set (b1 := set_pool (<[i := set_data [] e]> (buffer_pool_ b)) b).
  assert (pool_set (Z.of_nat i) (set_data []) b = Ret tt b1) as E1.
  { unfold pool_set, pool_get, mbind, M_bind, gets, modify. rewrite (proj2 (Z.ltb_ge _ _)), Nat2Z.id, He by lia. done. }
  destruct (IH (S i) b1) as (b' & E & Hs & Hh & Hlen & Hp). { cbn. rewrite length_insert. lia. }
  exists b'. rewrite (bind_ret _ _ _ _ _ E1). replace (Z.of_nat i + 1) with (Z.of_nat (S i)) by lia.
  split_and!; [done|done|done|by rewrite Hlen; cbn; rewrite length_insert|]. intros j. rewrite Hp. cbn.
  destruct (decide (j = i)) as [->|Hne].
  - rewrite decide_False, decide_True by lia. rewrite list_lookup_insert_eq by lia. by rewrite He.
  - rewrite list_lookup_insert_ne by done. do 2 case_decide; (done || lia).
Qed.

Lemma buffer_manager_destroy_ends {U} `{Unix U} (b : buffer_manager U) m :
  ht_repr (bm_hash b) m -> pool_size_ b = Z.of_nat (length (buffer_pool_ b)) ->
  exists b', buffer_manager_destroy b = Ret tt b' /\ bm_sys b' = bm_sys b /\ ht_heap (bm_hash b') = ∅ /\
    forall j e, buffer_pool_ b' !! j = Some e -> be_data e = [].
Proof.
  intros Hr Hn. destruct (release_slots_ret (length (buffer_pool_ b)) 0 b) as (b1 & E1 & Hs & Hh & Hl & Hp); [lia|].
  rewrite <-Hh in Hr. destruct (hash_table_destroy_ends _ _ Hr) as (t & Et & Hheap & _).
  exists (set_hash t b1). split; [|split_and!; [done|done|]].
  - unfold buffer_manager_destroy. rewrite (bind_ret _ _ _ (pool_size_ b) b) by done. rewrite Hn, Nat2Z.id. change 0 with (Z.of_nat 0).
    rewrite (bind_ret _ _ _ _ _ E1). unfold in_hash, zoom. by rewrite Et.
  - intros j e. cbn. rewrite Hp. intros He. pose proof (lookup_lt_Some _ _ _ (eq_trans (Hp j) He)). rewrite Hl in *.
    rewrite decide_True in He by lia. by apply fmap_Some in He as (e0 & _ & ->).
Qed.

(** Destroying a buffer manager ends, releases the data of every slot and every entry
    of its hash table, and writes nothing: whatever is dirty in the pool, the operating
    system is as before, so changes that were not flushed are lost. *)
Theorem buffer_manager_destroyed {U} `{Unix U} (b : buffer_manager U) m :
  ht_repr (bm_hash b) m -> pool_size_ b = Z.of_nat (length (buffer_pool_ b)) ->
  exists b', buffer_manager_destroy b = Ret tt b' /\ bm_sys b' = bm_sys b /\ ht_heap (bm_hash b') = ∅ /\
    forall j e, buffer_pool_ b' !! j = Some e -> be_data e = [].
Proof. apply buffer_manager_destroy_ends. Qed.

(** A pool of two slots with a dirty page *)
Definition dirty_pool : buffer_manager MemFs :=
  buffer_manager_new 2 4 (fun _ => mk_buffer_entry true 3 0 [] 1) demo_fs.

Lemma buffer_manager_destroyed_witness :
  exists b', buffer_manager_destroy dirty_pool = Ret tt b' /\ bm_sys b' = bm_sys dirty_pool /\ ht_heap (bm_hash b') = ∅ /\
    forall j e, buffer_pool_ b' !! j = Some e -> be_data e = [].
Proof. apply (buffer_manager_destroyed dirty_pool ∅); [by apply hash_table_new_repr|done]. Defined.

(** A database cannot be destroyed: after the pool is released the destructor deletes a
    pointer that was never set. *)
Theorem alphadb_destroy_undefined {U D} `{Unix U} `{Shell D} (a : alphadb U D) m :
  ht_repr (bm_hash (db_bm a)) m -> pool_size_ (db_bm a) = Z.of_nat (length (buffer_pool_ (db_bm a))) ->
  alphadb_destroy a = Undef uninitialised_read.
Proof.
  intros Hr Hn. destruct (buffer_manager_destroy_ends _ _ Hr Hn) as (b' & E & _).
  unfold alphadb_destroy, io_manager_destroy, in_db_bm, zoom, mbind, M_bind. by rewrite E.
Qed.

(** A ring buffer that works cannot be destroyed; the only one that can is one whose
    constructor overwrote its pointer, and its array leaks. *)
Theorem buffer_destroy_outcome b l garbage :
  (rb_ok b l -> buffer_destroy b = Undef mismatched_free) /\
  (forall size, 0 < size <= 8 -> exists b0, buffer_new size garbage = inl b0 /\ buffer_destroy b0 = Ret tt b0).
Proof.
  split.
  - intros [Hb _ _ _ _ _]. unfold buffer_destroy, mbind, M_bind, gets. by rewrite Hb.
  - intros size Hs. unfold buffer_new, buffer_memset. cbn. rewrite (proj2 (Z.eqb_neq _ _)), (proj2 (Z.leb_le _ _)) by lia. by eexists.
Qed.
