(* ===== verification/MainProgram.v ===== *)
(** The program: src/main.cc, over the dispatcher's connections, the database, the raft
    server and the SQL parser.  Which mode main chooses, how the server is put together,
    what it does with the bytes of a client, and the two processes of the client. *)
From Stdlib Require Import Strings.String.
From stdpp Require Import strings.
From S2P Require Import Prelude Unix BufferManager RingBuffer Conn Rpc Raft RaftState Server RpcService Sql Alphadb.
#[local] Open Scope Z_scope.

(** * main *)

Inductive mode := Introduction | RunServer | RunClient | UsageError.

(** main: [argv1 == "server"] compares the addresses of the argument and of the literal. *)
Definition main (argc argv1 literal : Z) : mode :=
  if argc =? 1 then Introduction
  else if argc =? 2 then (if argv1 =? literal then RunServer else RunClient)
  else UsageError.

(** intro() and usage() *)
Definition intro : string := "".
Definition usage : string := "".

(** * start_server *)

(** A C string in an array: the bytes in front of the first zero; an array without one is
    read past its end. *)
Fixpoint c_text {S} (bs : list byte) : M S (list byte) :=
  match bs with
  | [] => undef out_of_bounds
  | c :: bs => if byte_to_Z c =? 0 then mret [] else t ← c_text bs; mret (c :: t)
  end.

Definition REQUEST_SIZE : Z := 10.

Section server.
Context {U D : Type} `{Unix U} `{Shell D}.
(** What serve_command takes from its surroundings (Alphadb.v, Sql.v) *)
Context (lo : leftovers) (addr : Z -> Z) (column_destroy : Sql.ptr -> M heap unit) (lexer_fails : bool)
  (yyparse : list byte -> parser_result -> M heap (Z * parser_result)).

(** What the callback of a client connection works on *)
Record service := mk_service { sv_conn : conn; sv_command : command_state U D; sv_raft : rpc_server raft_server }.

Definition in_client {A} : M conn A -> M service A := zoom sv_conn (fun c s => mk_service c (sv_command s) (sv_raft s)).
Definition in_command {A} : M (command_state U D) A -> M service A := zoom sv_command (fun c s => mk_service (sv_conn s) c (sv_raft s)).
Definition in_s2 {A} : M (rpc_server raft_server) A -> M service A := zoom sv_raft (fun r s => mk_service (sv_conn s) (sv_command s) r).

(** The function given to set_apply_func *)
Definition apply_always (_ : log) : bool := true.

(** What the callback does with a command: serve it, replicate an entry, answer *)
Definition serve_text (entry : log) (command : list byte) : M service unit :=
  '(_, reply) ← in_command (serve_command lo addr column_destroy lexer_fails yyparse command "");
  _ ← in_s2 (in_raft (replicate_entry apply_always entry));
  in_client (conn_send (list_byte_of_string reply)).

(** The callback of a client connection: [garbage] is what the array sql holds, and
    [entry] the log entry l, before they are written. *)
Definition handle_request (garbage : list byte) (entry : log) : M service unit :=
  d ← in_client (in_read_buf (get_block REQUEST_SIZE));
  command ← c_text (default garbage d);
  serve_text entry command.

(** The directories of the process and the two servers of start_server *)
Record world := mk_world { w_dirs : D; w_s1 : server; w_s2 : rpc_server raft_server }.
Definition in_s1 {A} : M server A -> M world A := zoom w_s1 (fun s w => mk_world (w_dirs w) s (w_s2 w)).
Definition in_w2 {A} : M (rpc_server raft_server) A -> M world A := zoom w_s2 (fun s w => mk_world (w_dirs w) (w_s1 w) s).

(** new alphadb(); the database is reached through the callback of a client only. *)
Definition new_alphadb (pool : nat -> buffer_entry) (u : U) : M world (alphadb U D) := fun w =>
  match alphadb_new pool u (w_dirs w) with
  | Ret db d => Ret db (mk_world d (w_s1 w) (w_s2 w))
  | Exc e d => Exc e (mk_world d (w_s1 w) (w_s2 w))
  | Undef x => Undef x
  | Blocked => Blocked
  end.

(** The number that stands for the callback of the first server *)
Definition CLIENT_CB : Z := 1.

(** start_server up to d->loop(): the database, the server on port 80 with the results of
    its calls, the raft server, whose port and id are the uninitialised locals, its start
    from a state file, and the callback.  [apply_always] is what set_apply_func installs. *)
Definition start_server (pool : nat -> buffer_entry) (u : U) (buf scratch : list byte) (r0 : request_vote_reply)
    (a0 : append_entries_reply) (sock bound listening : Z) (read_log : M stream log) (file : list Z) (port id : option Z) : M world unit :=
  _ ← new_alphadb pool u;
  _ ← in_s1 (server_start sock bound listening);
  _ ← of_option uninitialised_read port;
  _ ← of_option uninitialised_read id;
  _ ← in_w2 (raft_construct buf scratch r0 a0 sock bound listening);
  _ ← in_w2 (in_raft (raft_start read_log file));
  in_s1 (set_callback CLIENT_CB).
End server.
Arguments service : clear implicits.
Arguments world : clear implicits.
Arguments mk_world {D}.
Arguments w_dirs {D}.
Arguments w_s1 {D}.
Arguments w_s2 {D}.

(** * start_client *)

(** The parent: what the callback of the pipe does with the result of
    read(chan->fd(), buff, 4096), where [buff] holds the bytes. *)
Definition forward_input (buff : list byte) (size : Z) : M conn unit :=
  if size =? 0 then mret tt
  else
    _ ← (if (0 <=? size) && (size <=? Z.of_nat (length buff)) then in_write_buf (put_block (take (Z.to_nat size) buff))
         else undef out_of_bounds);
    in_output send_buffer.

(** The parent: what the callback of the connection prints; [garbage] is the array reply. *)
Definition print_reply (garbage : list byte) : M conn (list byte) :=
  d ← in_read_buf (get_block 1024);
  c_text (default garbage d).

(** The child: the text on the terminal, the bytes written to the pipe and the heap of the
    parser *)
Record terminal := mk_terminal { tm_out : string; tm_pipe : list byte; tm_heap : heap }.
Definition tm_print (s : string) : M terminal unit := modify (fun t => mk_terminal (tm_out t +:+ s) (tm_pipe t) (tm_heap t)).
Definition newline : string := String (Ascii.ascii_of_nat 10) EmptyString.

Section child.
(** The parser *)
Context (column_destroy : Sql.ptr -> M heap unit) (lexer_fails : bool)
  (yyparse : list byte -> parser_result -> M heap (Z * parser_result)).

(** The body of the loop behind the test for "quit"; its last statement sends through
    the pointer c, which only the parent process sets. *)
Definition child_step (instruction : string) : M terminal unit :=
  success ← zoom tm_heap (fun h t => mk_terminal (tm_out t) (tm_pipe t) h)
    (parse_and_drop column_destroy lexer_fails yyparse (list_byte_of_string instruction));
  _ ← when (negb success) (tm_print ("INVALID INPUT, please try again." +:+ newline));
  let msg := EmptyString in
  _ ← modify (fun t => mk_terminal (tm_out t) (tm_pipe t ++ list_byte_of_string msg) (tm_heap t));
  undef uninitialised_read.

(** The loop over the words of the standard input; at its end reading fails and leaves
    [instruction] as it was, so the loop goes on forever. *)
Fixpoint child_loop (instruction : string) (words : list string) : M terminal unit :=
  _ ← tm_print ">";
  match words with
  | [] => _ ← child_step instruction; blocked
  | w :: words => if String.eqb w "quit" then mret tt else _ ← child_step w; child_loop w words
  end.

(** The branch of the child in start_client *)
Definition start_child (words : list string) : M terminal unit :=
  _ ← tm_print ("Hello world!" +:+ newline);
  _ ← child_loop "" words;
  tm_print ("See you!" +:+ newline).
End child.

(** * Lemmas *)

Lemma c_text_no_zero {S} bs (s : S) : Forall (fun c => byte_to_Z c <> 0) bs -> c_text bs s = Undef out_of_bounds.
Proof.
  intros Hf. revert s. induction Hf as [|c bs Hc Hf IH]; intros s; [done|]. cbn [c_text]. rewrite (proj2 (Z.eqb_neq _ _)) by done.
  unfold mbind, M_bind. by rewrite IH.
Qed.

(** A text and its terminating zero *)
Lemma c_text_text {S} bs rest (s : S) : Forall (fun c => byte_to_Z c <> 0) bs -> c_text (bs ++ Byte.x00 :: rest) s = Ret bs s.
Proof.
  intros Hf. revert s. induction Hf as [|c bs Hc Hf IH]; intros s; [done|]. cbn [c_text app]. rewrite (proj2 (Z.eqb_neq _ _)) by done.
  unfold mbind, M_bind. by rewrite IH.
Qed.

Lemma in_client_ret {U D A} (x : M buffer A) (w : service U D) a b :
  x (i_buf (cn_input (sv_conn w))) = Ret a b ->
  in_client (in_read_buf x) w = Ret a (mk_service (set_read_buf b (sv_conn w)) (sv_command w) (sv_raft w)).
Proof. intros E. unfold in_client, in_read_buf, in_input, in_in, zoom. by rewrite E. Qed.

Lemma get_block_short b l n : rb_ok b l -> rb_size b < n -> get_block n b = Ret None b.
Proof.
  intros OK Hn. unfold get_block. rewrite (bind_ret _ _ _ b b) by done. rewrite (buffer_size_rb b l OK). by rewrite (proj2 (Z.ltb_lt _ _)).
Qed.

Lemma get_block_long b l n : rb_ok b l -> 0 < n <= rb_size b -> tail_ b + n <= max_size_ b ->
  exists b', get_block n b = Ret (Some (take (Z.to_nat n) (rb_contents b l))) b'.
Proof.
  intros OK Hn Ht. assert (wp (get_block n) (fun d _ => d = Some (take (Z.to_nat n) (rb_contents b l))) (fun _ _ => False) b) as (d & b' & E & ->)%wp_no_exn.
  { apply (wp_get_block b l n); [done|lia|done|lia|by left]. }
  by exists b'.
Qed.

(** * Properties *)

(** The server never serves what its client sent: the texts of clients contain no zero
    byte.  When fewer than ten bytes have arrived, the command is whatever the array on
    the stack held; with ten or more, the array has no terminating zero and reading it as
    a string is undefined. *)
Theorem client_text_never_served {U D} `{Unix U} `{Shell D} lo addr column_destroy lexer_fails yyparse garbage entry (w : service U D) (l : list byte) :
  let b := i_buf (cn_input (sv_conn w)) in
  rb_ok b l -> Forall (fun c => byte_to_Z c <> 0) (rb_contents b l) -> tail_ b + REQUEST_SIZE <= max_size_ b ->
  handle_request lo addr column_destroy lexer_fails yyparse garbage entry w =
    if rb_size b <? REQUEST_SIZE then
      (command ← c_text garbage; serve_text lo addr column_destroy lexer_fails yyparse entry command)
        (mk_service (set_read_buf b (sv_conn w)) (sv_command w) (sv_raft w))
    else Undef out_of_bounds.
Proof.
  intros b OK Hz Ht. unfold handle_request. destruct (Z.ltb_spec (rb_size b) REQUEST_SIZE) as [Hn|Hn].
  - by rewrite (bind_ret _ _ _ _ _ (in_client_ret _ w _ _ (get_block_short b l _ OK Hn))).
  - destruct (get_block_long b l REQUEST_SIZE OK) as [b' E]; [unfold REQUEST_SIZE in *; lia|done|].
    rewrite (bind_ret _ _ _ _ _ (in_client_ret _ w _ _ E)). unfold mbind, M_bind. cbn [default].
    rewrite c_text_no_zero; [done|]. by apply Forall_take.
Qed.

Definition demo_text : list byte := list_byte_of_string "select".
Definition demo_connection : conn :=
  mk_conn (mk_input (mk_buffer (Some (demo_text ++ replicate 10 Byte.x00)) false 6 0 16) [] [])
    (mk_output (small_ring 16) [Write_failed EAGAIN] []) None None [].
Definition demo_service : service MemFs demo_dirs :=
  mk_service demo_connection (mk_command_state ∅ demo_db) (rpc_server_new 0 no_sockets demo_raft).

(** Six bytes have arrived, and the array held the text "s". *)
Lemma client_text_never_served_witness :
  handle_request demo_leftovers (fun _ => 0) (fun _ => mret tt) false demo_parse [Byte.x73; Byte.x00] (mk_log 0 0) demo_service =
    serve_text demo_leftovers (fun _ => 0) (fun _ => mret tt) false demo_parse (mk_log 0 0) [Byte.x73] demo_service.
Proof.
  rewrite (client_text_never_served demo_leftovers (fun _ => 0) (fun _ => mret tt) false demo_parse [Byte.x73; Byte.x00] (mk_log 0 0) demo_service
    (demo_text ++ replicate 10 Byte.x00)); [reflexivity|split; cbn; (done || lia)|
    change (Forall (fun c => byte_to_Z c <> 0) demo_text); repeat (apply Forall_cons_2; [vm_compute; discriminate|]); apply Forall_nil_2|unfold REQUEST_SIZE; cbn; lia].
Defined.

(** The server is never up: start_server throws when the directory of the databases
    cannot be entered or the first server cannot listen, is undefined on its unset locals,
    and with any values in them hangs in the constructor of the raft server, before a
    callback for clients is installed. *)
Theorem start_server_outcome {U D} `{Unix U} `{Shell D} pool (u : U) buf scratch r0 a0 sock bound listening read_log file port id (w : world D) :
  start_server pool u buf scratch r0 a0 sock bound listening read_log file port id w =
    let '(r, d) := chdir DB_BASE_DIR (w_dirs w) in
    if r <? 0 then Exc std_exception (mk_world d (w_s1 w) (w_s2 w))
    else
      match server_start sock bound listening (w_s1 w) with
      | Ret _ _ => if port is Some _ then if id is Some _ then Blocked else Undef uninitialised_read else Undef uninitialised_read
      | Exc e s => Exc e (mk_world d s (w_s2 w))
      | Undef x => Undef x
      | Blocked => Blocked
      end.
Proof.
  unfold start_server. unfold mbind at 1, M_bind at 1, new_alphadb, alphadb_new. destruct (chdir DB_BASE_DIR (w_dirs w)) as [r d].
  destruct (r <? 0); [done|]. unfold mbind at 1, M_bind at 1, in_s1 at 1, zoom at 1. cbn [w_s1].
  destruct (server_start sock bound listening (w_s1 w)) as [[] s1| | |]; try done.
  destruct port as [p|]; [|done]. destruct id as [i|]; [|done]. set (w1 := mk_world d s1 (w_s2 w)).
  rewrite (bind_ret _ _ _ p w1), (bind_ret _ _ _ i w1) by done.
  unfold mbind at 1, M_bind at 1, in_w2 at 1, zoom at 1. by rewrite raft_never_constructed.
Qed.

(** The client gets no further than its first command: the child process ends
    properly exactly when the first word is "quit", and then it has sent nothing; with any
    other word, or no input at all, it never gets past the first command, which sends
    through the pointer c that only the parent process sets. *)
Theorem child_only_quits column_destroy lexer_fails yyparse words t :
  match words with
  | w :: _ => if String.eqb w "quit" then
        start_child column_destroy lexer_fails yyparse words t =
          Ret tt (mk_terminal (((tm_out t +:+ ("Hello world!" +:+ newline)) +:+ ">") +:+ ("See you!" +:+ newline)) (tm_pipe t) (tm_heap t))
      else post (start_child column_destroy lexer_fails yyparse words) (fun _ _ => False) t
  | [] => post (start_child column_destroy lexer_fails yyparse words) (fun _ _ => False) t
  end.
Proof.
  assert (forall i s, post (child_step column_destroy lexer_fails yyparse i) (fun _ _ => False) s) as Hstep.
  { intros i s. unfold child_step. apply post_bind. unfold post at 1. destruct (zoom tm_heap _ _ s) as [ok s1| | |]; try done.
    apply post_bind. unfold post at 1. by destruct ok. }
  assert (forall (k : M terminal unit) i s, post (_ ← (_ ← child_step column_destroy lexer_fails yyparse i; k); tm_print ("See you!" +:+ newline)) (fun _ _ => False) s) as Hend.
  { intros k i s. apply post_bind, post_bind. eapply post_mono; [apply Hstep|done]. }
  destruct words as [|w words]; [|destruct (String.eqb w "quit") eqn:Ew].
  - unfold start_child. apply post_bind, post_modify. cbn [child_loop]. apply Hend.
  - unfold start_child. cbn [child_loop]. rewrite Ew. done.
  - unfold start_child. apply post_bind, post_modify. cbn [child_loop]. rewrite Ew. apply Hend.
Qed.

(** The mode main chooses: an argument of the process and a literal of the program are
    different objects, so the server is never started. *)
Theorem main_never_serves argc argv1 literal : argv1 <> literal -> main argc argv1 literal <> RunServer.
Proof. intros Hne. unfold main. repeat case_match; try done. apply Z.eqb_eq in H1. done. Qed.

(** What the parent forwards: nothing for an empty read, everything for a successful one;
    a failed read, whose -1 is not tested for, is undefined. *)
Theorem forward_input_outcome buff size c :
  size <= Z.of_nat (length buff) ->
  forward_input buff size c =
    if size =? 0 then Ret tt c
    else if size <? 0 then Undef out_of_bounds
    else conn_send (take (Z.to_nat size) buff) c.
Proof.
  intros Hs. unfold forward_input. destruct (Z.eqb_spec size 0); [done|]. destruct (Z.ltb_spec size 0).
  - by rewrite (proj2 (Z.leb_gt 0 size)).
  - rewrite (proj2 (Z.leb_le 0 size)), (proj2 (Z.leb_le size _)) by lia. cbn [andb].
    unfold conn_send, send_bytes, in_write_buf, in_output, zoom, mbind, M_bind. cbn.
    destruct (in_out (put_block (take (Z.to_nat size) buff)) (cn_output c)); try done.
Qed.
