(* ===== verification/Durability.v ===== *)
(** Closing a file and opening it again: io_manager::close_file and open_file
    (src/io/io_manager.cc) around the paged files of file_handle.cc.  The abstract file
    of FileHandle.v survives, as long as no free slot of the pool carries its descriptor,
    which is so until the file was closed once under that descriptor. *)
From S2P Require Import Prelude HashTable Unix BufferManager FileHandle Storage.

(** A client closes its file, opens it again under the same name and goes on. *)
Definition reopen {U} `{Unix U} (h garbage : file_handle) (name : string) : M (buffer_manager U) file_handle :=
  _ ← with_handle h close_file; open_file garbage name.

Section reopening.
Context {U : Type} `{UnixNameLaws U, !UnixLaws U}.
Implicit Types (h : file_handle) (b : buffer_manager U) (m : gmap (Z * Z) Z).

(** The file of [h] is open under [name] and [N] are the other open files; every slot
    belongs to an open file, and no free slot carries the descriptor of this one. *)
Record open_as (N : gmap Z string) (name : string) h b : Prop := {
  oa_saved : header_saved h b;
  oa_pool : 0 <= pool_size_ b;
  oa_free : free_without (fd_ h) 0 b;
  oa_names : names b = <[fd_ h := name]> N;
  oa_new : N !! fd_ h = None;
  oa_once : forall fd, N !! fd <> Some name;
  oa_fds : forall f, f ∈ fds b -> f = fd_ h \/ is_Some (N !! f);
}.

(** open_file of a closed file finds its header and its pages. *)
Lemma wp_open_pages N name garbage h b m b0 m0 a (Q : file_handle -> buffer_manager U -> Prop) E :
  file_abs h b0 m0 a -> (forall fd, N !! fd <> Some name) ->
  io_ok b m -> names b = N -> closed_pages name (header_ h) (fun p => view b0 m0 (fd_ h, p)) (bm_sys b) ->
  (forall h' u, 0 <= fd_ h' < OPEN_MAX -> file_abs h' (set_sys u b) m a -> header_saved h' (set_sys u b) ->
     u_names u = <[fd_ h' := name]> N -> N !! fd_ h' = None -> Q h' (set_sys u b)) ->
  (forall x b', x = unix_error \/ x = incomplete_header_read_error -> E x b') ->
  wp (open_file garbage name) Q E b.
Proof.
  intros FA Hname I HN (bs & Hfile & Hhd & Hpg) HQ HE. pose proof (fa_ok _ _ _ _ FA) as F.
  eapply wp_open_file; [done|by rewrite HN|done| |done]. intros fd u Hfd Hnew Hs Hn Hb.
  assert (decode_header bs = header_ h) as Hdec by (rewrite (decode_header_block _ _ Hhd); by eapply file_header_decode).
  assert (io_ok (set_sys u b) m) as I1.
  { apply io_ok_sys; [done..|]. intros f Hf. rewrite Hn, lookup_insert. by case_decide. }
  assert (forall p, m !! (fd, p) = None) as Hm.
  { intros p. destruct (m !! (fd, p)) eqn:Hm; [|done]. apply (io_keys _ _ I) in Hm. cbn in Hm. rewrite Hnew in Hm. by destruct Hm. }
  assert (forall p d, 0 <= p -> view b0 m0 (fd_ h, p) = Some d -> view (set_sys u b) m (fd, p) = Some d) as Hv.
  { intros p d Hp Hd. unfold view. rewrite Hm. cbn. unfold disk_page. cbn. rewrite Hb, (io_size _ _ I). by apply Hpg. }
  rewrite Hdec. destruct (fo_bound _ _ _ _ F). apply HQ; cbn; [done| | |by rewrite Hn, HN|by rewrite <-HN].
  - split; [|apply FA|].
    + split; try apply I1; try done; cbn; try (unfold OPEN_MAX, INT_MAX in *; lia); try apply F.
      * intros p s. by rewrite Hm.
      * intros p Hp. destruct (fo_pages _ _ _ _ F p Hp) as (d & Hd & Hl). exists d. split; [|done]. apply Hv; [lia|done].
    + intros p d Hd. destruct (fa_data _ _ _ _ FA _ _ Hd) as (Hp & full & Hf & Hdr). split; [done|]. exists full. split; [|done].
      apply Hv; [lia|done].
  - intros _. cbn. by rewrite Hb.
Qed.

(** What closing and opening may throw: a system call failed, or a page of the file is
    pinned. *)
Definition reopen_error h b (x : exn) : Prop := flush_error h b x \/ x = incomplete_header_read_error.

Lemma wp_reopen N name garbage h b m a (Q : file_handle -> buffer_manager U -> Prop) E :
  file_abs h b m a -> open_as N name h b ->
  (forall h' b' m', 0 <= fd_ h' < OPEN_MAX -> file_abs h' b' m' a -> header_saved h' b' ->
     names b' = <[fd_ h' := name]> N -> N !! fd_ h' = None -> pins b' = pins b -> Q h' b') ->
  (forall x b', reopen_error h b x -> E x b') ->
  wp (reopen h garbage name) Q E b.
Proof.
  intros FA [O1 O2 O3 O4 O5 O6 O7] HQ HE. unfold reopen. wp_steps. apply wp_with_handle.
  apply (wp_close_file N name h b m (af_free a)); try done; [apply FA| |].
  2:{ intros x s' Hx. apply HE. by left. }
  intros h1 b1 m1 I1 Hn1 Hp1 Hc1. cbn.
  apply (wp_open_pages N name garbage h b1 m1 b m a); try done.
  2:{ intros x b' [-> | ->]; apply HE; [left; left; by left|by right]. }
  intros h' u Hfd FA' Hs' Hn' Hnew'. by apply (HQ h' _ m1).
Qed.
End reopening.

(** What a client may do after reopening: the sizes of its writes, for any descriptor *)
Definition reopened_op_ok (o : file_op) : Prop :=
  match o with
  | FWrite p d => length d = payload_size /\ 0 <= p <= INT_MAX - OPEN_MAX
  | _ => True
  end.

(** * Property *)

(** C6. Durability.  A file whose abstract file (pages, stack of free pages, payloads)
    is [a] is closed and opened again under its name.  Unless a system call fails or a page
    of the file is pinned, both return, and every later history of allocate, get, write,
    unpin and dispose answers as on [a].  It is required ([open_as]) that the name is open
    once, that the header in the file is the one of the handle unless it is marked changed,
    that every slot of the pool carries the descriptor of an open file, and that no free slot
    carries the descriptor of this one: closing leaves such slots, so this is not about the
    second time a file is closed under the same descriptor, which reflush_aliases_pages
    shows to go wrong. *)
Theorem reopened_file_refines {U} `{UnixNameLaws U, !UnixLaws U} (N : gmap Z string) (name : string) (garbage h : file_handle)
    (b : buffer_manager U) (m : gmap (Z * Z) Z) (a : afile) (n : Z) (os : list file_op) :
  file_abs h b m a -> open_as N name h b -> 0 < n -> n + Z.of_nat (length os) <= INT_MAX -> pins_le n b ->
  (af_num a + Z.of_nat (length os)) * 4096 <= INT_MAX -> Forall reopened_op_ok os ->
  wp (h' ← reopen h garbage name; with_handle h' (run_file_ops os))
    (fun r b' => exists m' a', spec_file_ops os a r.1 a' /\ file_abs r.2 b' m' a')
    (fun x _ => reopen_error h b x) b.
Proof.
  intros FA O Hn Hlen Hp Hsz Hos. wp_steps. eapply wp_reopen; [done..| |done].
  intros h' b' m' Hfd FA' _ _ _ Hpi. apply wp_with_handle.
  assert (Forall (file_op_ok (fd_ h')) os) as Hos'.
  { eapply Forall_impl; [exact Hos|]. intros [] Ho; try done. destruct Ho. split; [done|]. unfold OPEN_MAX in *. lia. }
  eapply wp_mono; [apply (run_file_ops_spec os h' b' m' a n); try done; [by eapply pins_pins_le|unfold OPEN_MAX, INT_MAX in *; lia]|cbn|].
  - intros rs s' (m2 & a2 & Hs & FA2). by exists m2, a2.
  - intros x s' [Hx _]. left. by left.
Qed.

(** A file with one page of sevens, open under the descriptor 3 beside the terminal *)
Definition seven_payload : list byte := replicate payload_size Byte.x07.
Definition seven_fs : MemFs :=
  mk_MemFs {[ "tty" := []; "f" := (header_bytes (mk_file_header (-1) 1) ++ replicate 4088 Byte.x00) ++ page_image seven_payload ]}
    {[ 0 := ("tty", 0%nat); 3 := ("f", 8%nat) ]}.
Definition seven_bm : buffer_manager MemFs := io_manager_new demo_entry seven_fs.
Definition seven_handle : file_handle := mk_file_handle 3 (mk_file_header (-1) 1) true true false.
Definition seven_file : afile := mk_afile 1 [] {[ 0 := seven_payload ]}.

Lemma seven_separate : u_separate seven_fs.
Proof.
  split; cbn.
  - intros fd1 fd2 n o1 o2 H1 H2. apply lookup_insert_Some in H1 as [[<- E1]|[_ H1]]; apply lookup_insert_Some in H2 as [[<- E2]|[_ H2]];
      repeat match goal with H : {[ _ := _ ]} !! _ = Some _ |- _ => apply lookup_singleton_Some in H as [<- ?] end; congruence.
  - intros fd n o H1. apply lookup_insert_Some in H1 as [[<- E1]|[_ [<- E1]%lookup_singleton_Some]]; injection E1 as <- _; by eexists.
Qed.

Lemma seven_view : view seven_bm ∅ (3, 0) = Some (page_image seven_payload).
Proof. vm_compute. reflexivity. Qed.

Lemma seven_ok : file_abs seven_handle seven_bm ∅ seven_file /\ pins_le 1 seven_bm.
Proof.
  destruct (buffer_manager_new_coherent POOL_SIZE BUFFER_SIZE demo_entry 1 seven_fs) as [CO Hp];
    [done|intros i; unfold fits, INT_MAX; cbn; lia|apply seven_separate|].
  split; [|done]. split; [split; cbn; try (done || (unfold INT_MAX; lia))|done|].
  - split; [apply NoDup_nil_2|]. by intros p ?%not_elem_of_nil.
  - intros p Hpp. assert (p = 0) as -> by lia. exists (page_image seven_payload). split; [apply seven_view|].
    apply (bytes_int_bytes PAGE_USED). unfold PAGE_USED, INT_MIN, INT_MAX. lia.
  - intros p d Hd. unfold seven_file in Hd. cbn in Hd. apply lookup_singleton_Some in Hd as [<- <-]. split; [cbn; lia|]. exists (page_image seven_payload). split; [apply seven_view|done].
Qed.

Lemma seven_open : open_as {[ 0 := "tty"%string ]} "f" seven_handle seven_bm.
Proof.
  split; try done.
  - intros s e _ _ [_ He]%pool_at_nat. cbn in He. apply list_lookup_fmap_Some in He as (i & -> & _). done.
  - intros fd [_ Hx]%lookup_singleton_Some. done.
  - intros f (e & -> & He)%list_elem_of_fmap. apply list_elem_of_fmap in He as (i & -> & _). right. by exists "tty"%string.
Qed.

Lemma reopened_file_refines_witness :
  wp (h' ← reopen seven_handle seven_handle "f"; with_handle h' (run_file_ops [FGet 0; FGet 1; FAlloc]))
    (fun r b' => exists m' a', spec_file_ops [FGet 0; FGet 1; FAlloc] seven_file r.1 a' /\ file_abs r.2 b' m' a') (fun x _ => reopen_error seven_handle seven_bm x) seven_bm /\
  match (h' ← reopen seven_handle seven_handle "f"; with_handle h' (run_file_ops [FGet 0; FGet 1; FAlloc])) seven_bm with
  | Ret (rs, _) _ => rs = [inl (RData seven_payload); inr invalid_page_exception; inl (RPage 1)]
  | _ => False
  end.
Proof.
  split; [|vm_compute; reflexivity].
  apply (reopened_file_refines {[ 0 := "tty"%string ]} "f" seven_handle seven_handle seven_bm ∅ seven_file 1);
    [apply seven_ok|apply seven_open|lia|unfold INT_MAX; cbn; lia|apply seven_ok|unfold INT_MAX; cbn; lia|repeat constructor].
Defined.
