(* ===== verification/Cluster.v ===== *)
(** Several raft servers that call each other: the servers of Raft.v, the timers and
    outstanding calls each keeps, and a network that delays, reorders and loses messages.
    What travels is given by a [transport], so that the theorems hold for every encoding. *)
From S2P Require Import Prelude Raft RaftState.

(** * State *)

(** A server that waits for a mutex it holds, or ran into undefined behaviour, takes no
    further step. *)
Inductive status := Up (s : raft_server) | Hung | Crashed.

(** The timers that wait (id, whether it repeats, callback) and the calls whose reply is
    expected (futures_ of the connections) *)
Record member := mk_member { mb_status : status; mb_timers : list (Z * bool * callback); mb_calls : list Z }.

(** A call carries the caller, the callee and its id; a reply goes back under that id. *)
Inductive message :=
| VoteCall (from to : nat) (rpc : Z) (args : request_vote_args)
| VoteReply (to : nat) (rpc : Z) (reply : request_vote_reply)
| AppendCall (from to : nat) (rpc : Z) (args : append_entries_args)
| AppendReply (to : nat) (rpc : Z) (reply : append_entries_reply).

(** [grants] is the history of granted votes: server and candidate. *)
Record cluster := mk_cluster { members : list member; soup : list message; grants : list (nat * Z) }.

Definition set_members (ms : list member) (c : cluster) := mk_cluster ms (soup c) (grants c).
Definition set_soup (l : list message) (c : cluster) := mk_cluster (members c) l (grants c).

(** What the codec makes of a message, and the reply objects before a handler runs; the
    id that the continuation of a call reads comes from the wire too. *)
Record transport := mk_transport {
  tr_vote : request_vote_args -> request_vote_args;
  tr_vote_reply : request_vote_reply -> Z * request_vote_reply;
  tr_append : append_entries_args -> append_entries_args;
  tr_append_reply : append_entries_reply -> Z * append_entries_reply;
  blank_vote : request_vote_reply;
  blank_append : append_entries_reply;
}.

Section steps.
(** The transport, the server at the other end of a connection, and fs >> entry of the
    state files *)
Context (tr : transport) (links : Z -> option nat) (read_log : M stream log).

(** * Steps *)

(** ** The calls a server makes *)

Definition callee (s : raft_server) (peer : Z) : option nat :=
  if peer <? 0 then None else peers_ s !! Z.to_nat peer ≫= links.

Definition post_to (dest : option nat) (mk : nat -> message) (l : list message) : list message :=
  if dest is Some to then l ++ [mk to] else l.

(** One action of the server [n]: a timer set or cancelled, or a call to a peer *)
Definition perform (n : nat) (s : raft_server) (a : action) (w : member * list message) : member * list message :=
  let '(m, net) := w in
  match a with
  | act_cancel t => (mk_member (mb_status m) (filter (fun x => x.1.1 <> t) (mb_timers m)) (mb_calls m), net)
  | act_run_after t _ cb => (mk_member (mb_status m) (mb_timers m ++ [(t, false, cb)]) (mb_calls m), net)
  | act_run_every t _ _ cb => (mk_member (mb_status m) (mb_timers m ++ [(t, true, cb)]) (mb_calls m), net)
  | act_call_vote peer rpc args =>
      (mk_member (mb_status m) (mb_timers m) (mb_calls m ++ [rpc]), post_to (callee s peer) (fun to => VoteCall n to rpc args) net)
  | act_call_append peer rpc args =>
      (mk_member (mb_status m) (mb_timers m) (mb_calls m ++ [rpc]), post_to (callee s peer) (fun to => AppendCall n to rpc args) net)
  end.

Definition perform_all (n : nat) (s : raft_server) (out : list action) (w : member * list message) : member * list message :=
  foldr (perform n s) w out.

(** The actions of a run are the ones recorded since it began. *)
Definition silenced (s : raft_server) : raft_server := with_env (rs_ids s) (rs_random s) [] s.

(** Code of server [n]: its result, if the server is up and the code returns *)
Definition run_on {A} (n : nat) (x : R A) (c : cluster) : option A * cluster :=
  match members c !! n with
  | Some m =>
      match mb_status m with
      | Up s =>
          let stop st := set_members (<[n := mk_member st (mb_timers m) (mb_calls m)]> (members c)) c in
          match x (silenced s) with
          | Ret r s' =>
              let '(m', net) := perform_all n s' (rs_out s') (mk_member (Up s') (mb_timers m) (mb_calls m), soup c) in
              (Some r, mk_cluster (<[n := m']> (members c)) net (grants c))
          | Blocked => (None, stop Hung)
          | Exc _ _ | Undef _ => (None, stop Crashed)
          end
      | _ => (None, c)
      end
  | None => (None, c)
  end.

(** ** Messages *)

(** The continuation of a call, unless the call was cancelled or answered *)
Definition take_call (n : nat) (rpc : Z) (c : cluster) : bool * cluster :=
  match members c !! n with
  | Some m =>
      if decide (rpc ∈ mb_calls m) then
        (true, set_members (<[n := mk_member (mb_status m) (mb_timers m) (filter (fun i => i <> rpc) (mb_calls m))]> (members c)) c)
      else (false, c)
  | None => (false, c)
  end.

Definition deliver (m : message) (c : cluster) : cluster :=
  match m with
  | VoteCall from to rpc args =>
      match run_on to (request_vote (tr_vote tr args) (blank_vote tr)) c with
      | (Some r, c) =>
          mk_cluster (members c) (soup c ++ [VoteReply from rpc r])
            (if rvr_vote_granted r then (to, rv_candidate_id (tr_vote tr args)) :: grants c else grants c)
      | (None, c) => c
      end
  | VoteReply to rpc r =>
      let '(expected, c) := take_call to rpc c in
      if (expected : bool) then
        let '(i, r) := tr_vote_reply tr r in (run_on to (receive_request_vote_reply i r) c).2
      else c
  | AppendCall from to rpc args =>
      match run_on to (append_entries (tr_append tr args) (blank_append tr)) c with
      | (Some r, c) => set_soup (soup c ++ [AppendReply from rpc r]) c
      | (None, c) => c
      end
  | AppendReply to rpc r =>
      let '(expected, c) := take_call to rpc c in
      if (expected : bool) then
        let '(i, r) := tr_append_reply tr r in (run_on to (receive_append_entries_reply i r) c).2
      else c
  end.

(** ** Timers *)

Definition cancel_calls (n : nat) (rpcs : list Z) (c : cluster) : cluster :=
  match members c !! n with
  | Some m => set_members (<[n := mk_member (mb_status m) (mb_timers m) (filter (fun i => i ∉ rpcs) (mb_calls m))]> (members c)) c
  | None => c
  end.

Definition run_callback (n : nat) (cb : callback) (c : cluster) : cluster :=
  match cb with
  | cb_send_request_vote => (run_on n send_request_vote_args c).2
  | cb_election_retry rpcs => (run_on n (election_retry rpcs) (cancel_calls n rpcs c)).2
  | cb_heartbeat => (run_on n (send_append_entries_args true) c).2
  | cb_cancel_rpcs rpcs => cancel_calls n rpcs c
  end.

(** Timer [i] of server [n] fires; one that does not repeat is gone. *)
Definition fire (n i : nat) (c : cluster) : cluster :=
  match members c !! n with
  | Some m =>
      match mb_timers m !! i with
      | Some (_, rep, cb) =>
          run_callback n cb
            (if (rep : bool) then c
             else set_members (<[n := mk_member (mb_status m) (delete i (mb_timers m)) (mb_calls m)]> (members c)) c)
      | None => c
      end
  | None => c
  end.

(** * Histories *)

(** What can happen next: a message arrives or is lost, a timer fires, a client asks for
    an entry, a server starts with the state file it finds, a connection is added *)
Inductive choice :=
| Arrive (i : nat)
| Lose (i : nat)
| Fire (n i : nat)
| Ask (n : nat) (apply_func : log -> bool) (entry : log)
| Start (n : nat) (file : list Z)
| Connect (n : nat) (conn : Z).

Definition cluster_step (ch : choice) (c : cluster) : cluster :=
  match ch with
  | Arrive i => match soup c !! i with Some m => deliver m (set_soup (delete i (soup c)) c) | None => c end
  | Lose i => set_soup (delete i (soup c)) c
  | Fire n i => fire n i c
  | Ask n f e => (run_on n (replicate_entry f e) c).2
  | Start n file => (run_on n (raft_start read_log file) c).2
  | Connect n conn => (run_on n (add_peer conn) c).2
  end.

Definition run_cluster (chs : list choice) (c : cluster) : cluster := foldl (fun c ch => cluster_step ch c) c chs.
End steps.

(** * Lemmas *)

(** What holds of every server that is up *)
Definition all_up (P : nat -> raft_server -> Prop) (c : cluster) : Prop :=
  forall n m s, members c !! n = Some m -> mb_status m = Up s -> P n s.

Lemma all_up_mono (P Q : nat -> raft_server -> Prop) c : all_up P c -> (forall n s, P n s -> Q n s) -> all_up Q c.
Proof. intros HP HPQ n m s Hn Hs. eapply HPQ, HP; done. Qed.

(** Replacing a member by one with the same status *)
Lemma all_up_same P c n m st ts cs :
  members c !! n = Some m -> mb_status m = st -> all_up P c -> all_up P (set_members (<[n := mk_member st ts cs]> (members c)) c).
Proof.
  intros Hn Hst HP n' m' s Hn' Hs. cbn in Hn'. apply list_lookup_insert_Some in Hn' as [(<- & <- & _)|[_ Hn']].
  - eapply (HP n m); [done|]. cbn in Hs. congruence.
  - by eapply HP.
Qed.

Lemma perform_status links n s a w : mb_status (perform links n s a w).1 = mb_status w.1.
Proof. destruct w as [m net]. by destruct a. Qed.

Lemma perform_all_status links n s out w : mb_status (perform_all links n s out w).1 = mb_status w.1.
Proof. induction out as [|a out IH]; [done|]. cbn. by rewrite perform_status. Qed.

Section running.
Context (links : Z -> option nat).
Implicit Types c : cluster.

(** Running code of one server: the others stay, and it ends as the code says. *)
Lemma run_on_up {A} (P : nat -> raft_server -> Prop) (Q : A -> raft_server -> Prop) n (x : R A) c :
  all_up P c -> (forall s, P n s -> post x Q (silenced s)) ->
  grants (run_on links n x c).2 = grants c /\ length (members (run_on links n x c).2) = length (members c) /\
  (forall r, (run_on links n x c).1 = Some r -> (n < length (members c))%nat /\ exists s, Q r s) /\
  all_up (fun n' s => match (run_on links n x c).1 with
                      | Some r => if decide (n' = n) then Q r s else P n' s
                      | None => P n' s
                      end) (run_on links n x c).2.
Proof.
  intros HP Hx. unfold run_on. destruct (members c !! n) as [m|] eqn:Hn; [|done].
  pose proof (lookup_lt_Some _ _ _ Hn) as Hlt.
  destruct (mb_status m) as [s| |] eqn:Hs; [|done..]. specialize (Hx s (HP n m s Hn Hs)). unfold post in Hx.
  assert (forall st, (forall s, st <> Up s) -> all_up P (set_members (<[n := mk_member st (mb_timers m) (mb_calls m)]> (members c)) c)) as Hstop.
  { intros st Hst n' m' s' Hn' Hs'. apply list_lookup_insert_Some in Hn' as [(_ & <- & _)|[_ Hn']]; [by apply Hst in Hs'|by eapply HP]. }
  destruct (x (silenced s)) as [r s'| | |]; cbn; try (split_and!; [done|by rewrite length_insert|done|by apply Hstop]).
  destruct (perform_all links n s' (rs_out s') _) as [m' net] eqn:E. cbn. split_and!; [done|by rewrite length_insert|intros ? [= <-]; eauto|].
  intros n' m1 s1 Hn' Hs1. cbn in Hn'. apply list_lookup_insert_Some in Hn' as [(<- & <- & _)|[Hne Hn']].
  - pose proof (perform_all_status links n s' (rs_out s') (mk_member (Up s') (mb_timers m) (mb_calls m), soup c)) as Hst.
    rewrite E in Hst. cbn in Hst. rewrite decide_True by done. congruence.
  - rewrite decide_False by done. by eapply HP.
Qed.

(** Code that keeps a property of every server *)
Lemma run_on_keeps {A} (P : nat -> raft_server -> Prop) n (x : R A) c :
  all_up P c -> (forall s, P n s -> post x (fun _ => P n) (silenced s)) -> all_up P (run_on links n x c).2.
Proof.
  intros HP Hx. destruct (run_on_up P (fun _ => P n) n x c HP Hx) as (_ & _ & _ & Hu). eapply all_up_mono; [exact Hu|].
  intros n' s. cbn. destruct (run_on links n x c).1; [|done]. by destruct (decide (n' = n)) as [->|].
Qed.
End running.

(** ** The votes *)

(** Code that changes nothing about the vote *)
Definition vote_kept {A} (x : R A) : Prop := forall s, mutex_ s = false -> post x (fun _ s' => vote_state s' = vote_state s) s.

Lemma vote_kept_keeps {A} (x : R A) : keeps vote_state x -> vote_kept x.
Proof. intros Hk s _. by apply (post_keeps vote_state). Qed.

Lemma vote_kept_event {A} (x : R A) ev :
  (forall a r, ev <> EvRequestVote a r) -> run_event ev = (_ ← x; mret None) -> vote_kept x.
Proof.
  intros Hev Hx s Hm. pose proof (run_event_vote_step ev s Hm) as Hs. rewrite Hx in Hs.
  unfold post, mbind, M_bind in *. destruct (x s) as [a s'| | |]; [|done..]. cbn in Hs. unfold vote_step in Hs.
  destruct Hs as (H1 & H2 & H3 & H4). unfold vote_state. rewrite H1, H2, H3, Hm.
  assert (voted_for_ s' = voted_for_ s) as -> by (destruct ev; try done; by edestruct Hev). done.
Qed.

Create HintDb cluster.

Lemma kept_vote_reply i r : vote_kept (receive_request_vote_reply i r).
Proof. by apply (vote_kept_event _ (EvVoteReply i r)). Qed.
Lemma kept_append_reply i r : vote_kept (receive_append_entries_reply i r).
Proof. by apply (vote_kept_event _ (EvAppendReply i r)). Qed.
Lemma kept_append args r : vote_kept (append_entries args r).
Proof. apply vote_kept_keeps, keeps_append_entries. Qed.
Lemma kept_send_vote : vote_kept send_request_vote_args.
Proof. apply vote_kept_keeps, keeps_send_request_vote_args. Qed.
Lemma kept_retry rpcs : vote_kept (election_retry rpcs).
Proof. apply vote_kept_keeps, keeps_election_retry. Qed.
Lemma kept_send_append h : vote_kept (send_append_entries_args h).
Proof. apply vote_kept_keeps, keeps_send_append_entries_args. Qed.
Lemma kept_replicate f e : vote_kept (replicate_entry f e).
Proof. apply vote_kept_keeps, keeps_replicate. Qed.
Lemma kept_add_peer conn : vote_kept (add_peer conn).
Proof. apply vote_kept_keeps, keeps_add_peer. Qed.
#[local] Hint Resolve kept_vote_reply kept_append_reply kept_append kept_send_vote kept_retry kept_send_append
  kept_replicate kept_add_peer : cluster.

(** The vote of every server that is up is the one in the history. *)
Definition vote_recorded (g : list (nat * Z)) (n : nat) (s : raft_server) : Prop :=
  mutex_ s = false /\ forall k, candidate_id k -> (n, k) ∈ g -> holds_vote s k.

Record votes_ok (c : cluster) : Prop := {
  vo_up : all_up (vote_recorded (grants c)) c;
  vo_one n k1 k2 : candidate_id k1 -> candidate_id k2 -> (n, k1) ∈ grants c -> (n, k2) ∈ grants c -> k1 = k2;
  vo_lt n k : (n, k) ∈ grants c -> (n < length (members c))%nat;
}.

Lemma vote_kept_recorded {A} (x : R A) g n s : vote_kept x -> vote_recorded g n s -> post x (fun _ => vote_recorded g n) (silenced s).
Proof.
  intros Hx [Hm Hv]. eapply post_mono; [by apply Hx|]. intros _ s' [= Hm' Hr Ht Hf]. cbn in *.
  split; [congruence|]. intros k Hk Hin. specialize (Hv k Hk Hin). unfold holds_vote in *. by rewrite Hf.
Qed.

Lemma votes_ok_run {A} links n (x : R A) c : vote_kept x -> votes_ok c -> votes_ok (run_on links n x c).2.
Proof.
  intros Hx [H1 H2 H3]. destruct (run_on_up links _ (fun _ => vote_recorded (grants c) n) n x c H1) as (Hg & Hl & _ & _).
  { intros s. by apply vote_kept_recorded. }
  split; rewrite ?Hg, ?Hl; [|done..]. apply run_on_keeps; [done|]. intros s. by apply vote_kept_recorded.
Qed.

Lemma votes_ok_members c n m st ts cs :
  members c !! n = Some m -> mb_status m = st -> votes_ok c -> votes_ok (set_members (<[n := mk_member st ts cs]> (members c)) c).
Proof. intros Hn Hs [H1 H2 H3]. split; cbn; [by eapply all_up_same|done|]. rewrite length_insert. done. Qed.

Lemma votes_ok_soup c l : votes_ok c -> votes_ok (set_soup l c).
Proof. by intros [H1 H2 H3]. Qed.

Lemma votes_ok_take_call n rpc c : votes_ok c -> votes_ok (take_call n rpc c).2.
Proof. intros OK. unfold take_call. destruct (members c !! n) as [m|] eqn:Hn; [|done]. case_decide; [|done]. by eapply votes_ok_members. Qed.

Lemma votes_ok_cancel n rpcs c : votes_ok c -> votes_ok (cancel_calls n rpcs c).
Proof. intros OK. unfold cancel_calls. destruct (members c !! n) as [m|] eqn:Hn; [|done]. by eapply votes_ok_members. Qed.
#[local] Hint Resolve votes_ok_run votes_ok_soup votes_ok_take_call votes_ok_cancel : cluster.

(** A granted vote goes to a candidate the server has not voted against. *)
Lemma grant_recorded g n s args reply :
  vote_recorded g n s ->
  post (request_vote args reply) (fun r s' =>
    vote_recorded (if rvr_vote_granted r then (n, rv_candidate_id args) :: g else g) n s' /\
    (rvr_vote_granted r = true -> forall k, candidate_id k -> candidate_id (rv_candidate_id args) -> (n, k) ∈ g -> k = rv_candidate_id args)) (silenced s).
Proof.
  intros [Hm Hv]. pose proof (run_event_vote_step (EvRequestVote args reply) (silenced s) Hm) as Hs. cbn [run_event] in Hs.
  unfold post, mbind, M_bind in *. destruct (request_vote args reply (silenced s)) as [[t gr] s'| | |]; [|done..]. cbn in *.
  destruct Hs as (Hm' & _ & _ & Hs). destruct gr.
  - destruct Hs as (_ & Hmay & Hf). unfold may_vote in Hmay. cbn in Hmay.
    assert (forall k, candidate_id k -> (n, k) ∈ g -> k = rv_candidate_id args) as Hold.
    { intros k Hk Hin. destruct (Hv k Hk Hin) as [Hne Hu]. destruct (Z.eqb_spec (voted_for_ s) (-1)); [done|]. cbn in Hmay.
      apply Z.eqb_eq in Hmay. congruence. }
    split; [split; [done|]|by intros; apply Hold]. intros k Hk [[= ->]|Hin]%elem_of_cons; unfold holds_vote; rewrite Hf.
    + by apply vote_of_candidate.
    + rewrite <-(Hold k Hk Hin). by apply vote_of_candidate.
  - split; [|done]. split; [done|]. intros k Hk Hin. unfold holds_vote. rewrite Hs. by apply Hv.
Qed.

(** Steps that start no server *)
Definition is_start (ch : choice) : bool := if ch is Start _ _ then true else false.

Section vote_invariant.
Context (tr : transport) (links : Z -> option nat) (read_log : M stream log).

Lemma votes_ok_deliver m c : votes_ok c -> votes_ok (deliver tr links m c).
Proof.
  intros OK. destruct m as [from to rpc args|to rpc r|from to rpc args|to rpc r]; cbn [deliver].
  - destruct OK as [H1 H2 H3]. pose proof (run_on_up links _ _ to (request_vote (tr_vote tr args) (blank_vote tr)) c H1
      (fun s => grant_recorded (grants c) to s (tr_vote tr args) (blank_vote tr))) as (Hg & Hl & Hlt & Hu).
    destruct (run_on links to _ c) as [[[t gr]|] c1]; cbn in *; [|by split; rewrite ?Hg, ?Hl].
    assert (forall n s, (if decide (n = to) then
        vote_recorded (if gr then (to, rv_candidate_id (tr_vote tr args)) :: grants c else grants c) to s /\
        (gr = true -> forall k, candidate_id k -> candidate_id (rv_candidate_id (tr_vote tr args)) -> (to, k) ∈ grants c -> k = rv_candidate_id (tr_vote tr args))
      else vote_recorded (grants c) n s) ->
      vote_recorded (if gr then (to, rv_candidate_id (tr_vote tr args)) :: grants c else grants c) n s) as Hrec.
    { intros n s Hs. destruct (decide (n = to)) as [->|Hne]; [apply Hs|]. destruct gr; [|done]. destruct Hs as [Hm Hv]. split; [done|].
      intros k Hk [[= -> ->]|Hin]%elem_of_cons; [done|]. by apply Hv. }
    destruct (Hlt _ eq_refl) as (Hto & s1 & _ & Hsame). cbn in Hsame. rewrite Hg. split; cbn.
    + eapply all_up_mono; [exact Hu|]. apply Hrec.
    + destruct gr; [|done]. intros n k1 k2 Hk1 Hk2 [E1|Hi1]%elem_of_cons [E2|Hi2]%elem_of_cons; simplify_eq; eauto.
      symmetry. by apply Hsame.
    + rewrite Hl. destruct gr; [|done]. intros n k [[= -> _]|Hin]%elem_of_cons; [done|]. by eapply H3.
  - destruct (take_call to rpc c) as [b c1] eqn:E. assert (votes_ok c1) by (change c1 with (b, c1).2; rewrite <-E; auto with cluster).
    destruct b, (tr_vote_reply tr r); auto with cluster.
  - pose proof (votes_ok_run links to _ c (kept_append (tr_append tr args) (blank_append tr)) OK) as Hr.
    destruct (run_on links to _ c) as [[a|] c1]; auto with cluster.
  - destruct (take_call to rpc c) as [b c1] eqn:E. assert (votes_ok c1) by (change c1 with (b, c1).2; rewrite <-E; auto with cluster).
    destruct b, (tr_append_reply tr r); auto with cluster.
Qed.

Lemma votes_ok_fire n i c : votes_ok c -> votes_ok (fire links n i c).
Proof.
  intros OK. unfold fire. destruct (members c !! n) as [m|] eqn:Hn; [|done]. destruct (mb_timers m !! i) as [[[t rep] cb]|]; [|done].
  set (c1 := if rep then c else _). assert (votes_ok c1) by (unfold c1; destruct rep; [done|by eapply votes_ok_members]).
  destruct cb; cbn; auto with cluster.
Qed.

Lemma votes_ok_step ch c : is_start ch = false -> votes_ok c -> votes_ok (cluster_step tr links read_log ch c).
Proof.
  intros Hch OK. destruct ch; cbn [cluster_step]; try done; auto using votes_ok_fire with cluster.
  destruct (soup c !! i); [|done]. auto using votes_ok_deliver with cluster.
Qed.

Lemma votes_ok_run_cluster chs c :
  Forall (fun ch => is_start ch = false) chs -> votes_ok c -> votes_ok (run_cluster tr links read_log chs c).
Proof. intros Hchs. revert c. induction Hchs as [|ch chs Hch _ IH]; intros c OK; [done|]. cbn. by apply IH, votes_ok_step. Qed.
End vote_invariant.

(** The servers that granted their vote to a candidate *)
Definition voters (k : Z) (c : cluster) : gset nat := list_to_set ((filter (fun x => x.2 = k) (grants c)).*1).

Lemma elem_of_voters k c n : n ∈ voters k c <-> (n, k) ∈ grants c.
Proof.
  unfold voters. rewrite elem_of_list_to_set, list_elem_of_fmap. split.
  - intros ([n' k'] & -> & [Hk Hin]%list_elem_of_filter). cbn in Hk. by subst.
  - intros Hin. exists (n, k). split; [done|]. by apply list_elem_of_filter.
Qed.

(** ** Replication *)

Definition calls_append (a : action) : bool := if a is act_call_append _ _ _ then true else false.
Definition is_append (m : message) : Prop := if m is AppendCall _ _ _ _ then True else False.

(** What replication would change: the log, how much of it is committed and applied, and
    the calls of append_entries *)
Definition log_state (s : raft_server) : list log * Z * Z := (log_entries_ s, commit_index_ s, last_applied_ s).
Definition repl_state (s : raft_server) : bool * role * Z * (list log * Z * Z) * bool :=
  (mutex_ s, role_ s, current_term_ s, log_state s, existsb calls_append (rs_out s)).

Lemma repl_locked {A} (m : R A) : keeps repl_state m -> keeps repl_state (locked m).
Proof.
  intros Hm s. destruct (mutex_ s) eqn:Hs; [by rewrite locked_held|]. rewrite locked_free by done.
  specialize (Hm (with_mutex true s)). unfold repl_state, log_state in *.
  destruct (m (with_mutex true s)); cbn in *; congruence.
Qed.

Lemma repl_emit a : calls_append a = false -> keeps repl_state (emit a).
Proof. intros Ha. unfold emit. apply keeps_modify. intros s. unfold repl_state. cbn. by rewrite Ha. Qed.
Lemma repl_fresh_id : keeps repl_state fresh_id.
Proof. unfold fresh_id. keeps. Qed.
Lemma repl_timeout : keeps repl_state get_election_timeout.
Proof. unfold get_election_timeout. keeps. Qed.
Lemma repl_back : keeps repl_state back.
Proof. unfold back. keeps. Qed.
#[local] Hint Resolve repl_fresh_id repl_timeout repl_back : keeps.
Lemma repl_run_after d cb : keeps repl_state (run_after d cb).
Proof. unfold run_after. keeps; by apply repl_emit. Qed.
#[local] Hint Resolve repl_run_after : keeps.
Lemma keeps_ret_bind {S A B X} (f : S -> X) (a : A) (k : A -> M S B) : keeps f (k a) -> keeps f (mret a ≫= k).
Proof. done. Qed.
Lemma repl_call_vote args ps i : keeps repl_state (call_peers ps (fun i => mret (fun rpc => act_call_vote i rpc args)) i).
Proof.
  revert i. induction ps as [|p ps IH]; intros i; cbn; [keeps|]. apply keeps_ret_bind. keeps; by apply repl_emit.
Qed.
#[local] Hint Resolve repl_call_vote : keeps.

(** Code that replicates nothing on a server that is not the leader *)
Definition repl_kept {A} (x : R A) : Prop :=
  forall s, mutex_ s = false -> role_ s <> leader -> post x (fun _ s' => repl_state s' = repl_state s) s.

Lemma repl_kept_keeps {A} (x : R A) : keeps repl_state x -> repl_kept x.
Proof. intros Hk s _ _. by apply (post_keeps repl_state). Qed.

Lemma repl_send_vote : keeps repl_state send_request_vote_args.
Proof. unfold send_request_vote_args. apply repl_locked. keeps. Qed.
Lemma idle_send_vote : repl_kept send_request_vote_args.
Proof. apply repl_kept_keeps, repl_send_vote. Qed.
Lemma idle_retry rpcs : repl_kept (election_retry rpcs).
Proof. apply repl_kept_keeps. unfold election_retry. apply repl_locked. pose proof repl_send_vote. keeps; auto. Qed.
Lemma idle_add_peer conn : repl_kept (add_peer conn).
Proof. apply repl_kept_keeps. unfold add_peer. apply repl_locked. keeps. Qed.

(** A handler that returns at once on a server that is not the leader *)
Lemma idle_leader_only {A} (a : A) (m : raft_server -> R A) (x : R A) :
  x = locked (s ← gets (fun s => s); if negb (bool_decide (role_ s = leader)) then mret a else m s) -> repl_kept x.
Proof.
  intros -> s Hm Hr. apply post_locked; [done|]. apply post_bind, post_gets.
  rewrite (bool_decide_eq_false_2 (role_ (with_mutex true s) = leader)) by done. cbn.
  unfold post, mret, M_ret, repl_state, log_state. cbn. by rewrite Hm.
Qed.

Lemma idle_send_append h : repl_kept (send_append_entries_args h).
Proof. by eapply (idle_leader_only tt). Qed.
Lemma idle_append_reply i r : repl_kept (receive_append_entries_reply i r).
Proof. by eapply (idle_leader_only tt). Qed.

Lemma idle_replicate f e : repl_kept (replicate_entry f e).
Proof.
  intros s Hm Hr. unfold replicate_entry. apply post_bind, post_locked; [done|]. apply post_bind, post_gets.
  cbn [id]. rewrite (bool_decide_eq_false_2 (role_ (with_mutex true s) = leader)) by done. cbn.
  unfold post, mret, M_ret, repl_state, log_state. cbn. by rewrite Hm.
Qed.

Lemma idle_vote args reply : repl_kept (request_vote args reply).
Proof.
  intros s Hm _. unfold post. rewrite request_vote_eq by done.
  destruct (_ <? _); [done|]. destruct (_ <? _); [done|]. destruct (may_vote _ _); [|done].
  destruct (last _) as [b|]; [|done]. by destruct (log_matches b args).
Qed.

Lemma idle_vote_reply i r : repl_kept (receive_request_vote_reply i r).
Proof.
  intros s Hm _. unfold receive_request_vote_reply. apply post_locked; [done|]. apply post_bind, post_gets.
  assert (repl_state (with_mutex false (with_mutex true s)) = repl_state s) as Hs by (unfold repl_state, log_state; cbn; by rewrite Hm).
  destruct (negb _); [done|]. apply post_when_convert; [done|]. intros _. apply post_bind, post_gets.
  destruct (_ && _); [|done]. apply post_bind, post_int_of, post_bind, post_modify, post_bind.
  unfold post at 1, majority. by rewrite locked_held.
Qed.
#[local] Hint Resolve idle_send_vote idle_retry idle_add_peer idle_send_append idle_append_reply
  idle_replicate idle_vote idle_vote_reply : cluster.

(** Calls of append_entries in the soup come from actions. *)
Lemma perform_all_soup links n s out m net :
  existsb calls_append out = false -> Forall (fun x => ~ is_append x) net ->
  Forall (fun x => ~ is_append x) (perform_all links n s out (m, net)).2.
Proof.
  intros Ho Hnet. induction out as [|a out IH]; [done|]. cbn in Ho. apply orb_false_iff in Ho as [Ha Ho]. specialize (IH Ho).
  change (perform_all links n s (a :: out) (m, net)) with (perform links n s a (perform_all links n s out (m, net))).
  destruct (perform_all links n s out (m, net)) as [m1 net1]. destruct a; [exact IH..| |done].
  cbn. unfold post_to. destruct (callee links s peer); [|done]. apply Forall_app. split; [done|]. apply Forall_singleton. by intros [].
Qed.

(** Between the start and now nothing was replicated. *)
Definition unchanged (s0 s : raft_server) : Prop :=
  role_ s = role_ s0 /\ current_term_ s = current_term_ s0 /\ log_state s = log_state s0.
Definition idle_server (c0 : cluster) (n : nat) (s : raft_server) : Prop :=
  mutex_ s = false /\ role_ s <> leader /\
  exists m0 s0, members c0 !! n = Some m0 /\ mb_status m0 = Up s0 /\ unchanged s0 s.

Definition idle (c0 c : cluster) : Prop := all_up (idle_server c0) c /\ Forall (fun x => ~ is_append x) (soup c).

Lemma repl_kept_idle {A} (x : R A) c0 n s :
  repl_kept x -> idle_server c0 n s -> post x (fun _ s' => idle_server c0 n s' /\ existsb calls_append (rs_out s') = false) (silenced s).
Proof.
  intros Hx (Hm & Hr & m0 & s0 & Hn & H0 & H1 & H2 & H3). eapply post_mono; [by apply Hx|]. intros a s' E. cbn in E.
  assert (mutex_ s' = mutex_ s /\ role_ s' = role_ s /\ current_term_ s' = current_term_ s /\ log_state s' = log_state s /\
    existsb calls_append (rs_out s') = false) as (Em & Er & Et & El & Eo) by (unfold repl_state, log_state in *; cbn in E; split_and!; congruence).
  split; [|done]. unfold idle_server, unchanged. rewrite Em, Er, Et.
  split_and!; [done|done|]. exists m0, s0. split_and!; try done. by rewrite El.
Qed.

Section replication.
Context (tr : transport) (links : Z -> option nat) (read_log : M stream log) (c0 : cluster).

Lemma idle_run {A} n (x : R A) c : repl_kept x -> idle c0 c -> idle c0 (run_on links n x c).2.
Proof.
  intros Hx [Hu Hs]. split.
  - apply run_on_keeps; [done|]. intros s Hi. eapply post_mono; [by apply repl_kept_idle|]. by intros ? ? [? _].
  - unfold run_on. destruct (members c !! n) as [m|] eqn:Hn; [|done]. destruct (mb_status m) as [s| |] eqn:Hst; [|done..].
    pose proof (repl_kept_idle x c0 n s Hx (Hu n m s Hn Hst)) as Hp. unfold post in Hp.
    destruct (x (silenced s)) as [r s'| | |]; [|done..]. destruct Hp as [_ Ho].
    pose proof (perform_all_soup links n s' (rs_out s') (mk_member (Up s') (mb_timers m) (mb_calls m)) (soup c) Ho Hs) as Hp.
    by destruct (perform_all links n s' _ _).
Qed.

Lemma idle_members c n m st ts cs :
  members c !! n = Some m -> mb_status m = st -> idle c0 c -> idle c0 (set_members (<[n := mk_member st ts cs]> (members c)) c).
Proof. intros Hn Hs [Hu Hl]. split; [by eapply all_up_same|done]. Qed.

Lemma idle_take_call n rpc c : idle c0 c -> idle c0 (take_call n rpc c).2.
Proof. intros OK. unfold take_call. destruct (members c !! n) as [m|] eqn:Hn; [|done]. case_decide; [|done]. by eapply idle_members. Qed.

Lemma idle_cancel n rpcs c : idle c0 c -> idle c0 (cancel_calls n rpcs c).
Proof. intros OK. unfold cancel_calls. destruct (members c !! n) as [m|] eqn:Hn; [|done]. by eapply idle_members. Qed.

Lemma idle_send c l : idle c0 c -> Forall (fun x => ~ is_append x) l -> idle c0 (set_soup l c).
Proof. by intros [Hu _]. Qed.
#[local] Hint Resolve idle_run idle_take_call idle_cancel : cluster.

Lemma idle_deliver m c : ~ is_append m -> idle c0 c -> idle c0 (deliver tr links m c).
Proof.
  intros Hm OK. destruct m as [from to rpc args|to rpc r|from to rpc args|to rpc r]; cbn [deliver]; [| |done|].
  - pose proof (idle_run to _ c (idle_vote (tr_vote tr args) (blank_vote tr)) OK) as [Hu Hs].
    destruct (run_on links to _ c) as [[a|] c1]; [|done]. split; [exact Hu|]. cbn in *. apply Forall_app. split; [done|]. apply Forall_singleton. by intros [].
  - destruct (take_call to rpc c) as [b c1] eqn:E. assert (idle c0 c1) by (change c1 with (b, c1).2; rewrite <-E; auto with cluster).
    destruct b, (tr_vote_reply tr r); auto with cluster.
  - destruct (take_call to rpc c) as [b c1] eqn:E. assert (idle c0 c1) by (change c1 with (b, c1).2; rewrite <-E; auto with cluster).
    destruct b, (tr_append_reply tr r); auto with cluster.
Qed.

Lemma idle_fire n i c : idle c0 c -> idle c0 (fire links n i c).
Proof.
  intros OK. unfold fire. destruct (members c !! n) as [m|] eqn:Hn; [|done]. destruct (mb_timers m !! i) as [[[t rep] cb]|]; [|done].
  set (c1 := if rep then c else _). assert (idle c0 c1) by (unfold c1; destruct rep; [done|by eapply idle_members]).
  destruct cb; cbn; auto with cluster.
Qed.

Lemma idle_step ch c : is_start ch = false -> idle c0 c -> idle c0 (cluster_step tr links read_log ch c).
Proof.
  intros Hch OK. assert (forall i, Forall (fun x => ~ is_append x) (delete i (soup c))) as Hd by (intros i; apply Forall_delete, OK).
  destruct ch; cbn [cluster_step]; try done; auto using idle_fire, idle_send with cluster.
  destruct (soup c !! i) as [m|] eqn:Hi; [|done]. apply idle_deliver; [|by apply idle_send].
  destruct OK as [_ Hs]. by apply (Forall_lookup_1 _ _ _ _ Hs Hi).
Qed.

Lemma idle_run_cluster chs c :
  Forall (fun ch => is_start ch = false) chs -> idle c0 c -> idle c0 (run_cluster tr links read_log chs c).
Proof. intros Hchs. revert c. induction Hchs as [|ch chs Hch _ IH]; intros c OK; [done|]. cbn. by apply IH, idle_step. Qed.
End replication.

(** ** Servers that stopped *)

(** Every server is still there, and one that stopped stays as it is. *)
Definition advances (c c' : cluster) : Prop :=
  length (members c') = length (members c) /\
  forall n m, members c !! n = Some m -> (forall s, mb_status m <> Up s) ->
    exists m', members c' !! n = Some m' /\ mb_status m' = mb_status m.

#[local] Instance advances_preorder : PreOrder advances.
Proof.
  split; [split; [done|]; eauto|]. intros c1 c2 c3 [L1 H1] [L2 H2]. split; [congruence|]. intros n m Hn Hm.
  destruct (H1 n m Hn Hm) as (m2 & Hn2 & E2). destruct (H2 n m2 Hn2) as (m3 & Hn3 & E3); [by rewrite E2|]. exists m3. split; congruence.
Qed.

Lemma advances_insert c n m m1 net g :
  members c !! n = Some m -> (forall s, mb_status m <> Up s) -> mb_status m1 = mb_status m ->
  advances c (mk_cluster (<[n := m1]> (members c)) net g).
Proof.
  intros Hn Hm E. split; cbn; [by rewrite length_insert|]. intros n' m' Hn' Hm'. destruct (decide (n' = n)) as [->|Hne].
  - exists m1. rewrite list_lookup_insert_eq by by eapply lookup_lt_Some. split; [done|]. congruence.
  - exists m'. by rewrite list_lookup_insert_ne.
Qed.

Lemma advances_insert_up c n m m1 s net g :
  members c !! n = Some m -> mb_status m = Up s -> advances c (mk_cluster (<[n := m1]> (members c)) net g).
Proof.
  intros Hn Hm. split; cbn; [by rewrite length_insert|]. intros n' m' Hn' Hm'.
  destruct (decide (n' = n)) as [->|Hne]; [simplify_eq; by apply Hm' in Hm|]. exists m'. by rewrite list_lookup_insert_ne.
Qed.

Lemma advances_members c n m ts cs : members c !! n = Some m -> advances c (set_members (<[n := mk_member (mb_status m) ts cs]> (members c)) c).
Proof.
  intros Hn. destruct (mb_status m) eqn:E; [by eapply advances_insert_up|eapply advances_insert..]; try done; cbn; congruence.
Qed.

Section stopping.
Context (tr : transport) (links : Z -> option nat) (read_log : M stream log).

Lemma advances_run {A} n (x : R A) c : advances c (run_on links n x c).2.
Proof.
  unfold run_on. destruct (members c !! n) as [m|] eqn:Hn; [|done]. destruct (mb_status m) as [s| |] eqn:Hs; [|done..].
  destruct (x (silenced s)); try by eapply advances_insert_up. destruct (perform_all _ _ _ _ _). by eapply advances_insert_up.
Qed.

Lemma advances_take_call n rpc c : advances c (take_call n rpc c).2.
Proof. unfold take_call. destruct (members c !! n) as [m|] eqn:Hn; [|done]. case_decide; [by apply advances_members|done]. Qed.

Lemma advances_cancel n rpcs c : advances c (cancel_calls n rpcs c).
Proof. unfold cancel_calls. destruct (members c !! n) as [m|] eqn:Hn; [by apply advances_members|done]. Qed.

Lemma advances_deliver m c : advances c (deliver tr links m c).
Proof.
  destruct m as [from to rpc args|to rpc r|from to rpc args|to rpc r]; cbn [deliver].
  - pose proof (advances_run to (request_vote (tr_vote tr args) (blank_vote tr)) c) as H.
    by destruct (run_on links to _ c) as [[a|] c1].
  - pose proof (advances_take_call to rpc c) as H. destruct (take_call to rpc c) as [[] c1], (tr_vote_reply tr r); [|done].
    etrans; [exact H|apply advances_run].
  - pose proof (advances_run to (append_entries (tr_append tr args) (blank_append tr)) c) as H.
    by destruct (run_on links to _ c) as [[a|] c1].
  - pose proof (advances_take_call to rpc c) as H. destruct (take_call to rpc c) as [[] c1], (tr_append_reply tr r); [|done].
    etrans; [exact H|apply advances_run].
Qed.

Lemma advances_fire n i c : advances c (fire links n i c).
Proof.
  unfold fire. destruct (members c !! n) as [m|] eqn:Hn; [|done]. destruct (mb_timers m !! i) as [[[t rep] cb]|]; [|done].
  set (c1 := if rep then c else _). assert (advances c c1) as H by (unfold c1; destruct rep; [done|by apply advances_members]).
  etrans; [exact H|]. destruct cb; cbn; try apply advances_run; [|apply advances_cancel].
  etrans; [apply advances_cancel|apply advances_run].
Qed.

Lemma advances_step ch c : advances c (cluster_step tr links read_log ch c).
Proof.
  destruct ch; cbn [cluster_step]; try apply advances_run; [|exact (reflexivity (R := advances) c)|apply advances_fire].
  destruct (soup c !! i) as [m|]; [|done]. exact (advances_deliver m (set_soup (delete i (soup c)) c)).
Qed.

Lemma advances_run_cluster chs c : advances c (run_cluster tr links read_log chs c).
Proof. revert c. induction chs as [|ch chs IH]; intros c; [done|]. cbn. etrans; [apply advances_step|apply IH]. Qed.
End stopping.

(** ** Starting *)

(** The servers of a cluster before any of them started, and while they start: no vote is
    granted, no call of append_entries is on its way, nobody is leader. *)
Record fresh (c : cluster) : Prop := {
  fr_up : all_up (fun _ s => mutex_ s = false /\ role_ s <> leader) c;
  fr_soup : Forall (fun m => ~ is_append m) (soup c);
  fr_grants : grants c = [];
}.

Lemma raft_start_post read_log file s :
  mutex_ s = false ->
  post (raft_start read_log file) (fun _ s' => mutex_ s' = false /\ role_ s' = role_ s /\
    existsb calls_append (rs_out s') = existsb calls_append (rs_out s)) s.
Proof.
  intros Hm. unfold raft_start. apply post_bind. unfold post at 1, read_state_from_disk.
  destruct (read_fields read_log _) as [[[t v] es] st| | |]; [|done..]. rewrite locked_free by done. cbn.
  set (s1 := with_mutex _ _). assert (keeps repl_state reschedule_election) as Hk by (unfold reschedule_election; keeps).
  eapply post_mono; [by apply (post_keeps repl_state)|]. cbn. unfold repl_state. intros _ s' E.
  assert (mutex_ s' = mutex_ s1 /\ role_ s' = role_ s1 /\ existsb calls_append (rs_out s') = existsb calls_append (rs_out s1)) as (-> & -> & ->)
    by (split_and!; congruence). done.
Qed.

Lemma fresh_start tr links read_log ch c : is_start ch = true -> fresh c -> fresh (cluster_step tr links read_log ch c).
Proof.
  destruct ch; try done. intros _ [Hu Hs Hg]. cbn [cluster_step].
  pose proof (run_on_keeps links (fun _ s => mutex_ s = false /\ role_ s <> leader) n (raft_start read_log file) c Hu) as Hk.
  split; [apply Hk| |].
  - intros s [Hm Hr]. eapply post_mono; [by apply (raft_start_post read_log file (silenced s))|]. cbn.
    intros _ s' (Hm' & -> & _). by split.
  - unfold run_on. destruct (members c !! n) as [m|] eqn:Hn; [|done]. destruct (mb_status m) as [s| |] eqn:Hst; [|done..].
    pose proof (raft_start_post read_log file (silenced s) (proj1 (Hu n m s Hn Hst))) as Hp. unfold post in Hp.
    destruct (raft_start read_log file (silenced s)) as [r s'| | |]; [|done..]. destruct Hp as (_ & _ & Ho).
    pose proof (perform_all_soup links n s' (rs_out s') (mk_member (Up s') (mb_timers m) (mb_calls m)) (soup c) Ho Hs) as Hp.
    by destruct (perform_all links n s' _ _).
  - destruct (run_on_up links _ (fun _ _ => True) n (raft_start read_log file) c Hu) as (-> & _); [|done].
    intros s _. unfold post. by destruct (raft_start read_log file (silenced s)).
Qed.

Lemma fresh_starts tr links read_log starts c :
  Forall (fun ch => is_start ch = true) starts -> fresh c -> fresh (run_cluster tr links read_log starts c).
Proof. intros Hs. revert c. induction Hs as [|ch chs Hch _ IH]; intros c OK; [done|]. cbn. by apply IH, fresh_start. Qed.

Lemma fresh_votes c : fresh c -> votes_ok c.
Proof.
  intros [Hu _ Hg]. split; rewrite Hg; [|by intros * _ _ ?%elem_of_nil..|by intros * ?%elem_of_nil].
  eapply all_up_mono; [exact Hu|]. intros n s [Hs _]. split; [done|]. by intros * _ ?%elem_of_nil.
Qed.

Lemma fresh_idle c : fresh c -> idle c c.
Proof.
  intros [Hu Hs _]. split; [|done]. intros n m s Hn Hst. destruct (Hu n m s Hn Hst). unfold idle_server, unchanged. eauto 10.
Qed.

(** * Properties *)

(** C22. Election safety of the cluster.  The servers start, each with whatever state file
    it finds, before anything else happens, and none is started again.  Then, whatever the
    transport makes of the messages, and in whatever order they arrive, are lost and timers
    fire: the servers that granted their vote to one candidate and to another (with ids
    other than 0xffffffff, which a server records as no vote) are different servers, so
    the two sets together are no larger than the cluster and at most one candidate can
    have the votes of more than half of it. *)
Theorem cluster_vote_safety tr links read_log starts chs c0 k1 k2 :
  fresh c0 -> Forall (fun ch => is_start ch = true) starts -> Forall (fun ch => is_start ch = false) chs ->
  candidate_id k1 -> candidate_id k2 -> k1 <> k2 ->
  let c := run_cluster tr links read_log (starts ++ chs) c0 in
  voters k1 c ## voters k2 c /\ (size (voters k1 c) + size (voters k2 c) <= length (members c0))%nat.
Proof.
  intros Hf Hst Hchs Hk1 Hk2 Hne c.
  assert (votes_ok c) as [_ Hone Hlt].
  { unfold c, run_cluster. rewrite foldl_app. by apply votes_ok_run_cluster, fresh_votes, fresh_starts. }
  assert (voters k1 c ## voters k2 c) as Hd.
  { intros n Hn1%elem_of_voters Hn2%elem_of_voters. by eapply Hne, Hone. }
  split; [done|]. rewrite <-size_union by done.
  destruct (advances_run_cluster tr links read_log (starts ++ chs) c0) as [Hlen _]. fold c in Hlen. rewrite <-Hlen.
  rewrite <-(length_seq (length (members c)) 0), <-(size_list_to_set (C := gset nat)) by apply NoDup_seq. apply subseteq_size.
  intros n. rewrite elem_of_union, !elem_of_voters, elem_of_list_to_set, elem_of_seq. intros [Hn|Hn]; apply Hlt in Hn; lia.
Qed.

(** Three servers with one entry, whose ids and connections are their numbers *)
Definition faithful : transport :=
  mk_transport id (fun r => (0, r)) id (fun r => (0, r)) (mk_request_vote_reply 0 false) (mk_append_entries_reply 0 false).
Definition by_number (conn : Z) : option nat := Some (Z.to_nat conn).
Definition voter (i t : Z) (peers : list Z) : member :=
  mk_member (Up (mk_raft_server false 0 0 0 i follower 0 t (-1) [mk_log 0 1] 0 0 [] [] peers 0 (fun _ => 150) [])) [] [].
Definition three_servers : cluster := mk_cluster [voter 0 0 [1; 2]; voter 1 0 [0; 2]; voter 2 0 [0; 1]] [] [].

(** An entry of the state files: the index, then the term *)
Definition two_ints : M stream log :=
  i ← read_int (Some 0); t ← read_int (Some 0); mret (mk_log (default 0 i) (default 0 t)).
(** "1 -1 1 0 1 ": term 1, no vote, the entry of index 0 and term 1 *)
Definition demo_file : list Z := [49; 32; 45; 49; 32; 49; 32; 48; 32; 49; 32].
Definition demo_starts : list choice := [Start 0 demo_file; Start 1 demo_file; Start 2 demo_file].

(** Servers 0 and 1 both stand for election; their calls arrive, then a reply. *)
Definition two_elections : list choice :=
  [Fire 0 0; Fire 1 0; Arrive 0; Arrive 0; Arrive 0; Arrive 0; Arrive 0; Lose 0].

Lemma fresh_three : fresh three_servers.
Proof.
  split; [|by apply Forall_nil_2|done]. intros [|[|[|n]]] m s Hn Hs; cbn in Hn; simplify_eq; cbn in Hs; by simplify_eq.
Qed.

Lemma cluster_vote_safety_witness :
  let c := run_cluster faithful by_number two_ints (demo_starts ++ two_elections) three_servers in
  voters 0 c = {[1%nat; 2%nat]} /\ voters 1 c = {[0%nat]} /\ voters 0 c ## voters 1 c.
Proof.
  intros c. split; [vm_compute; reflexivity|]. split; [vm_compute; reflexivity|].
  apply (cluster_vote_safety faithful by_number two_ints demo_starts two_elections three_servers 0 1);
    [apply fresh_three|repeat constructor..|unfold candidate_id; lia|unfold candidate_id; lia|done].
Defined.

(** start() of a server that already answered requests reads its vote from the state file:
    it votes for two candidates of one term. *)
Theorem restart_votes_twice :
  let call k := VoteCall 0 2 1 (mk_request_vote_args 1 k 0 1) in
  let c := run_cluster faithful by_number two_ints [Start 2 demo_file; Arrive 0; Start 2 demo_file; Arrive 0]
    (mk_cluster (members three_servers) [call 0; call 1] []) in
  grants c = [(2%nat, 1); (2%nat, 0)].
Proof. vm_compute. reflexivity. Qed.

(** C23. The cluster replicates nothing.  The servers start, each with whatever state file
    it finds, before anything else happens, and none is started again; at the beginning no
    server is leader and no call of append_entries is on its way.  Then in every history
    every server that is up has the role, the term, the log and the commit and apply
    positions it had when all had started, and no server accepts an entry from a client. *)
Theorem cluster_never_replicates tr links read_log starts chs c0 :
  fresh c0 -> Forall (fun ch => is_start ch = true) starts -> Forall (fun ch => is_start ch = false) chs ->
  let c1 := run_cluster tr links read_log starts c0 in
  let c := run_cluster tr links read_log (starts ++ chs) c0 in
  all_up (fun n s => exists m1 s1, members c1 !! n = Some m1 /\ mb_status m1 = Up s1 /\ unchanged s1 s) c /\
  forall n f e, (run_on links n (replicate_entry f e) c).1 <> Some true.
Proof.
  intros Hf Hst Hchs c1 c. assert (idle c1 c) as [Hi _].
  { unfold c, run_cluster. rewrite foldl_app. by apply idle_run_cluster, fresh_idle, fresh_starts. }
  split.
  - eapply all_up_mono; [exact Hi|]. by intros n s (_ & _ & ?).
  - intros n f e Ht. destruct (run_on_up links _ (fun r _ => r = false) n (replicate_entry f e) c Hi) as (_ & _ & Hr & _).
    + intros s (Hm & Hl & _). unfold replicate_entry. apply post_bind, post_locked; [done|]. apply post_bind, post_gets.
      cbn [id]. by rewrite (bool_decide_eq_false_2 (role_ (with_mutex true (silenced s)) = leader)).
    + by destruct (Hr true Ht) as (_ & s & ?).
Qed.

Lemma cluster_never_replicates_witness :
  let c1 := run_cluster faithful by_number two_ints demo_starts three_servers in
  let c := run_cluster faithful by_number two_ints (demo_starts ++ two_elections) three_servers in
  all_up (fun n s => exists m1 s1, members c1 !! n = Some m1 /\ mb_status m1 = Up s1 /\ unchanged s1 s) c /\
  (run_on by_number 0 (replicate_entry (fun _ => true) (mk_log 1 1)) c).1 = Some false.
Proof.
  intros c1 c. split; [|vm_compute; reflexivity].
  apply (cluster_never_replicates faithful by_number two_ints demo_starts two_elections three_servers);
    [apply fresh_three|repeat constructor..].
Defined.



